(** * Living tree showcase: a shallow embedding of [living_tree_showcase.js]

    The script keeps its whole simulation in module-level variables and
    mutates them from one animation-frame callback and a handful of event
    handlers.  This file embeds the core of that program: the seeded branch
    generator, the growth integrator, the life-stage machine, the saw
    (pruning) interaction, the sapling cycle and the tree walk of the
    renderer.

    Modelling conventions.
    - A JavaScript number is a real number: [+ - * /] are exact, [Math.sin],
      [Math.cos] and [Math.sqrt] are the real functions, NaN and infinities do
      not occur.  Integer-valued counters are [nat] or [Z].  Statements
      that hold of the real numbers only up to the end of a range or up to
      convergence are checked against the rounding of the script in the
      module [Binary64], on primitive binary64 numbers.
    - [Math.random()] reads the next element of a stream held in the state;
      the stream is arbitrary, so the draws made by the decorative layers
      (sky, clouds, birds, fireflies), which are not embedded, need no
      bookkeeping.
    - Every branch object gets a reference [br_ref] when it is created.  The
      fields that are written after creation ([pruned], [regrowAt],
      [fruits]) live in a heap indexed by that reference; the other fields
      are never assigned again and are kept in the tree value itself.
    - Canvas output of the tree walk is a log of path commands; fill and
      stroke styles are left out. *)

From Stdlib Require Import Reals Lra Lia List ZArith Bool Arith.
From Stdlib Require Import RelationClasses.
From Stdlib Require Floats.PrimFloat.
Import ListNotations.
Open Scope R_scope.

(** ** Numeric helpers of the script *)

Definition clamp (value min max : R) : R := Rmin max (Rmax min value).

Definition easeOutCubic (t : R) : R := 1 - (1 - t) ^ 3.

Definition seededRandom (seed : R) : R := (sin (seed * 9341.13) + 1) / 2.

Definition Math_floor (x : R) : Z := Int_part x.

Definition Math_hypot (x y : R) : R := sqrt (x * x + y * y).

(** ** CONFIG *)

Record Config := {
  maxDepth : nat;
  growthDelayPerLevel : R;
  baseGrowthSpeed : R;
  pulseBoost : R;
  sawRadius : R;
  sawCooldown : R;
  fruitDepthStart : nat;
  saplingMin : Z;
  saplingMax : Z
}.

Definition CONFIG : Config := {|
  maxDepth := 7;
  growthDelayPerLevel := 0.11;
  baseGrowthSpeed := 0.00022;
  pulseBoost := 0.04;
  sawRadius := 28;
  sawCooldown := 140;
  fruitDepthStart := 4;
  saplingMin := 2;
  saplingMax := 4
|}.

(** ** Data model *)

Inductive Stage :=
  seed | sprout | young | mature | fruit | decline | seedFall | rebirth.

Definition Stage_eq_dec (a b : Stage) : {a = b} + {a <> b}.
Proof. decide equality. Defined.

Record Color := { col_r : R; col_g : R; col_b : R }.

(** The part of a branch object that is fixed once [createBranch] returns. *)
#[warnings="-register-all"]
Inductive Branch := mkBranch {
  br_ref : nat;
  br_id : nat;
  br_depth : nat;
  br_length : R;
  br_angle : R;
  br_seed : R;
  br_children : list Branch;
  br_swayPhase : R;
  br_baseWidth : R;
  br_color : Color;
  br_pruneLength : R
}.

Record Fruit := {
  offset : R;
  angleOffset : R;
  ripeness : R;
  counted : bool
}.

(** The part of a branch object that is assigned after creation. *)
Record BranchCell := {
  pruned : bool;
  regrowAt : R;
  fruits : option (list Fruit)
}.

Definition newCell : BranchCell :=
  {| pruned := false; regrowAt := 0; fruits := None |}.

Record Segment := {
  seg_branch : Branch;
  x1 : R;
  y1 : R;
  x2 : R;
  y2 : R
}.

Record Sapling := {
  sap_x : R;
  sap_y : R;
  sap_growth : R;
  sap_phase : R;
  sap_sway : R
}.

Record Particle := {
  p_x : R;
  p_y : R;
  p_vx : R;
  p_vy : R;
  p_life : R
}.

Record TrailPoint := { tr_x : R; tr_y : R; tr_life : R }.

Record Point := { pt_x : R; pt_y : R }.

Inductive HintText :=
  | hintStage (s : Stage)
  | hintSawActive
  | hintWatered
  | hintBranchCut.

Inductive DrawCmd :=
  | StrokeLine (ax ay bx by_ lineWidth : R)
  | FillArc (cx cy radius : R)
  | FillEllipse (cx cy rx ry rotation : R).

(** ** Program state

    The script's [let] variables, grouped; [Host] holds what the script gets
    from its environment (object store, random stream, canvas, hint
    element). *)

Record Scene := {
  width : R;
  height : R;
  tree : option Branch;
  branchIdCounter : nat;
  branchSegments : list Segment;
  saplings : list Sapling;
  sawdust : list Particle;
  sawTrail : list TrailPoint
}.

Record Climate := {
  growth : R;
  targetGrowth : R;
  hydration : R;
  wind : R;
  windTarget : R;
  season : R;
  simulatedAge : R
}.

Record Life := {
  lifeStage : Stage;
  stageTimer : R;
  regenCountdown : R;
  fruitsRipened : Z
}.

Record Clock := { lastTime : R; deltaMs : R; fps : R }.

Record SawState := { active : bool; saw_x : R; saw_y : R; lastCut : R }.

Record Host := {
  heap : nat -> BranchCell;
  nextRef : nat;
  rng : nat -> R;
  rngPos : nat;
  canvas : list DrawCmd;
  hint : HintText
}.

Record State := {
  scene : Scene;
  climate : Climate;
  life : Life;
  clock : Clock;
  sawState : SawState;
  host : Host
}.

(** Field updates. *)

Definition on_scene (f : Scene -> Scene) (s : State) : State :=
  {| scene := f (scene s); climate := climate s; life := life s;
     clock := clock s; sawState := sawState s; host := host s |}.

Definition on_climate (f : Climate -> Climate) (s : State) : State :=
  {| scene := scene s; climate := f (climate s); life := life s;
     clock := clock s; sawState := sawState s; host := host s |}.

Definition on_life (f : Life -> Life) (s : State) : State :=
  {| scene := scene s; climate := climate s; life := f (life s);
     clock := clock s; sawState := sawState s; host := host s |}.

Definition on_clock (f : Clock -> Clock) (s : State) : State :=
  {| scene := scene s; climate := climate s; life := life s;
     clock := f (clock s); sawState := sawState s; host := host s |}.

Definition on_saw (f : SawState -> SawState) (s : State) : State :=
  {| scene := scene s; climate := climate s; life := life s;
     clock := clock s; sawState := f (sawState s); host := host s |}.

Definition on_host (f : Host -> Host) (s : State) : State :=
  {| scene := scene s; climate := climate s; life := life s;
     clock := clock s; sawState := sawState s; host := f (host s) |}.

Definition set_tree (t : option Branch) (c : Scene) : Scene :=
  {| width := width c; height := height c; tree := t;
     branchIdCounter := branchIdCounter c;
     branchSegments := branchSegments c; saplings := saplings c;
     sawdust := sawdust c; sawTrail := sawTrail c |}.

Definition set_branchIdCounter (n : nat) (c : Scene) : Scene :=
  {| width := width c; height := height c; tree := tree c;
     branchIdCounter := n;
     branchSegments := branchSegments c; saplings := saplings c;
     sawdust := sawdust c; sawTrail := sawTrail c |}.

Definition set_branchSegments (l : list Segment) (c : Scene) : Scene :=
  {| width := width c; height := height c; tree := tree c;
     branchIdCounter := branchIdCounter c;
     branchSegments := l; saplings := saplings c;
     sawdust := sawdust c; sawTrail := sawTrail c |}.

Definition set_saplings (l : list Sapling) (c : Scene) : Scene :=
  {| width := width c; height := height c; tree := tree c;
     branchIdCounter := branchIdCounter c;
     branchSegments := branchSegments c; saplings := l;
     sawdust := sawdust c; sawTrail := sawTrail c |}.

Definition set_sawdust (l : list Particle) (c : Scene) : Scene :=
  {| width := width c; height := height c; tree := tree c;
     branchIdCounter := branchIdCounter c;
     branchSegments := branchSegments c; saplings := saplings c;
     sawdust := l; sawTrail := sawTrail c |}.

Definition set_sawTrail (l : list TrailPoint) (c : Scene) : Scene :=
  {| width := width c; height := height c; tree := tree c;
     branchIdCounter := branchIdCounter c;
     branchSegments := branchSegments c; saplings := saplings c;
     sawdust := sawdust c; sawTrail := l |}.

Definition set_size (w h : R) (c : Scene) : Scene :=
  {| width := w; height := h; tree := tree c;
     branchIdCounter := branchIdCounter c;
     branchSegments := branchSegments c; saplings := saplings c;
     sawdust := sawdust c; sawTrail := sawTrail c |}.

Definition set_growth (v : R) (c : Climate) : Climate :=
  {| growth := v; targetGrowth := targetGrowth c; hydration := hydration c;
     wind := wind c; windTarget := windTarget c; season := season c;
     simulatedAge := simulatedAge c |}.

Definition set_targetGrowth (v : R) (c : Climate) : Climate :=
  {| growth := growth c; targetGrowth := v; hydration := hydration c;
     wind := wind c; windTarget := windTarget c; season := season c;
     simulatedAge := simulatedAge c |}.

Definition set_hydration (v : R) (c : Climate) : Climate :=
  {| growth := growth c; targetGrowth := targetGrowth c; hydration := v;
     wind := wind c; windTarget := windTarget c; season := season c;
     simulatedAge := simulatedAge c |}.

Definition set_wind (v : R) (c : Climate) : Climate :=
  {| growth := growth c; targetGrowth := targetGrowth c;
     hydration := hydration c;
     wind := v; windTarget := windTarget c; season := season c;
     simulatedAge := simulatedAge c |}.

Definition set_windTarget (v : R) (c : Climate) : Climate :=
  {| growth := growth c; targetGrowth := targetGrowth c;
     hydration := hydration c;
     wind := wind c; windTarget := v; season := season c;
     simulatedAge := simulatedAge c |}.

Definition set_season (v : R) (c : Climate) : Climate :=
  {| growth := growth c; targetGrowth := targetGrowth c;
     hydration := hydration c;
     wind := wind c; windTarget := windTarget c; season := v;
     simulatedAge := simulatedAge c |}.

Definition set_simulatedAge (v : R) (c : Climate) : Climate :=
  {| growth := growth c; targetGrowth := targetGrowth c;
     hydration := hydration c;
     wind := wind c; windTarget := windTarget c; season := season c;
     simulatedAge := v |}.

Definition set_lifeStage (v : Stage) (l : Life) : Life :=
  {| lifeStage := v; stageTimer := stageTimer l;
     regenCountdown := regenCountdown l; fruitsRipened := fruitsRipened l |}.

Definition set_stageTimer (v : R) (l : Life) : Life :=
  {| lifeStage := lifeStage l; stageTimer := v;
     regenCountdown := regenCountdown l; fruitsRipened := fruitsRipened l |}.

Definition set_regenCountdown (v : R) (l : Life) : Life :=
  {| lifeStage := lifeStage l; stageTimer := stageTimer l;
     regenCountdown := v; fruitsRipened := fruitsRipened l |}.

Definition set_fruitsRipened (v : Z) (l : Life) : Life :=
  {| lifeStage := lifeStage l; stageTimer := stageTimer l;
     regenCountdown := regenCountdown l; fruitsRipened := v |}.

Definition set_active (v : bool) (w : SawState) : SawState :=
  {| active := v; saw_x := saw_x w; saw_y := saw_y w; lastCut := lastCut w |}.

Definition set_saw_xy (x y : R) (w : SawState) : SawState :=
  {| active := active w; saw_x := x; saw_y := y; lastCut := lastCut w |}.

Definition set_lastCut (v : R) (w : SawState) : SawState :=
  {| active := active w; saw_x := saw_x w; saw_y := saw_y w; lastCut := v |}.

Definition set_heap (h : nat -> BranchCell) (o : Host) : Host :=
  {| heap := h; nextRef := nextRef o; rng := rng o; rngPos := rngPos o;
     canvas := canvas o; hint := hint o |}.

Definition set_nextRef (n : nat) (o : Host) : Host :=
  {| heap := heap o; nextRef := n; rng := rng o; rngPos := rngPos o;
     canvas := canvas o; hint := hint o |}.

Definition set_rngPos (n : nat) (o : Host) : Host :=
  {| heap := heap o; nextRef := nextRef o; rng := rng o; rngPos := n;
     canvas := canvas o; hint := hint o |}.

Definition set_canvas (l : list DrawCmd) (o : Host) : Host :=
  {| heap := heap o; nextRef := nextRef o; rng := rng o; rngPos := rngPos o;
     canvas := l; hint := hint o |}.

Definition set_hint (v : HintText) (o : Host) : Host :=
  {| heap := heap o; nextRef := nextRef o; rng := rng o; rngPos := rngPos o;
     canvas := canvas o; hint := v |}.

(** Heap update at one reference. *)
Definition upd (h : nat -> BranchCell) (r : nat) (c : BranchCell)
  : nat -> BranchCell :=
  fun r' => if Nat.eqb r' r then c else h r'.

(** ** A state monad for the script's procedures *)

Definition M (A : Type) : Type := State -> A * State.

Definition ret {A} (a : A) : M A := fun s => (a, s).

Definition bind {A B} (m : M A) (k : A -> M B) : M B :=
  fun s => let (a, s') := m s in k a s'.

Definition modify (f : State -> State) : M unit := fun s => (tt, f s).

Definition gets {A} (f : State -> A) : M A := fun s => (f s, s).

Declare Scope monad_scope.
Delimit Scope monad_scope with monad.
Notation "x <- m ;; k" := (bind m (fun x => k))
  (at level 61, m at next level, right associativity) : monad_scope.
Notation "m ;;; k" := (bind m (fun _ => k))
  (at level 61, right associativity) : monad_scope.
Open Scope monad_scope.

(** The state after running [m] from [s]. *)
Abbreviation run m s := (snd (m s)) (only parsing).

(** [Math.random()] *)
Definition Math_random : M R :=
  fun s => (rng (host s) (rngPos (host s)),
            on_host (set_rngPos (S (rngPos (host s)))) s).

(** [branchIdCounter++] *)
Definition nextBranchId : M nat :=
  fun s => (branchIdCounter (scene s),
            on_scene (set_branchIdCounter (S (branchIdCounter (scene s)))) s).

(** Allocation of a branch object: a fresh reference whose mutable fields
    hold the values of the object literal. *)
Definition newBranchObject : M nat :=
  fun s => let r := nextRef (host s) in
           (r, on_host (fun o => set_nextRef (S r)
                                   (set_heap (upd (heap o) r newCell) o)) s).

(** Comparisons of numbers, as booleans. *)
Definition gtb (a b : R) : bool := if Rgt_dec a b then true else false.
Definition ltb (a b : R) : bool := if Rlt_dec a b then true else false.
Definition leb (a b : R) : bool := if Rle_dec a b then true else false.
Definition geb (a b : R) : bool := if Rge_dec a b then true else false.

(** ** Branch tree generator *)

Definition branchColor (depth : nat) (seed : R) : Color :=
  {| col_r := 82 + INR depth * 5 + seededRandom (seed + 6) * 25;
     col_g := 58 + INR depth * 3 + seededRandom (seed + 7) * 18;
     col_b := 42 + INR depth * 2 + seededRandom (seed + 8) * 18 |}.

Definition spreadOf (seed : R) : R := 0.25 + seededRandom (seed + 1) * 0.35.

Definition lenFactorOf (depth : nat) (seed : R) : R :=
  0.68 + seededRandom (seed + 2) * 0.1 - INR depth * 0.01.

Definition leanOf (seed : R) : R := (seededRandom (seed + 3) - 0.5) * 0.18.

Definition varianceOf (seed : R) : R :=
  (seededRandom (seed + 5) - 0.5) * spreadOf seed.

Definition hasThirdChild (depth : nat) (seed : R) : bool :=
  (1 <? depth)%nat && gtb (seededRandom (seed + 4)) 0.58.

(** The object literal at the head of [createBranch]. *)
Definition branchLiteral (depth : nat) (length angle seed : R) : M Branch :=
  id <- nextBranchId ;;
  u <- Math_random ;;
  ref <- newBranchObject ;;
  ret {| br_ref := ref;
         br_id := id;
         br_depth := depth;
         br_length := length;
         br_angle := angle;
         br_seed := seed;
         br_children := [];
         br_swayPhase := u * PI * 2;
         br_baseWidth :=
           Rmax 1 ((INR (maxDepth CONFIG) - INR depth + 1) * 1.15);
         br_color := branchColor depth seed;
         br_pruneLength :=
           length * (0.2 + seededRandom (seed + 12) * 0.2) |}.

(** [branch.children.push(child)] while the branch is being built. *)
Definition push_child (child : Branch) (b : Branch) : Branch :=
  {| br_ref := br_ref b; br_id := br_id b; br_depth := br_depth b;
     br_length := br_length b; br_angle := br_angle b; br_seed := br_seed b;
     br_children := br_children b ++ [child];
     br_swayPhase := br_swayPhase b; br_baseWidth := br_baseWidth b;
     br_color := br_color b; br_pruneLength := br_pruneLength b |}.

(** [createBranch], by recursion on the number of levels still to build:
    [levels] is [CONFIG.maxDepth - depth], so that [levels = 0] is the
    source's test [depth >= CONFIG.maxDepth]. *)
Fixpoint createBranchFrom (levels depth : nat) (length angle seed : R)
  : M Branch :=
  branch <- branchLiteral depth length angle seed ;;
  match levels with
  | O => ret branch
  | S levels' =>
      let spread := spreadOf seed in
      let lenFactor := lenFactorOf depth seed in
      let lean := leanOf seed in
      c1 <- createBranchFrom levels' (depth + 1) (length * lenFactor)
              (angle + spread + lean) (seed * 1.71 + 1) ;;
      let branch := push_child c1 branch in
      c2 <- createBranchFrom levels' (depth + 1) (length * lenFactor)
              (angle - spread + lean) (seed * 1.71 + 2) ;;
      let branch := push_child c2 branch in
      if hasThirdChild depth seed then
        let variance := varianceOf seed in
        c3 <- createBranchFrom levels' (depth + 1)
                (length * (lenFactor * 0.9))
                (angle + variance) (seed * 1.71 + 3) ;;
        ret (push_child c3 branch)
      else ret branch
  end.

Definition createBranch (depth : nat) (length angle seed : R) : M Branch :=
  createBranchFrom (maxDepth CONFIG - depth) depth length angle seed.

Definition buildTree : M Branch :=
  modify (on_scene (set_branchIdCounter 0)) ;;;
  w <- gets (fun s => width (scene s)) ;;
  h <- gets (fun s => height (scene s)) ;;
  let baseLength := Rmin w h * 0.25 in
  u <- Math_random ;;
  createBranch 0 baseLength 0 (u * 1000).

(** ** Sapling regeneration cycle *)

(** [Array.from({ length: n }).map(() => ...)] with an effectful body. *)
Fixpoint repeatM {A} (n : nat) (m : M A) : M (list A) :=
  match n with
  | O => ret []
  | S n' => a <- m ;; l <- repeatM n' m ;; ret (a :: l)
  end.

Definition newSapling : M Sapling :=
  w <- gets (fun s => width (scene s)) ;;
  h <- gets (fun s => height (scene s)) ;;
  ux <- Math_random ;;
  uy <- Math_random ;;
  up <- Math_random ;;
  us <- Math_random ;;
  ret {| sap_x := w / 2 + (ux - 0.5) * w * 0.18;
         sap_y := h - 45 + uy * 10;
         sap_growth := 0.02;
         sap_phase := up * PI * 2;
         sap_sway := 0.4 + us * 0.6 |}.

Definition fruitBonusOf (ripened : Z) : Z := Z.min 3 (ripened / 6).

Definition saplingCount (u : R) (fruitBonus : Z) : Z :=
  let randomCount :=
    IZR (saplingMin CONFIG)
    + u * (IZR (saplingMax CONFIG) - IZR (saplingMin CONFIG) + 1) in
  Z.max (saplingMin CONFIG) (Math_floor (randomCount + IZR fruitBonus)).

Definition spawnSaplings : M unit :=
  ripened <- gets (fun s => fruitsRipened (life s)) ;;
  let fruitBonus := fruitBonusOf ripened in
  u <- Math_random ;;
  let count := saplingCount u fruitBonus in
  modify (on_life (set_fruitsRipened (Z.max 0 (ripened - fruitBonus * 3)))) ;;;
  l <- repeatM (Z.to_nat count) newSapling ;;
  modify (on_scene (set_saplings l)).

Definition updateSaplings (delta : R) : M unit :=
  modify (on_scene (fun c =>
    set_saplings
      (map (fun sapling =>
              {| sap_x := sap_x sapling;
                 sap_y := sap_y sapling;
                 sap_growth :=
                   clamp (sap_growth sapling + delta * 0.00012) 0 1;
                 sap_phase := sap_phase sapling + delta * 0.001;
                 sap_sway := sap_sway sapling |})
           (saplings c)) c)).

(** ** Life-stage state machine *)

Definition setStage (nextStage : Stage) : M unit :=
  cur <- gets (fun s => lifeStage (life s)) ;;
  if Stage_eq_dec cur nextStage then ret tt
  else
    modify (on_life (set_lifeStage nextStage)) ;;;
    modify (on_life (set_stageTimer 0)).

Definition when (b : bool) (m : M unit) : M unit :=
  if b then m else ret tt.

Definition isEmpty {A} (l : list A) : bool :=
  match l with [] => true | _ => false end.

Definition allGrown (l : list Sapling) : bool :=
  forallb (fun sapling => gtb (sap_growth sapling) 0.98) l.

(** The body of the [if] that ends the rebirth stage. *)
Definition regenerate : M unit :=
  t <- buildTree ;;
  modify (on_scene (set_tree (Some t))) ;;;
  modify (on_climate (set_growth 0.05)) ;;;
  modify (on_climate (set_targetGrowth 0.15)) ;;;
  modify (on_scene (set_saplings [])) ;;;
  setStage sprout.

(** The [switch] statement of [updateLifeStage]. *)
Definition stageSwitch (delta : R) : M unit :=
  cur <- gets (fun s => lifeStage (life s)) ;;
  g <- gets (fun s => growth (climate s)) ;;
  timer <- gets (fun s => stageTimer (life s)) ;;
  match cur with
  | seed => when (gtb g 0.18) (setStage sprout)
  | sprout => when (gtb g 0.42) (setStage young)
  | young => when (gtb g 0.66) (setStage mature)
  | mature => when (gtb g 0.82 && gtb timer 6000) (setStage fruit)
  | fruit =>
      if gtb timer 32000 then setStage decline
      else
        u <- Math_random ;;
        when (ltb u (delta * 0.0000006)) (setStage decline)
  | decline => when (ltb g 0.3) (setStage seedFall)
  | seedFall =>
      modify (on_life (fun l =>
                set_regenCountdown (regenCountdown l + delta) l)) ;;;
      none <- gets (fun s => isEmpty (saplings (scene s))) ;;
      when none spawnSaplings ;;;
      countdown <- gets (fun s => regenCountdown (life s)) ;;
      when (gtb countdown 18000) (setStage rebirth)
  | rebirth =>
      none <- gets (fun s => isEmpty (saplings (scene s))) ;;
      when none spawnSaplings ;;;
      grown <- gets (fun s => allGrown (saplings (scene s))) ;;
      when grown regenerate
  end.

(** The two [if] statements that close [updateLifeStage]. *)
Definition stageUpkeep (delta : R) : M unit :=
  cur <- gets (fun s => lifeStage (life s)) ;;
  when (match cur with seedFall | rebirth => false | _ => true end)
    (modify (on_life (set_regenCountdown 0))) ;;;
  cur <- gets (fun s => lifeStage (life s)) ;;
  when (match cur with decline => true | _ => false end)
    (modify (on_climate (fun c =>
       set_targetGrowth (Rmax 0.24 (targetGrowth c - delta * 0.00012)) c))).

Definition updateLifeStage (delta : R) : M unit :=
  stageSwitch delta ;;; stageUpkeep delta.

(** ** Tree walk of the renderer *)

Definition emit (c : DrawCmd) : M unit :=
  modify (on_host (fun o => set_canvas (canvas o ++ [c]) o)).

Definition getCell (ref : nat) : M BranchCell :=
  gets (fun s => heap (host s) ref).

Definition setCell (ref : nat) (c : BranchCell) : M unit :=
  modify (on_host (fun o => set_heap (upd (heap o) ref c) o)).

Definition isDry (stage : Stage) : bool :=
  match stage with decline | seedFall => true | _ => false end.

Definition drawLeaf (x y angle : R) (branch : Branch) (time : R) : M unit :=
  let length :=
    11 + (1 - INR (br_depth branch) / INR (maxDepth CONFIG)) * 6 in
  let widthLeaf :=
    4 + (1 - INR (br_depth branch) / INR (maxDepth CONFIG)) * 2 in
  emit (FillEllipse x y widthLeaf length
          (angle + sin (time * 0.003 + br_seed branch * 10) * 0.4)).

Definition drawBud (x y : R) (branch : Branch) : M unit :=
  emit (FillArc x y (3 + INR (br_depth branch) * 0.2)).

(** The fruit objects made on the first fruiting walk of a branch. *)
Definition newFruit (branch : Branch) (idx : nat) : M Fruit :=
  u <- Math_random ;;
  let first := Nat.eqb idx 0 in
  ret {| offset :=
           (if first then -1 else 1)
           * (0.5 + seededRandom (br_seed branch + INR idx) * 0.3);
         angleOffset :=
           (if first then -0.4 else 0.4)
           + (seededRandom (br_seed branch + INR idx + 1) - 0.5) * 0.3;
         ripeness := 0.1 + u * 0.2;
         counted := false |}.

Fixpoint mapM {A B} (f : A -> M B) (l : list A) : M (list B) :=
  match l with
  | [] => ret []
  | a :: l' => b <- f a ;; bs <- mapM f l' ;; ret (b :: bs)
  end.

Definition fruitCount (branch : Branch) : nat :=
  if gtb (seededRandom (br_seed branch + 40)) 0.65 then 2%nat else 1%nat.

(** One pass of the [forEach] body of [drawFruit] over one fruit, up to the
    drawing: the new fruit and whether it was counted in this pass. *)
Definition ripen (deltaMs hydration : R) (f : Fruit) : Fruit * bool :=
  let ripeness' :=
    clamp (ripeness f + deltaMs * 0.00005 + hydration * 0.0001) 0 1.2 in
  let newly := gtb ripeness' 0.98 && negb (counted f) in
  ({| offset := offset f; angleOffset := angleOffset f;
      ripeness := ripeness';
      counted := if newly then true else counted f |}, newly).

Definition drawOneFruit (x y : R) (branch : Branch) (angle time : R)
    (f : Fruit) : M Fruit :=
  dms <- gets (fun s => deltaMs (clock s)) ;;
  hyd <- gets (fun s => hydration (climate s)) ;;
  let (f', newly) := ripen dms hyd f in
  when newly
    (modify (on_life (fun l =>
       set_fruitsRipened (fruitsRipened l + 1) l))) ;;;
  let swing :=
    sin (time * 0.003 + br_seed branch * 14 + offset f') * 4 in
  let distance := 12 + ripeness f' * 6 in
  let fruitX :=
    x + cos (angle + angleOffset f') * distance * offset f' + swing in
  let fruitY := y + sin (angle + angleOffset f') * distance * 0.4 + 8 in
  let radius := 4 + ripeness f' * 4 in
  emit (FillEllipse fruitX fruitY (radius * 0.8) radius 0) ;;;
  emit (FillArc (fruitX - radius * 0.2) (fruitY - radius * 0.4)
          (radius * 0.25)) ;;;
  ret f'.

Definition fruiting (stage : Stage) : bool :=
  match stage with fruit | decline | seedFall => true | _ => false end.

Definition drawFruit (x y : R) (branch : Branch) (angle time : R) : M unit :=
  stage <- gets (fun s => lifeStage (life s)) ;;
  if negb (fruiting stage) then ret tt
  else
    cell <- getCell (br_ref branch) ;;
    fs <- match fruits cell with
          | Some fs => ret fs
          | None => mapM (newFruit branch) (seq 0 (fruitCount branch))
          end ;;
    fs' <- mapM (drawOneFruit x y branch angle time) fs ;;
    cell <- getCell (br_ref branch) ;;
    setCell (br_ref branch)
      {| pruned := pruned cell; regrowAt := regrowAt cell;
         fruits := Some fs' |}.

Definition progressOf (g : R) (depth : nat) : R :=
  let depthDelay := INR depth * growthDelayPerLevel CONFIG in
  let available := 1 - depthDelay in
  clamp ((g - depthDelay) / available) 0 1.

Definition pushSegment (sg : Segment) : M unit :=
  modify (on_scene (fun c =>
    set_branchSegments (branchSegments c ++ [sg]) c)).

(** The stub and the bud drawn for a pruned branch. *)
Definition drawStub (branch : Branch) (startX startY angle length : R)
  : M unit :=
  let stubLength := Rmin (br_pruneLength branch) (length * 0.6) in
  let stubX := startX + sin angle * stubLength in
  let stubY := startY - cos angle * stubLength in
  emit (StrokeLine startX startY stubX stubY (br_baseWidth branch)) ;;;
  emit (FillArc stubX stubY (br_baseWidth branch * 0.45)).

(** What is drawn at the end of a branch: a leaf and fruit, the children,
    or a bud; [forEachChild angle endX endY] stands for
    [branch.children.forEach((child) => drawBranch(child, time, angle,
    endX, endY))]. *)
Definition drawTip (forEachChild : R -> R -> R -> M unit)
    (branch : Branch) (time angle endX endY progress : R) : M unit :=
  if isEmpty (br_children branch) && gtb progress 0.35 then
    drawLeaf endX endY angle branch time ;;;
    when (fruitDepthStart CONFIG <=? br_depth branch)%nat
      (drawFruit endX endY branch angle time)
  else if gtb progress 0.55 then forEachChild angle endX endY
  else drawBud endX endY branch.

(** The part of [drawBranch] below the [if (branch.pruned)] statement. *)
Definition drawLimb (forEachChild : R -> R -> R -> M unit)
    (branch : Branch) (time startX startY angle endX endY progress : R)
  : M unit :=
  emit (StrokeLine startX startY endX endY
          (br_baseWidth branch * (0.8 + 0.2 * (1 - progress)))) ;;;
  pushSegment {| seg_branch := branch; x1 := startX; y1 := startY;
                 x2 := endX; y2 := endY |} ;;;
  drawTip forEachChild branch time angle endX endY progress.

(** The angle at which a branch is drawn. *)
Definition drawnAngle (g w : R) (branch : Branch) (time parentAngle : R)
  : R :=
  let sway :=
    sin (time * 0.0009 + br_swayPhase branch + br_seed branch)
    * (0.03 + (INR (maxDepth CONFIG) - INR (br_depth branch)) * 0.005)
    * (0.35 + g * 0.65) in
  let windGust := w * (0.25 + INR (br_depth branch) * 0.04) in
  parentAngle + br_angle branch + sway + windGust.

(** The body of [drawBranch], with the recursive calls abstracted. *)
Definition drawBranchBody (forEachChild : R -> R -> R -> M unit)
    (branch : Branch) (time parentAngle startX startY : R) : M unit :=
  g <- gets (fun s => growth (climate s)) ;;
  let progress := progressOf g (br_depth branch) in
  if leb progress 0 then ret tt
  else
    let eased := easeOutCubic progress in
    w <- gets (fun s => wind (climate s)) ;;
    let angle := drawnAngle g w branch time parentAngle in
    let length := br_length branch * eased in
    let endX := startX + sin angle * length in
    let endY := startY - cos angle * length in
    cell <- getCell (br_ref branch) ;;
    if pruned cell then
      if gtb time (regrowAt cell) then
        setCell (br_ref branch)
          {| pruned := false; regrowAt := regrowAt cell;
             fruits := fruits cell |} ;;;
        drawLimb forEachChild branch time startX startY angle endX endY
          progress
      else drawStub branch startX startY angle length
    else
      drawLimb forEachChild branch time startX startY angle endX endY
        progress.

(** [list.forEach(f)] *)
Fixpoint forEachM {A} (f : A -> M unit) (l : list A) : M unit :=
  match l with
  | [] => ret tt
  | a :: l' => f a ;;; forEachM f l'
  end.

Fixpoint drawBranch (branch : Branch) (time parentAngle startX startY : R)
  {struct branch} : M unit :=
  drawBranchBody
    (fun angle endX endY =>
       forEachM (fun child => drawBranch child time angle endX endY)
         (br_children branch))
    branch time parentAngle startX startY.

Definition drawTree (time : R) : M unit :=
  t <- gets (fun s => tree (scene s)) ;;
  match t with
  | None => ret tt
  | Some root =>
      modify (on_scene (set_branchSegments [])) ;;;
      w <- gets (fun s => width (scene s)) ;;
      h <- gets (fun s => height (scene s)) ;;
      drawBranch root time 0 (w / 2) (h - 60)
  end.

(** ** Pruning interaction *)

Definition updatePointer (point : Point) : M unit :=
  modify (on_saw (set_saw_xy (pt_x point) (pt_y point))) ;;;
  on <- gets (fun s => active (sawState s)) ;;
  when on
    (modify (on_scene (fun c =>
       set_sawTrail
         (sawTrail c ++ [{| tr_x := pt_x point; tr_y := pt_y point;
                            tr_life := 1 |}]) c)) ;;;
     modify (on_scene (fun c =>
       if (60 <? length (sawTrail c))%nat
       then set_sawTrail (tl (sawTrail c)) c else c))).

Definition closestPoint (x1 y1 x2 y2 px py : R) : Point :=
  let dx := x2 - x1 in
  let dy := y2 - y1 in
  let lenSq :=
    if Req_dec_T (dx * dx + dy * dy) 0 then 1 else dx * dx + dy * dy in
  let t := clamp (((px - x1) * dx + (py - y1) * dy) / lenSq) 0 1 in
  {| pt_x := x1 + dx * t; pt_y := y1 + dy * t |}.

Definition newParticle (point : Point) : M Particle :=
  ux <- Math_random ;;
  uy <- Math_random ;;
  ret {| p_x := pt_x point; p_y := pt_y point;
         p_vx := (ux - 0.5) * 0.35;
         p_vy := -0.2 - uy * 0.3;
         p_life := 1 |}.

Definition spawnSawdust (point : Point) : M unit :=
  l <- repeatM 12 (newParticle point) ;;
  modify (on_scene (fun c => set_sawdust (sawdust c ++ l) c)).

(** The three locals of [performSawCut] that its [forEach] updates. *)
Record Scan := {
  chosen : option Segment;
  bestDist : R;
  chosenPoint : option Point
}.

Definition segmentPoint (sx sy : R) (sg : Segment) : Point :=
  closestPoint (x1 sg) (y1 sg) (x2 sg) (y2 sg) sx sy.

Definition segmentDist (sx sy : R) (sg : Segment) : R :=
  let point := segmentPoint sx sy sg in
  Math_hypot (pt_x point - sx) (pt_y point - sy).

Definition skipped (h : nat -> BranchCell) (sg : Segment) : bool :=
  Nat.eqb (br_depth (seg_branch sg)) 0
  || pruned (h (br_ref (seg_branch sg))).

Definition scanStep (h : nat -> BranchCell) (sx sy : R)
    (acc : Scan) (sg : Segment) : Scan :=
  if skipped h sg then acc
  else
    let point := segmentPoint sx sy sg in
    let dist := Math_hypot (pt_x point - sx) (pt_y point - sy) in
    if ltb dist (bestDist acc) then
      {| chosen := Some sg; bestDist := dist; chosenPoint := Some point |}
    else acc.

Definition scanSegments (h : nat -> BranchCell) (sx sy : R)
    (l : list Segment) : Scan :=
  fold_left (scanStep h sx sy) l
    {| chosen := None; bestDist := sawRadius CONFIG; chosenPoint := None |}.

(** [performSawCut]; [now] is the value of [performance.now()]. *)
Definition performSawCut (now : R) : M unit :=
  segs <- gets (fun s => branchSegments (scene s)) ;;
  if isEmpty segs then ret tt
  else
    last <- gets (fun s => lastCut (sawState s)) ;;
    if ltb (now - last) (sawCooldown CONFIG) then ret tt
    else
      h <- gets (fun s => heap (host s)) ;;
      sx <- gets (fun s => saw_x (sawState s)) ;;
      sy <- gets (fun s => saw_y (sawState s)) ;;
      let found := scanSegments h sx sy segs in
      match chosen found, chosenPoint found with
      | Some sg, Some point =>
          let ref := br_ref (seg_branch sg) in
          cell <- getCell ref ;;
          setCell ref {| pruned := true; regrowAt := regrowAt cell;
                         fruits := fruits cell |} ;;;
          u <- Math_random ;;
          cell <- getCell ref ;;
          setCell ref {| pruned := pruned cell;
                         regrowAt := now + 18000 + u * 14000;
                         fruits := fruits cell |} ;;;
          modify (on_saw (set_lastCut now)) ;;;
          spawnSawdust point ;;;
          modify (on_host (set_hint hintBranchCut))
      | _, _ => ret tt
      end.

Definition updateSawdust (delta : R) : M unit :=
  modify (on_scene (fun c =>
    set_sawdust
      (filter (fun particle => gtb (p_life particle) 0)
         (map (fun particle =>
                 let vy := p_vy particle + 0.0004 * delta in
                 {| p_x := p_x particle + p_vx particle * delta * 0.6;
                    p_y := p_y particle + vy * delta * 0.6;
                    p_vx := p_vx particle;
                    p_vy := vy;
                    p_life := p_life particle - delta * 0.0016 |})
            (sawdust c))) c)).

Definition updateSawTrail (delta : R) : M unit :=
  modify (on_scene (fun c =>
    set_sawTrail
      (filter (fun point => gtb (tr_life point) 0)
         (map (fun point =>
                 {| tr_x := tr_x point; tr_y := tr_y point;
                    tr_life := tr_life point - delta * 0.0028 |})
            (sawTrail c))) c)).

Definition updateHud : M unit :=
  on <- gets (fun s => active (sawState s)) ;;
  stage <- gets (fun s => lifeStage (life s)) ;;
  modify (on_host (set_hint (if on then hintSawActive else hintStage stage))).

(** ** Growth and climate integrator *)

(** [deltaMs = time - lastTime || 16], then clamped to [8, 120]. *)
Definition elapsed (time last : R) : R :=
  let d := time - last in
  let d := if Req_dec_T d 0 then 16 else d in
  Rmin (Rmax d 8) 120.

(** The two assignments of [loop] to [growth]. *)
Definition easeGrowth (dms target g : R) : R :=
  let lerpFactor := clamp (dms * baseGrowthSpeed CONFIG) 0 0.04 in
  clamp (g + (target - g) * lerpFactor) 0 1.08.

Definition growthPulse : M unit :=
  stage <- gets (fun s => lifeStage (life s)) ;;
  let maturityBonus :=
    match stage with
    | fruit => 1
    | mature => 0.7
    | seed => 1.2
    | _ => 0.5
    end in
  u <- Math_random ;;
  modify (on_climate (fun c =>
    set_targetGrowth
      (clamp (targetGrowth c + pulseBoost CONFIG * (0.4 + u * maturityBonus))
         0 1.08) c)) ;;;
  v <- Math_random ;;
  modify (on_climate (fun c =>
    set_simulatedAge (simulatedAge c + (0.4 + v * 0.7)) c)) ;;;
  _ <- Math_random ;;
  ret tt.

Definition water : M unit :=
  modify (on_climate (fun c =>
    set_hydration (Rmin 1.5 (hydration c + 0.9)) c)) ;;;
  modify (on_climate (fun c =>
    set_targetGrowth (clamp (targetGrowth c + 0.1) 0 1.08) c)) ;;;
  u <- Math_random ;;
  modify (on_climate (set_windTarget ((u - 0.5) * 0.5))) ;;;
  modify (on_host (set_hint hintWatered)).

(** The head of the animation-frame callback, up to the call of
    [updateLifeStage]: the integration of the climate scalars. *)
Definition advance (time : R) : M unit :=
  last <- gets (fun s => lastTime (clock s)) ;;
  let dms := elapsed time last in
  modify (on_clock (fun k =>
    {| lastTime := time; deltaMs := dms;
       fps := fps k * 0.9 + Rmin 120 (1000 / dms) * 0.1 |})) ;;;
  modify (on_climate (fun c =>
    set_growth (easeGrowth dms (targetGrowth c) (growth c)) c)) ;;;
  modify (on_climate (fun c =>
    set_hydration (Rmax 0 (hydration c - dms * 0.00022)) c)) ;;;
  modify (on_climate (fun c =>
    if gtb (hydration c) 0.001 then
      set_targetGrowth
        (clamp (targetGrowth c + hydration c * 0.0005) 0 1.08) c
    else c)) ;;;
  modify (on_climate (fun c =>
    set_wind (wind c + (windTarget c - wind c) * clamp (dms * 0.0006) 0 1)
      c)) ;;;
  u <- Math_random ;;
  when (ltb u 0.002)
    (v <- Math_random ;;
     modify (on_climate (fun c =>
       set_windTarget ((v - 0.5) * (0.4 + 0.3 * (1 - growth c))) c))) ;;;
  modify (on_climate (fun c => set_season (season c + dms * 0.000015) c)) ;;;
  modify (on_life (fun l => set_stageTimer (stageTimer l + dms) l)) ;;;
  modify (on_climate (fun c =>
    set_simulatedAge (simulatedAge c + dms * 0.00005) c)).

(** The rest of the callback after [updateLifeStage], without the
    decorative layers. *)
Definition render (time : R) : M unit :=
  dms <- gets (fun s => deltaMs (clock s)) ;;
  updateSaplings dms ;;;
  updateSawdust dms ;;;
  updateSawTrail dms ;;;
  modify (on_host (set_canvas [])) ;;;
  drawTree time ;;;
  updateHud.

(** The animation-frame callback [loop]. *)
Definition loop (time : R) : M unit :=
  advance time ;;;
  dms <- gets (fun s => deltaMs (clock s)) ;;
  updateLifeStage dms ;;;
  render time.

(** ** Event handlers and the runs of the program *)

Definition resize (w h : R) : M unit :=
  modify (on_scene (set_size w h)) ;;;
  t <- buildTree ;;
  modify (on_scene (set_tree (Some t))) ;;;
  modify (on_saw (set_saw_xy (w / 2) (h / 2))).

Definition pointerdown (button : Z) (point : Point) (now : R) : M unit :=
  if negb (Z.eqb button 0) then ret tt
  else
    modify (on_saw (set_active true)) ;;;
    updatePointer point ;;;
    performSawCut now.

Definition pointermove (point : Point) (now : R) : M unit :=
  updatePointer point ;;;
  on <- gets (fun s => active (sawState s)) ;;
  when on (performSawCut now).

Definition pointerup : M unit := modify (on_saw (set_active false)).

Inductive Event :=
  | Frame (time : R)
  | Pulse
  | Water
  | PointerDown (button : Z) (point : Point) (now : R)
  | PointerMove (point : Point) (now : R)
  | PointerUp
  | PointerLeave
  | Resize (w h : R).

Definition handle (e : Event) : M unit :=
  match e with
  | Frame time => loop time
  | Pulse => growthPulse
  | Water => water
  | PointerDown button point now => pointerdown button point now
  | PointerMove point now => pointermove point now
  | PointerUp => pointerup
  | PointerLeave => pointerup
  | Resize w h => resize w h
  end.

(** The state when the script has run its top level: the initial values of
    the [let] variables, then the first [resize()]. *)
Definition boot (w h t0 : R) (random : nat -> R) : State :=
  run (resize w h)
    {| scene := {| width := 0; height := 0; tree := None;
                   branchIdCounter := 0; branchSegments := [];
                   saplings := []; sawdust := []; sawTrail := [] |};
       climate := {| growth := 0.015; targetGrowth := 0.08; hydration := 0;
                     wind := 0; windTarget := 0;
                     season := random 0%nat * PI * 2; simulatedAge := 0 |};
       life := {| lifeStage := seed; stageTimer := 0; regenCountdown := 0;
                  fruitsRipened := 0 |};
       clock := {| lastTime := t0; deltaMs := 16; fps := 60 |};
       sawState := {| active := false; saw_x := 0; saw_y := 0;
                      lastCut := 0 |};
       host := {| heap := fun _ => newCell; nextRef := 0; rng := random;
                  rngPos := 1; canvas := []; hint := hintStage seed |} |}.

Inductive reachable : State -> Prop :=
  | reach_boot w h t0 random : reachable (boot w h t0 random)
  | reach_step s e : reachable s -> reachable (run (handle e) s).

(** ** Vocabulary of the statements *)

(** *** Trees *)

(** All nodes of a tree, in creation order. *)
Fixpoint nodes (b : Branch) : list Branch :=
  match b with
  | mkBranch _ _ _ _ _ _ children _ _ _ _ =>
      b :: flat_map nodes children
  end.

Definition nodeCount (b : Branch) : nat := length (nodes b).

(** The node reached from [b] by following child indices. *)
Fixpoint subtree (path : list nat) (b : Branch) : option Branch :=
  match path with
  | [] => Some b
  | i :: path' =>
      match nth_error (br_children b) i with
      | Some c => subtree path' c
      | None => None
      end
  end.

(** What two structurally identical trees have in common: everything but
    the object reference, the creation index and the random sway phase. *)
#[warnings="-register-all"]
Inductive Shape := mkShape {
  sh_depth : nat;
  sh_length : R;
  sh_angle : R;
  sh_seed : R;
  sh_baseWidth : R;
  sh_color : Color;
  sh_pruneLength : R;
  sh_children : list Shape
}.

Fixpoint shape (b : Branch) : Shape :=
  match b with
  | mkBranch _ _ depth length angle sd children _ baseWidth color
      pruneLength =>
      mkShape depth length angle sd baseWidth color pruneLength
        (map shape children)
  end.

(** The fields of a node that [createBranch] computes from its arguments. *)
Definition ownFields (depth : nat) (length angle seed : R) (b : Branch)
  : Prop :=
  br_depth b = depth /\ br_length b = length /\ br_angle b = angle
  /\ br_seed b = seed
  /\ br_baseWidth b
     = Rmax 1 ((INR (maxDepth CONFIG) - INR depth + 1) * 1.15)
  /\ br_color b = branchColor depth seed
  /\ br_pruneLength b = length * (0.2 + seededRandom (seed + 12) * 0.2).

(** [Generated levels depth length angle seed b]: [b] has the form of a
    tree built by [createBranch(depth, length, angle, seed)] with [levels]
    levels below its root. *)
Inductive Generated : nat -> nat -> R -> R -> R -> Branch -> Prop :=
  | gen_leaf depth length angle seed b :
      ownFields depth length angle seed b ->
      br_children b = [] ->
      Generated 0 depth length angle seed b
  | gen_two levels depth length angle seed b c1 c2 :
      ownFields depth length angle seed b ->
      hasThirdChild depth seed = false ->
      br_children b = [c1; c2] ->
      Generated levels (depth + 1) (length * lenFactorOf depth seed)
        (angle + spreadOf seed + leanOf seed) (seed * 1.71 + 1) c1 ->
      Generated levels (depth + 1) (length * lenFactorOf depth seed)
        (angle - spreadOf seed + leanOf seed) (seed * 1.71 + 2) c2 ->
      Generated (S levels) depth length angle seed b
  | gen_three levels depth length angle seed b c1 c2 c3 :
      ownFields depth length angle seed b ->
      hasThirdChild depth seed = true ->
      br_children b = [c1; c2; c3] ->
      Generated levels (depth + 1) (length * lenFactorOf depth seed)
        (angle + spreadOf seed + leanOf seed) (seed * 1.71 + 1) c1 ->
      Generated levels (depth + 1) (length * lenFactorOf depth seed)
        (angle - spreadOf seed + leanOf seed) (seed * 1.71 + 2) c2 ->
      Generated levels (depth + 1) (length * (lenFactorOf depth seed * 0.9))
        (angle + varianceOf seed) (seed * 1.71 + 3) c3 ->
      Generated (S levels) depth length angle seed b.

(** The data of one node that the determinism statement compares. *)
Definition nodeData (b : Branch) : nat * R * R * Color * nat :=
  (br_depth b, br_length b, br_angle b, br_color b,
   length (br_children b)).

(** The depth invariant of a tree of depth limit [limit]. *)
Definition depthOk (limit : nat) (n : Branch) : Prop :=
  (br_depth n <= limit)%nat
  /\ (br_depth n = limit -> br_children n = [])
  /\ ((br_depth n < limit)%nat ->
      length (br_children n) = 2%nat \/ length (br_children n) = 3%nat)
  /\ Forall (fun c => br_depth c = S (br_depth n)) (br_children n).

(** The two primary children of [n] as [createBranch] derives them. *)
Definition primaryChildren (n : Branch) : Prop :=
  exists c1 c2 rest,
    br_children n = c1 :: c2 :: rest
    /\ br_angle c1
       = br_angle n + spreadOf (br_seed n) + leanOf (br_seed n)
    /\ br_angle c2
       = br_angle n - spreadOf (br_seed n) + leanOf (br_seed n)
    /\ br_length c1 = br_length n * lenFactorOf (br_depth n) (br_seed n)
    /\ br_length c2 = br_length n * lenFactorOf (br_depth n) (br_seed n).

(** A state to evaluate the procedures on: the variables at their initial
    values, a 800 x 600 canvas, no tree yet, a constant random stream. *)
Definition state0 : State :=
  {| scene := {| width := 800; height := 600; tree := None;
                 branchIdCounter := 0; branchSegments := [];
                 saplings := []; sawdust := []; sawTrail := [] |};
     climate := {| growth := 0.015; targetGrowth := 0.08; hydration := 0;
                   wind := 0; windTarget := 0; season := 0;
                   simulatedAge := 0 |};
     life := {| lifeStage := seed; stageTimer := 0; regenCountdown := 0;
                fruitsRipened := 0 |};
     clock := {| lastTime := 0; deltaMs := 16; fps := 60 |};
     sawState := {| active := false; saw_x := 0; saw_y := 0; lastCut := 0 |};
     host := {| heap := fun _ => newCell; nextRef := 0;
                rng := fun _ => 0.5; rngPos := 0; canvas := [];
                hint := hintStage seed |} |}.

(** A root seed within [0, 1000), the range of [Math.random() * 1000],
    whose chain of first children reaches at depth 6 the seed
    [300000 * PI / 9341.13 - 2] (the root seed is about [2.6034]). *)
Definition degenerateSeed : R :=
  ((((((300000 * PI / 9341.13 - 2 - 1) / 1.71 - 1) / 1.71 - 1) / 1.71 - 1)
     / 1.71 - 1) / 1.71 - 1)
  / 1.71.

(** *** What a procedure leaves alone *)

Definition keeps (rel : State -> State -> Prop) {A} (m : M A) : Prop :=
  forall s, rel s (run m s).

(** The value of [proj] is the same before and after. *)
Definition same {A} (proj : State -> A) (s s' : State) : Prop :=
  proj s' = proj s.

(** The assignments made during the tree walk at time [time], on branches
    that satisfy [ok]; a relation that all of them respect is respected by
    [drawBranch]. *)
Record WalkSteps (time : R) (ok : Branch -> Prop)
    (rel : State -> State -> Prop) : Prop := {
  ws_emit : forall c s, rel s (run (emit c) s);
  ws_push : forall sg s,
      ok (seg_branch sg) -> rel s (run (pushSegment sg) s);
  ws_random : forall s, rel s (run Math_random s);
  ws_unprune : forall ref s,
      pruned (heap (host s) ref) = true ->
      time > regrowAt (heap (host s) ref) ->
      rel s (run (setCell ref
                    {| pruned := false;
                       regrowAt := regrowAt (heap (host s) ref);
                       fruits := fruits (heap (host s) ref) |}) s);
  ws_fruits : forall ref fs s,
      rel s (run (setCell ref
                    {| pruned := pruned (heap (host s) ref);
                       regrowAt := regrowAt (heap (host s) ref);
                       fruits := Some fs |}) s);
  ws_count : forall s,
      rel s (on_life (fun l =>
                        set_fruitsRipened (fruitsRipened l + 1) l) s)
}.

(** The same with the fruit of a branch as one step, for relations between
    [fruitsRipened] and the fruit objects. *)
Record WalkUnits (time : R) (ok : Branch -> Prop)
    (rel : State -> State -> Prop) : Prop := {
  wu_emit : forall c s, rel s (run (emit c) s);
  wu_push : forall sg s,
      ok (seg_branch sg) -> rel s (run (pushSegment sg) s);
  wu_unprune : forall ref s,
      pruned (heap (host s) ref) = true ->
      time > regrowAt (heap (host s) ref) ->
      rel s (run (setCell ref
                    {| pruned := false;
                       regrowAt := regrowAt (heap (host s) ref);
                       fruits := fruits (heap (host s) ref) |}) s);
  wu_fruit : forall x y branch angle s,
      ok branch -> rel s (run (drawFruit x y branch angle time) s)
}.

(** *** Life stages *)

Definition stageAndTimer (s : State) : Stage * R :=
  (lifeStage (life s), stageTimer (life s)).

Definition lifeCore (s : State) : Stage * R * R :=
  (lifeStage (life s), stageTimer (life s), regenCountdown (life s)).

(** The table of section 4.3: the condition under which the stage may go
    from [a] to [b]; [g], [timer], [countdown] and [saps] are the growth,
    the stage timer, the regeneration countdown and the saplings when the
    transition is evaluated, [fired] the random event of the fruit
    stage. *)
Definition tableEdge (g timer countdown : R) (fired : Prop)
    (saps : list Sapling) (a b : Stage) : Prop :=
  match a, b with
  | seed, sprout => g > 0.18
  | sprout, young => g > 0.42
  | young, mature => g > 0.66
  | mature, fruit => g > 0.82 /\ timer > 6000
  | fruit, decline => timer > 32000 \/ fired
  | decline, seedFall => g < 0.30
  | seedFall, rebirth => countdown > 18000
  | rebirth, sprout =>
      saps <> [] /\ Forall (fun sp => sap_growth sp > 0.98) saps
  | _, _ => False
  end.

(** The state in which a frame at [time] evaluates its transition. *)
Definition atSwitch (time : R) (s : State) : State := run (advance time) s.

(** *** Pruning *)

(** A segment that a cut may select: its branch is not the trunk and is
    not pruned. *)
Definition cuttable (h : nat -> BranchCell) (sg : Segment) : bool :=
  (0 <? br_depth (seg_branch sg))%nat
  && negb (pruned (h (br_ref (seg_branch sg)))).




(** The mutable fields of a branch right after it was cut at [now], [u]
    being the value drawn from [Math.random()]. *)
Definition cutCell (now u : R) (c : BranchCell) : BranchCell :=
  {| pruned := true; regrowAt := now + 18000 + u * 14000;
     fruits := fruits c |}.

(** What [scanSegments] knows after the segments [seen]. *)
Definition scanned (h : nat -> BranchCell) (sx sy : R)
    (seen : list Segment) (acc : Scan) : Prop :=
  (forall sg, In sg seen -> cuttable h sg = true ->
              bestDist acc <= segmentDist sx sy sg)
  /\ match chosen acc with
     | None => chosenPoint acc = None /\ bestDist acc = sawRadius CONFIG
     | Some sg =>
         In sg seen /\ cuttable h sg = true
         /\ segmentDist sx sy sg = bestDist acc
         /\ bestDist acc < sawRadius CONFIG
         /\ chosenPoint acc = Some (segmentPoint sx sy sg)
     end.

(** The state in which [performSawCut] has assigned [pruned], [regrowAt]
    and [lastCut] for the chosen segment [sg], before the sawdust. *)
Definition afterCut (now : R) (sg : Segment) (s : State) : State :=
  let ref := br_ref (seg_branch sg) in
  let h := heap (host s) in
  let u := rng (host s) (rngPos (host s)) in
  let h1 := upd h ref {| pruned := true; regrowAt := regrowAt (h ref);
                         fruits := fruits (h ref) |} in
  let h2 := upd h1 ref {| pruned := pruned (h1 ref);
                          regrowAt := now + 18000 + u * 14000;
                          fruits := fruits (h1 ref) |} in
  on_saw (set_lastCut now)
    (on_host (set_heap h2)
       (on_host (set_rngPos (S (rngPos (host s))))
          (on_host (set_heap h1) s))).

(** *** Regrowth *)

(** A property of the state that holds afterwards if it held before. *)
Definition carries (P : State -> Prop) (s s' : State) : Prop := P s -> P s'.



(** The state with the [pruned] flag of [ref] cleared. *)
Definition clearPruned (ref : nat) (s : State) : State :=
  run (setCell ref {| pruned := false;
                      regrowAt := regrowAt (heap (host s) ref);
                      fruits := fruits (heap (host s) ref) |}) s.

(** A pruned branch whose deadline has not passed at [time]: a walk at
    that time draws its stub and goes no further. *)
Definition stubbed (time : R) (h : nat -> BranchCell) (ref : nat) : bool :=
  pruned (h ref) && negb (gtb time (regrowAt (h ref))).



(** What a walk at [time] leaves as it is: growth, and which branches are
    stubs. *)
Definition walkEnv (time : R) (s s' : State) : Prop :=
  growth (climate s') = growth (climate s)
  /\ forall r, stubbed time (heap (host s')) r
               = stubbed time (heap (host s)) r.

(** The same of a step that records no segment. *)
Definition silent (time : R) (s s' : State) : Prop :=
  branchSegments (scene s') = branchSegments (scene s) /\ walkEnv time s s'.




(** *** What holds in every state the program reaches *)

(** The variables that no handler but the frame callback and [resize]
    assigns. *)
Definition quiet (s : State)
  : Life * list Sapling * option Branch * list Segment * nat :=
  (life s, saplings (scene s), tree (scene s), branchSegments (scene s),
   nextRef (host s)).

Definition climateOk (s : State) : Prop :=
  0 <= growth (climate s) <= 1.08
  /\ 0 <= targetGrowth (climate s) <= 1.08
  /\ 0 <= hydration (climate s).

Definition ripenedOk (s : State) : Prop := (0 <= fruitsRipened (life s))%Z.

Definition saplingsOk (s : State) : Prop :=
  lifeStage (life s) = rebirth -> saplings (scene s) <> [].

(** Every branch object that the state refers to has been allocated. *)
Definition allocated (s : State) (b : Branch) : Prop :=
  Forall (fun n => (br_ref n < nextRef (host s))%nat) (nodes b).

Definition refsOk (s : State) : Prop :=
  (forall t, tree (scene s) = Some t -> allocated s t)
  /\ Forall (fun sg => allocated s (seg_branch sg))
       (branchSegments (scene s)).

Definition consistent (s : State) : Prop :=
  climateOk s /\ ripenedOk s /\ saplingsOk s /\ refsOk s.

(** All rendered segments belong to branches of [root]. *)
Definition segmentsWithin (root : Branch) (s : State) : Prop :=
  Forall (fun sg => In (seg_branch sg) (nodes root))
    (branchSegments (scene s)).

(** [fruitsRipened] does not decrease. *)
Definition ripenedGrows (s s' : State) : Prop :=
  (fruitsRipened (life s) <= fruitsRipened (life s'))%Z.

(** When [fruitsRipened] is not negative, it does not increase and does
    not fall below 0. *)
Definition ripenedShrinks (s s' : State) : Prop :=
  (0 <= fruitsRipened (life s))%Z ->
  (0 <= fruitsRipened (life s') <= fruitsRipened (life s))%Z.

(** A state in the rebirth stage whose only sapling is fully grown. *)
Definition rebirthState : State :=
  on_life (set_lifeStage rebirth)
    (on_scene (set_saplings [{| sap_x := 400; sap_y := 560;
                                sap_growth := 0.99; sap_phase := 0;
                                sap_sway := 0.5 |}]) state0).

(** *** Fruit ripening and the count of ripened fruit *)

(** The fruit after the passes of the [forEach] body of [drawFruit] whose
    [deltaMs] and [hydration] are listed, the oldest first. *)
Definition ripenAll (passes : list (R * R)) (f : Fruit) : Fruit :=
  fold_left (fun f p => fst (ripen (fst p) (snd p) f)) passes f.

(** How often these passes add 1 to [fruitsRipened] for the fruit. *)
Fixpoint increments (passes : list (R * R)) (f : Fruit) : nat :=
  match passes with
  | [] => 0
  | p :: rest =>
      (if snd (ripen (fst p) (snd p) f) then 1 else 0)
      + increments rest (fst (ripen (fst p) (snd p) f))
  end.

(** Whether pass [k] (from 0) adds 1 for the fruit. *)
Definition incrementsAt (passes : list (R * R)) (f : Fruit) (k : nat)
  : bool :=
  match nth_error passes k with
  | Some p => snd (ripen (fst p) (snd p) (ripenAll (firstn k passes) f))
  | None => false
  end.

(** The fruit and its ripeness when pass [k] is done. *)
Definition fruitAfter (passes : list (R * R)) (f : Fruit) (k : nat)
  : Fruit :=
  ripenAll (firstn (S k) passes) f.

Definition ripenessAfter (passes : list (R * R)) (f : Fruit) (k : nat)
  : R :=
  ripeness (fruitAfter passes f k).

(** The fruits of a list whose flag is set, and those that one pass
    counts. *)
Definition countedOf (fs : list Fruit) : Z :=
  Z.of_nat (length (filter counted fs)).

Definition newlyCounted (dms hyd : R) (fs : list Fruit) : Z :=
  Z.of_nat (length (filter (fun f => snd (ripen dms hyd f)) fs)).

Definition countedIn (c : BranchCell) : Z :=
  match fruits c with
  | Some fs => countedOf fs
  | None => 0%Z
  end.

Fixpoint countedBelow (n : nat) (h : nat -> BranchCell) : Z :=
  match n with
  | O => 0%Z
  | S n' => (countedBelow n' h + countedIn (h n'))%Z
  end.

(** The fruits whose flag is set, over all branch objects created so
    far. *)
Definition countedFruits (s : State) : Z :=
  countedBelow (nextRef (host s)) (heap (host s)).

(** [fruitsRipened] after [spawnSaplings]. *)
Definition afterSpawn (ripened : Z) : Z :=
  Z.max 0 (ripened - fruitBonusOf ripened * 3).

(** Neither [fruitsRipened] nor a flag changes. *)
Definition tally (s : State) : Z * Z :=
  (fruitsRipened (life s), countedFruits s).

(** Among the first [n] branch objects, [fruitsRipened] grows by the
    number of flags that are set, and no flag is cleared. *)
Definition ledger (n : nat) (s s' : State) : Prop :=
  (fruitsRipened (life s') - countedBelow n (heap (host s'))
   = fruitsRipened (life s) - countedBelow n (heap (host s)))%Z
  /\ (countedBelow n (heap (host s))
      <= countedBelow n (heap (host s')))%Z.

(** *** Size of a generated tree *)

(** The least and the greatest number of nodes of a tree with [levels]
    levels below a root at [depth]: two children everywhere, or a third
    one wherever [depth > 1] allows it. *)
Fixpoint minNodes (levels : nat) : nat :=
  match levels with
  | O => 1
  | S levels' => 1 + 2 * minNodes levels'
  end.

Fixpoint maxNodes (levels depth : nat) : nat :=
  match levels with
  | O => 1
  | S levels' =>
      1 + (if (1 <? depth)%nat then 3 else 2) * maxNodes levels' (depth + 1)
  end.

(** *** Object allocation *)

(** Between [s] and [s'] the tree [t] was built: its nodes got the next
    creation indices and the next object references in creation order,
    one random number was drawn for each, and their mutable fields hold
    the values of the object literal; no other object changed. *)
Definition allocates (s : State) (t : Branch) (s' : State) : Prop :=
  let n := nodeCount t in
  map br_id (nodes t) = seq (branchIdCounter (scene s)) n
  /\ map br_ref (nodes t) = seq (nextRef (host s)) n
  /\ branchIdCounter (scene s') = (branchIdCounter (scene s) + n)%nat
  /\ nextRef (host s') = (nextRef (host s) + n)%nat
  /\ rngPos (host s') = (rngPos (host s) + n)%nat
  /\ (forall r, (nextRef (host s) <= r < nextRef (host s) + n)%nat ->
                heap (host s') r = newCell)
  /\ (forall r, ~ (nextRef (host s) <= r < nextRef (host s) + n)%nat ->
                heap (host s') r = heap (host s) r).

(** *** Ranges kept by the program *)

Definition clockOk (s : State) : Prop :=
  8 <= deltaMs (clock s) <= 120 /\ 8 <= fps (clock s) <= 120.

Definition timersOk (s : State) : Prop :=
  0 <= stageTimer (life s) /\ 0 <= regenCountdown (life s).

(** The stages in which the old tree rests and saplings grow. *)
Definition dormant (st : Stage) : bool :=
  match st with seedFall | rebirth => true | _ => false end.

(** What the life stage says about the other variables. *)
Definition stageOk (s : State) : Prop :=
  let st := lifeStage (life s) in
  let g := growth (climate s) in
  (st = seed -> g <= 0.18)
  /\ (st = sprout -> g <= 0.42)
  /\ (st = young -> g <= 0.66)
  /\ (st = fruit -> stageTimer (life s) <= 32000)
  /\ (st = seedFall -> regenCountdown (life s) <= 18000)
  /\ (st = rebirth -> 18000 < regenCountdown (life s))
  /\ (dormant st = false ->
      regenCountdown (life s) = 0 /\ saplings (scene s) = [])
  /\ Forall (fun sp => 0.02 <= sap_growth sp <= 1) (saplings (scene s)).

Definition vitalsOk (s : State) : Prop :=
  hydration (climate s) <= 1.5
  /\ clockOk s /\ timersOk s /\ tree (scene s) <> None.

Definition sound (s : State) : Prop :=
  consistent s /\ vitalsOk s /\ stageOk s.

(** The same between the integration of a frame and its stage switch:
    growth may have moved on by one easing step. *)
Definition eased (s : State) : Prop :=
  let st := lifeStage (life s) in
  let g := growth (climate s) in
  (st = seed -> g <= 0.2232)
  /\ (st = sprout -> g <= 0.4632)
  /\ (st = young -> g <= 0.7032)
  /\ (st = seedFall -> regenCountdown (life s) <= 18000)
  /\ (st = rebirth -> 18000 < regenCountdown (life s))
  /\ (dormant st = false ->
      regenCountdown (life s) = 0 /\ saplings (scene s) = [])
  /\ Forall (fun sp => 0.02 <= sap_growth sp <= 1) (saplings (scene s)).

(** The same between the stage switch and the two statements that close
    [updateLifeStage]: the countdown may still hold its last value. *)
Definition switched (s : State) : Prop :=
  let st := lifeStage (life s) in
  let g := growth (climate s) in
  (st = seed -> g <= 0.18)
  /\ (st = sprout -> g <= 0.42)
  /\ (st = young -> g <= 0.66)
  /\ (st = fruit -> stageTimer (life s) <= 32000)
  /\ (st = seedFall -> regenCountdown (life s) <= 18000)
  /\ (st = rebirth -> 18000 < regenCountdown (life s))
  /\ (dormant st = false -> saplings (scene s) = [])
  /\ Forall (fun sp => 0.02 <= sap_growth sp <= 1) (saplings (scene s)).

(** The variables that only the frame callback assigns, and growth. *)
Definition calm (s : State) : Life * Clock * list Sapling * R :=
  (life s, clock s, saplings (scene s), growth (climate s)).

(** A short run: the page is opened in an 800 by 600 window, the plant is
    watered and one frame is shown. *)
Definition sampleRun : State :=
  run (handle (Frame 16))
    (run (handle Water) (boot 800 600 0 (fun _ => 0))).

(** *** Saplings and the regeneration countdown *)

(** The growth of a sapling when the countdown of the seed-fall stage
    stands at [countdown]. *)
Definition saplingGrowthAt (countdown : R) : R :=
  Rmin 1 (0.02 + 0.00012 * countdown).

(** Saplings grow in step with the countdown; [behind] is the part of the
    countdown that [updateSaplings] has not yet added to them. *)
Definition nurseryAt (behind : R) (s : State) : Prop :=
  (lifeStage (life s) = seedFall ->
   (saplings (scene s) = [] -> regenCountdown (life s) = 0)
   /\ Forall (fun sp =>
                behind <= regenCountdown (life s)
                /\ sap_growth sp
                   = saplingGrowthAt (regenCountdown (life s) - behind))
        (saplings (scene s)))
  /\ (lifeStage (life s) = rebirth ->
      Forall (fun sp => sap_growth sp = 1) (saplings (scene s))).

Definition nursery (s : State) : Prop := nurseryAt 0 s.

(** *** The segments of a frame *)

(** The tree walk with the state in which a segment is recorded: the
    branch is not pruned there and has started to grow. *)
Record WalkCells (time : R) (ok : Branch -> Prop)
    (rel : State -> State -> Prop) : Prop := {
  wc_emit : forall c s, rel s (run (emit c) s);
  wc_push : forall sg s,
      ok (seg_branch sg) ->
      pruned (heap (host s) (br_ref (seg_branch sg))) = false ->
      progressOf (growth (climate s)) (br_depth (seg_branch sg)) > 0 ->
      rel s (run (pushSegment sg) s);
  wc_unprune : forall ref s,
      pruned (heap (host s) ref) = true ->
      time > regrowAt (heap (host s) ref) ->
      rel s (run (setCell ref
                    {| pruned := false;
                       regrowAt := regrowAt (heap (host s) ref);
                       fruits := fruits (heap (host s) ref) |}) s);
  wc_fruit : forall x y branch angle s,
      ok branch -> rel s (run (drawFruit x y branch angle time) s)
}.

(** A segment of a drawn branch of [root]. *)
Definition segmentOk (root : Branch) (s : State) (sg : Segment) : Prop :=
  In (seg_branch sg) (nodes root)
  /\ pruned (heap (host s) (br_ref (seg_branch sg))) = false
  /\ progressOf (growth (climate s)) (br_depth (seg_branch sg)) > 0.

Definition segmentsOk (root : Branch) (s : State) : Prop :=
  Forall (segmentOk root s) (branchSegments (scene s)).

(** Nothing is pruned and the segments and growth are left alone. *)
Definition nothingCut (s s' : State) : Prop :=
  branchSegments (scene s') = branchSegments (scene s)
  /\ growth (climate s') = growth (climate s)
  /\ forall r, pruned (heap (host s) r) = false ->
               pruned (heap (host s') r) = false.

(** The page has been opened and watered. *)
Definition wateredBoot : State :=
  run (handle Water) (boot 800 600 0 (fun _ => 0)).

(** *** Sawdust *)

(** The [i]-th particle that [spawnSawdust] makes at [point] when the
    random stream [rnd] stands at position [pos]. *)
Definition particleAt (point : Point) (rnd : nat -> R) (pos i : nat)
  : Particle :=
  {| p_x := pt_x point; p_y := pt_y point;
     p_vx := (rnd (pos + 2 * i)%nat - 0.5) * 0.35;
     p_vy := -0.2 - rnd (pos + 2 * i + 1)%nat * 0.3;
     p_life := 1 |}.

(** A branch of depth 1 and a state in which its only segment lies under
    the saw. *)
Definition limb : Branch :=
  {| br_ref := 0; br_id := 1; br_depth := 1; br_length := 10;
     br_angle := 0; br_seed := 0; br_children := []; br_swayPhase := 0;
     br_baseWidth := 1; br_color := {| col_r := 0; col_g := 0; col_b := 0 |};
     br_pruneLength := 3 |}.

Definition limbSegment : Segment :=
  {| seg_branch := limb; x1 := 0; y1 := 0; x2 := 0; y2 := 0 |}.

Definition sawReady : State :=
  on_scene (set_branchSegments [limbSegment]) state0.

(** *** Sawdust and the trail of the saw *)

Definition debris (s : State) : list Particle * list TrailPoint :=
  (sawdust (scene s), sawTrail (scene s)).

Definition debrisOk (s : State) : Prop :=
  (List.length (sawTrail (scene s)) <= 60)%nat
  /\ Forall (fun point => 0 < tr_life point <= 1) (sawTrail (scene s))
  /\ Forall (fun particle => 0 < p_life particle <= 1) (sawdust (scene s)).

(** *** Growth before the decline *)

(** The stages from the seed to the fruit. *)
Definition rising (st : Stage) : bool :=
  match st with
  | seed | sprout | young | mature | fruit => true
  | _ => false
  end.

(** [Math.random()] returns numbers in [0, 1). *)
Definition fair (s : State) : Prop := forall n, 0 <= rng (host s) n < 1.

Definition risingOk (s : State) : Prop :=
  (rising (lifeStage (life s)) = true ->
   growth (climate s) <= targetGrowth (climate s))
  /\ (lifeStage (life s) = young -> 0.42 < growth (climate s))
  /\ (lifeStage (life s) = mature -> 0.66 < growth (climate s))
  /\ (lifeStage (life s) = fruit -> 0.82 < growth (climate s)).

(** *** The fruit of a branch *)

Definition fruitOk (f : Fruit) : Prop :=
  0 <= ripeness f <= 1.2 /\ (counted f = true <-> 0.98 < ripeness f).

(** Every branch object that has fruit has one or two, each well formed. *)
Definition fruitsOk (s : State) : Prop :=
  forall r fs,
    fruits (heap (host s) r) = Some fs ->
    (1 <= List.length fs <= 2)%nat /\ Forall fruitOk fs.

(** The fruit is well formed and will stay so when it ripens in the next
    frame. *)
Definition orchard (s : State) : Prop :=
  fruitsOk s /\ 0 <= deltaMs (clock s) /\ 0 <= hydration (climate s).

(** *** Where saplings are planted *)

(** A sapling as [spawnSaplings] plants it on a canvas of [w] by [h]. *)
Definition planted (w h : R) (sp : Sapling) : Prop :=
  Rabs (sap_x sp - w / 2) <= 0.09 * Rabs w
  /\ h - 45 <= sap_y sp <= h - 35
  /\ sap_growth sp = 0.02
  /\ 0 <= sap_phase sp < 2 * PI
  /\ 0.4 <= sap_sway sp < 1.

(** *** Pointer coordinates *)

(** The bounding rectangle of the canvas element, in client pixels. *)
Record Rect := { rc_left : R; rc_top : R; rc_width : R; rc_height : R }.

(** [pointerToCanvas]: the client position of a pointer event in canvas
    pixels; [cw] and [ch] are [canvas.width] and [canvas.height]. *)
Definition pointerToCanvas (clientX clientY : R) (rect : Rect) (cw ch : R)
  : Point :=
  {| pt_x := (clientX - rc_left rect) / rc_width rect * cw;
     pt_y := (clientY - rc_top rect) / rc_height rect * ch |}.

(** *** Order of the recorded segments *)

(** [Subseq l l']: [l] is [l'] with some elements left out. *)
Inductive Subseq {A : Type} : list A -> list A -> Prop :=
  | sub_nil : Subseq [] []
  | sub_skip a l l' : Subseq l l' -> Subseq l (a :: l')
  | sub_take a l l' : Subseq l l' -> Subseq (a :: l) (a :: l').

(** The procedure [m] run from [s] appends to the recorded segments, and
    the branches of what it appends are among [within], in that order. *)
Definition appends (within : list Branch) {A} (m : M A) (s : State) : Prop :=
  exists sub,
    branchSegments (scene (run m s)) = branchSegments (scene s) ++ sub
    /\ Subseq (map seg_branch sub) within.

(** *** Debris fades *)

(** A run of frames with the time stamps [times], with no other event in
    between. *)
Definition runFrames (times : list R) (s : State) : State :=
  fold_left (fun x time => run (loop time) x) times s.

(** The state after the first [k] frames of such a run. *)
Definition afterFrames (times : list R) (s : State) (k : nat) : State :=
  runFrames (firstn k times) s.

(** No sawdust particle has more life than [bd], no trail point more than
    [bt]. *)
Definition fading (bd bt : R) (s : State) : Prop :=
  Forall (fun particle => p_life particle <= bd) (sawdust (scene s))
  /\ Forall (fun point => tr_life point <= bt) (sawTrail (scene s)).

Definition glowing (s : State) : Prop :=
  Forall (fun particle => 0 < p_life particle) (sawdust (scene s))
  /\ Forall (fun point => 0 < tr_life point) (sawTrail (scene s)).

(** *** The length of a segment *)

(** The length at which a branch is drawn when growth is [g]. *)
Definition drawnLength (g : R) (branch : Branch) : R :=
  br_length branch * easeOutCubic (progressOf g (br_depth branch)).

(** The segment that the walk records for [branch] drawn from
    [(startX, startY)] at [angle], in state [s]. *)
Definition segmentOf (s : State) (branch : Branch) (startX startY angle : R)
  : Segment :=
  let len := drawnLength (growth (climate s)) branch in
  {| seg_branch := branch; x1 := startX; y1 := startY;
     x2 := startX + sin angle * len; y2 := startY - cos angle * len |}.

(** The tree walk with the segments in the form in which it records
    them. *)
Record WalkShapes (time : R) (rel : State -> State -> Prop) : Prop := {
  wh_emit : forall c s, rel s (run (emit c) s);
  wh_push : forall branch startX startY angle s,
      rel s (run (pushSegment (segmentOf s branch startX startY angle)) s);
  wh_unprune : forall ref s,
      pruned (heap (host s) ref) = true ->
      time > regrowAt (heap (host s) ref) ->
      rel s (run (setCell ref
                    {| pruned := false;
                       regrowAt := regrowAt (heap (host s) ref);
                       fruits := fruits (heap (host s) ref) |}) s);
  wh_fruit : forall x y branch angle s,
      rel s (run (drawFruit x y branch angle time) s)
}.

(** A segment as long as its branch is drawn. *)
Definition segmentLong (s : State) (sg : Segment) : Prop :=
  Math_hypot (x2 sg - x1 sg) (y2 sg - y1 sg)
  = Rabs (br_length (seg_branch sg))
    * easeOutCubic (progressOf (growth (climate s))
                      (br_depth (seg_branch sg))).

Definition segmentsLong (s : State) : Prop :=
  Forall (segmentLong s) (branchSegments (scene s)).

(** *** The life cycle runs through *)

(** A run of events, in order. *)
Definition runEvents (events : list Event) (s : State) : State :=
  fold_left (fun x e => run (handle e) x) events s.

(** The stage that follows [st] in the cycle. *)
Definition nextStage (st : Stage) : Stage :=
  match st with
  | seed => sprout
  | sprout => young
  | young => mature
  | mature => fruit
  | fruit => decline
  | decline => seedFall
  | seedFall => rebirth
  | rebirth => sprout
  end.

(** A dry tree that the pulses have given the largest target. *)
Definition primed (s : State) : Prop :=
  reachable s
  /\ hydration (climate s) = 0
  /\ targetGrowth (climate s) = 1.08.

(** One frame whose time stamp is 0, and [n] of them. *)
Definition tick (s : State) : State := run (loop 0) s.

Definition ticks (n : nat) (s : State) : State := Nat.iter n tick s.

(** *** Fruit on the tree *)

(** No branch is pruned. *)
Definition uncut (s : State) : Prop :=
  forall r, pruned (heap (host s) r) = false.

(** There is a tree, with the depths of a generated one. *)
Definition grownTree (s : State) : Prop :=
  exists root,
    tree (scene s) = Some root
    /\ Forall (depthOk (maxDepth CONFIG)) (nodes root).

(** Some branch object has fruit. *)
Definition bearsFruit (s : State) : Prop :=
  exists r, fruits (heap (host s) r) <> None.

(** No random number is small enough to end the fruit stage early. *)
Definition mild (s : State) : Prop :=
  forall n, 0.0001 <= rng (host s) n < 1.

(** ** The backdrop: clouds, fireflies and birds

    These layers do not act on the tree; their objects are kept apart from
    the state of the simulation and passed to the procedures. *)

Record Cloud := {
  cl_x : R;
  cl_y : R;
  cl_speed : R;
  cl_scale : R;
  cl_opacity : R
}.

Definition newCloud : M Cloud :=
  w <- gets (fun s => width (scene s)) ;;
  h <- gets (fun s => height (scene s)) ;;
  ux <- Math_random ;;
  uy <- Math_random ;;
  us <- Math_random ;;
  uc <- Math_random ;;
  uo <- Math_random ;;
  ret {| cl_x := ux * w;
         cl_y := h * (0.08 + uy * 0.2);
         cl_speed := 10 + us * 25;
         cl_scale := 0.6 + uc * 1.2;
         cl_opacity := 0.2 + uo * 0.2 |}.

Definition buildClouds : M (list Cloud) := repeatM 6 newCloud.

(** The body of the [forEach] of [updateClouds]. *)
Definition updateCloud (delta w : R) (cloud : Cloud) : Cloud :=
  let x := cl_x cloud + cl_speed cloud * delta * 0.0001 in
  {| cl_x := if gtb x (w + 200) then -200 else x;
     cl_y := cl_y cloud;
     cl_speed := cl_speed cloud;
     cl_scale := cl_scale cloud;
     cl_opacity := cl_opacity cloud |}.

Definition updateClouds (delta : R) (clouds : list Cloud) : M (list Cloud) :=
  w <- gets (fun s => width (scene s)) ;;
  ret (map (updateCloud delta w) clouds).

Record Firefly := {
  ff_x : R;
  ff_y : R;
  ff_scale : R;
  ff_speed : R;
  ff_hue : R;
  ff_seed : R
}.

Definition newFirefly : M Firefly :=
  ux <- Math_random ;;
  uy <- Math_random ;;
  uc <- Math_random ;;
  us <- Math_random ;;
  uh <- Math_random ;;
  ud <- Math_random ;;
  ret {| ff_x := ux; ff_y := uy;
         ff_scale := 0.6 + uc * 1.4;
         ff_speed := 0.2 + us * 0.6;
         ff_hue := 80 + uh * 40;
         ff_seed := ud * 10 |}.

Definition createFireflies (count : nat) : M (list Firefly) :=
  repeatM count newFirefly.

(** The body of the [forEach] of [updateFireflies]. *)
Definition updateFirefly (delta : R) (light : Firefly) : M Firefly :=
  sn <- gets (fun s => season (climate s)) ;;
  let y := ff_y light - ff_speed light * delta / 8000 in
  let x := ff_x light + sin (sn + ff_seed light) * 0.0002 * delta in
  if ltb y (-0.05) then
    u <- Math_random ;;
    ret {| ff_x := u; ff_y := 1.1; ff_scale := ff_scale light;
           ff_speed := ff_speed light; ff_hue := ff_hue light;
           ff_seed := ff_seed light |}
  else
    ret {| ff_x := x; ff_y := y; ff_scale := ff_scale light;
           ff_speed := ff_speed light; ff_hue := ff_hue light;
           ff_seed := ff_seed light |}.

Definition updateFireflies (delta : R) (lights : list Firefly)
  : M (list Firefly) :=
  mapM (updateFirefly delta) lights.

Record Bird := {
  bd_x : R;
  bd_y : R;
  bd_speed : R;
  bd_direction : R;
  bd_amplitude : R;
  bd_phase : R;
  bd_layer : R
}.

Definition spawnBird : M Bird :=
  w <- gets (fun s => width (scene s)) ;;
  h <- gets (fun s => height (scene s)) ;;
  ux <- Math_random ;;
  uy <- Math_random ;;
  us <- Math_random ;;
  ud <- Math_random ;;
  ua <- Math_random ;;
  up <- Math_random ;;
  ul <- Math_random ;;
  ret {| bd_x := ux * w;
         bd_y := h * (0.15 + uy * 0.35);
         bd_speed := 35 + us * 45;
         bd_direction := if gtb ud 0.5 then 1 else -1;
         bd_amplitude := 6 + ua * 10;
         bd_phase := up * PI * 2;
         bd_layer := 0.4 + ul * 0.4 |}.

Definition createBirds (count : nat) : M (list Bird) :=
  repeatM count spawnBird.

Definition set_bird_course (x direction : R) (b : Bird) : Bird :=
  {| bd_x := x; bd_y := bd_y b; bd_speed := bd_speed b;
     bd_direction := direction; bd_amplitude := bd_amplitude b;
     bd_phase := bd_phase b; bd_layer := bd_layer b |}.

(** The body of the [forEach] of [updateBirds]: the bird that stands at
    the index afterwards. *)
Definition updateBird (delta : R) (bird : Bird) : M Bird :=
  w <- gets (fun s => width (scene s)) ;;
  let phase := bd_phase bird + delta * 0.002 in
  let x := bd_x bird + bd_speed bird * bd_direction bird * delta * 0.0003 in
  let y := bd_y bird + sin phase * bd_amplitude bird * 0.02 in
  if gtb (bd_direction bird) 0 && gtb x (w + 40) then
    b <- spawnBird ;;
    ret (set_bird_course (-40) 1 b)
  else if ltb (bd_direction bird) 0 && ltb x (-40) then
    b <- spawnBird ;;
    ret (set_bird_course (w + 40) (-1) b)
  else
    ret {| bd_x := x; bd_y := y; bd_speed := bd_speed bird;
           bd_direction := bd_direction bird;
           bd_amplitude := bd_amplitude bird;
           bd_phase := phase; bd_layer := bd_layer bird |}.

Definition updateBirds (delta : R) (birds : list Bird) : M (list Bird) :=
  mapM (updateBird delta) birds.

(** A cloud between its re-entry point and the right end of its course. *)
Definition cloudInBand (w : R) (c : Cloud) : Prop :=
  -200 <= cl_x c <= w + 200 /\ 10 <= cl_speed c <= 35.

(** A firefly between the height at which it leaves and the height at
    which it comes back. *)
Definition fireflyInBand (f : Firefly) : Prop :=
  -0.05 <= ff_y f <= 1.1 /\ 0.2 <= ff_speed f < 0.8.

(** A bird on its course: flying right and not beyond the right end, or
    flying left and not beyond the left end. *)
Definition birdOnCourse (w : R) (b : Bird) : Prop :=
  (bd_direction b = 1 /\ bd_x b <= w + 40
   \/ bd_direction b = -1 /\ -40 <= bd_x b)
  /\ 35 <= bd_speed b <= 80.

(** The state as far as the backdrop reads it: the random numbers are in
    [0, 1) and the canvas has width [w]. *)
Definition stage_set (w : R) (s : State) : Prop :=
  fair s /\ width (scene s) = w.

(** ** The arithmetic of the script in binary64

    The embedding above computes with real numbers.  The script computes
    with IEEE 754 binary64 numbers, and each operation rounds to the
    nearest of them.  Where a statement turns on the last bit, the
    expression of the script is written here once more on binary64
    numbers, operation by operation, so that it can be evaluated. *)

Module Binary64.
Import PrimFloat.
Local Open Scope float_scope.
#[local] Set Warnings "-inexact-float".

(** [Math.max] and [Math.min] of two numbers, neither of them NaN. *)
Definition Math_max (a b : float) : float := if a <? b then b else a.

Definition Math_min (a b : float) : float := if b <? a then b else a.

Definition clamp (value min max : float) : float :=
  Math_min max (Math_max min value).

(** The largest number that [Math.random()] can return: the binary64
    number next below 1. *)
Definition lastDraw : float := 0x1.fffffffffffffp-1.

(** [deltaMs = time - lastTime || 16], then clamped to [8, 120]. *)
Definition elapsed (time last : float) : float :=
  let d := time - last in
  let d := if orb (d =? 0) (is_nan d) then 16 else d in
  Math_min (Math_max d 8) 120.

(** The two assignments of [loop] to [growth]. *)
Definition easeGrowth (dms target g : float) : float :=
  let lerpFactor := clamp (dms * 0.00022) 0 0.04 in
  clamp (g + (target - g) * lerpFactor) 0 1.08.

(** [growth] after [n] frames that each take [dms] milliseconds, while
    [targetGrowth] stays at [target]. *)
Definition easedGrowth (dms target g : float) (n : positive) : float :=
  Pos.iter (easeGrowth dms target) g n.

(** [now + 18000 + Math.random() * 14000] of [performSawCut]. *)
Definition regrowAt (now u : float) : float := now + 18000 + u * 14000.

(** [randomCount] of [spawnSaplings], with [saplingMin = 2] and
    [saplingMax = 4]. *)
Definition randomCount (u : float) : float := 2 + u * (4 - 2 + 1).

(** [y], [phase] and [sway] of a new sapling. *)
Definition saplingY (height u : float) : float := height - 45 + u * 10.

Definition saplingSway (u : float) : float := 0.4 + u * 0.6.

(** [speed] of a new cloud, of a new firefly and of a new bird. *)
Definition cloudSpeed (u : float) : float := 10 + u * 25.

Definition fireflySpeed (u : float) : float := 0.2 + u * 0.6.

Definition birdSpeed (u : float) : float := 35 + u * 45.

End Binary64.

(** * Proofs *)

(** ** The generator *)

Lemma seededRandom_range seed : 0 <= seededRandom seed <= 1.
Proof.
  unfold seededRandom.
  pose proof (SIN_bound (seed * 9341.13)) as [Hlo Hhi]. lra.
Qed.

Lemma branchLiteral_own depth length angle seed st :
  ownFields depth length angle seed
    (fst (branchLiteral depth length angle seed st))
  /\ br_children (fst (branchLiteral depth length angle seed st)) = [].
Proof. unfold ownFields. simpl. repeat split. Qed.

Lemma push_child_own depth length angle seed c b :
  ownFields depth length angle seed b ->
  ownFields depth length angle seed (push_child c b).
Proof. unfold ownFields. simpl. tauto. Qed.

Lemma createBranchFrom_generated levels :
  forall depth length angle seed st,
    Generated levels depth length angle seed
      (fst (createBranchFrom levels depth length angle seed st)).
Proof.
  induction levels as [|levels IH]; intros depth length angle seed st.
  - cbn [createBranchFrom]. unfold bind, ret.
    pose proof (branchLiteral_own depth length angle seed st) as [Ho Hc].
    destruct (branchLiteral depth length angle seed st) as [b st1].
    cbn [fst] in *. apply gen_leaf; assumption.
  - cbn [createBranchFrom]. unfold bind, ret.
    pose proof (branchLiteral_own depth length angle seed st) as [Ho Hc].
    destruct (branchLiteral depth length angle seed st) as [b st1].
    cbn [fst] in Ho, Hc.
    pose proof (IH (depth + 1)%nat (length * lenFactorOf depth seed)
                  (angle + spreadOf seed + leanOf seed) (seed * 1.71 + 1)
                  st1) as G1.
    destruct (createBranchFrom levels (depth + 1) _ _ _ st1) as [c1 st2].
    pose proof (IH (depth + 1)%nat (length * lenFactorOf depth seed)
                  (angle - spreadOf seed + leanOf seed) (seed * 1.71 + 2)
                  st2) as G2.
    destruct (createBranchFrom levels (depth + 1) _ _ _ st2) as [c2 st3].
    destruct (hasThirdChild depth seed) eqn:H3.
    + pose proof (IH (depth + 1)%nat
                    (length * (lenFactorOf depth seed * 0.9))
                    (angle + varianceOf seed) (seed * 1.71 + 3) st3) as G3.
      destruct (createBranchFrom levels (depth + 1) _ _ _ st3) as [c3 st4].
      cbn [fst] in *.
      eapply gen_three; eauto;
        first [ repeat apply push_child_own; assumption
              | simpl; rewrite Hc; reflexivity ].
    + cbn [fst] in *.
      eapply gen_two; eauto;
        first [ repeat apply push_child_own; assumption
              | simpl; rewrite Hc; reflexivity ].
Qed.

Lemma Branch_rect' (P : Branch -> Prop)
  (step : forall b, Forall P (br_children b) -> P b) :
  forall b, P b.
Proof.
  fix IH 1. intros b. apply step. destruct b as [? ? ? ? ? ? ch ? ? ? ?].
  simpl. induction ch as [|c ch IHch]; constructor.
  - apply IH.
  - apply IHch.
Qed.

Lemma nodes_unfold b : nodes b = b :: flat_map nodes (br_children b).
Proof. destruct b; reflexivity. Qed.

Lemma shape_unfold b :
  shape b = mkShape (br_depth b) (br_length b) (br_angle b) (br_seed b)
              (br_baseWidth b) (br_color b) (br_pruneLength b)
              (map shape (br_children b)).
Proof. destruct b; reflexivity. Qed.

Lemma Generated_shape levels depth length angle seed b1 :
  Generated levels depth length angle seed b1 ->
  forall b2, Generated levels depth length angle seed b2 ->
  shape b1 = shape b2.
Proof.
  induction 1 as
    [d l a s b Ho Hc
    |lv d l a s b c1 c2 Ho H3 Hc G1 IH1 G2 IH2
    |lv d l a s b c1 c2 c3 Ho H3 Hc G1 IH1 G2 IH2 G3 IH3];
    intros b2 G; inversion G; subst; try congruence;
    rewrite (shape_unfold b), (shape_unfold b2);
    repeat match goal with
           | H : ownFields _ _ _ _ _ |- _ =>
               destruct H as (? & ? & ? & ? & ? & ? & ?)
           end;
    repeat match goal with
           | H : br_children _ = _ |- _ => rewrite H
           end;
    simpl; f_equal; try congruence.
  - erewrite IH1, IH2 by eassumption. reflexivity.
  - erewrite IH1, IH2, IH3 by eassumption. reflexivity.
Qed.

Lemma shape_nodeCount b1 :
  forall b2, shape b1 = shape b2 -> nodeCount b1 = nodeCount b2.
Proof.
  unfold nodeCount.
  induction b1 as [b1 IH] using Branch_rect'. intros b2 E.
  rewrite (shape_unfold b1), (shape_unfold b2) in E.
  injection E as _ _ _ _ _ _ _ Ech.
  rewrite (nodes_unfold b1), (nodes_unfold b2). simpl. f_equal.
  revert IH Ech. generalize (br_children b2) as l2.
  induction (br_children b1) as [|c l1 IHl]; intros l2 IH Ech;
    destruct l2 as [|c2 l2]; simpl in *; try discriminate; auto.
  injection Ech as E1 E2. inversion IH as [|? ? Hc Hl]; subst.
  rewrite !length_app. f_equal; auto.
Qed.

Lemma shape_subtree path :
  forall b1 b2, shape b1 = shape b2 ->
  option_map nodeData (subtree path b1) = option_map nodeData (subtree path b2).
Proof.
  induction path as [|i path IH]; intros b1 b2 E.
  - simpl. unfold nodeData.
    rewrite (shape_unfold b1), (shape_unfold b2) in E.
    injection E as E1 E2 E3 E4 E5 E6 E7 E8.
    rewrite E1, E2, E3, E6.
    replace (length (br_children b1)) with (length (br_children b2)); auto.
    rewrite <- (length_map shape (br_children b1)), E8, length_map. reflexivity.
  - simpl.
    rewrite (shape_unfold b1), (shape_unfold b2) in E.
    injection E as _ _ _ _ _ _ _ Ech.
    assert (Hn : option_map shape (nth_error (br_children b1) i)
                 = option_map shape (nth_error (br_children b2) i)).
    { rewrite <- !nth_error_map. rewrite Ech. reflexivity. }
    destruct (nth_error (br_children b1) i) as [c1|],
             (nth_error (br_children b2) i) as [c2|]; simpl in Hn;
      try discriminate; auto.
    injection Hn as Hn. apply IH, Hn.
Qed.

Lemma Generated_own levels depth length angle seed b :
  Generated levels depth length angle seed b ->
  ownFields depth length angle seed b.
Proof. destruct 1; assumption. Qed.

Lemma createBranch_generated depth length angle seed st :
  Generated (maxDepth CONFIG - depth) depth length angle seed
    (fst (createBranch depth length angle seed st)).
Proof. apply createBranchFrom_generated. Qed.

Lemma In_nodes_root b : In b (nodes b).
Proof. rewrite nodes_unfold. left. reflexivity. Qed.

Lemma In_nodes_child c b n :
  In c (br_children b) -> In n (nodes c) -> In n (nodes b).
Proof.
  intros Hc Hn. rewrite nodes_unfold. right.
  apply in_flat_map. exists c. split; assumption.
Qed.

Lemma depthOk_shift limit limit' l :
  limit = limit' -> Forall (depthOk limit) l -> Forall (depthOk limit') l.
Proof. intros ->. auto. Qed.

Lemma Generated_depthOk levels depth length angle seed b :
  Generated levels depth length angle seed b ->
  br_depth b = depth
  /\ Forall (depthOk (depth + levels)) (nodes b)
  /\ Exists (fun n => br_depth n = (depth + levels)%nat) (nodes b).
Proof.
  induction 1 as
    [d l a s b Ho Hc
    |lv d l a s b c1 c2 Ho H3 Hc G1 IH1 G2 IH2
    |lv d l a s b c1 c2 c3 Ho H3 Hc G1 IH1 G2 IH2 G3 IH3];
    pose proof Ho as (Hd & _); rewrite nodes_unfold, Hc; simpl.
  - split; [assumption|]. split.
    + constructor; [|constructor].
      unfold depthOk. rewrite Hc, Hd. simpl.
      repeat split; try lia; auto.
    + left. lia.
  - destruct IH1 as (D1 & F1 & E1), IH2 as (D2 & F2 & E2).
    split; [assumption|]. split.
    + constructor.
      * unfold depthOk. rewrite Hc, Hd. simpl.
        repeat split; try lia; auto.
        repeat constructor; lia.
      * rewrite app_nil_r. apply Forall_app. split;
          (eapply depthOk_shift; [|eassumption]; lia).
    + right. apply Exists_app. left.
      replace (d + S lv)%nat with (d + 1 + lv)%nat by lia. assumption.
  - destruct IH1 as (D1 & F1 & E1), IH2 as (D2 & F2 & E2),
      IH3 as (D3 & F3 & E3).
    split; [assumption|]. split.
    + constructor.
      * unfold depthOk. rewrite Hc, Hd. simpl.
        repeat split; try lia; auto.
        repeat constructor; lia.
      * rewrite app_nil_r. repeat (apply Forall_app; split);
          (eapply depthOk_shift; [|eassumption]; lia).
    + right. apply Exists_app. left.
      replace (d + S lv)%nat with (d + 1 + lv)%nat by lia. assumption.
Qed.

Lemma Generated_primary levels depth length angle seed b :
  Generated levels depth length angle seed b ->
  Forall (fun n => br_children n <> [] -> primaryChildren n) (nodes b).
Proof.
  induction 1 as
    [d l a s b Ho Hc
    |lv d l a s b c1 c2 Ho H3 Hc G1 IH1 G2 IH2
    |lv d l a s b c1 c2 c3 Ho H3 Hc G1 IH1 G2 IH2 G3 IH3];
    rewrite nodes_unfold, Hc; simpl.
  - constructor; [|constructor]. intros Hne. contradiction.
  - constructor.
    + intros _. destruct Ho as (Hd & Hl & Ha & Hs & _).
      apply Generated_own in G1, G2.
      destruct G1 as (_ & L1 & A1 & _), G2 as (_ & L2 & A2 & _).
      exists c1, c2, []. rewrite Hd, Hl, Ha, Hs. auto.
    + rewrite app_nil_r. apply Forall_app. split; assumption.
  - constructor.
    + intros _. destruct Ho as (Hd & Hl & Ha & Hs & _).
      apply Generated_own in G1, G2.
      destruct G1 as (_ & L1 & A1 & _), G2 as (_ & L2 & A2 & _).
      exists c1, c2, [c3]. rewrite Hd, Hl, Ha, Hs. auto.
    + rewrite app_nil_r. repeat (apply Forall_app; split); assumption.
Qed.

Lemma spreadOf_range seed : 0.25 <= spreadOf seed <= 0.60.
Proof.
  unfold spreadOf. pose proof (seededRandom_range (seed + 1)). lra.
Qed.

Lemma leanOf_range seed : -0.09 <= leanOf seed <= 0.09.
Proof.
  unfold leanOf. pose proof (seededRandom_range (seed + 3)). lra.
Qed.

Lemma lenFactorOf_range depth seed :
  0.68 - INR depth * 0.01 <= lenFactorOf depth seed
  <= 0.78 - INR depth * 0.01.
Proof.
  unfold lenFactorOf. pose proof (seededRandom_range (seed + 2)). lra.
Qed.

Lemma INR_below_maxDepth depth :
  (depth < maxDepth CONFIG)%nat -> 0 <= INR depth <= 6.
Proof.
  intros H. split; [apply pos_INR|].
  replace 6 with (INR 6) by (simpl; lra).
  apply le_INR. simpl in H. lia.
Qed.

(** C1. Two calls of [createBranch] at depth 0 with the same length, angle
    and seed, from any two program states (so with any id counter, any
    random stream and any object store), build structurally identical
    trees: the same shape, hence the same node count and, at every child
    path, the same depth, length, angle, color and number of children. *)
Theorem createBranch_deterministic :
  forall (length angle seed : R) (st1 st2 : State),
    let t1 := fst (createBranch 0 length angle seed st1) in
    let t2 := fst (createBranch 0 length angle seed st2) in
    shape t1 = shape t2
    /\ nodeCount t1 = nodeCount t2
    /\ forall path,
         option_map nodeData (subtree path t1)
         = option_map nodeData (subtree path t2).
Proof.
  intros length angle seed st1 st2 t1 t2.
  assert (E : shape t1 = shape t2).
  { eapply Generated_shape; apply createBranch_generated. }
  split; [exact E|]. split.
  - apply shape_nodeCount, E.
  - intros path. apply shape_subtree, E.
Qed.

(** C2. A tree built by [createBranch] at depth 0 has its root at depth 0;
    every node has depth at most [maxDepth]; a node at depth [maxDepth] has
    no children; a node above it has exactly 2 or 3 children, each one
    level deeper; and some node has depth exactly [maxDepth]. *)
Theorem createBranch_depth_bound :
  forall (len angle seed : R) (st : State),
    let t := fst (createBranch 0 len angle seed st) in
    br_depth t = 0%nat
    /\ Forall (depthOk (maxDepth CONFIG)) (nodes t)
    /\ Exists (fun n => br_depth n = maxDepth CONFIG) (nodes t)
    /\ Forall (fun n => length (br_children n) = 0%nat
                        \/ length (br_children n) = 2%nat
                        \/ length (br_children n) = 3%nat) (nodes t).
Proof.
  intros len angle seed st t.
  destruct (Generated_depthOk _ _ _ _ _ _
              (createBranch_generated 0 len angle seed st))
    as (Hd & Hall & Hex).
  fold t in Hd, Hall, Hex.
  repeat split; try assumption.
  eapply Forall_impl; [|exact Hall].
  intros n (Hle & Hleaf & Hfork & _).
  destruct (Nat.eq_dec (br_depth n) (maxDepth CONFIG)) as [E|NE].
  - left. rewrite (Hleaf E). reflexivity.
  - right. apply Hfork. change (0 + (maxDepth CONFIG - 0))%nat
      with (maxDepth CONFIG) in Hle. lia.
Qed.

Lemma Generated_first levels depth length angle seed b :
  Generated (S levels) depth length angle seed b ->
  exists c1,
    In c1 (br_children b)
    /\ Generated levels (depth + 1) (length * lenFactorOf depth seed)
         (angle + spreadOf seed + leanOf seed) (seed * 1.71 + 1) c1.
Proof.
  inversion 1; subst; exists c1;
    (split; [rewrite H3; left; reflexivity | assumption]).
Qed.

Lemma seededRandom_at_multiple (k : Z) seed :
  seed * 9341.13 = IZR k * PI -> seededRandom seed = 0.5.
Proof.
  intros H. unfold seededRandom. rewrite H.
  rewrite (sin_eq_0_1 (IZR k * PI)) by (exists k; reflexivity). lra.
Qed.

Lemma degenerateSeed_range : 0 <= degenerateSeed / 1000 < 1.
Proof.
  pose proof PI2_3_2. pose proof PI_4. unfold degenerateSeed. lra.
Qed.

(** C9, as the code has it.  For every node of a generated tree that lies
    above [maxDepth]: [spread] is in [0.25, 0.60], [lean] in [-0.09, 0.09],
    [lenFactor] in [0.68 - 0.01 * depth, 0.78 - 0.01 * depth] (so within
    [0.62, 0.78]), and the first two children have the angles
    [angle + spread + lean] and [angle - spread + lean] and the length
    [length * lenFactor]. *)
Theorem branching_parameters :
  forall (len angle seed : R) (st : State) (n : Branch),
    In n (nodes (fst (createBranch 0 len angle seed st))) ->
    (br_depth n < maxDepth CONFIG)%nat ->
    0.25 <= spreadOf (br_seed n) <= 0.60
    /\ -0.09 <= leanOf (br_seed n) <= 0.09
    /\ 0.68 - INR (br_depth n) * 0.01
       <= lenFactorOf (br_depth n) (br_seed n)
       <= 0.78 - INR (br_depth n) * 0.01
    /\ 0.62 <= lenFactorOf (br_depth n) (br_seed n) <= 0.78
    /\ primaryChildren n.
Proof.
  intros len angle seed st n Hin Hlt.
  pose proof (createBranch_generated 0 len angle seed st) as G.
  pose proof (lenFactorOf_range (br_depth n) (br_seed n)) as HL.
  pose proof (INR_below_maxDepth _ Hlt) as HD.
  split; [apply spreadOf_range|].
  split; [apply leanOf_range|].
  split; [exact HL|].
  split; [lra|].
  pose proof (Generated_primary _ _ _ _ _ _ G) as HP.
  destruct (Generated_depthOk _ _ _ _ _ _ G) as (_ & HO & _).
  rewrite Forall_forall in HP, HO.
  apply HP; [exact Hin|].
  destruct (HO n Hin) as (_ & _ & Hfork & _).
  change (0 + (maxDepth CONFIG - 0))%nat with (maxDepth CONFIG) in Hfork.
  destruct (Hfork Hlt) as [E|E]; intros Hnil; rewrite Hnil in E;
    discriminate E.
Qed.

Lemma branching_parameters_witness :
  let root := fst (createBranch 0 100 0 0 state0) in
  In root (nodes root)
  /\ (br_depth root < maxDepth CONFIG)%nat
  /\ 0.62 <= lenFactorOf (br_depth root) (br_seed root) <= 0.78
  /\ primaryChildren root.
Proof.
  intros root.
  assert (Hin : In root (nodes root)) by apply In_nodes_root.
  assert (Hlt : (br_depth root < maxDepth CONFIG)%nat).
  { destruct (Generated_own _ _ _ _ _ _
                (createBranch_generated 0 100 0 0 state0)) as (Hd & _).
    fold root in Hd. rewrite Hd. simpl. lia. }
  split; [exact Hin|]. split; [exact Hlt|].
  destruct (branching_parameters 100 0 0 state0 root Hin Hlt)
    as (_ & _ & _ & HL & HP).
  split; assumption.
Defined.

(** C9, as the spec has it, fails: [degenerateSeed] is a root seed that
    [Math.random() * 1000] can take, and in the tree grown from it the node
    reached by taking the first child six times has depth 6 and a seed at
    which [seededRandom (seed + 2)] is 0.5, so that its [lenFactor] is
    0.67, below 0.68. *)
Lemma lenFactor_below_claimed_range :
  0 <= degenerateSeed / 1000 < 1
  /\ exists n,
       In n (nodes (fst (createBranch 0 100 0 degenerateSeed state0)))
       /\ (br_depth n < maxDepth CONFIG)%nat
       /\ lenFactorOf (br_depth n) (br_seed n) = 0.67
       /\ ~ (0.68 <= lenFactorOf (br_depth n) (br_seed n) <= 0.78).
Proof.
  split; [exact degenerateSeed_range|].
  pose proof (createBranch_generated 0 100 0 degenerateSeed state0) as G0.
  set (t := fst (createBranch 0 100 0 degenerateSeed state0)) in *.
  change (maxDepth CONFIG - 0)%nat with 7%nat in G0.
  destruct (Generated_first _ _ _ _ _ _ G0) as (c1 & I1 & G1).
  destruct (Generated_first _ _ _ _ _ _ G1) as (c2 & I2 & G2).
  destruct (Generated_first _ _ _ _ _ _ G2) as (c3 & I3 & G3).
  destruct (Generated_first _ _ _ _ _ _ G3) as (c4 & I4 & G4).
  destruct (Generated_first _ _ _ _ _ _ G4) as (c5 & I5 & G5).
  destruct (Generated_first _ _ _ _ _ _ G5) as (c6 & I6 & G6).
  destruct (Generated_own _ _ _ _ _ _ G6) as (Hd & _ & _ & Hs & _).
  assert (Hseed : (br_seed c6 + 2) * 9341.13 = 300000 * PI).
  { rewrite Hs. unfold degenerateSeed. lra. }
  assert (Hlen : lenFactorOf (br_depth c6) (br_seed c6) = 0.67).
  { rewrite Hd. unfold lenFactorOf.
    rewrite (seededRandom_at_multiple 300000 _ Hseed). simpl. lra. }
  exists c6. split; [|split; [|split]].
  - apply (In_nodes_child c1 t); [exact I1|].
    apply (In_nodes_child c2 c1); [exact I2|].
    apply (In_nodes_child c3 c2); [exact I3|].
    apply (In_nodes_child c4 c3); [exact I4|].
    apply (In_nodes_child c5 c4); [exact I5|].
    apply (In_nodes_child c6 c5); [exact I6|].
    apply In_nodes_root.
  - rewrite Hd. simpl. lia.
  - exact Hlen.
  - rewrite Hlen. lra.
Qed.

(** *** The size of a generated tree *)

Lemma nodeCount_children b :
  nodeCount b = S (length (flat_map nodes (br_children b))).
Proof. unfold nodeCount. rewrite nodes_unfold. reflexivity. Qed.

Lemma Generated_size levels depth len angle seed b :
  Generated levels depth len angle seed b ->
  (minNodes levels <= nodeCount b <= maxNodes levels depth)%nat.
Proof.
  induction 1 as
    [d l a s b Ho Hc
    |lv d l a s b c1 c2 Ho H3 Hc G1 IH1 G2 IH2
    |lv d l a s b c1 c2 c3 Ho H3 Hc G1 IH1 G2 IH2 G3 IH3];
    rewrite nodeCount_children, Hc; cbn [flat_map minNodes maxNodes];
    rewrite ?length_app; cbn [List.length].
  - lia.
  - unfold nodeCount in *. destruct (1 <? d)%nat; lia.
  - unfold nodeCount in *.
    unfold hasThirdChild in H3. apply andb_true_iff in H3.
    destruct H3 as [H3 _]. rewrite H3. lia.
Qed.

(** ** Growth easing *)

Lemma clamp_inside v lo hi : lo <= v <= hi -> clamp v lo hi = v.
Proof.
  intros [H1 H2]. unfold clamp, Rmin, Rmax.
  repeat destruct Rle_dec; lra.
Qed.

Lemma clamp_range v lo hi : lo <= hi -> lo <= clamp v lo hi <= hi.
Proof.
  intros H. unfold clamp, Rmin, Rmax.
  repeat destruct Rle_dec; lra.
Qed.

Lemma elapsed_range time last : 8 <= elapsed time last <= 120.
Proof.
  unfold elapsed, Rmin, Rmax.
  repeat (destruct Rle_dec || destruct Req_dec_T); lra.
Qed.

Lemma lerpFactor_of_elapsed dms :
  8 <= dms <= 120 ->
  clamp (dms * baseGrowthSpeed CONFIG) 0 0.04 = dms * 0.00022
  /\ 0.00176 <= dms * 0.00022 <= 0.0264.
Proof.
  intros H. simpl. split; [apply clamp_inside|]; lra.
Qed.

(** ** Frame rules for the state monad *)

Section Keeps.
Context (rel : State -> State -> Prop) `{!PreOrder rel}.

Lemma keeps_ret {A} (a : A) : keeps rel (ret a).
Proof. intros s. unfold ret. simpl. reflexivity. Qed.

Lemma keeps_gets {A} (f : State -> A) : keeps rel (gets f).
Proof. intros s. unfold gets. simpl. reflexivity. Qed.

Lemma keeps_bind {A B} (m : M A) (k : A -> M B) :
  keeps rel m -> (forall a, keeps rel (k a)) -> keeps rel (bind m k).
Proof.
  intros Hm Hk s. unfold bind.
  specialize (Hm s).
  destruct (m s) as [a s1]. simpl in Hm.
  transitivity s1; [exact Hm | apply Hk].
Qed.

Lemma keeps_modify (f : State -> State) :
  (forall s, rel s (f s)) -> keeps rel (modify f).
Proof. intros H s. apply H. Qed.

Lemma keeps_when (b : bool) (m : M unit) :
  keeps rel m -> keeps rel (when b m).
Proof. destruct b; simpl; [auto | intros _; apply keeps_ret]. Qed.

Lemma keeps_repeatM {A} (m : M A) n :
  keeps rel m -> keeps rel (repeatM n m).
Proof.
  intros Hm. induction n as [|n IH]; simpl.
  - apply keeps_ret.
  - apply keeps_bind; [exact Hm|]. intros a.
    apply keeps_bind; [exact IH|]. intros l. apply keeps_ret.
Qed.

Lemma keeps_mapM {A B} (f : A -> M B) l :
  (forall a, keeps rel (f a)) -> keeps rel (mapM f l).
Proof.
  intros Hf. induction l as [|a l IH]; simpl.
  - apply keeps_ret.
  - apply keeps_bind; [apply Hf|]. intros b.
    apply keeps_bind; [exact IH|]. intros bs. apply keeps_ret.
Qed.

(** Reading the state first and then running a procedure that depends on
    what was read. *)
Lemma keeps_bind_gets {A B} (f : State -> A) (k : A -> M B) :
  (forall s, rel s (run (k (f s)) s)) -> keeps rel (bind (gets f) k).
Proof. intros H s. apply H. Qed.

Lemma keeps_createBranchFrom levels :
  keeps rel nextBranchId -> keeps rel Math_random ->
  keeps rel newBranchObject ->
  forall depth length angle seed,
    keeps rel (createBranchFrom levels depth length angle seed).
Proof.
  intros Hid Hrnd Hobj.
  assert (Hlit : forall depth length angle seed,
             keeps rel (branchLiteral depth length angle seed)).
  { intros. unfold branchLiteral.
    repeat (apply keeps_bind; [assumption|intros]). apply keeps_ret. }
  induction levels as [|levels IH]; intros depth length angle seed;
    cbn [createBranchFrom].
  - apply keeps_bind; [apply Hlit|]. intros b. apply keeps_ret.
  - apply keeps_bind; [apply Hlit|]. intros b.
    apply keeps_bind; [apply IH|]. intros c1.
    apply keeps_bind; [apply IH|]. intros c2.
    destruct (hasThirdChild depth seed).
    + apply keeps_bind; [apply IH|]. intros c3. apply keeps_ret.
    + apply keeps_ret.
Qed.
End Keeps.

#[export] Instance same_PreOrder {A} (proj : State -> A) :
  PreOrder (same proj).
Proof.
  split.
  - intros s. reflexivity.
  - intros a b c H1 H2. unfold same in *. congruence.
Qed.

(** One step of a frame proof, by the shape of the procedure. *)
Ltac keeps_step :=
  lazymatch goal with
  | |- keeps ?r (bind _ _) => apply (keeps_bind r); [|intros ?]
  | |- keeps ?r (ret _) => apply (keeps_ret r)
  | |- keeps ?r (gets _) => apply (keeps_gets r)
  | |- keeps ?r (when _ _) => apply (keeps_when r)
  | |- keeps ?r (modify _) => apply (keeps_modify r)
  | |- keeps ?r (repeatM _ _) => apply (keeps_repeatM r)
  | |- keeps ?r (mapM _ _) => apply (keeps_mapM r); intros ?
  | |- keeps ?r (getCell _) => apply (keeps_gets r)
  | |- keeps _ (if ?b then _ else _) => destruct b
  | |- keeps _ (let (_, _) := ?p in _) => destruct p
  end.

(** ** Comparisons *)

Lemma gtb_true a b : gtb a b = true <-> a > b.
Proof. unfold gtb. destruct Rgt_dec; split; intros; try discriminate; auto; lra. Qed.

Lemma gtb_false a b : gtb a b = false <-> a <= b.
Proof. unfold gtb. destruct Rgt_dec; split; intros; try discriminate; auto; lra. Qed.

Lemma ltb_true a b : ltb a b = true <-> a < b.
Proof. unfold ltb. destruct Rlt_dec; split; intros; try discriminate; auto; lra. Qed.

Lemma ltb_false a b : ltb a b = false <-> b <= a.
Proof. unfold ltb. destruct Rlt_dec; split; intros; try discriminate; auto; lra. Qed.

Lemma leb_true a b : leb a b = true <-> a <= b.
Proof. unfold leb. destruct Rle_dec; split; intros; try discriminate; auto; lra. Qed.

Lemma leb_false a b : leb a b = false <-> b < a.
Proof. unfold leb. destruct Rle_dec; split; intros; try discriminate; auto; lra. Qed.

Lemma run_bind {A B} (m : M A) (k : A -> M B) s :
  run (bind m k) s = run (k (fst (m s))) (run m s).
Proof. unfold bind. destruct (m s); reflexivity. Qed.

(** ** The tree walk respects what its assignments respect *)

Lemma drawBranch_unfold branch time parentAngle startX startY :
  drawBranch branch time parentAngle startX startY
  = drawBranchBody
      (fun angle endX endY =>
         forEachM (fun child => drawBranch child time angle endX endY)
           (br_children branch))
      branch time parentAngle startX startY.
Proof. destruct branch; reflexivity. Qed.

Section Units.
Context (time : R) (ok : Branch -> Prop)
        (rel : State -> State -> Prop) `{!PreOrder rel}.
Hypothesis units : WalkUnits time ok rel.

Lemma keeps_forEachM {A} (f : A -> M unit) l :
  Forall (fun a => keeps rel (f a)) l -> keeps rel (forEachM f l).
Proof.
  induction 1 as [|a l Ha Hl IH]; simpl.
  - keeps_step.
  - keeps_step; assumption.
Qed.

Lemma units_drawTip forEachChild branch angle endX endY progress :
  (forall angle endX endY, keeps rel (forEachChild angle endX endY)) ->
  ok branch ->
  keeps rel (drawTip forEachChild branch time angle endX endY progress).
Proof.
  intros Hfe Hok. unfold drawTip, drawLeaf, drawBud.
  repeat first
    [ lazymatch goal with
      | |- keeps _ (emit _) => intros s; apply (wu_emit _ _ _ units)
      | |- keeps _ (drawFruit _ _ _ _ _) =>
          intros s; apply (wu_fruit _ _ _ units); exact Hok
      | |- keeps _ (forEachChild _ _ _) => apply Hfe
      end
    | keeps_step ].
Qed.

Lemma units_drawLimb forEachChild branch startX startY angle endX endY
    progress :
  (forall angle endX endY, keeps rel (forEachChild angle endX endY)) ->
  ok branch ->
  keeps rel
    (drawLimb forEachChild branch time startX startY angle endX endY
       progress).
Proof.
  intros Hfe Hok. unfold drawLimb.
  keeps_step; [intros s; apply (wu_emit _ _ _ units)|].
  keeps_step.
  { intros s. apply (wu_push _ _ _ units). exact Hok. }
  apply units_drawTip; assumption.
Qed.

Lemma units_drawBranchBody forEachChild branch parentAngle startX startY :
  (forall angle endX endY, keeps rel (forEachChild angle endX endY)) ->
  ok branch ->
  keeps rel
    (drawBranchBody forEachChild branch time parentAngle startX startY).
Proof.
  intros Hfe Hok. unfold drawBranchBody.
  keeps_step; [keeps_step|]. keeps_step; [keeps_step|].
  keeps_step; [keeps_step|].
  apply (keeps_bind_gets rel). intros s. cbv beta.
  set (cell := heap (host s) (br_ref branch)).
  destruct (pruned cell) eqn:Hp;
    [destruct (gtb time (regrowAt cell)) eqn:Ht|].
  - apply gtb_true in Ht.
    rewrite run_bind.
    transitivity (snd (setCell (br_ref branch)
                         {| pruned := false; regrowAt := regrowAt cell;
                            fruits := fruits cell |} s)).
    + apply (wu_unprune _ _ _ units); assumption.
    + apply units_drawLimb; assumption.
  - unfold drawStub.
    apply (keeps_bind rel); [intros s0; apply (wu_emit _ _ _ units)|].
    intros _ s0. apply (wu_emit _ _ _ units).
  - apply units_drawLimb; assumption.
Qed.

Lemma units_drawBranch :
  forall branch, Forall ok (nodes branch) ->
  forall parentAngle startX startY,
    keeps rel (drawBranch branch time parentAngle startX startY).
Proof.
  induction branch as [branch IH] using Branch_rect'.
  intros Hok parentAngle startX startY.
  rewrite nodes_unfold in Hok. inversion Hok as [|? ? Hb Hch]; subst.
  rewrite drawBranch_unfold. apply units_drawBranchBody; [|exact Hb].
  intros angle endX endY. apply keeps_forEachM.
  rewrite Forall_forall in IH. apply Forall_forall. intros c Hc.
  apply IH; [exact Hc|].
  apply Forall_forall. intros n Hn.
  rewrite Forall_forall in Hch. apply Hch.
  apply in_flat_map. exists c. split; assumption.
Qed.
End Units.

Section Walk.
Context (time : R) (ok : Branch -> Prop)
        (rel : State -> State -> Prop) `{!PreOrder rel}.
Hypothesis steps : WalkSteps time ok rel.

Lemma keeps_emit c : keeps rel (emit c).
Proof. intros s. apply (ws_emit _ _ _ steps). Qed.

Lemma keeps_random : keeps rel Math_random.
Proof. intros s. apply (ws_random _ _ _ steps). Qed.

Lemma keeps_drawOneFruit x y branch angle f :
  keeps rel (drawOneFruit x y branch angle time f).
Proof.
  unfold drawOneFruit.
  repeat first [ apply keeps_emit | keeps_step ].
  apply (ws_count _ _ _ steps).
Qed.

Lemma keeps_newFruit branch idx : keeps rel (newFruit branch idx).
Proof.
  unfold newFruit. repeat first [ apply keeps_random | keeps_step ].
Qed.

Lemma keeps_drawFruit x y branch angle :
  keeps rel (drawFruit x y branch angle time).
Proof.
  unfold drawFruit.
  keeps_step; [keeps_step|]. keeps_step; [keeps_step|].
  keeps_step; [keeps_step|].
  keeps_step.
  { destruct (fruits a0); [keeps_step|].
    keeps_step. apply keeps_newFruit. }
  keeps_step.
  { keeps_step. apply keeps_drawOneFruit. }
  apply (keeps_bind_gets rel). intros s.
  apply (ws_fruits _ _ _ steps).
Qed.

(** The single assignments make up the steps of the walk. *)
Lemma steps_units (ok' : Branch -> Prop) :
  (forall b, ok' b -> ok b) -> WalkUnits time ok' rel.
Proof.
  intros Hok. constructor.
  - apply (ws_emit _ _ _ steps).
  - intros sg s H. apply (ws_push _ _ _ steps). apply Hok. exact H.
  - apply (ws_unprune _ _ _ steps).
  - intros x y branch angle s _. apply keeps_drawFruit.
Qed.

Lemma keeps_drawBranch :
  forall branch, Forall ok (nodes branch) ->
  forall parentAngle startX startY,
    keeps rel (drawBranch branch time parentAngle startX startY).
Proof.
  apply (units_drawBranch time ok rel (steps_units ok (fun b H => H))).
Qed.
End Walk.

Lemma keeps_drawTip time rel `{!PreOrder rel} :
  WalkSteps time (fun _ => True) rel ->
  forall forEachChild branch angle endX endY progress,
    (forall angle endX endY, keeps rel (forEachChild angle endX endY)) ->
    keeps rel (drawTip forEachChild branch time angle endX endY progress).
Proof.
  intros W forEachChild branch angle endX endY progress Hfe.
  apply (units_drawTip time (fun _ => True) rel
           (steps_units time _ rel W _ (fun b H => H)));
    [exact Hfe | exact I].
Qed.

Lemma keeps_drawTree time rel `{!PreOrder rel} :
  WalkSteps time (fun _ => True) rel ->
  (forall s, rel s (on_scene (set_branchSegments []) s)) ->
  keeps rel (drawTree time).
Proof.
  intros W Hclear. unfold drawTree.
  keeps_step; [keeps_step|]. destruct a as [root|]; [|keeps_step].
  repeat keeps_step; try exact Hclear.
  apply (keeps_drawBranch time (fun _ => True) rel W).
  apply Forall_forall. intros; exact I.
Qed.

(** ** Running sequences *)

Lemma run_when_true (m : M unit) s : run (when true m) s = run m s.
Proof. reflexivity. Qed.

Lemma run_when_false (m : M unit) s : run (when false m) s = s.
Proof. reflexivity. Qed.

Lemma repeatM_length {A} n (m : M A) :
  forall s, length (fst (repeatM n m s)) = n.
Proof.
  induction n as [|n IH]; intros s; simpl; [reflexivity|].
  unfold bind. destruct (m s) as [a s1].
  specialize (IH s1). destruct (repeatM n m s1) as [l s2].
  simpl in *. congruence.
Qed.

Lemma repeatM_Forall {A} (P : A -> Prop) n (m : M A) :
  (forall s, P (fst (m s))) ->
  forall s, Forall P (fst (repeatM n m s)).
Proof.
  intros Hm. induction n as [|n IH]; intros s; simpl; [constructor|].
  unfold bind. specialize (Hm s). destruct (m s) as [a s1].
  specialize (IH s1). destruct (repeatM n m s1) as [l s2].
  simpl in *. constructor; assumption.
Qed.

(** ** Sapling spawning *)

Lemma keeps_newSapling {A} (proj : State -> A) :
  (forall f s, proj (on_host f s) = proj s) ->
  keeps (same proj) newSapling.
Proof.
  intros Hh s. unfold same, newSapling, bind, gets, ret, Math_random.
  cbn [fst snd]. rewrite !Hh. reflexivity.
Qed.

Lemma spawnSaplings_unfold s :
  let bonus := fruitBonusOf (fruitsRipened (life s)) in
  let u := rng (host s) (rngPos (host s)) in
  let s1 :=
    on_life (set_fruitsRipened
               (Z.max 0 (fruitsRipened (life s) - bonus * 3)))
      (on_host (set_rngPos (S (rngPos (host s)))) s) in
  let made := repeatM (Z.to_nat (saplingCount u bonus)) newSapling s1 in
  run spawnSaplings s = on_scene (set_saplings (fst made)) (snd made).
Proof.
  intros bonus u s1 made.
  unfold spawnSaplings, bind, gets, modify, Math_random.
  cbn [fst snd]. fold bonus u s1 made.
  destruct made; reflexivity.
Qed.

(** What [spawnSaplings] reads and writes. *)
Lemma spawnSaplings_run s :
  let bonus := fruitBonusOf (fruitsRipened (life s)) in
  let u := rng (host s) (rngPos (host s)) in
  let s' := run spawnSaplings s in
  length (saplings (scene s')) = Z.to_nat (saplingCount u bonus)
  /\ Forall (fun sp => sap_growth sp = 0.02) (saplings (scene s'))
  /\ fruitsRipened (life s')
     = Z.max 0 (fruitsRipened (life s) - bonus * 3)
  /\ lifeCore s' = lifeCore s
  /\ climate s' = climate s
  /\ tree (scene s') = tree (scene s).
Proof.
  intros bonus u s'. unfold s'. clear s'. rewrite spawnSaplings_unfold.
  fold bonus u.
  set (s1 := on_life _ (on_host _ s)).
  assert (F : fruitsRipened (life s1)
              = Z.max 0 (fruitsRipened (life s) - bonus * 3)
              /\ lifeCore s1 = lifeCore s
              /\ climate s1 = climate s
              /\ tree (scene s1) = tree (scene s)).
  { repeat split. }
  destruct F as (F1 & F2 & F3 & F4). clearbody s1 u bonus.
  generalize (Z.to_nat (saplingCount u bonus)). intros n.
  pose proof (repeatM_length n newSapling s1) as Hlen.
  pose proof (repeatM_Forall (fun sp => sap_growth sp = 0.02) n newSapling
                (fun s => eq_refl) s1) as Hall.
  pose proof (keeps_repeatM (same life) newSapling n
                (keeps_newSapling life (fun f s => eq_refl)) s1) as Hlife.
  pose proof (keeps_repeatM (same climate) newSapling n
                (keeps_newSapling climate (fun f s => eq_refl)) s1) as Hcl.
  pose proof (keeps_repeatM (same (fun s => tree (scene s))) newSapling n
                (keeps_newSapling (fun s => tree (scene s))
                   (fun f s => eq_refl)) s1) as Htr.
  unfold same in Hlife, Hcl, Htr.
  generalize dependent (repeatM n newSapling s1).
  intros [l s2] Hlen Hall Hlife Hcl Htr.
  cbn [fst snd] in *.
  unfold lifeCore in *.
  cbn [scene life climate on_scene saplings set_saplings tree].
  rewrite Hlife, Hcl, Htr.
  repeat (split; [assumption|]). assumption.
Qed.


(** ** Life-stage transitions *)

Lemma setStage_change next s :
  lifeStage (life s) <> next ->
  run (setStage next) s
  = on_life (set_stageTimer 0) (on_life (set_lifeStage next) s).
Proof.
  intros H. unfold setStage, bind, gets, modify. cbn [fst snd].
  destruct (Stage_eq_dec (lifeStage (life s)) next); [contradiction|].
  reflexivity.
Qed.

Lemma setStage_same next s :
  lifeStage (life s) = next -> run (setStage next) s = s.
Proof.
  intros H. unfold setStage, bind, gets, modify. cbn [fst snd].
  destruct (Stage_eq_dec (lifeStage (life s)) next); [|contradiction].
  reflexivity.
Qed.

Lemma keeps_buildTree {A} (proj : State -> A) :
  (forall f s, proj (on_host f s) = proj s) ->
  (forall n s, proj (on_scene (set_branchIdCounter n) s) = proj s) ->
  keeps (same proj) buildTree.
Proof.
  intros Hh Hc. unfold buildTree.
  assert (Hrnd : keeps (same proj) Math_random).
  { intros s. unfold same, Math_random. cbn [snd]. apply Hh. }
  repeat keeps_step; try assumption.
  - intros s. apply Hc.
  - unfold createBranch. apply keeps_createBranchFrom; try assumption.
    + typeclasses eauto.
    + intros s. unfold same, nextBranchId. cbn [snd]. apply Hc.
    + intros s. unfold same, newBranchObject. cbn [snd]. apply Hh.
Qed.

Lemma allGrown_Forall l :
  allGrown l = true <-> Forall (fun sp => sap_growth sp > 0.98) l.
Proof.
  unfold allGrown. rewrite forallb_forall, Forall_forall.
  split; intros H sp Hin; apply gtb_true, H, Hin.
Qed.

Lemma fresh_saplings_not_grown l :
  (2 <= length l)%nat -> Forall (fun sp => sap_growth sp = 0.02) l ->
  allGrown l = false.
Proof.
  intros Hlen Hall. destruct l as [|sp l]; [simpl in Hlen; lia|].
  inversion Hall as [|? ? Hsp _]; subst.
  unfold allGrown. simpl. rewrite Hsp.
  replace (gtb 0.02 0.98) with false; [reflexivity|].
  symmetry. apply gtb_false. lra.
Qed.

Lemma saplingCount_ge_2 u bonus : (2 <= Z.to_nat (saplingCount u bonus))%nat.
Proof. unfold saplingCount. cbn [saplingMin CONFIG]. lia. Qed.

Lemma run_bind_gets {A B} (f : State -> A) (k : A -> M B) s :
  run (bind (gets f) k) s = run (k (f s)) s.
Proof. reflexivity. Qed.

Lemma run_bind_modify {B} (f : State -> State) (k : unit -> M B) s :
  run (bind (modify f) k) s = run (k tt) (f s).
Proof. reflexivity. Qed.

Lemma run_bind_random {B} (k : R -> M B) s :
  run (bind Math_random k) s
  = run (k (rng (host s) (rngPos (host s))))
      (on_host (set_rngPos (S (rngPos (host s)))) s).
Proof. reflexivity. Qed.

(** What [regenerate] does, from a state in the rebirth stage; first for
    any tree builder that leaves the life variables alone. *)
Section Regenerate.
Variable build : M Branch.
Hypothesis build_life : forall s, life (snd (build s)) = life s.

Let regenerateWith : M unit :=
  t <- build ;;
  modify (on_scene (set_tree (Some t))) ;;;
  modify (on_climate (set_growth 0.05)) ;;;
  modify (on_climate (set_targetGrowth 0.15)) ;;;
  modify (on_scene (set_saplings [])) ;;;
  setStage sprout.

Lemma regenerateWith_run s :
  lifeStage (life s) = rebirth ->
  run regenerateWith s
  = on_life (set_stageTimer 0)
      (on_life (set_lifeStage sprout)
         (on_scene (set_saplings [])
            (on_climate (set_targetGrowth 0.15)
               (on_climate (set_growth 0.05)
                  (on_scene (set_tree (Some (fst (build s))))
                     (snd (build s))))))).
Proof.
  intros Hst. unfold regenerateWith. rewrite run_bind.
  pose proof (build_life s) as Hl.
  destruct (build s) as [t s1]. cbn [fst snd] in *.
  rewrite !run_bind_modify.
  apply setStage_change.
  cbn [life on_scene on_climate]. rewrite Hl, Hst. discriminate.
Qed.
End Regenerate.

Lemma buildTree_life s : life (snd (buildTree s)) = life s.
Proof.
  exact (keeps_buildTree life (fun f s => eq_refl) (fun n s => eq_refl) s).
Qed.

Lemma regenerate_unfold s :
  lifeStage (life s) = rebirth ->
  run regenerate s
  = on_life (set_stageTimer 0)
      (on_life (set_lifeStage sprout)
         (on_scene (set_saplings [])
            (on_climate (set_targetGrowth 0.15)
               (on_climate (set_growth 0.05)
                  (on_scene (set_tree (Some (fst (buildTree s))))
                     (snd (buildTree s))))))).
Proof. exact (regenerateWith_run buildTree buildTree_life s). Qed.

Lemma regenerate_run s :
  lifeStage (life s) = rebirth ->
  tree (scene (run regenerate s)) = Some (fst (buildTree s))
  /\ growth (climate (run regenerate s)) = 0.05
  /\ targetGrowth (climate (run regenerate s)) = 0.15
  /\ saplings (scene (run regenerate s)) = []
  /\ lifeStage (life (run regenerate s)) = sprout
  /\ stageTimer (life (run regenerate s)) = 0
  /\ host (run regenerate s) = host (snd (buildTree s)).
Proof.
  intros Hst. rewrite (regenerate_unfold s Hst).
  generalize (buildTree s). intros [t s1].
  repeat (split; [reflexivity|]). reflexivity.
Qed.

Lemma stageSwitch_table delta s :
  let s' := run (stageSwitch delta) s in
  stageAndTimer s' = stageAndTimer s
  \/ (tableEdge (growth (climate s)) (stageTimer (life s))
        (regenCountdown (life s) + delta)
        (rng (host s) (rngPos (host s)) < delta * 0.0000006)
        (saplings (scene s))
        (lifeStage (life s)) (lifeStage (life s'))
      /\ stageTimer (life s') = 0).
Proof.
  intros s'. unfold s', stageSwitch. rewrite !run_bind_gets.
  destruct (lifeStage (life s)) eqn:E.
  - (* seed *)
    destruct (gtb (growth (climate s)) 0.18) eqn:G; [|left; reflexivity].
    rewrite run_when_true, setStage_change by (rewrite E; discriminate).
    right. split; [apply gtb_true, G | reflexivity].
  - (* sprout *)
    destruct (gtb (growth (climate s)) 0.42) eqn:G; [|left; reflexivity].
    rewrite run_when_true, setStage_change by (rewrite E; discriminate).
    right. split; [apply gtb_true, G | reflexivity].
  - (* young *)
    destruct (gtb (growth (climate s)) 0.66) eqn:G; [|left; reflexivity].
    rewrite run_when_true, setStage_change by (rewrite E; discriminate).
    right. split; [apply gtb_true, G | reflexivity].
  - (* mature *)
    destruct (gtb (growth (climate s)) 0.82) eqn:G;
      [|left; reflexivity].
    destruct (gtb (stageTimer (life s)) 6000) eqn:T;
      [|left; reflexivity].
    cbn [andb]. rewrite run_when_true, setStage_change
      by (rewrite E; discriminate).
    right. split; [split; apply gtb_true; assumption | reflexivity].
  - (* fruit *)
    destruct (gtb (stageTimer (life s)) 32000) eqn:T.
    + rewrite setStage_change by (rewrite E; discriminate).
      right. split; [left; apply gtb_true, T | reflexivity].
    + rewrite run_bind_random.
      destruct (ltb (rng (host s) (rngPos (host s))) (delta * 0.0000006))
        eqn:U; [|left; reflexivity].
      rewrite run_when_true, setStage_change
        by (cbn [life on_host]; rewrite E; discriminate).
      right. split; [right; apply ltb_true, U | reflexivity].
  - (* decline *)
    destruct (ltb (growth (climate s)) 0.3) eqn:G; [|left; reflexivity].
    rewrite run_when_true, setStage_change by (rewrite E; discriminate).
    right. split; [apply ltb_true in G; simpl; lra | reflexivity].
  - (* seedFall *)
    rewrite run_bind_modify, run_bind_gets, run_bind.
    set (s1 := on_life _ s).
    set (s2 := run (when (isEmpty (saplings (scene s1))) spawnSaplings) s1).
    assert (H2 : lifeCore s2 = lifeCore s1).
    { unfold s2. destruct (isEmpty (saplings (scene s1))).
      - rewrite run_when_true. apply spawnSaplings_run.
      - reflexivity. }
    unfold lifeCore in H2. injection H2 as H2a H2b H2c.
    rewrite run_bind_gets, H2c.
    destruct (gtb (regenCountdown (life s) + delta) 18000) eqn:C.
    + rewrite run_when_true, setStage_change
        by (rewrite H2a, E; discriminate).
      right. split; [apply gtb_true, C | reflexivity].
    + rewrite run_when_false. left. unfold stageAndTimer.
      rewrite H2a, H2b. reflexivity.
  - (* rebirth *)
    rewrite run_bind_gets, run_bind.
    destruct (saplings (scene s)) as [|sp saps] eqn:S.
    + cbn [isEmpty]. rewrite run_when_true.
      destruct (spawnSaplings_run s) as (Hlen & Hall & _ & Hcore & _).
      cbv zeta in Hlen, Hall, Hcore.
      rewrite run_bind_gets.
      rewrite fresh_saplings_not_grown;
        [|rewrite Hlen; apply saplingCount_ge_2|exact Hall].
      rewrite run_when_false. left.
      unfold lifeCore in Hcore. injection Hcore as H1 H2 _.
      unfold stageAndTimer. rewrite H1, H2. reflexivity.
    + cbn [isEmpty]. rewrite run_when_false, run_bind_gets, S.
      destruct (allGrown (sp :: saps)) eqn:G; [|left; reflexivity].
      rewrite run_when_true.
      destruct (regenerate_run s E) as (_ & _ & _ & _ & Hst & Htm & _).
      rewrite Hst.
      right. split; [|exact Htm].
      split; [discriminate | apply allGrown_Forall, G].
Qed.

(** ** What each handler leaves alone *)

(** Frame proofs for projections that a procedure never assigns: every
    leaf is closed by computation. *)
Ltac keeps_leaf :=
  lazymatch goal with
  | |- forall _ : State, _ => intros ?; reflexivity
  | |- keeps _ Math_random => intros ?; reflexivity
  | |- keeps _ nextBranchId => intros ?; reflexivity
  | |- keeps _ newBranchObject => intros ?; reflexivity
  | |- keeps _ (setCell _ _) => intros ?; reflexivity
  | |- keeps _ (emit _) => intros ?; reflexivity
  | |- keeps _ (pushSegment _) => intros ?; reflexivity
  | |- keeps _ (let _ := _ in _) => cbv zeta
  | |- keeps _ (match ?x with _ => _ end) => destruct x
  end.

Ltac keeps_same := repeat first [ keeps_step | keeps_leaf ].

Lemma stageUpkeep_keeps delta : keeps (same stageAndTimer) (stageUpkeep delta).
Proof. unfold stageUpkeep. keeps_same. Qed.

Lemma updateLifeStage_table delta s :
  let s' := run (updateLifeStage delta) s in
  stageAndTimer s' = stageAndTimer s
  \/ (tableEdge (growth (climate s)) (stageTimer (life s))
        (regenCountdown (life s) + delta)
        (rng (host s) (rngPos (host s)) < delta * 0.0000006)
        (saplings (scene s))
        (lifeStage (life s)) (lifeStage (life s'))
      /\ stageTimer (life s') = 0).
Proof.
  intros s'. unfold s', updateLifeStage. rewrite run_bind.
  pose proof (stageUpkeep_keeps delta (run (stageSwitch delta) s)) as Hk.
  unfold same, stageAndTimer in Hk. injection Hk as Hk1 Hk2.
  destruct (stageSwitch_table delta s) as [Hsame | [Hedge Htimer]].
  - left. unfold stageAndTimer in *. rewrite Hk1, Hk2. exact Hsame.
  - right. rewrite Hk1, Hk2. split; assumption.
Qed.

Lemma advance_keeps_stage time :
  keeps (same (fun s => lifeStage (life s))) (advance time).
Proof. unfold advance. keeps_same. Qed.

Lemma walk_same_stageAndTimer time :
  WalkSteps time (fun _ => True) (same stageAndTimer).
Proof. constructor; intros; reflexivity. Qed.

Lemma render_keeps_stage time : keeps (same stageAndTimer) (render time).
Proof.
  unfold render, updateSaplings, updateSawdust, updateSawTrail, updateHud.
  repeat first
    [ lazymatch goal with
      | |- keeps _ (drawTree _) =>
          apply (keeps_drawTree time (same stageAndTimer)
                   (walk_same_stageAndTimer time)); intros ?; reflexivity
      end
    | keeps_step | keeps_leaf ].
Qed.

Lemma spawnSawdust_keeps {A} (proj : State -> A) point :
  keeps (same proj) Math_random ->
  (forall f s, proj (on_scene (fun c => set_sawdust (f c) c) s) = proj s) ->
  keeps (same proj) (spawnSawdust point).
Proof.
  intros Hr Hs. unfold spawnSawdust, newParticle.
  repeat first [ exact Hr | keeps_step ].
  intros s. apply (Hs (fun c => sawdust c ++ a)).
Qed.

Lemma performSawCut_keeps_quiet now : keeps (same quiet) (performSawCut now).
Proof.
  unfold performSawCut.
  repeat first
    [ lazymatch goal with
      | |- keeps _ (spawnSawdust _) =>
          apply (spawnSawdust_keeps quiet);
          [intros ?; reflexivity | intros; reflexivity]
      end
    | keeps_step | keeps_leaf ].
Qed.

Lemma updatePointer_keeps_quiet point :
  keeps (same quiet) (updatePointer point).
Proof.
  unfold updatePointer.
  repeat first
    [ keeps_step
    | lazymatch goal with
      | |- forall s : State,
             same quiet s (on_scene (fun c => if _ then _ else _) s) =>
          intros s; unfold same, quiet;
          cbn [life on_scene scene host];
          destruct (60 <? length (sawTrail (scene s)))%nat; reflexivity
      end
    | keeps_leaf ].
Qed.

Lemma resize_keeps_life w h : keeps (same life) (resize w h).
Proof.
  unfold resize.
  repeat first
    [ lazymatch goal with
      | |- keeps _ buildTree =>
          apply (keeps_buildTree life); intros; reflexivity
      end
    | keeps_step | keeps_leaf ].
Qed.

(** Pulses, watering and pointer events leave the life variables, the
    saplings, the tree, the segment list and the object store's size
    alone. *)
Lemma handle_keeps_quiet e :
  (forall time, e <> Frame time) -> (forall w h, e <> Resize w h) ->
  keeps (same quiet) (handle e).
Proof.
  intros Hnf Hnr. destruct e; cbn [handle].
  - exfalso. apply (Hnf time). reflexivity.
  - unfold growthPulse. keeps_same.
  - unfold water. keeps_same.
  - unfold pointerdown.
    repeat first
      [ lazymatch goal with
        | |- keeps _ (updatePointer _) => apply updatePointer_keeps_quiet
        | |- keeps _ (performSawCut _) => apply performSawCut_keeps_quiet
        end
      | keeps_step | keeps_leaf ].
  - unfold pointermove.
    repeat first
      [ lazymatch goal with
        | |- keeps _ (updatePointer _) => apply updatePointer_keeps_quiet
        | |- keeps _ (performSawCut _) => apply performSawCut_keeps_quiet
        end
      | keeps_step | keeps_leaf ].
  - unfold pointerup. keeps_same.
  - unfold pointerup. keeps_same.
  - exfalso. apply (Hnr w h). reflexivity.
Qed.

Lemma same_quiet_life s s' : same quiet s s' -> life s' = life s.
Proof.
  unfold same, quiet. intros H.
  apply (f_equal (fun q => fst (fst (fst (fst q))))) in H. exact H.
Qed.

(** Only the frame callback assigns the life variables. *)
Lemma handle_keeps_life e :
  (forall time, e <> Frame time) -> keeps (same life) (handle e).
Proof.
  intros Hnf.
  assert (Hr : (exists w h, e = Resize w h) \/ (forall w h, e <> Resize w h)).
  { destruct e; try (right; intros w0 h0 H; discriminate H).
    left. exists w, h. reflexivity. }
  destruct Hr as [(w & h & ->) | Hnr].
  - apply resize_keeps_life.
  - intros s. apply same_quiet_life. apply handle_keeps_quiet; assumption.
Qed.

Lemma loop_unfold time s :
  run (loop time) s
  = run (render time)
      (run (updateLifeStage (deltaMs (clock (atSwitch time s))))
         (atSwitch time s)).
Proof.
  unfold loop, atSwitch. rewrite run_bind, run_bind_gets, run_bind.
  reflexivity.
Qed.

(** C4. Whatever the state and the event, the life stage either stays as
    it is, or the event is a frame and the stage moves along one edge of
    the table of section 4.3, with the edge's condition true of the state
    in which the frame evaluates it (after the integration of that frame),
    and [stageTimer] is 0 afterwards. *)
Theorem stage_changes_follow_table :
  forall (e : Event) (s : State),
    let s' := run (handle e) s in
    lifeStage (life s') = lifeStage (life s)
    \/ exists time,
         e = Frame time
         /\ let sw := atSwitch time s in
            let delta := deltaMs (clock sw) in
            lifeStage (life sw) = lifeStage (life s)
            /\ tableEdge (growth (climate sw)) (stageTimer (life sw))
                 (regenCountdown (life sw) + delta)
                 (rng (host sw) (rngPos (host sw)) < delta * 0.0000006)
                 (saplings (scene sw))
                 (lifeStage (life s)) (lifeStage (life s'))
            /\ stageTimer (life s') = 0.
Proof.
  intros e s s'.
  assert (Hframe : (exists time, e = Frame time)
                   \/ (forall time, e <> Frame time)).
  { destruct e; try (right; intros time H; discriminate H).
    left. exists time. reflexivity. }
  destruct Hframe as [[time ->] | Hnf].
  - unfold s'. cbn [handle]. rewrite loop_unfold.
    set (sw := atSwitch time s).
    set (delta := deltaMs (clock sw)).
    pose proof (advance_keeps_stage time s) as Hsw.
    unfold same in Hsw. fold (atSwitch time s) in Hsw. fold sw in Hsw.
    pose proof (render_keeps_stage time
                  (run (updateLifeStage delta) sw)) as Hr.
    unfold same, stageAndTimer in Hr. injection Hr as Hr1 Hr2.
    destruct (updateLifeStage_table delta sw) as [Hsame | [Hedge Htimer]].
    + left. unfold stageAndTimer in Hsame. injection Hsame as H1 _.
      rewrite Hr1, H1. exact Hsw.
    + right. exists time. split; [reflexivity|].
      split; [exact Hsw|].
      rewrite Hr1, Hr2, <- Hsw. split; assumption.
  - left. pose proof (handle_keeps_life e Hnf s) as H.
    unfold same in H. unfold s'. rewrite H. reflexivity.
Qed.

(** ** The saw *)

Lemma clamp_cases v lo hi :
  lo <= hi ->
  (v <= lo /\ clamp v lo hi = lo)
  \/ (lo <= v <= hi /\ clamp v lo hi = v)
  \/ (hi <= v /\ clamp v lo hi = hi).
Proof.
  intros H. unfold clamp, Rmin, Rmax.
  repeat destruct Rle_dec; first [ left; split; lra
                                   | right; left; split; lra
                                   | right; right; split; lra ].
Qed.

(** The squared distance from the pointer to the point at parameter [u]
    of a segment, against the one at parameter [t]. *)
Lemma segment_distance_gap x1 y1 dx dy px py t u :
  ((x1 + dx * u - px) * (x1 + dx * u - px)
   + (y1 + dy * u - py) * (y1 + dy * u - py))
  - ((x1 + dx * t - px) * (x1 + dx * t - px)
     + (y1 + dy * t - py) * (y1 + dy * t - py))
  = (u - t) * ((dx * dx + dy * dy) * (u + t)
               - 2 * ((px - x1) * dx + (py - y1) * dy)).
Proof. ring. Qed.

(** [closestPoint] returns a point of the segment, and no point of the
    segment is nearer to [(px, py)]. *)
Lemma closestPoint_least :
  forall x1 y1 x2 y2 px py : R,
    let p := closestPoint x1 y1 x2 y2 px py in
    (exists t, 0 <= t <= 1
               /\ pt_x p = x1 + (x2 - x1) * t
               /\ pt_y p = y1 + (y2 - y1) * t)
    /\ (forall u, 0 <= u <= 1 ->
          Math_hypot (pt_x p - px) (pt_y p - py)
          <= Math_hypot (x1 + (x2 - x1) * u - px)
               (y1 + (y2 - y1) * u - py)).
Proof.
  intros x1 y1 x2 y2 px py p. unfold p, closestPoint. cbv zeta.
  set (dx := x2 - x1). set (dy := y2 - y1).
  set (L := dx * dx + dy * dy).
  set (c := (px - x1) * dx + (py - y1) * dy).
  set (lenSq := if Req_dec_T L 0 then 1 else L).
  set (t := clamp (c / lenSq) 0 1).
  cbn [pt_x pt_y].
  assert (HL : 0 <= L) by (unfold L; nra).
  assert (Ht : 0 <= t <= 1).
  { unfold t. destruct (clamp_cases (c / lenSq) 0 1 ltac:(lra))
      as [[_ ->] | [[V ->] | [_ ->]]]; lra. }
  split; [exists t; repeat split; lra|].
  intros u Hu. unfold Math_hypot. apply sqrt_le_1_alt.
    pose proof (segment_distance_gap x1 y1 dx dy px py t u) as G.
    fold L c in G.
    enough (0 <= (u - t) * (L * (u + t) - 2 * c)) by lra.
    unfold lenSq in t. destruct (Req_dec_T L 0) as [E | NE].
    + assert (dx = 0) by (unfold L in E; nra).
      assert (dy = 0) by (unfold L in E; nra).
      assert (c = 0) by (unfold c; subst dx dy; nra).
      rewrite E. nra.
    + assert (Lpos : 0 < L) by lra.
      assert (Ec : c = c / L * L) by (field; lra).
      set (q := c / L) in *.
      destruct (clamp_cases q 0 1 ltac:(lra))
        as [[V E] | [[V E] | [V E]]]; fold t in E; rewrite E, Ec.
      * replace ((u - 0) * (L * (u + 0) - 2 * (q * L)))
          with (L * (u * u) + 2 * L * (u * (- q))) by ring.
        assert (0 <= u * u) by nra.
        assert (0 <= u * (- q)) by nra.
        assert (0 <= L * (u * u)) by (apply Rmult_le_pos; lra).
        assert (0 <= 2 * L * (u * (- q))) by (apply Rmult_le_pos; lra).
        lra.
      * replace ((u - q) * (L * (u + q) - 2 * (q * L)))
          with (L * ((u - q) * (u - q))) by ring.
        pose proof (Rle_0_sqr (u - q)) as Hsq. unfold Rsqr in Hsq.
        apply Rmult_le_pos; lra.
      * replace ((u - 1) * (L * (u + 1) - 2 * (q * L)))
          with (L * ((1 - u) * (2 * q - u - 1))) by ring.
        assert (0 <= (1 - u) * (2 * q - u - 1))
          by (apply Rmult_le_pos; lra).
        apply Rmult_le_pos; lra.
Qed.

Lemma cuttable_skipped h sg : cuttable h sg = negb (skipped h sg).
Proof.
  unfold cuttable, skipped.
  destruct (br_depth (seg_branch sg)); simpl; [reflexivity|].
  reflexivity.
Qed.

Lemma scanStep_scanned h sx sy seen acc sg :
  scanned h sx sy seen acc ->
  scanned h sx sy (seen ++ [sg]) (scanStep h sx sy acc sg).
Proof.
  intros [Hmin Hch]. unfold scanStep.
  pose proof (cuttable_skipped h sg) as Hc.
  destruct (skipped h sg) eqn:Hs; simpl in Hc.
  - split.
    + intros sg' Hin Hel. apply in_app_or in Hin.
      destruct Hin as [Hin | [<- | []]]; [auto | congruence].
    + destruct (chosen acc) as [c|]; [|exact Hch].
      destruct Hch as (Hin & Hrest). split; [|exact Hrest].
      apply in_or_app. left. exact Hin.
  - fold (segmentDist sx sy sg).
    destruct (ltb (segmentDist sx sy sg) (bestDist acc)) eqn:Hlt.
    + apply ltb_true in Hlt. split.
      * cbn [bestDist]. intros sg' Hin Hel. apply in_app_or in Hin.
        destruct Hin as [Hin | [<- | []]]; [|lra].
        specialize (Hmin sg' Hin Hel). lra.
      * cbn [chosen bestDist chosenPoint].
        assert (Hb : bestDist acc <= sawRadius CONFIG).
        { destruct (chosen acc); [|destruct Hch as [_ ->]; lra].
          destruct Hch as (_ & _ & _ & Hb & _). lra. }
        repeat split; try assumption; try lra.
        apply in_or_app. right. left. reflexivity.
    + apply ltb_false in Hlt. split.
      * intros sg' Hin Hel. apply in_app_or in Hin.
        destruct Hin as [Hin | [<- | []]]; [auto | exact Hlt].
      * destruct (chosen acc) as [c|]; [|exact Hch].
        destruct Hch as (Hin & Hrest). split; [|exact Hrest].
        apply in_or_app. left. exact Hin.
Qed.

Lemma fold_scanned h sx sy l :
  forall seen acc,
    scanned h sx sy seen acc ->
    scanned h sx sy (seen ++ l) (fold_left (scanStep h sx sy) l acc).
Proof.
  induction l as [|sg l IH]; intros seen acc H; simpl.
  - rewrite app_nil_r. exact H.
  - replace (seen ++ sg :: l) with ((seen ++ [sg]) ++ l)
      by (rewrite <- app_assoc; reflexivity).
    apply IH, scanStep_scanned, H.
Qed.

Lemma scanSegments_scanned h sx sy l :
  scanned h sx sy l (scanSegments h sx sy l).
Proof.
  unfold scanSegments.
  apply (fold_scanned h sx sy l []).
  split; [intros sg []|]. simpl. split; reflexivity.
Qed.

Lemma performSawCut_run now s :
  let found :=
    scanSegments (heap (host s)) (saw_x (sawState s)) (saw_y (sawState s))
      (branchSegments (scene s)) in
  run (performSawCut now) s
  = if isEmpty (branchSegments (scene s)) then s
    else if ltb (now - lastCut (sawState s)) (sawCooldown CONFIG) then s
    else match chosen found, chosenPoint found with
         | Some sg, Some point =>
             run (spawnSawdust point ;;;
                  modify (on_host (set_hint hintBranchCut)))
               (afterCut now sg s)
         | _, _ => s
         end.
Proof.
  intros found. unfold performSawCut. rewrite run_bind_gets.
  destruct (isEmpty (branchSegments (scene s))); [reflexivity|].
  rewrite run_bind_gets.
  destruct (ltb (now - lastCut (sawState s)) (sawCooldown CONFIG));
    [reflexivity|].
  rewrite !run_bind_gets. fold found.
  destruct (chosen found) as [sg|]; [|reflexivity].
  destruct (chosenPoint found) as [point|]; [|reflexivity].
  reflexivity.
Qed.

Lemma upd_same h r c : upd h r c r = c.
Proof. unfold upd. rewrite Nat.eqb_refl. reflexivity. Qed.

Lemma upd_other h r c r' : r' <> r -> upd h r c r' = h r'.
Proof.
  intros H. unfold upd. destruct (Nat.eqb_spec r' r); [contradiction|].
  reflexivity.
Qed.

Lemma afterCut_heap now sg s r :
  heap (host (afterCut now sg s)) r
  = if Nat.eqb r (br_ref (seg_branch sg))
    then cutCell now (rng (host s) (rngPos (host s)))
           (heap (host s) (br_ref (seg_branch sg)))
    else heap (host s) r.
Proof.
  unfold afterCut. cbn [host on_saw on_host heap set_heap].
  destruct (Nat.eqb_spec r (br_ref (seg_branch sg))) as [->|Hne].
  - rewrite !upd_same. reflexivity.
  - rewrite !upd_other by exact Hne. reflexivity.
Qed.

Lemma sawdust_keeps_host_heap point :
  keeps (same (fun s => (heap (host s), sawState s, life s, climate s,
                         clock s, tree (scene s), branchSegments (scene s),
                         saplings (scene s))))
    (spawnSawdust point ;;; modify (on_host (set_hint hintBranchCut))).
Proof.
  keeps_step.
  - apply spawnSawdust_keeps; [intros s; reflexivity|].
    intros f s. reflexivity.
  - keeps_step. intros s. reflexivity.
Qed.



Section RegrowDelay.
Import PrimFloat.
Local Open Scope float_scope.


End RegrowDelay.

(** ** Regrowth of a pruned branch *)

#[export] Instance carries_PreOrder (P : State -> Prop) :
  PreOrder (carries P).
Proof.
  split.
  - intros s H. exact H.
  - intros a b c H1 H2 H. apply H2, H1, H.
Qed.



Lemma drawBranchBody_shown forEachChild branch time parentAngle startX
    startY s :
  0 < progressOf (growth (climate s)) (br_depth branch) ->
  let g := growth (climate s) in
  let progress := progressOf g (br_depth branch) in
  let angle := drawnAngle g (wind (climate s)) branch time parentAngle in
  let length := br_length branch * easeOutCubic progress in
  let endX := startX + sin angle * length in
  let endY := startY - cos angle * length in
  let cell := heap (host s) (br_ref branch) in
  run (drawBranchBody forEachChild branch time parentAngle startX startY) s
  = if pruned cell then
      if gtb time (regrowAt cell) then
        run (drawLimb forEachChild branch time startX startY angle endX endY
               progress) (clearPruned (br_ref branch) s)
      else run (drawStub branch startX startY angle length) s
    else run (drawLimb forEachChild branch time startX startY angle endX endY
                progress) s.
Proof.
  intros H g progress angle length endX endY cell.
  unfold drawBranchBody. rewrite run_bind_gets. cbv beta zeta.
  apply leb_false in H. rewrite H.
  rewrite run_bind_gets. cbv beta. unfold getCell.
  rewrite run_bind_gets. cbv beta.
  fold cell. destruct (pruned cell); [|reflexivity].
  destruct (gtb time (regrowAt cell)); [|reflexivity].
  rewrite run_bind. reflexivity.
Qed.



Lemma children_walk_keeps time rel `{!PreOrder rel} branch :
  WalkSteps time (fun _ => True) rel ->
  forall angle endX endY,
    keeps rel
      (forEachM (fun child => drawBranch child time angle endX endY)
         (br_children branch)).
Proof.
  intros W angle endX endY. apply (keeps_forEachM rel).
  apply Forall_forall. intros c _.
  apply (keeps_drawBranch time (fun _ => True) rel W).
  apply Forall_forall. intros; exact I.
Qed.

Lemma walk_keeps_segment time sg :
  WalkSteps time (fun _ => True)
    (carries (fun s => In sg (branchSegments (scene s)))).
Proof.
  constructor; unfold carries; try (intros; assumption).
  intros sg' s _ H.
  cbn [pushSegment modify snd scene on_scene branchSegments
       set_branchSegments].
  apply in_or_app. left. exact H.
Qed.






(** *** What a walk records *)

#[export] Instance walkEnv_PreOrder time : PreOrder (walkEnv time).
Proof.
  split.
  - intros s. split; [reflexivity | intros r; reflexivity].
  - intros a b c (G1 & H1) (G2 & H2). split.
    + rewrite G2. exact G1.
    + intros r. rewrite H2. apply H1.
Qed.

#[export] Instance silent_PreOrder time : PreOrder (silent time).
Proof.
  split.
  - intros s. split; reflexivity.
  - intros a b c (S1 & E1) (S2 & E2). split.
    + rewrite S2. exact S1.
    + transitivity b; assumption.
Qed.






















(** ** Object allocation by the generator *)

Lemma nodes_push_child c b :
  nodes (push_child c b)
  = push_child c b :: flat_map nodes (br_children b) ++ nodes c.
Proof.
  rewrite nodes_unfold. cbn [br_children push_child].
  rewrite flat_map_app. simpl. rewrite app_nil_r. reflexivity.
Qed.

Lemma createBranchFrom_refs levels :
  forall depth length angle seed s,
    let built := createBranchFrom levels depth length angle seed s in
    (nextRef (host s) < nextRef (host (snd built)))%nat
    /\ Forall (fun n => (nextRef (host s) <= br_ref n
                        < nextRef (host (snd built)))%nat)
         (nodes (fst built)).
Proof.
  induction levels as [|levels IH]; intros depth length angle seed s built;
    unfold built; cbn [createBranchFrom]; unfold bind, ret.
  - cbn. split; [lia|]. constructor; [cbn; lia | constructor].
  - set (lit := branchLiteral depth length angle seed s).
    assert (Hlit : br_ref (fst lit) = nextRef (host s)
                   /\ nextRef (host (snd lit)) = S (nextRef (host s))
                   /\ br_children (fst lit) = []) by (repeat split).
    destruct lit as [b s1]. cbn [fst snd] in Hlit.
    destruct Hlit as (Hb & Hs1 & Hch).
    pose proof (IH (depth + 1)%nat (length * lenFactorOf depth seed)
                  (angle + spreadOf seed + leanOf seed) (seed * 1.71 + 1)
                  s1) as [M1 F1].
    destruct (createBranchFrom levels (depth + 1) _ _ _ s1) as [c1 s2].
    pose proof (IH (depth + 1)%nat (length * lenFactorOf depth seed)
                  (angle - spreadOf seed + leanOf seed) (seed * 1.71 + 2)
                  s2) as [M2 F2].
    destruct (createBranchFrom levels (depth + 1) _ _ _ s2) as [c2 s3].
    cbn [fst snd] in *.
    destruct (hasThirdChild depth seed).
    + pose proof (IH (depth + 1)%nat
                    (length * (lenFactorOf depth seed * 0.9))
                    (angle + varianceOf seed) (seed * 1.71 + 3) s3)
        as [M3 F3].
      destruct (createBranchFrom levels (depth + 1) _ _ _ s3) as [c3 s4].
      cbn [fst snd] in *.
      split; [lia|].
      rewrite !nodes_push_child. cbn [br_children push_child].
      rewrite Hch. cbn [flat_map app].
      constructor; [cbn [br_ref push_child]; lia|].
      repeat (apply Forall_app; split);
        first [ apply Forall_nil
              | eapply Forall_impl; [|eassumption];
                intros n Hn; cbv beta in Hn |- *; lia ].
    + cbn [fst snd]. split; [lia|].
      rewrite !nodes_push_child. cbn [br_children push_child].
      rewrite Hch. cbn [flat_map app].
      constructor; [cbn [br_ref push_child]; lia|].
      repeat (apply Forall_app; split);
        first [ apply Forall_nil
              | eapply Forall_impl; [|eassumption];
                intros n Hn; cbv beta in Hn |- *; lia ].
Qed.

(** ** Properties carried through the handlers *)

Lemma carries_of_same {A} (proj : State -> A) (P : State -> Prop) :
  (forall a b, proj b = proj a -> P a -> P b) ->
  forall {B} (m : M B), keeps (same proj) m -> keeps (carries P) m.
Proof. intros HP B m Hm s H. exact (HP _ _ (Hm s) H). Qed.

(** Leaves of a proof that a property is carried: assignments that do not
    concern the property are closed by computation, the others by [tac]. *)
Ltac carries_leaf tac :=
  lazymatch goal with
  | |- forall _ : State, _ => first [ (intros ? H; exact H) | tac ]
  | |- keeps _ Math_random => intros ? H; exact H
  | |- keeps _ nextBranchId => intros ? H; exact H
  | |- keeps _ newBranchObject => intros ? H; exact H
  | |- keeps _ (setCell _ _) => intros ? H; exact H
  | |- keeps _ (emit _) => intros ? H; exact H
  | |- keeps _ (pushSegment _) => intros ? H; exact H
  | |- keeps _ (let _ := _ in _) => cbv zeta
  | |- keeps _ (match ?x with _ => _ end) => destruct x
  end.

(** *** The climate variables stay in range *)

Ltac climate_leaf :=
  let s := fresh "s" in
  let Hg := fresh "Hg" in
  let Ht := fresh "Ht" in
  let Hh := fresh "Hh" in
  intros s (Hg & Ht & Hh); unfold climateOk;
  cbn [climate on_climate growth targetGrowth hydration
       set_growth set_targetGrowth set_hydration set_wind set_windTarget
       set_season set_simulatedAge];
  repeat match goal with
         | |- context [clamp ?v 0 1.08] =>
             let H := fresh "H" in
             assert (H : 0 <= clamp v 0 1.08 <= 1.08)
               by (apply clamp_range; lra);
             generalize dependent (clamp v 0 1.08); intros
         end;
  repeat match goal with
         | |- context [if ?b then _ else _] => destruct b
         end;
  cbn [climate on_climate growth targetGrowth hydration
       set_growth set_targetGrowth set_hydration];
  unfold Rmin, Rmax; repeat destruct Rle_dec; repeat split; lra.

Lemma growthPulse_climateOk : keeps (carries climateOk) growthPulse.
Proof.
  unfold growthPulse.
  repeat first [ keeps_step | carries_leaf climate_leaf ].
Qed.

Lemma water_climateOk : keeps (carries climateOk) water.
Proof.
  unfold water.
  repeat first [ keeps_step | carries_leaf climate_leaf ].
Qed.

Lemma advance_climateOk time : keeps (carries climateOk) (advance time).
Proof.
  unfold advance, easeGrowth.
  repeat first [ keeps_step | carries_leaf climate_leaf ].
Qed.

(** Procedures that never assign a component of the state: the leaves
    are closed by computation, the calls by [call]. *)
Ltac keeps_using call := repeat first [ call | keeps_step | keeps_leaf ].

Lemma createBranch_keeps {A} (proj : State -> A) depth length angle seed :
  keeps (same proj) nextBranchId -> keeps (same proj) Math_random ->
  keeps (same proj) newBranchObject ->
  keeps (same proj) (createBranch depth length angle seed).
Proof.
  intros H1 H2 H3. unfold createBranch.
  apply keeps_createBranchFrom; try assumption. typeclasses eauto.
Qed.

Lemma buildTree_keeps_climate : keeps (same climate) buildTree.
Proof.
  unfold buildTree.
  keeps_using ltac:(idtac;
    lazymatch goal with
    | |- keeps _ (createBranch _ _ _ _) =>
        apply createBranch_keeps; intros ?; reflexivity
    end).
Qed.

Lemma performSawCut_keeps_climate now :
  keeps (same climate) (performSawCut now).
Proof.
  unfold performSawCut, spawnSawdust, newParticle. keeps_same.
Qed.

Lemma updatePointer_keeps_climate point :
  keeps (same climate) (updatePointer point).
Proof. unfold updatePointer. keeps_same. Qed.

Lemma spawnSaplings_keeps_climate : keeps (same climate) spawnSaplings.
Proof. unfold spawnSaplings, newSapling. keeps_same. Qed.

Lemma setStage_keeps_climate next : keeps (same climate) (setStage next).
Proof. unfold setStage. keeps_same. Qed.

Lemma walk_same_climate time :
  WalkSteps time (fun _ => True) (same climate).
Proof. constructor; intros; reflexivity. Qed.

Lemma drawTree_keeps_climate time : keeps (same climate) (drawTree time).
Proof.
  apply (keeps_drawTree time (same climate) (walk_same_climate time)).
  intros s. reflexivity.
Qed.

Lemma render_keeps_climate time : keeps (same climate) (render time).
Proof.
  unfold render, updateSaplings, updateSawdust, updateSawTrail, updateHud.
  keeps_using ltac:(idtac;
    lazymatch goal with
    | |- keeps _ (drawTree _) => apply drawTree_keeps_climate
    end).
Qed.

Lemma resize_keeps_climate w h : keeps (same climate) (resize w h).
Proof.
  unfold resize.
  keeps_using ltac:(idtac;
    lazymatch goal with
    | |- keeps _ buildTree => apply buildTree_keeps_climate
    end).
Qed.

Lemma pointer_keeps_climate e :
  match e with
  | PointerDown _ _ _ | PointerMove _ _ | PointerUp | PointerLeave =>
      keeps (same climate) (handle e)
  | _ => True
  end.
Proof.
  destruct e; try exact I; cbn [handle];
    unfold pointerdown, pointermove, pointerup;
    keeps_using ltac:(idtac;
      lazymatch goal with
      | |- keeps _ (updatePointer _) => apply updatePointer_keeps_climate
      | |- keeps _ (performSawCut _) => apply performSawCut_keeps_climate
      end).
Qed.

Lemma climateOk_of_climate a b :
  climate b = climate a -> climateOk a -> climateOk b.
Proof. unfold climateOk. intros ->. auto. Qed.

Lemma regenerate_climateOk : keeps (carries climateOk) regenerate.
Proof.
  unfold regenerate.
  repeat first
    [ lazymatch goal with
      | |- keeps _ buildTree =>
          apply (carries_of_same climate climateOk climateOk_of_climate),
                buildTree_keeps_climate
      | |- keeps _ (setStage _) =>
          apply (carries_of_same climate climateOk climateOk_of_climate),
                setStage_keeps_climate
      end
    | keeps_step | carries_leaf climate_leaf ].
Qed.

Lemma stageSwitch_climateOk delta :
  keeps (carries climateOk) (stageSwitch delta).
Proof.
  unfold stageSwitch.
  repeat first
    [ lazymatch goal with
      | |- keeps _ regenerate => apply regenerate_climateOk
      | |- keeps _ spawnSaplings =>
          apply (carries_of_same climate climateOk climateOk_of_climate),
                spawnSaplings_keeps_climate
      | |- keeps _ (setStage _) =>
          apply (carries_of_same climate climateOk climateOk_of_climate),
                setStage_keeps_climate
      end
    | keeps_step | carries_leaf climate_leaf ].
Qed.

Lemma stageUpkeep_climateOk delta :
  0 <= delta -> keeps (carries climateOk) (stageUpkeep delta).
Proof.
  intros Hd. unfold stageUpkeep.
  repeat first [ keeps_step | carries_leaf climate_leaf ].
Qed.

Lemma advance_deltaMs time s :
  8 <= deltaMs (clock (atSwitch time s)) <= 120.
Proof.
  unfold atSwitch, advance. rewrite run_bind_gets. cbv beta zeta.
  rewrite run_bind_modify.
  set (s1 := on_clock _ s).
  match goal with
  | |- context [snd (?m s1)] =>
      assert (K : keeps (same clock) m) by keeps_same
  end.
  rewrite (K s1). unfold s1. cbn [clock on_clock deltaMs].
  apply elapsed_range.
Qed.

Lemma loop_climateOk time : keeps (carries climateOk) (loop time).
Proof.
  intros s H. rewrite loop_unfold.
  pose proof (advance_deltaMs time s) as Hd.
  apply (carries_of_same climate climateOk climateOk_of_climate _
           (render_keeps_climate time)).
  unfold updateLifeStage. rewrite run_bind.
  apply stageUpkeep_climateOk; [lra|].
  apply stageSwitch_climateOk.
  apply advance_climateOk. exact H.
Qed.

Lemma handle_climateOk e : keeps (carries climateOk) (handle e).
Proof.
  pose proof (pointer_keeps_climate e) as Hp.
  destruct e; cbn [handle] in *;
    try exact (carries_of_same climate climateOk climateOk_of_climate _ Hp).
  - apply loop_climateOk.
  - apply growthPulse_climateOk.
  - apply water_climateOk.
  - exact (carries_of_same climate climateOk climateOk_of_climate _
             (resize_keeps_climate w h)).
Qed.

(** *** The count of ripened fruit *)

#[export] Instance ripenedGrows_PreOrder : PreOrder ripenedGrows.
Proof.
  split.
  - intros s. unfold ripenedGrows. lia.
  - intros a b c. unfold ripenedGrows. lia.
Qed.

#[export] Instance ripenedShrinks_PreOrder : PreOrder ripenedShrinks.
Proof.
  split.
  - intros s. unfold ripenedShrinks. lia.
  - intros a b c H1 H2. unfold ripenedShrinks in *. lia.
Qed.

Lemma keeps_of_same {A} (proj : State -> A)
    (rel : State -> State -> Prop) :
  (forall a b, proj b = proj a -> rel a b) ->
  forall {B} (m : M B), keeps (same proj) m -> keeps rel m.
Proof. intros HP B m Hm s. exact (HP _ _ (Hm s)). Qed.

Lemma ripenedShrinks_of_life a b : life b = life a -> ripenedShrinks a b.
Proof. unfold ripenedShrinks. intros ->. lia. Qed.

Lemma ripenedGrows_of_life a b : life b = life a -> ripenedGrows a b.
Proof. unfold ripenedGrows. intros ->. lia. Qed.

Lemma walk_ripenedGrows time : WalkSteps time (fun _ => True) ripenedGrows.
Proof.
  constructor; intros; unfold ripenedGrows;
    cbn [life on_life on_host on_scene fruitsRipened set_fruitsRipened
         emit pushSegment Math_random setCell modify snd]; lia.
Qed.

Lemma render_ripenedGrows time : keeps ripenedGrows (render time).
Proof.
  unfold render, updateSaplings, updateSawdust, updateSawTrail, updateHud.
  repeat first
    [ lazymatch goal with
      | |- keeps _ (drawTree _) =>
          apply (keeps_drawTree time ripenedGrows (walk_ripenedGrows time));
          intros s; unfold ripenedGrows; cbn [life on_scene]; lia
      | |- forall s : State, ripenedGrows s _ =>
          intros s; unfold ripenedGrows;
          cbn [life on_scene on_host]; lia
      end
    | keeps_step ].
Qed.

Lemma spawnSaplings_shrinks : keeps ripenedShrinks spawnSaplings.
Proof.
  intros s H. destruct (spawnSaplings_run s) as (_ & _ & Hfr & _).
  cbv zeta in Hfr. rewrite Hfr. unfold fruitBonusOf.
  pose proof (Z.div_pos (fruitsRipened (life s)) 6 H). lia.
Qed.

Lemma setStage_keeps_ripened next :
  keeps (same (fun s => fruitsRipened (life s))) (setStage next).
Proof. unfold setStage. keeps_same. Qed.

Lemma ripenedShrinks_of_count a b :
  fruitsRipened (life b) = fruitsRipened (life a) -> ripenedShrinks a b.
Proof. unfold ripenedShrinks. intros ->. lia. Qed.

Ltac shrinks_leaf :=
  lazymatch goal with
  | |- forall s : State, ripenedShrinks s _ =>
      intros s; apply ripenedShrinks_of_count; reflexivity
  | |- keeps ripenedShrinks Math_random =>
      intros s; apply ripenedShrinks_of_count; reflexivity
  | |- keeps ripenedShrinks spawnSaplings => apply spawnSaplings_shrinks
  | |- keeps ripenedShrinks (setStage _) =>
      apply (keeps_of_same _ ripenedShrinks ripenedShrinks_of_count),
            setStage_keeps_ripened
  | |- keeps ripenedShrinks buildTree =>
      apply (keeps_of_same life ripenedShrinks ripenedShrinks_of_life);
      intros s; apply buildTree_life
  end.

Lemma updateLifeStage_shrinks delta :
  keeps ripenedShrinks (updateLifeStage delta).
Proof.
  unfold updateLifeStage, stageSwitch, stageUpkeep, regenerate.
  repeat first
    [ shrinks_leaf | keeps_step
    | lazymatch goal with
      | |- keeps _ (match ?x with _ => _ end) => destruct x
      end ].
Qed.

Lemma advance_keeps_ripened time :
  keeps (same (fun s => fruitsRipened (life s))) (advance time).
Proof. unfold advance. keeps_same. Qed.

(** What a frame does to [fruitsRipened]: nothing during the integration,
    a decrease down to 0 at most in [updateLifeStage], an increase at most
    in the rest. *)
Lemma loop_ripened time s :
  let s1 := atSwitch time s in
  let s2 := run (updateLifeStage (deltaMs (clock s1))) s1 in
  let s3 := run (loop time) s in
  fruitsRipened (life s1) = fruitsRipened (life s)
  /\ ripenedShrinks s1 s2
  /\ ripenedGrows s2 s3.
Proof.
  intros s1 s2 s3. split; [|split].
  - apply (advance_keeps_ripened time s).
  - apply updateLifeStage_shrinks.
  - unfold s3. rewrite loop_unfold. apply render_ripenedGrows.
Qed.

Lemma handle_ripenedOk e : keeps (carries ripenedOk) (handle e).
Proof.
  assert (Hframe : (exists time, e = Frame time)
                   \/ (forall time, e <> Frame time)).
  { destruct e; try (right; intros t0 H; discriminate H).
    left. exists time. reflexivity. }
  destruct Hframe as [[time ->] | Hnf].
  - intros s H. cbn [handle].
    destruct (loop_ripened time s) as (H1 & H2 & H3).
    unfold ripenedOk, ripenedShrinks, ripenedGrows in *. lia.
  - intros s H. unfold ripenedOk.
    rewrite (handle_keeps_life e Hnf s). exact H.
Qed.

(** *** Saplings exist throughout the rebirth stage *)

Lemma spawn_if_none s :
  saplings (scene (run (when (isEmpty (saplings (scene s))) spawnSaplings) s))
  <> [].
Proof.
  destruct (saplings (scene s)) as [|sp l] eqn:E; cbn [isEmpty].
  - rewrite run_when_true.
    destruct (spawnSaplings_run s) as (Hlen & _). cbv zeta in Hlen.
    pose proof (saplingCount_ge_2 (rng (host s) (rngPos (host s)))
                  (fruitBonusOf (fruitsRipened (life s)))) as H2.
    intros Hnil. rewrite Hnil in Hlen. simpl in Hlen. lia.
  - rewrite run_when_false, E. discriminate.
Qed.

Lemma setStage_keeps_saplings next :
  keeps (same (fun s => saplings (scene s))) (setStage next).
Proof. unfold setStage. keeps_same. Qed.

Lemma setStage_stage next s : lifeStage (life (run (setStage next) s)) = next.
Proof.
  destruct (Stage_eq_dec (lifeStage (life s)) next) as [E|NE].
  - rewrite setStage_same; assumption.
  - rewrite setStage_change by exact NE. reflexivity.
Qed.

Lemma stageSwitch_saplingsOk delta s :
  saplingsOk (run (stageSwitch delta) s).
Proof.
  unfold saplingsOk, stageSwitch. rewrite !run_bind_gets. cbv beta.
  destruct (lifeStage (life s)) eqn:E.
  - destruct (gtb (growth (climate s)) 0.18).
    + rewrite run_when_true, setStage_stage. discriminate.
    + rewrite run_when_false, E. discriminate.
  - destruct (gtb (growth (climate s)) 0.42).
    + rewrite run_when_true, setStage_stage. discriminate.
    + rewrite run_when_false, E. discriminate.
  - destruct (gtb (growth (climate s)) 0.66).
    + rewrite run_when_true, setStage_stage. discriminate.
    + rewrite run_when_false, E. discriminate.
  - destruct (gtb (growth (climate s)) 0.82 && gtb (stageTimer (life s)) 6000).
    + rewrite run_when_true, setStage_stage. discriminate.
    + rewrite run_when_false, E. discriminate.
  - destruct (gtb (stageTimer (life s)) 32000).
    + rewrite setStage_stage. discriminate.
    + rewrite run_bind_random. cbv beta.
      destruct (ltb _ _).
      * rewrite run_when_true, setStage_stage. discriminate.
      * rewrite run_when_false. cbn [life on_host]. rewrite E. discriminate.
  - destruct (ltb (growth (climate s)) 0.3).
    + rewrite run_when_true, setStage_stage. discriminate.
    + rewrite run_when_false, E. discriminate.
  - rewrite run_bind_modify, run_bind_gets, run_bind. cbv beta.
    set (s1 := on_life _ s).
    pose proof (spawn_if_none s1) as Hne.
    set (s2 := snd (when (isEmpty (saplings (scene s1))) spawnSaplings s1))
      in *.
    rewrite run_bind_gets. cbv beta. intros _.
    destruct (gtb (regenCountdown (life s2)) 18000).
    + rewrite run_when_true.
      rewrite (setStage_keeps_saplings rebirth s2). exact Hne.
    + rewrite run_when_false. exact Hne.
  - rewrite run_bind_gets, run_bind. cbv beta.
    pose proof (spawn_if_none s) as Hne.
    set (s1 := snd (when (isEmpty (saplings (scene s))) spawnSaplings s))
      in *.
    rewrite run_bind_gets. cbv beta.
    destruct (allGrown (saplings (scene s1))).
    + rewrite run_when_true. intros Hst. exfalso.
      assert (Hs1 : lifeStage (life s1) = rebirth).
      { unfold s1. destruct (isEmpty (saplings (scene s))).
        - rewrite run_when_true.
          destruct (spawnSaplings_run s) as (_ & _ & _ & Hcore & _).
          cbv zeta in Hcore. unfold lifeCore in Hcore.
          apply (f_equal (fun q => fst (fst q))) in Hcore.
          cbn [fst] in Hcore. rewrite Hcore. exact E.
        - rewrite run_when_false. exact E. }
      destruct (regenerate_run s1 Hs1) as (_ & _ & _ & _ & Hsp & _).
      rewrite Hsp in Hst. discriminate Hst.
    + rewrite run_when_false. intros _. exact Hne.
Qed.

Lemma stageUpkeep_keeps_saplings delta :
  keeps (same (fun s => (lifeStage (life s), saplings (scene s))))
    (stageUpkeep delta).
Proof. unfold stageUpkeep. keeps_same. Qed.

Lemma advance_keeps_saplings time :
  keeps (same (fun s => (lifeStage (life s), saplings (scene s))))
    (advance time).
Proof. unfold advance. keeps_same. Qed.

Lemma saplingsOk_of_parts a b :
  (lifeStage (life b), saplings (scene b))
  = (lifeStage (life a), saplings (scene a)) ->
  saplingsOk a -> saplingsOk b.
Proof.
  unfold saplingsOk. intros H. injection H as -> ->. auto.
Qed.

Lemma walk_same_saplings time :
  WalkSteps time (fun _ => True)
    (same (fun s => (lifeStage (life s), saplings (scene s)))).
Proof. constructor; intros; reflexivity. Qed.

Lemma updateSaplings_saplingsOk delta :
  keeps (carries saplingsOk) (updateSaplings delta).
Proof.
  intros s H. unfold saplingsOk, updateSaplings in *.
  cbn [modify snd life scene on_scene saplings set_saplings].
  intros Hst Hnil. apply map_eq_nil in Hnil. exact (H Hst Hnil).
Qed.

Lemma render_saplingsOk time : keeps (carries saplingsOk) (render time).
Proof.
  unfold render, updateSawdust, updateSawTrail, updateHud.
  repeat first
    [ lazymatch goal with
      | |- keeps _ (updateSaplings _) => apply updateSaplings_saplingsOk
      | |- keeps _ (drawTree _) =>
          apply (carries_of_same _ saplingsOk saplingsOk_of_parts);
          apply (keeps_drawTree time _ (walk_same_saplings time));
          intros s; reflexivity
      end
    | keeps_step | carries_leaf idtac ].
Qed.

Lemma loop_saplingsOk time s : saplingsOk (run (loop time) s).
Proof.
  rewrite loop_unfold. apply render_saplingsOk.
  unfold updateLifeStage. rewrite run_bind.
  apply (carries_of_same _ saplingsOk saplingsOk_of_parts _
           (stageUpkeep_keeps_saplings _)).
  apply stageSwitch_saplingsOk.
Qed.

(** *** Segments and object references *)

Lemma nodes_within n :
  forall t, In n (nodes t) -> incl (nodes n) (nodes t).
Proof.
  intros t. induction t as [t IH] using Branch_rect'. intros Hin m Hm.
  rewrite nodes_unfold in Hin. destruct Hin as [<- | Hin]; [exact Hm|].
  apply in_flat_map in Hin. destruct Hin as (c & Hc & Hn).
  rewrite Forall_forall in IH.
  apply (In_nodes_child c t); [exact Hc|].
  exact (IH c Hc Hn m Hm).
Qed.

Lemma walk_segmentsWithin time root :
  WalkSteps time (fun n => In n (nodes root))
    (carries (segmentsWithin root)).
Proof.
  constructor; unfold carries; try (intros; assumption).
  intros sg s Hok H. unfold segmentsWithin in *.
  cbn [pushSegment modify snd scene on_scene branchSegments
       set_branchSegments].
  apply Forall_app. split; [exact H|]. constructor; [exact Hok|constructor].
Qed.

Lemma walk_same_tree time :
  WalkSteps time (fun _ => True)
    (same (fun s => (tree (scene s), nextRef (host s)))).
Proof. constructor; intros; reflexivity. Qed.

(** After the tree walk of a frame, every segment belongs to the tree. *)
Lemma drawTree_segments time s root :
  tree (scene s) = Some root ->
  segmentsWithin root (run (drawTree time) s).
Proof.
  intros Ht. unfold drawTree. rewrite run_bind_gets. cbv beta.
  rewrite Ht. rewrite run_bind_modify, !run_bind_gets. cbv beta.
  apply (keeps_drawBranch time (fun n => In n (nodes root)) _
           (walk_segmentsWithin time root) root).
  - apply Forall_forall. intros n Hn. exact Hn.
  - unfold segmentsWithin. cbn [scene on_scene branchSegments
                                 set_branchSegments]. constructor.
Qed.

Lemma drawTree_keeps_tree time :
  keeps (same (fun s => (tree (scene s), nextRef (host s)))) (drawTree time).
Proof.
  apply (keeps_drawTree time _ (walk_same_tree time)).
  intros s. reflexivity.
Qed.

Lemma drawTree_untouched time s :
  tree (scene s) = None -> run (drawTree time) s = s.
Proof.
  intros Ht. unfold drawTree. rewrite run_bind_gets. cbv beta.
  rewrite Ht. reflexivity.
Qed.

Lemma drawTree_refsOk time : keeps (carries refsOk) (drawTree time).
Proof.
  intros s [Htree Hsegs].
  destruct (tree (scene s)) as [root|] eqn:Ht.
  - pose proof (drawTree_segments time s root Ht) as Hw.
    pose proof (drawTree_keeps_tree time s) as Hk.
    unfold same in Hk. injection Hk as Hk1 Hk2.
    specialize (Htree root eq_refl).
    assert (Hroot : allocated (run (drawTree time) s) root).
    { unfold allocated in *. rewrite Hk2. exact Htree. }
    split.
    + intros t Et. rewrite Hk1, Ht in Et. injection Et as <-. exact Hroot.
    + eapply Forall_impl; [|exact Hw]. cbv beta. intros sg Hin.
      unfold allocated in *. apply Forall_forall. intros n Hn.
      rewrite Forall_forall in Hroot. apply Hroot.
      exact (nodes_within _ _ Hin n Hn).
  - rewrite drawTree_untouched by exact Ht. split; [|exact Hsegs].
    intros t Et. rewrite Ht in Et. discriminate Et.
Qed.

Lemma refsOk_of_parts a b :
  (tree (scene b), branchSegments (scene b), nextRef (host b))
  = (tree (scene a), branchSegments (scene a), nextRef (host a)) ->
  refsOk a -> refsOk b.
Proof.
  unfold refsOk, allocated. intros H. injection H as -> -> ->. auto.
Qed.

Ltac refs_leaf :=
  lazymatch goal with
  | |- forall s : State, carries refsOk s _ =>
      let H := fresh "H" in
      intros s H; apply (refsOk_of_parts s); [reflexivity | exact H]
  | |- keeps (carries refsOk) Math_random =>
      let H := fresh "H" in
      intros s H; apply (refsOk_of_parts s); [reflexivity | exact H]
  | |- keeps _ (let _ := _ in _) => cbv zeta
  | |- keeps _ (match ?x with _ => _ end) => destruct x
  end.

Lemma render_refsOk time : keeps (carries refsOk) (render time).
Proof.
  unfold render, updateSaplings, updateSawdust, updateSawTrail, updateHud.
  repeat first
    [ lazymatch goal with
      | |- keeps _ (drawTree _) => apply drawTree_refsOk
      end
    | keeps_step | refs_leaf ].
Qed.

(** Installing a freshly built tree. *)
Lemma fresh_tree_refsOk s built :
  built = buildTree s ->
  refsOk s ->
  forall s',
    tree (scene s') = Some (fst built) ->
    branchSegments (scene s') = branchSegments (scene s) ->
    nextRef (host s') = nextRef (host (snd built)) ->
    refsOk s'
    /\ Forall (fun n => (nextRef (host s) <= br_ref n)%nat)
         (nodes (fst built)).
Proof.
  intros Hb [Htree Hsegs] s' Ht Hsg Hn.
  assert (Hrefs : (nextRef (host s) < nextRef (host (snd built)))%nat
                  /\ Forall (fun n => (nextRef (host s) <= br_ref n
                                      < nextRef (host (snd built)))%nat)
                       (nodes (fst built))).
  { subst built. unfold buildTree.
    unfold bind, modify, gets, Math_random. cbn [fst snd].
    unfold createBranch.
    match goal with
    | |- context [createBranchFrom ?l ?d ?len ?a ?sd ?st] =>
        pose proof (createBranchFrom_refs l d len a sd st) as H
    end.
    cbv zeta in H.
    cbn [host on_host on_scene nextRef set_rngPos] in H. exact H. }
  destruct Hrefs as [Hlt Hall]. clear Hb.
  split; [split|].
  - intros t Et. rewrite Ht in Et. injection Et as <-.
    unfold allocated. rewrite Hn.
    eapply Forall_impl; [|exact Hall]. cbv beta. intros n Hr. lia.
  - rewrite Hsg. eapply Forall_impl; [|exact Hsegs]. cbv beta.
    intros sg Ha. unfold allocated in *. rewrite Hn.
    eapply Forall_impl; [|exact Ha]. cbv beta. intros n Hr. lia.
  - eapply Forall_impl; [|exact Hall]. cbv beta. intros n Hr. lia.
Qed.

Lemma buildTree_keeps_segments :
  keeps (same (fun s => branchSegments (scene s))) buildTree.
Proof.
  apply keeps_buildTree; intros; reflexivity.
Qed.

Lemma setStage_keeps_scene next :
  keeps (same (fun s => (scene s, host s, climate s))) (setStage next).
Proof. unfold setStage. keeps_same. Qed.

Lemma regenerate_scene s :
  tree (scene (run regenerate s)) = Some (fst (buildTree s))
  /\ branchSegments (scene (run regenerate s)) = branchSegments (scene s)
  /\ nextRef (host (run regenerate s)) = nextRef (host (snd (buildTree s)))
  /\ growth (climate (run regenerate s)) = 0.05
  /\ targetGrowth (climate (run regenerate s)) = 0.15
  /\ saplings (scene (run regenerate s)) = [].
Proof.
  pose proof (buildTree_keeps_segments s) as Hsg. unfold same in Hsg.
  unfold regenerate. rewrite run_bind.
  generalize dependent (buildTree s). intros [t s1] Hsg.
  cbn [fst snd] in *. rewrite !run_bind_modify.
  match goal with
  | |- context [snd (setStage sprout ?x)] =>
      pose proof (setStage_keeps_scene sprout x) as Hk; unfold same in Hk;
      set (s2 := snd (setStage sprout x)) in *
  end.
  assert (H1 : scene s2 = scene (on_scene (set_saplings [])
                 (on_climate (set_targetGrowth 0.15)
                    (on_climate (set_growth 0.05)
                       (on_scene (set_tree (Some t)) s1)))))
    by (apply (f_equal (fun q => fst (fst q))) in Hk; exact Hk).
  assert (H2 : host s2 = host s1)
    by (apply (f_equal (fun q => snd (fst q))) in Hk; exact Hk).
  assert (H3 : climate s2 = climate (on_climate (set_targetGrowth 0.15)
                 (on_climate (set_growth 0.05) s1)))
    by (apply (f_equal snd) in Hk; exact Hk).
  rewrite H1, H2, H3. cbn. rewrite Hsg. repeat split.
Qed.

Lemma regenerate_refsOk : keeps (carries refsOk) regenerate.
Proof.
  intros s H.
  destruct (regenerate_scene s) as (Ht & Hsg & Hn & _).
  exact (proj1 (fresh_tree_refsOk s (buildTree s) eq_refl H _ Ht Hsg Hn)).
Qed.

Lemma setStage_keeps_refs next :
  keeps (same (fun s => (tree (scene s), branchSegments (scene s),
                         nextRef (host s)))) (setStage next).
Proof. unfold setStage. keeps_same. Qed.

Lemma spawnSaplings_keeps_refs :
  keeps (same (fun s => (tree (scene s), branchSegments (scene s),
                         nextRef (host s)))) spawnSaplings.
Proof. unfold spawnSaplings, newSapling. keeps_same. Qed.

Lemma updateLifeStage_refsOk delta :
  keeps (carries refsOk) (updateLifeStage delta).
Proof.
  unfold updateLifeStage, stageSwitch, stageUpkeep.
  repeat first
    [ lazymatch goal with
      | |- keeps _ regenerate => apply regenerate_refsOk
      | |- keeps _ spawnSaplings =>
          apply (carries_of_same _ refsOk refsOk_of_parts),
                spawnSaplings_keeps_refs
      | |- keeps _ (setStage _) =>
          apply (carries_of_same _ refsOk refsOk_of_parts),
                setStage_keeps_refs
      end
    | keeps_step | refs_leaf ].
Qed.

Lemma advance_keeps_refs time :
  keeps (same (fun s => (tree (scene s), branchSegments (scene s),
                         nextRef (host s)))) (advance time).
Proof. unfold advance. keeps_same. Qed.

Lemma loop_refsOk time : keeps (carries refsOk) (loop time).
Proof.
  intros s H. rewrite loop_unfold.
  apply render_refsOk, updateLifeStage_refsOk.
  exact (refsOk_of_parts s _ (advance_keeps_refs time s) H).
Qed.

Lemma resize_scene w h s :
  let s0 := on_scene (set_size w h) s in
  tree (scene (run (resize w h) s)) = Some (fst (buildTree s0))
  /\ branchSegments (scene (run (resize w h) s)) = branchSegments (scene s)
  /\ nextRef (host (run (resize w h) s))
     = nextRef (host (snd (buildTree s0)))
  /\ saplings (scene (run (resize w h) s)) = saplings (scene s).
Proof.
  intros s0.
  pose proof (keeps_buildTree
                (fun s => (branchSegments (scene s), saplings (scene s)))
                (fun f s => eq_refl) (fun n s => eq_refl) s0) as Hk.
  unfold same in Hk.
  unfold resize. rewrite run_bind_modify, run_bind. fold s0.
  generalize dependent (buildTree s0). intros [t s1] Hk.
  cbn [fst snd] in *. rewrite !run_bind_modify.
  cbn [modify snd scene host on_scene on_saw tree set_tree branchSegments
       saplings].
  apply (f_equal fst) in Hk as Hk1. apply (f_equal snd) in Hk as Hk2.
  cbn [fst snd] in Hk1, Hk2. rewrite Hk1, Hk2. repeat split.
Qed.

Lemma resize_refsOk w h : keeps (carries refsOk) (resize w h).
Proof.
  intros s H.
  destruct (resize_scene w h s) as (Ht & Hsg & Hn & _). cbv zeta in *.
  assert (H0 : refsOk (on_scene (set_size w h) s))
    by (apply (refsOk_of_parts s); [reflexivity | exact H]).
  exact (proj1 (fresh_tree_refsOk _ _ eq_refl H0 _ Ht Hsg Hn)).
Qed.

Lemma resize_saplingsOk w h : keeps (carries saplingsOk) (resize w h).
Proof.
  intros s H.
  destruct (resize_scene w h s) as (_ & _ & _ & Hsap).
  unfold saplingsOk in *. rewrite Hsap, (resize_keeps_life w h s). exact H.
Qed.

Lemma quiet_parts a b :
  quiet b = quiet a ->
  life b = life a /\ saplings (scene b) = saplings (scene a)
  /\ tree (scene b) = tree (scene a)
  /\ branchSegments (scene b) = branchSegments (scene a)
  /\ nextRef (host b) = nextRef (host a).
Proof.
  unfold quiet. intros H.
  repeat split.
  - exact (f_equal (fun q => fst (fst (fst (fst q)))) H).
  - exact (f_equal (fun q => snd (fst (fst (fst q)))) H).
  - exact (f_equal (fun q => snd (fst (fst q))) H).
  - exact (f_equal (fun q => snd (fst q)) H).
  - exact (f_equal snd H).
Qed.

(** *** The invariant *)

Lemma handle_consistent e : keeps (carries consistent) (handle e).
Proof.
  intros s (Hc & Hr & Hs & Hf).
  split; [exact (handle_climateOk e s Hc)|].
  split; [exact (handle_ripenedOk e s Hr)|].
  assert (Hkind : (exists time, e = Frame time)
                  \/ (exists w h, e = Resize w h)
                  \/ ((forall time, e <> Frame time)
                      /\ forall w h, e <> Resize w h)).
  { destruct e;
      try (right; right; split; [intros t0 H | intros w0 h0 H];
           discriminate H).
    - left. exists time. reflexivity.
    - right. left. exists w, h. reflexivity. }
  destruct Hkind as [[time ->] | [(w & h & ->) | [Hnf Hnr]]]; cbn [handle].
  - split; [apply loop_saplingsOk | exact (loop_refsOk time s Hf)].
  - split; [exact (resize_saplingsOk w h s Hs)
           | exact (resize_refsOk w h s Hf)].
  - destruct (quiet_parts _ _ (handle_keeps_quiet e Hnf Hnr s))
      as (Hl & Hsp & Ht & Hsg & Hn).
    split.
    + unfold saplingsOk in *. rewrite Hl, Hsp. exact Hs.
    + apply (refsOk_of_parts s); [|exact Hf].
      rewrite Ht, Hsg, Hn. reflexivity.
Qed.

Lemma boot_consistent w h t0 random : consistent (boot w h t0 random).
Proof.
  unfold boot.
  match goal with
  | |- consistent (snd (resize w h ?init)) =>
      set (s := init);
      assert (Hinit : consistent s)
  end.
  { unfold consistent, climateOk, ripenedOk, saplingsOk, refsOk, s.
    cbn [climate life scene host growth targetGrowth hydration
         fruitsRipened lifeStage saplings tree branchSegments].
    repeat split; try lra; try lia; try discriminate.
    constructor. }
  destruct Hinit as (Hc & Hr & Hs & Hf).
  split; [|split; [|split]].
  - exact (carries_of_same climate climateOk climateOk_of_climate _
             (resize_keeps_climate w h) s Hc).
  - unfold ripenedOk. rewrite (resize_keeps_life w h s). exact Hr.
  - exact (resize_saplingsOk w h s Hs).
  - exact (resize_refsOk w h s Hf).
Qed.

(** Every state of a run of the program is consistent. *)
Lemma reachable_consistent s : reachable s -> consistent s.
Proof.
  induction 1 as [w h t0 random | s e _ IH].
  - apply boot_consistent.
  - exact (handle_consistent e s IH).
Qed.

(** ** Regeneration *)

Lemma buildTree_generated s :
  Generated (maxDepth CONFIG) 0
    (Rmin (width (scene s)) (height (scene s)) * 0.25) 0
    (rng (host s) (rngPos (host s)) * 1000)
    (fst (buildTree s)).
Proof.
  unfold buildTree, bind, modify, gets, Math_random. cbn [fst snd].
  cbn [scene host on_scene on_host width height set_branchIdCounter rng
       rngPos].
  match goal with
  | |- Generated _ _ ?len _ ?sd (fst (createBranch _ _ _ _ ?st)) =>
      pose proof (createBranch_generated 0 len 0 sd st) as H
  end.
  change (maxDepth CONFIG - 0)%nat with (maxDepth CONFIG) in H. exact H.
Qed.

Lemma stageSwitch_rebirth delta s :
  lifeStage (life s) = rebirth ->
  saplings (scene s) <> [] ->
  allGrown (saplings (scene s)) = true ->
  run (stageSwitch delta) s = run regenerate s.
Proof.
  intros E Hne Hg. unfold stageSwitch. rewrite !run_bind_gets. cbv beta.
  rewrite E. rewrite run_bind_gets, run_bind. cbv beta.
  destruct (saplings (scene s)) as [|sp l] eqn:S; [contradiction|].
  cbn [isEmpty]. rewrite run_when_false, run_bind_gets. cbv beta.
  rewrite S, Hg. reflexivity.
Qed.

Lemma stageUpkeep_sprout delta s :
  lifeStage (life s) = sprout ->
  run (stageUpkeep delta) s = on_life (set_regenCountdown 0) s.
Proof.
  intros E. unfold stageUpkeep. rewrite run_bind_gets. cbv beta.
  rewrite E. rewrite run_bind. rewrite run_when_true.
  cbn [modify fst snd]. rewrite run_bind_gets. cbv beta.
  cbn [life on_life lifeStage set_regenCountdown]. rewrite E. reflexivity.
Qed.

Lemma updateHud_keeps_scene :
  keeps (same (fun s => (scene s, climate s, life s))) updateHud.
Proof. unfold updateHud. keeps_same. Qed.

Lemma walk_same_saplings_only time :
  WalkSteps time (fun _ => True)
    (same (fun s => (saplings (scene s), tree (scene s), nextRef (host s)))).
Proof. constructor; intros; reflexivity. Qed.

(** The rest of a frame, from a state with a tree and no saplings. *)
Lemma render_after_regeneration time s root :
  tree (scene s) = Some root ->
  saplings (scene s) = [] ->
  let s' := run (render time) s in
  tree (scene s') = Some root
  /\ saplings (scene s') = []
  /\ segmentsWithin root s'.
Proof.
  intros Ht Hs s'. unfold s', render, updateSaplings, updateSawdust,
    updateSawTrail.
  rewrite run_bind_gets. cbv beta. rewrite !run_bind_modify.
  rewrite run_bind.
  match goal with
  | |- context [snd (drawTree time ?x)] => set (s1 := x)
  end.
  assert (Ht1 : tree (scene s1) = Some root) by exact Ht.
  assert (Hs1 : saplings (scene s1) = []).
  { unfold s1. cbn [scene on_scene on_host saplings set_saplings set_sawdust
                     set_sawTrail]. rewrite Hs. reflexivity. }
  pose proof (drawTree_segments time s1 root Ht1) as Hw.
  pose proof (keeps_drawTree time _ (walk_same_saplings_only time)
                (fun s => eq_refl) s1) as Hk.
  unfold same in Hk.
  set (s2 := snd (drawTree time s1)) in *.
  pose proof (updateHud_keeps_scene s2) as Hh. unfold same in Hh.
  apply (f_equal (fun q => fst (fst q))) in Hh. cbn [fst] in Hh.
  unfold segmentsWithin in *. rewrite Hh.
  apply (f_equal (fun q => fst (fst q))) in Hk as Hk1.
  apply (f_equal (fun q => snd (fst q))) in Hk as Hk2.
  cbn [fst snd] in Hk1, Hk2.
  rewrite Hk1, Hk2, Hs1, Ht1. repeat split. exact Hw.
Qed.

Lemma advance_keeps_scene time :
  keeps (same (fun s => (scene s, lifeStage (life s), nextRef (host s))))
    (advance time).
Proof. unfold advance. keeps_same. Qed.

(** What [regenerate] leaves behind, stated about one tree [t']. *)
Lemma regenerate_fresh s :
  lifeStage (life s) = rebirth ->
  refsOk s ->
  exists t',
    Generated (maxDepth CONFIG) 0
      (Rmin (width (scene s)) (height (scene s)) * 0.25) 0
      (rng (host s) (rngPos (host s)) * 1000) t'
    /\ Forall (fun n => (nextRef (host s) <= br_ref n)%nat) (nodes t')
    /\ tree (scene (run regenerate s)) = Some t'
    /\ saplings (scene (run regenerate s)) = []
    /\ growth (climate (run regenerate s)) = 0.05
    /\ targetGrowth (climate (run regenerate s)) = 0.15
    /\ lifeStage (life (run regenerate s)) = sprout
    /\ stageTimer (life (run regenerate s)) = 0.
Proof.
  intros Hst Hrefs.
  pose proof (buildTree_generated s) as G.
  pose proof (regenerate_run s Hst) as R.
  pose proof (regenerate_scene s) as Q.
  pose proof (fresh_tree_refsOk s (buildTree s) eq_refl Hrefs
                (snd (regenerate s))) as F.
  revert G R Q F. generalize (snd (regenerate s)). intros sr.
  generalize (buildTree s). intros built G R Q F.
  destruct R as (Rtree & Rg & Rt & Rsap & Rstage & Rtimer & _).
  destruct Q as (_ & Rsegs & Rnext & _).
  destruct (F Rtree Rsegs Rnext) as [_ Hfresh].
  exists (fst built). repeat split; assumption.
Qed.

(** The rest of the frame after the tree has been regenerated. *)
Lemma frame_after_regeneration time delta sr root :
  tree (scene sr) = Some root ->
  saplings (scene sr) = [] ->
  lifeStage (life sr) = sprout ->
  let s' := run (render time) (run (stageUpkeep delta) sr) in
  tree (scene s') = Some root
  /\ saplings (scene s') = []
  /\ segmentsWithin root s'
  /\ climate s' = climate sr
  /\ lifeStage (life s') = lifeStage (life sr)
  /\ stageTimer (life s') = stageTimer (life sr).
Proof.
  intros Rtree Rsap Rstage. rewrite (stageUpkeep_sprout delta sr Rstage).
  assert (Ht2 : tree (scene (on_life (set_regenCountdown 0) sr)) = Some root)
    by exact Rtree.
  assert (Hs2 : saplings (scene (on_life (set_regenCountdown 0) sr)) = [])
    by exact Rsap.
  assert (Hc2 : climate (on_life (set_regenCountdown 0) sr) = climate sr)
    by reflexivity.
  assert (Hl2 : stageAndTimer (on_life (set_regenCountdown 0) sr)
                = stageAndTimer sr) by reflexivity.
  revert Ht2 Hs2 Hc2 Hl2. generalize (on_life (set_regenCountdown 0) sr).
  intros s2 Ht2 Hs2 Hc2 Hl2.
  pose proof (render_after_regeneration time s2 root Ht2 Hs2) as Hr.
  pose proof (render_keeps_climate time s2) as Hcl.
  pose proof (render_keeps_stage time s2) as Hstg.
  cbv zeta. revert Hr Hcl Hstg. generalize (snd (render time s2)).
  intros s3 (Htree & Hsaps & Hwithin) Hcl Hstg.
  unfold same in Hcl, Hstg. rewrite Hl2 in Hstg.
  unfold stageAndTimer in Hstg. injection Hstg as Hstg1 Hstg2.
  repeat split; try assumption. rewrite Hcl. exact Hc2.
Qed.

(** C7. In a consistent state (every reachable state is one) whose stage
    is rebirth and whose saplings all have growth above 0.98, the next
    frame installs a tree built by a new run of the generator: all its
    nodes are objects allocated during this frame, so none of them is a
    node of the previous tree or the branch of a previous segment, and
    every segment recorded by the frame belongs to the new tree; growth is
    0.05, targetGrowth 0.15, the sapling list is empty, the stage is
    sprout and stageTimer is 0. *)
Theorem rebirth_regenerates :
  forall (time : R) (s : State),
    consistent s ->
    lifeStage (life s) = rebirth ->
    Forall (fun sp => sap_growth sp > 0.98) (saplings (scene s)) ->
    let s' := run (loop time) s in
    exists t' rootSeed,
      tree (scene s') = Some t'
      /\ Generated (maxDepth CONFIG) 0
           (Rmin (width (scene s)) (height (scene s)) * 0.25) 0 rootSeed t'
      /\ Forall (fun n => (nextRef (host s) <= br_ref n)%nat) (nodes t')
      /\ (forall t0 n0 n',
             tree (scene s) = Some t0 -> In n0 (nodes t0) ->
             In n' (nodes t') -> br_ref n0 <> br_ref n')
      /\ (forall sg0 n',
             In sg0 (branchSegments (scene s)) -> In n' (nodes t') ->
             br_ref (seg_branch sg0) <> br_ref n')
      /\ segmentsWithin t' s'
      /\ growth (climate s') = 0.05
      /\ targetGrowth (climate s') = 0.15
      /\ saplings (scene s') = []
      /\ lifeStage (life s') = sprout
      /\ stageTimer (life s') = 0.
Proof.
  intros time s (_ & _ & Hsap & Hrefs) Hst Hgrown.
  rewrite loop_unfold. unfold atSwitch.
  (* the state in which the transition is evaluated *)
  pose proof (advance_keeps_scene time s) as Hadv.
  revert Hadv. generalize (snd (advance time s)). intros s1 Hadv.
  unfold same in Hadv. injection Hadv as Hsc Hst1 Hn1.
  rewrite Hst in Hst1.
  assert (Hrefs1 : refsOk s1).
  { apply (refsOk_of_parts s); [|exact Hrefs]. rewrite Hsc, Hn1.
    reflexivity. }
  generalize (deltaMs (clock s1)). intros delta.
  (* the transition *)
  unfold updateLifeStage. rewrite run_bind.
  assert (Hne1 : saplings (scene s1) <> [])
    by (rewrite Hsc; exact (Hsap Hst)).
  assert (Hg1 : allGrown (saplings (scene s1)) = true)
    by (rewrite Hsc; apply allGrown_Forall; exact Hgrown).
  rewrite (stageSwitch_rebirth delta s1 Hst1 Hne1 Hg1).
  destruct (regenerate_fresh s1 Hst1 Hrefs1)
    as (t' & G & Hfresh & Rtree & Rsap & Rg & Rt & Rstage & Rtimer).
  rewrite Hsc in G. rewrite Hn1 in Hfresh.
  (* the rest of the frame *)
  pose proof (frame_after_regeneration time delta _ t' Rtree Rsap Rstage)
    as Hframe.
  revert Rtree Rsap Rg Rt Rstage Rtimer Hframe.
  generalize (snd (regenerate s1)). intros sr _ _ Rg Rt Rstage Rtimer.
  cbv zeta. generalize (snd (render time (snd (stageUpkeep delta sr)))).
  intros s3 (Htree & Hsaps & Hwithin & Hcl & Hstg1 & Hstg2).
  exists t', (rng (host s1) (rngPos (host s1)) * 1000).
  split; [exact Htree|].
  split; [exact G|].
  split; [exact Hfresh|].
  destruct Hrefs as [Holdtree Holdsegs].
  rewrite Forall_forall in Hfresh.
  split.
  { intros t0 n0 n' Et0 Hin0 Hin'.
    pose proof (Holdtree t0 Et0) as Ha. unfold allocated in Ha.
    rewrite Forall_forall in Ha. specialize (Ha n0 Hin0).
    specialize (Hfresh n' Hin'). lia. }
  split.
  { intros sg0 n' Hsg Hin'.
    rewrite Forall_forall in Holdsegs.
    pose proof (Holdsegs sg0 Hsg) as Ha. unfold allocated in Ha.
    rewrite Forall_forall in Ha.
    specialize (Ha (seg_branch sg0) (In_nodes_root _)).
    specialize (Hfresh n' Hin'). lia. }
  split; [exact Hwithin|].
  split; [rewrite Hcl; exact Rg|].
  split; [rewrite Hcl; exact Rt|].
  split; [exact Hsaps|].
  split; [rewrite Hstg1; exact Rstage|].
  rewrite Hstg2. exact Rtimer.
Qed.

Lemma rebirth_regenerates_witness :
  consistent rebirthState
  /\ lifeStage (life rebirthState) = rebirth
  /\ Forall (fun sp => sap_growth sp > 0.98) (saplings (scene rebirthState))
  /\ lifeStage (life (run (loop 16) rebirthState)) = sprout
  /\ growth (climate (run (loop 16) rebirthState)) = 0.05.
Proof.
  assert (Hc : consistent rebirthState).
  { unfold consistent, climateOk, ripenedOk, saplingsOk, refsOk,
      rebirthState, state0.
    cbn [climate life scene host on_life on_scene growth targetGrowth
         hydration fruitsRipened lifeStage saplings tree branchSegments
         set_lifeStage set_saplings].
    repeat split; try lra; try lia; try discriminate.
    constructor. }
  assert (Hs : lifeStage (life rebirthState) = rebirth) by reflexivity.
  assert (Hg : Forall (fun sp => sap_growth sp > 0.98)
                 (saplings (scene rebirthState))).
  { unfold rebirthState, state0.
    cbn [scene on_life on_scene saplings set_saplings].
    constructor; [cbn [sap_growth]; lra | constructor]. }
  split; [exact Hc|]. split; [exact Hs|]. split; [exact Hg|].
  destruct (rebirth_regenerates 16 rebirthState Hc Hs Hg)
    as (t' & rootSeed & _ & _ & _ & _ & _ & _ & Hgr & _ & _ & Hstage & _).
  split; assumption.
Defined.

(** ** Fruit ripening *)

Lemma ripen_newly dms hyd f :
  snd (ripen dms hyd f) = true
  <-> ripeness (fst (ripen dms hyd f)) > 0.98 /\ counted f = false.
Proof.
  unfold ripen. cbn [fst snd ripeness].
  rewrite andb_true_iff, gtb_true, negb_true_iff. reflexivity.
Qed.

Lemma ripen_counted dms hyd f :
  counted (fst (ripen dms hyd f)) = true
  <-> counted f = true \/ ripeness (fst (ripen dms hyd f)) > 0.98.
Proof.
  unfold ripen. cbn [fst snd ripeness counted].
  set (r := clamp _ 0 1.2).
  destruct (gtb r 0.98) eqn:G; destruct (counted f); cbn [andb negb];
    first [ apply gtb_true in G | apply gtb_false in G ];
    split; intros H; try reflexivity; try discriminate; auto;
    destruct H as [H | H]; try discriminate; lra.
Qed.

Lemma ripen_counted_eq dms hyd f :
  counted (fst (ripen dms hyd f)) = counted f || snd (ripen dms hyd f).
Proof.
  unfold ripen. cbn [fst snd counted].
  destruct (gtb _ 0.98); destruct (counted f); reflexivity.
Qed.

Lemma ripenAll_app p q f : ripenAll (p ++ q) f = ripenAll q (ripenAll p f).
Proof. unfold ripenAll. apply fold_left_app. Qed.

Lemma firstn_succ {A} (l : list A) k a :
  nth_error l k = Some a -> firstn (S k) l = firstn k l ++ [a].
Proof.
  revert l. induction k as [|k IH]; intros [|b l] H; try discriminate H.
  - injection H as ->. reflexivity.
  - cbn [nth_error] in H.
    change (firstn (S (S k)) (b :: l)) with (b :: firstn (S k) l).
    rewrite (IH l H). reflexivity.
Qed.

Lemma fruitAfter_step passes f k p :
  nth_error passes k = Some p ->
  fruitAfter passes f k
  = fst (ripen (fst p) (snd p) (ripenAll (firstn k passes) f)).
Proof.
  intros H. unfold fruitAfter. rewrite (firstn_succ passes k p H).
  rewrite ripenAll_app. reflexivity.
Qed.

(** The flag is set when a pass has left the ripeness above 0.98. *)
Lemma counted_after passes f :
  counted f = false ->
  forall k, (k <= length passes)%nat ->
    counted (ripenAll (firstn k passes) f) = true
    <-> exists j, (j < k)%nat /\ ripenessAfter passes f j > 0.98.
Proof.
  intros Hf. induction k as [|k IH]; intros Hk.
  - cbn [firstn ripenAll fold_left]. rewrite Hf. split; [discriminate|].
    intros (j & Hj & _). lia.
  - destruct (nth_error passes k) as [p|] eqn:Hp.
    2:{ apply nth_error_None in Hp. lia. }
    pose proof (fruitAfter_step passes f k p Hp) as Hstep.
    unfold fruitAfter in Hstep. rewrite Hstep, ripen_counted.
    rewrite (IH ltac:(lia)). rewrite <- Hstep.
    split.
    + intros [(j & Hj & Hr) | Hr].
      * exists j. split; [lia | exact Hr].
      * exists k. split; [lia | exact Hr].
    + intros (j & Hj & Hr).
      destruct (Nat.eq_dec j k) as [-> | Hne].
      * right. exact Hr.
      * left. exists j. split; [lia | exact Hr].
Qed.

Lemma increments_counted passes :
  forall f, counted f = true ->
    increments passes f = 0%nat /\ counted (ripenAll passes f) = true.
Proof.
  induction passes as [|p passes IH]; intros f Hf.
  - split; [reflexivity | exact Hf].
  - cbn [increments ripenAll fold_left].
    assert (Hn : snd (ripen (fst p) (snd p) f) = false).
    { destruct (snd (ripen (fst p) (snd p) f)) eqn:E; [|reflexivity].
      apply ripen_newly in E. destruct E as [_ E]. congruence. }
    assert (Hc : counted (fst (ripen (fst p) (snd p) f)) = true).
    { apply ripen_counted. left. exact Hf. }
    rewrite Hn. destruct (IH _ Hc) as [I1 I2]. rewrite I1.
    split; [reflexivity | exact I2].
Qed.

Lemma increments_once passes : forall f, (increments passes f <= 1)%nat.
Proof.
  induction passes as [|p passes IH]; intros f; cbn [increments].
  - lia.
  - destruct (snd (ripen (fst p) (snd p) f)) eqn:E.
    + assert (Hc : counted (fst (ripen (fst p) (snd p) f)) = true).
      { rewrite ripen_counted_eq, E. apply orb_true_r. }
      destruct (increments_counted passes _ Hc) as [-> _]. lia.
    + specialize (IH (fst (ripen (fst p) (snd p) f))). lia.
Qed.

(** The pass that adds 1 is the first that leaves the ripeness above
    0.98. *)
Lemma incrementsAt_first passes f k :
  counted f = false -> (k < length passes)%nat ->
  incrementsAt passes f k = true
  <-> ripenessAfter passes f k > 0.98
      /\ forall j, (j < k)%nat -> ripenessAfter passes f j <= 0.98.
Proof.
  intros Hf Hk. unfold incrementsAt.
  destruct (nth_error passes k) as [p|] eqn:Hp.
  2:{ apply nth_error_None in Hp. lia. }
  rewrite ripen_newly. unfold ripenessAfter at 1.
  rewrite (fruitAfter_step passes f k p Hp).
  pose proof (counted_after passes f Hf k ltac:(lia)) as Hc.
  split.
  - intros [Hr Hn]. split; [exact Hr|]. intros j Hj.
    destruct (Rle_dec (ripenessAfter passes f j) 0.98) as [Hle|Hgt];
      [exact Hle|].
    assert (Ht : counted (ripenAll (firstn k passes) f) = true).
    { apply Hc. exists j. split; [exact Hj | lra]. }
    congruence.
  - intros [Hr Hall]. split; [exact Hr|].
    destruct (counted (ripenAll (firstn k passes) f)) eqn:E;
      [|reflexivity].
    destruct (proj1 Hc eq_refl) as (j & Hj & Hgt).
    specialize (Hall j Hj). lra.
Qed.

(** ** The count of ripened fruit *)

Lemma countedOf_cons f fs :
  countedOf (f :: fs) = ((if counted f then 1 else 0) + countedOf fs)%Z.
Proof.
  unfold countedOf. cbn [filter]. destruct (counted f); cbn [length]; lia.
Qed.

Lemma newlyCounted_cons dms hyd f fs :
  newlyCounted dms hyd (f :: fs)
  = ((if snd (ripen dms hyd f) then 1 else 0) + newlyCounted dms hyd fs)%Z.
Proof.
  unfold newlyCounted. cbn [filter].
  destruct (snd (ripen dms hyd f)); cbn [length]; lia.
Qed.

Lemma newlyCounted_nonneg dms hyd fs : (0 <= newlyCounted dms hyd fs)%Z.
Proof. unfold newlyCounted. lia. Qed.

(** A pass sets the flags of the fruits it counts, and no other. *)
Lemma countedOf_ripen dms hyd fs :
  countedOf (map (fun f => fst (ripen dms hyd f)) fs)
  = (countedOf fs + newlyCounted dms hyd fs)%Z.
Proof.
  induction fs as [|f fs IH].
  - reflexivity.
  - cbn [map]. rewrite !countedOf_cons, newlyCounted_cons, IH.
    rewrite ripen_counted_eq.
    destruct (snd (ripen dms hyd f)) eqn:E.
    + apply ripen_newly in E. destruct E as [_ ->]. cbn [orb]. lia.
    + rewrite orb_false_r. lia.
Qed.

Lemma countedOf_uncounted fs :
  Forall (fun f => counted f = false) fs -> countedOf fs = 0%Z.
Proof.
  induction 1 as [|f fs Hf _ IH]; [reflexivity|].
  rewrite countedOf_cons, Hf, IH. reflexivity.
Qed.

Lemma countedBelow_ext n h h' :
  (forall r, (r < n)%nat -> countedIn (h' r) = countedIn (h r)) ->
  countedBelow n h' = countedBelow n h.
Proof.
  induction n as [|n IH]; intros H; cbn [countedBelow]; [reflexivity|].
  rewrite IH by (intros r Hr; apply H; lia).
  rewrite (H n) by lia. reflexivity.
Qed.

Lemma countedBelow_upd_above n h r c :
  (n <= r)%nat -> countedBelow n (upd h r c) = countedBelow n h.
Proof.
  intros H. apply countedBelow_ext. intros r' Hr'.
  rewrite upd_other by lia. reflexivity.
Qed.

Lemma countedBelow_upd n h r c :
  (r < n)%nat ->
  countedBelow n (upd h r c)
  = (countedBelow n h + (countedIn c - countedIn (h r)))%Z.
Proof.
  induction n as [|n IH]; intros H; [lia|]. cbn [countedBelow].
  destruct (Nat.eq_dec r n) as [-> | Hne].
  - rewrite countedBelow_upd_above by lia. rewrite upd_same. lia.
  - rewrite IH by lia. rewrite upd_other by lia. lia.
Qed.

Lemma countedBelow_upd_same n h r c :
  countedIn c = countedIn (h r) ->
  countedBelow n (upd h r c) = countedBelow n h.
Proof.
  intros H. apply countedBelow_ext. intros r' _.
  destruct (Nat.eq_dec r' r) as [-> | Hne].
  - rewrite upd_same. exact H.
  - rewrite upd_other by exact Hne. reflexivity.
Qed.

#[export] Instance ledger_PreOrder n : PreOrder (ledger n).
Proof.
  split.
  - intros s. unfold ledger. lia.
  - intros a b c [H1 H2] [H3 H4]. unfold ledger in *. lia.
Qed.

(** *** One call of [drawFruit] *)

Lemma mapM_length {A B} (f : A -> M B) l :
  forall s, length (fst (mapM f l s)) = length l.
Proof.
  induction l as [|a l IH]; intros s; cbn [mapM]; [reflexivity|].
  unfold bind. destruct (f a s) as [b s1].
  specialize (IH s1). destruct (mapM f l s1) as [bs s2].
  cbn [fst ret length] in *. congruence.
Qed.

Lemma newFruits_uncounted branch l :
  forall s,
    Forall (fun f => counted f = false) (fst (mapM (newFruit branch) l s)).
Proof.
  induction l as [|idx l IH]; intros s; cbn [mapM].
  - constructor.
  - unfold bind.
    assert (Hf : counted (fst (newFruit branch idx s)) = false)
      by reflexivity.
    destruct (newFruit branch idx s) as [f s1]. cbn [fst] in Hf.
    specialize (IH s1).
    destruct (mapM (newFruit branch) l s1) as [bs s2].
    cbn [fst ret] in *. constructor; assumption.
Qed.

Lemma newFruits_keep branch l :
  keeps (same (fun s => (heap (host s), nextRef (host s), life s, clock s,
                         climate s)))
    (mapM (newFruit branch) l).
Proof. keeps_step. unfold newFruit. keeps_same. Qed.

Lemma drawOneFruit_run x y branch angle time f s :
  let p := ripen (deltaMs (clock s)) (hydration (climate s)) f in
  let r := drawOneFruit x y branch angle time f s in
  fst r = fst p
  /\ fruitsRipened (life (snd r))
     = (fruitsRipened (life s) + (if snd p then 1 else 0))%Z
  /\ (heap (host (snd r)), nextRef (host (snd r)), clock (snd r),
      climate (snd r))
     = (heap (host s), nextRef (host s), clock s, climate s).
Proof.
  intros p r. unfold r, p, drawOneFruit, bind, gets. cbn [fst snd].
  destruct (ripen (deltaMs (clock s)) (hydration (climate s)) f)
    as [f' newly].
  destruct newly; unfold when, emit, modify, ret;
    cbn [fst snd life host on_host on_life heap nextRef clock climate
         set_canvas fruitsRipened set_fruitsRipened];
    (split; [reflexivity|]); (split; [lia|reflexivity]).
Qed.

Lemma mapM_drawOneFruit x y branch angle time fs :
  forall s,
    let dms := deltaMs (clock s) in
    let hyd := hydration (climate s) in
    let r := mapM (drawOneFruit x y branch angle time) fs s in
    fst r = map (fun f => fst (ripen dms hyd f)) fs
    /\ fruitsRipened (life (snd r))
       = (fruitsRipened (life s) + newlyCounted dms hyd fs)%Z
    /\ (heap (host (snd r)), nextRef (host (snd r)), clock (snd r),
        climate (snd r))
       = (heap (host s), nextRef (host s), clock s, climate s).
Proof.
  induction fs as [|f fs IH]; intros s dms hyd r; unfold r; cbn [mapM].
  - cbn [ret fst snd map]. unfold newlyCounted. cbn [filter length].
    repeat split. lia.
  - unfold bind.
    destruct (drawOneFruit_run x y branch angle time f s)
      as (H1 & H2 & H3).
    destruct (drawOneFruit x y branch angle time f s) as [f' s1].
    cbn [fst snd] in H1, H2, H3. injection H3 as Hh Hn Hk Hc.
    specialize (IH s1). cbv zeta in IH.
    destruct IH as (I1 & I2 & I3).
    destruct (mapM (drawOneFruit x y branch angle time) fs s1)
      as [fs' s2].
    cbn [fst snd ret] in *. rewrite Hk, Hc in I1, I2.
    fold dms hyd in H1, H2, I1, I2 |- *.
    split; [cbn [map]; congruence|].
    split; [rewrite newlyCounted_cons; lia|].
    rewrite I3. congruence.
Qed.

Lemma drawFruit_unfold x y branch angle time s :
  fruiting (lifeStage (life s)) = true ->
  run (drawFruit x y branch angle time) s
  = let ref := br_ref branch in
    let made :=
      match fruits (heap (host s) ref) with
      | Some fs => ret fs
      | None => mapM (newFruit branch) (seq 0 (fruitCount branch))
      end s in
    let walked :=
      mapM (drawOneFruit x y branch angle time) (fst made) (snd made) in
    on_host (fun o =>
      set_heap (upd (heap o) ref
                  {| pruned := pruned (heap o ref);
                     regrowAt := regrowAt (heap o ref);
                     fruits := Some (fst walked) |}) o) (snd walked).
Proof.
  intros Hf. unfold drawFruit. rewrite run_bind_gets. cbv beta.
  rewrite Hf. cbn [negb]. unfold getCell. rewrite run_bind_gets. cbv beta.
  rewrite run_bind, run_bind, run_bind_gets. reflexivity.
Qed.

(** [drawFruit] outside the fruiting stages does nothing; in them it makes
    the fruits of the branch if there are none yet, passes once over each
    of them and adds the number of those it counts to [fruitsRipened]. *)
Lemma drawFruit_run x y branch angle time s :
  let ref := br_ref branch in
  let dms := deltaMs (clock s) in
  let hyd := hydration (climate s) in
  let s' := run (drawFruit x y branch angle time) s in
  (fruiting (lifeStage (life s)) = false /\ s' = s)
  \/ (fruiting (lifeStage (life s)) = true
      /\ exists fs,
           (fruits (heap (host s) ref) = Some fs
            \/ fruits (heap (host s) ref) = None
               /\ length fs = fruitCount branch
               /\ Forall (fun f => counted f = false) fs)
           /\ fruits (heap (host s') ref)
              = Some (map (fun f => fst (ripen dms hyd f)) fs)
           /\ fruitsRipened (life s')
              = (fruitsRipened (life s) + newlyCounted dms hyd fs)%Z
           /\ (forall r, r <> ref -> heap (host s') r = heap (host s) r)
           /\ nextRef (host s') = nextRef (host s)).
Proof.
  intros ref dms hyd s'. unfold s'.
  destruct (fruiting (lifeStage (life s))) eqn:Hf.
  - right. split; [reflexivity|].
    rewrite (drawFruit_unfold x y branch angle time s Hf). cbv zeta.
    fold ref.
    set (made := match fruits (heap (host s) ref) with
                 | Some fs => ret fs
                 | None => mapM (newFruit branch) (seq 0 (fruitCount branch))
                 end s).
    assert (Hmade :
      (fruits (heap (host s) ref) = Some (fst made)
       \/ fruits (heap (host s) ref) = None
          /\ length (fst made) = fruitCount branch
          /\ Forall (fun f => counted f = false) (fst made))
      /\ (heap (host (snd made)), nextRef (host (snd made)),
          life (snd made), clock (snd made), climate (snd made))
         = (heap (host s), nextRef (host s), life s, clock s, climate s)).
    { unfold made. destruct (fruits (heap (host s) ref)) as [fs|].
      - split; [left|]; reflexivity.
      - split.
        + right. split; [reflexivity|]. split.
          * rewrite mapM_length. apply length_seq.
          * apply newFruits_uncounted.
        + apply (newFruits_keep branch _ s). }
    destruct made as [fs s0]. cbn [fst snd] in Hmade |- *.
    destruct Hmade as [Hfs Hs0]. injection Hs0 as Hh0 Hn0 Hl0 Hk0 Hc0.
    exists fs. split; [exact Hfs|].
    destruct (mapM_drawOneFruit x y branch angle time fs s0)
      as (H1 & H2 & H3).
    destruct (mapM (drawOneFruit x y branch angle time) fs s0)
      as [fs' s1].
    cbn [fst snd] in H1, H2, H3 |- *. injection H3 as Hh1 Hn1 _ _.
    rewrite Hk0, Hc0 in H1, H2. fold dms hyd in H1, H2.
    cbn [host on_host heap set_heap nextRef life].
    split; [rewrite upd_same; cbn [fruits]; congruence|].
    split; [congruence|].
    split; [|congruence].
    intros r Hr. rewrite upd_other by exact Hr. congruence.
  - left. split; [reflexivity|]. unfold drawFruit.
    rewrite run_bind_gets. cbv beta. rewrite Hf. reflexivity.
Qed.

Lemma drawFruit_ledger x y branch angle time n s :
  (br_ref branch < n)%nat ->
  ledger n s (run (drawFruit x y branch angle time) s).
Proof.
  intros Hn.
  destruct (drawFruit_run x y branch angle time s)
    as [[_ ->] | (_ & fs & Hfs & Hf' & Hr & Hh & _)];
    [reflexivity|].
  revert Hf' Hr Hh.
  generalize (snd (drawFruit x y branch angle time s)). intros s' Hf' Hr Hh.
  set (dms := deltaMs (clock s)) in *.
  set (hyd := hydration (climate s)) in *.
  assert (Hold : countedIn (heap (host s) (br_ref branch)) = countedOf fs).
  { unfold countedIn. destruct Hfs as [-> | (-> & _ & Hun)];
      [reflexivity|]. symmetry. apply countedOf_uncounted. exact Hun. }
  assert (Hnew : countedIn (heap (host s') (br_ref branch))
                 = (countedOf fs + newlyCounted dms hyd fs)%Z).
  { unfold countedIn. rewrite Hf'. apply countedOf_ripen. }
  assert (Hcb : countedBelow n (heap (host s'))
                = (countedBelow n (heap (host s))
                   + newlyCounted dms hyd fs)%Z).
  { rewrite (countedBelow_ext n
               (upd (heap (host s)) (br_ref branch)
                  (heap (host s') (br_ref branch)))
               (heap (host s'))).
    - rewrite countedBelow_upd by exact Hn. lia.
    - intros r _. destruct (Nat.eq_dec r (br_ref branch)) as [-> | Hne].
      + rewrite upd_same. reflexivity.
      + rewrite upd_other by exact Hne. rewrite Hh by exact Hne.
        reflexivity. }
  pose proof (newlyCounted_nonneg dms hyd fs).
  unfold ledger. lia.
Qed.

Lemma walk_ledger time n :
  WalkUnits time (fun b => (br_ref b < n)%nat) (ledger n).
Proof.
  constructor.
  - intros c s. unfold ledger, emit.
    cbn [modify snd life host on_host heap set_canvas]. lia.
  - intros sg s _. unfold ledger, pushSegment.
    cbn [modify snd life host on_scene]. lia.
  - intros ref s _ _. unfold ledger, setCell.
    cbn [modify snd life host on_host heap set_heap].
    rewrite countedBelow_upd_same by reflexivity. lia.
  - intros x y branch angle s Hok. apply drawFruit_ledger. exact Hok.
Qed.

Lemma drawTree_ledger time s :
  refsOk s -> ledger (nextRef (host s)) s (run (drawTree time) s).
Proof.
  intros [Htree _].
  destruct (tree (scene s)) as [root|] eqn:Ht.
  - specialize (Htree root eq_refl). unfold allocated in Htree.
    unfold drawTree. rewrite run_bind_gets. cbv beta.
    rewrite Ht. rewrite run_bind_modify, !run_bind_gets. cbv beta.
    transitivity (on_scene (set_branchSegments []) s).
    + unfold ledger. cbn [life host on_scene]. lia.
    + apply (units_drawBranch time _ _
               (walk_ledger time (nextRef (host s))) root Htree).
  - rewrite drawTree_untouched by exact Ht. reflexivity.
Qed.

(** *** The rest of the program leaves the count and the flags alone *)

Lemma newBranchObject_tally : keeps (same tally) newBranchObject.
Proof.
  intros s. unfold same, tally, countedFruits, newBranchObject.
  cbn [snd life host on_host nextRef heap set_nextRef set_heap
       countedBelow].
  rewrite countedBelow_upd_above by lia. rewrite upd_same.
  unfold countedIn. cbn [fruits newCell]. rewrite Z.add_0_r. reflexivity.
Qed.

Lemma buildTree_tally : keeps (same tally) buildTree.
Proof.
  unfold buildTree.
  keeps_using ltac:(idtac;
    lazymatch goal with
    | |- keeps _ (createBranch _ _ _ _) =>
        apply createBranch_keeps;
        [ intros ?; reflexivity | intros ?; reflexivity
        | apply newBranchObject_tally ]
    end).
Qed.

Ltac tally_call :=
  idtac;
  lazymatch goal with
  | |- keeps _ buildTree => apply buildTree_tally
  | |- keeps _ (setStage _) => unfold setStage
  end.

Lemma regenerate_tally : keeps (same tally) regenerate.
Proof. unfold regenerate. keeps_using tally_call. Qed.

Lemma resize_tally w h : keeps (same tally) (resize w h).
Proof. unfold resize. keeps_using tally_call. Qed.

Lemma stageUpkeep_tally delta : keeps (same tally) (stageUpkeep delta).
Proof. unfold stageUpkeep. keeps_same. Qed.

Lemma advance_tally time : keeps (same tally) (advance time).
Proof. unfold advance. keeps_same. Qed.

Lemma updatePointer_tally point : keeps (same tally) (updatePointer point).
Proof.
  unfold updatePointer.
  repeat first
    [ keeps_step
    | lazymatch goal with
      | |- forall s : State,
             same tally s (on_scene (fun c => if _ then _ else _) s) =>
          intros s; reflexivity
      end
    | keeps_leaf ].
Qed.

Lemma afterCut_tally now sg s : tally (afterCut now sg s) = tally s.
Proof.
  unfold tally, countedFruits, afterCut.
  cbn [life host on_saw on_host nextRef heap set_heap set_rngPos].
  rewrite !countedBelow_upd_same; reflexivity.
Qed.

Lemma performSawCut_tally now : keeps (same tally) (performSawCut now).
Proof.
  intros s. unfold same. rewrite performSawCut_run. cbv zeta.
  destruct (isEmpty (branchSegments (scene s))); [reflexivity|].
  destruct (ltb (now - lastCut (sawState s)) (sawCooldown CONFIG));
    [reflexivity|].
  destruct (chosen _) as [sg|]; [|reflexivity].
  destruct (chosenPoint _) as [point|]; [|reflexivity].
  rewrite <- (afterCut_tally now sg s).
  generalize (afterCut now sg s). intros s1.
  assert (K : keeps (same tally)
                (spawnSawdust point ;;;
                 modify (on_host (set_hint hintBranchCut)))).
  { keeps_step.
    - apply spawnSawdust_keeps; [intros s0; reflexivity|].
      intros f s0. reflexivity.
    - keeps_step. intros s0. reflexivity. }
  exact (K s1).
Qed.

Lemma handle_tally e :
  (forall time, e <> Frame time) -> keeps (same tally) (handle e).
Proof.
  intros Hnf. destruct e; cbn [handle].
  - exfalso. apply (Hnf time). reflexivity.
  - unfold growthPulse. keeps_same.
  - unfold water. keeps_same.
  - unfold pointerdown.
    repeat first
      [ lazymatch goal with
        | |- keeps _ (updatePointer _) => apply updatePointer_tally
        | |- keeps _ (performSawCut _) => apply performSawCut_tally
        end
      | keeps_step | keeps_leaf ].
  - unfold pointermove.
    repeat first
      [ lazymatch goal with
        | |- keeps _ (updatePointer _) => apply updatePointer_tally
        | |- keeps _ (performSawCut _) => apply performSawCut_tally
        end
      | keeps_step | keeps_leaf ].
  - unfold pointerup. keeps_same.
  - unfold pointerup. keeps_same.
  - apply resize_tally.
Qed.

(** *** One frame *)

Lemma updateHud_tally :
  keeps (same (fun s => (fruitsRipened (life s), heap (host s),
                         nextRef (host s)))) updateHud.
Proof. unfold updateHud. keeps_same. Qed.

(** The rest of the frame adds to [fruitsRipened] the number of flags that
    it sets. *)
Lemma render_account time s :
  refsOk s ->
  let s' := run (render time) s in
  (fruitsRipened (life s') - countedFruits s'
   = fruitsRipened (life s) - countedFruits s)%Z
  /\ (countedFruits s <= countedFruits s')%Z.
Proof.
  intros Hrefs s'. unfold s', render, updateSaplings, updateSawdust,
    updateSawTrail.
  rewrite run_bind_gets. cbv beta. rewrite !run_bind_modify.
  rewrite run_bind.
  match goal with
  | |- context [snd (drawTree time ?x)] => set (s1 := x)
  end.
  assert (Hrefs1 : refsOk s1)
    by (apply (refsOk_of_parts s); [reflexivity | exact Hrefs]).
  assert (E1 : (fruitsRipened (life s1), heap (host s1), nextRef (host s1))
               = (fruitsRipened (life s), heap (host s), nextRef (host s)))
    by reflexivity.
  clearbody s1. injection E1 as Hf1 Hh1 Hn1.
  pose proof (drawTree_ledger time s1 Hrefs1) as L.
  pose proof (drawTree_keeps_tree time s1) as Hk.
  pose proof (updateHud_tally (snd (drawTree time s1))) as Hh.
  revert L Hk Hh. generalize (snd (drawTree time s1)). intros s2 L Hk.
  generalize (snd (updateHud s2)). intros s3 Hh.
  unfold same in Hk, Hh. injection Hk as _ Hn. injection Hh as Hf3 Hh3 Hn3.
  unfold countedFruits, ledger in *. rewrite Hf3, Hh3, Hn3, Hn.
  rewrite <- Hf1, <- Hh1, <- Hn1. exact L.
Qed.

Lemma spawnSaplings_counted : keeps (same countedFruits) spawnSaplings.
Proof. unfold spawnSaplings, newSapling. keeps_same. Qed.

(** The statement [if (!saplings.length) spawnSaplings()] and what
    follows it. *)
Lemma spawn_then_rest (none : bool) (rest : M unit) s :
  keeps (same tally) rest ->
  let s' := run (when none spawnSaplings ;;; rest) s in
  countedFruits s' = countedFruits s
  /\ (none = false /\ fruitsRipened (life s') = fruitsRipened (life s)
      \/ none = true
         /\ fruitsRipened (life s') = afterSpawn (fruitsRipened (life s))).
Proof.
  intros Hrest s'. unfold s'. rewrite run_bind. destruct none.
  - rewrite run_when_true.
    destruct (spawnSaplings_run s) as (_ & _ & Hfr & _). cbv zeta in Hfr.
    pose proof (spawnSaplings_counted s) as Hc. unfold same in Hc.
    revert Hfr Hc. generalize (snd (spawnSaplings s)). intros s1 Hfr Hc.
    pose proof (Hrest s1) as Hr. revert Hr.
    generalize (snd (rest s1)). intros s2 Hr.
    unfold same, tally in Hr. injection Hr as Hr1 Hr2.
    split; [congruence|]. right. split; [reflexivity|].
    unfold afterSpawn. congruence.
  - rewrite run_when_false.
    pose proof (Hrest s) as Hr. revert Hr.
    generalize (snd (rest s)). intros s2 Hr.
    unfold same, tally in Hr. injection Hr as Hr1 Hr2.
    split; [congruence|]. left. split; [reflexivity | congruence].
Qed.

Lemma settled_spends (P : Prop) s s' :
  tally s' = tally s ->
  countedFruits s' = countedFruits s
  /\ (fruitsRipened (life s') = fruitsRipened (life s) \/ P).
Proof.
  unfold tally. intros H. injection H as H1 H2.
  split; [exact H2 | left; exact H1].
Qed.

(** [updateLifeStage] changes [fruitsRipened] only where it calls
    [spawnSaplings]; it sets no flag. *)
Lemma updateLifeStage_spends delta s :
  let s' := run (updateLifeStage delta) s in
  countedFruits s' = countedFruits s
  /\ (fruitsRipened (life s') = fruitsRipened (life s)
      \/ (lifeStage (life s) = seedFall \/ lifeStage (life s) = rebirth)
         /\ saplings (scene s) = []
         /\ fruitsRipened (life s') = afterSpawn (fruitsRipened (life s))).
Proof.
  intros s'. unfold s', updateLifeStage. rewrite run_bind.
  pose proof (stageUpkeep_tally delta (snd (stageSwitch delta s))) as Hup.
  revert Hup. generalize (snd (stageUpkeep delta (snd (stageSwitch delta s)))).
  intros s3 Hup. unfold same, tally in Hup. injection Hup as -> ->.
  unfold stageSwitch. rewrite !run_bind_gets. cbv beta.
  destruct (lifeStage (life s)) eqn:Hst.
  1-6: apply settled_spends;
       match goal with
       | |- tally (snd (?m ?x)) = tally ?x =>
           enough (K : keeps (same tally) m) by exact (K x)
       end; keeps_using tally_call.
  - rewrite run_bind_modify, run_bind_gets. cbv beta.
    match goal with
    | |- context [snd (bind (when ?none spawnSaplings) ?rest ?x)] =>
        destruct (spawn_then_rest none (rest tt) x) as (Hc & Hfr)
    end.
    { keeps_using tally_call. }
    cbn [scene on_life life fruitsRipened set_regenCountdown] in Hc, Hfr.
    split; [exact Hc|].
    destruct Hfr as [[_ Hfr] | [Hn Hfr]]; [left; exact Hfr|].
    right. split; [left; reflexivity|]. split; [|exact Hfr].
    destruct (saplings (scene s)); [reflexivity | discriminate Hn].
  - rewrite run_bind_gets. cbv beta.
    match goal with
    | |- context [snd (bind (when ?none spawnSaplings) ?rest ?x)] =>
        destruct (spawn_then_rest none (rest tt) x) as (Hc & Hfr)
    end.
    { keeps_using ltac:(idtac;
        lazymatch goal with
        | |- keeps _ regenerate => apply regenerate_tally
        end). }
    split; [exact Hc|].
    destruct Hfr as [[_ Hfr] | [Hn Hfr]]; [left; exact Hfr|].
    right. split; [right; reflexivity|]. split; [|exact Hfr].
    destruct (saplings (scene s)); [reflexivity | discriminate Hn].
Qed.

Lemma loop_account time s :
  refsOk s ->
  let s' := run (loop time) s in
  (countedFruits s <= countedFruits s')%Z
  /\ exists spent : Z,
       (spent = 0%Z
        \/ (lifeStage (life s) = seedFall \/ lifeStage (life s) = rebirth)
           /\ saplings (scene s) = []
           /\ spent = (fruitsRipened (life s)
                       - afterSpawn (fruitsRipened (life s)))%Z)
       /\ fruitsRipened (life s')
          = (fruitsRipened (life s) - spent
             + (countedFruits s' - countedFruits s))%Z.
Proof.
  intros Hrefs s'. unfold s'. rewrite loop_unfold. unfold atSwitch.
  pose proof (advance_tally time s) as Ht.
  pose proof (advance_keeps_scene time s) as Hsc.
  pose proof (refsOk_of_parts s _ (advance_keeps_refs time s) Hrefs)
    as Hrefs1.
  revert Ht Hsc Hrefs1. generalize (snd (advance time s)).
  intros s1 Ht Hsc Hrefs1.
  unfold same, tally in Ht, Hsc. injection Ht as Hf1 Hc1.
  injection Hsc as Hscene Hstage _.
  generalize (deltaMs (clock s1)). intros delta.
  pose proof (updateLifeStage_spends delta s1) as Hsp. cbv zeta in Hsp.
  pose proof (updateLifeStage_refsOk delta s1 Hrefs1) as Hrefs2.
  revert Hsp Hrefs2. generalize (snd (updateLifeStage delta s1)).
  intros s2 [Hc2 Hf2] Hrefs2.
  pose proof (render_account time s2 Hrefs2) as Hr. cbv zeta in Hr.
  revert Hr. generalize (snd (render time s2)). intros s3 [Hr1 Hr2].
  rewrite Hf1, Hstage, Hscene in Hf2. rewrite Hc1 in Hc2.
  split; [lia|].
  destruct Hf2 as [Hf2 | (Hst & Hnone & Hf2)].
  - exists 0%Z. split; [left; reflexivity | lia].
  - exists (fruitsRipened (life s) - afterSpawn (fruitsRipened (life s)))%Z.
    split; [|lia]. right. repeat split; assumption.
Qed.

(** What an event does to [fruitsRipened]. *)
Lemma handle_account e s :
  refsOk s ->
  let s' := run (handle e) s in
  (countedFruits s <= countedFruits s')%Z
  /\ exists spent : Z,
       (spent = 0%Z
        \/ (exists time, e = Frame time)
           /\ (lifeStage (life s) = seedFall
               \/ lifeStage (life s) = rebirth)
           /\ saplings (scene s) = []
           /\ spent = (fruitsRipened (life s)
                       - afterSpawn (fruitsRipened (life s)))%Z)
       /\ fruitsRipened (life s')
          = (fruitsRipened (life s) - spent
             + (countedFruits s' - countedFruits s))%Z.
Proof.
  intros Hrefs s'. unfold s'.
  assert (Hframe : (exists time, e = Frame time)
                   \/ (forall time, e <> Frame time)).
  { destruct e; try (right; intros t0 H; discriminate H).
    left. exists time. reflexivity. }
  destruct Hframe as [[time ->] | Hnf].
  - cbn [handle].
    destruct (loop_account time s Hrefs) as (Hc & spent & Hs & Hf).
    split; [exact Hc|]. exists spent. split; [|exact Hf].
    destruct Hs as [Hs | (H1 & H2 & H3)]; [left; exact Hs|].
    right. split; [exists time; reflexivity|]. repeat split; assumption.
  - pose proof (handle_tally e Hnf s) as Ht. revert Ht.
    generalize (snd (handle e s)). intros s1 Ht.
    unfold same, tally in Ht. injection Ht as Hf Hc.
    split; [lia|]. exists 0%Z. split; [left; reflexivity | lia].
Qed.

Lemma afterSpawn_range ripened :
  (0 <= ripened)%Z -> (0 <= afterSpawn ripened <= ripened)%Z.
Proof.
  intros H. unfold afterSpawn, fruitBonusOf.
  pose proof (Z.div_pos ripened 6 H). lia.
Qed.

(** C10. One pass of the [forEach] body of [drawFruit] over a fruit adds
    1 to [fruitsRipened] exactly when it leaves the ripeness above 0.98
    and the fruit's [counted] flag is not set, and after the pass the flag
    is set exactly when it was set before or the ripeness is above 0.98.
    Hence, over any sequence of passes, a fruit adds 1 at most once; a
    fruit whose flag is set adds nothing and keeps the flag; and for a
    fruit that starts with the flag unset (as every new fruit does) the
    pass that adds 1 is the first that leaves its ripeness above 0.98,
    from which pass on the flag is set.  A call of [drawFruit] in a
    fruiting stage makes one such pass over each fruit of the branch, with
    the frame's [deltaMs] and [hydration], stores the resulting fruits,
    and adds to [fruitsRipened] the number of fruits the pass counts;
    outside these stages it does nothing.  In every reachable state
    [fruitsRipened] is not negative, and every event from a reachable
    state changes it by exactly the number of flags newly set, minus what
    [spawnSaplings] takes when a frame calls it (in the seedFall or
    rebirth stage with no saplings): the difference to
    [max 0 (fruitsRipened - fruitBonus * 3)], which is not negative. *)
Theorem fruit_counted_once :
  (forall dms hyd f,
      (snd (ripen dms hyd f) = true
       <-> ripeness (fst (ripen dms hyd f)) > 0.98 /\ counted f = false)
      /\ (counted (fst (ripen dms hyd f)) = true
          <-> counted f = true \/ ripeness (fst (ripen dms hyd f)) > 0.98))
  /\ (forall passes f,
         (increments passes f <= 1)%nat
         /\ (counted f = true ->
             increments passes f = 0%nat
             /\ counted (ripenAll passes f) = true)
         /\ (counted f = false ->
             forall k, (k < length passes)%nat ->
               (incrementsAt passes f k = true
                <-> ripenessAfter passes f k > 0.98
                    /\ forall j, (j < k)%nat ->
                                 ripenessAfter passes f j <= 0.98)
               /\ (counted (fruitAfter passes f k) = true
                   <-> exists j, (j <= k)%nat
                                 /\ ripenessAfter passes f j > 0.98)))
  /\ (forall x y branch angle time s,
         let ref := br_ref branch in
         let dms := deltaMs (clock s) in
         let hyd := hydration (climate s) in
         let s' := run (drawFruit x y branch angle time) s in
         (fruiting (lifeStage (life s)) = false /\ s' = s)
         \/ (fruiting (lifeStage (life s)) = true
             /\ exists fs,
                  (fruits (heap (host s) ref) = Some fs
                   \/ fruits (heap (host s) ref) = None
                      /\ length fs = fruitCount branch
                      /\ Forall (fun f => counted f = false) fs)
                  /\ fruits (heap (host s') ref)
                     = Some (map (fun f => fst (ripen dms hyd f)) fs)
                  /\ fruitsRipened (life s')
                     = (fruitsRipened (life s)
                        + newlyCounted dms hyd fs)%Z
                  /\ (forall r, r <> ref ->
                                heap (host s') r = heap (host s) r)
                  /\ nextRef (host s') = nextRef (host s)))
  /\ (forall s, reachable s -> (0 <= fruitsRipened (life s))%Z)
  /\ (forall s e,
         reachable s ->
         let s' := run (handle e) s in
         (countedFruits s <= countedFruits s')%Z
         /\ exists spent : Z,
              (0 <= spent)%Z
              /\ (spent = 0%Z
                  \/ (exists time, e = Frame time)
                     /\ (lifeStage (life s) = seedFall
                         \/ lifeStage (life s) = rebirth)
                     /\ saplings (scene s) = []
                     /\ spent = (fruitsRipened (life s)
                                 - afterSpawn (fruitsRipened (life s)))%Z)
              /\ fruitsRipened (life s')
                 = (fruitsRipened (life s) - spent
                    + (countedFruits s' - countedFruits s))%Z).
Proof.
  split.
  { intros dms hyd f. split; [apply ripen_newly | apply ripen_counted]. }
  split.
  { intros passes f. split; [apply increments_once|].
    split; [apply increments_counted|].
    intros Hf k Hk. split; [apply incrementsAt_first; assumption|].
    unfold fruitAfter.
    rewrite (counted_after passes f Hf (S k) ltac:(lia)).
    split; intros (j & Hj & Hr); exists j; (split; [lia | exact Hr]). }
  split; [exact drawFruit_run|].
  split.
  { intros s Hs. destruct (reachable_consistent s Hs) as (_ & H & _).
    exact H. }
  intros s e Hs.
  destruct (reachable_consistent s Hs) as (_ & Hfr & _ & Hrefs).
  unfold ripenedOk in Hfr.
  destruct (handle_account e s Hrefs) as (Hc & spent & Hsp & Hf).
  cbv zeta. split; [exact Hc|]. exists spent.
  split; [|split; assumption].
  destruct Hsp as [-> | (_ & _ & _ & ->)]; [lia|].
  pose proof (afterSpawn_range _ Hfr). lia.
Qed.

(** ** The numeric helpers *)

(** X1. [clamp] with bounds in order returns a value within them: the
    value itself when it lies within, the nearer bound otherwise; it is
    monotone and idempotent.  With the bounds out of order ([max < min])
    it returns [max], whatever the value. *)
Theorem clamp_spec :
  forall v w lo hi : R,
    (lo <= hi ->
       lo <= clamp v lo hi <= hi
       /\ (lo <= v <= hi -> clamp v lo hi = v)
       /\ (v <= lo -> clamp v lo hi = lo)
       /\ (hi <= v -> clamp v lo hi = hi)
       /\ (v <= w -> clamp v lo hi <= clamp w lo hi)
       /\ clamp (clamp v lo hi) lo hi = clamp v lo hi)
    /\ (hi < lo -> clamp v lo hi = hi).
Proof.
  intros v w lo hi. split.
  - intros H.
    destruct (clamp_cases v lo hi H) as [[V E] | [[V E] | [V E]]];
      destruct (clamp_cases w lo hi H) as [[W F] | [[W F] | [W F]]];
      rewrite ?E, ?F;
      repeat split; try lra; intros;
      try (unfold clamp, Rmin, Rmax; repeat destruct Rle_dec; lra).
  - intros H. unfold clamp, Rmin, Rmax. repeat destruct Rle_dec; lra.
Qed.

Lemma cube_monotone a b : a < b -> a ^ 3 < b ^ 3.
Proof.
  intros H. simpl.
  assert (E : b * (b * (b * 1)) - a * (a * (a * 1))
              = (b - a) * ((a + b / 2) * (a + b / 2) + 3 / 4 * (b * b)))
    by field.
  assert (Hpos : 0 < (a + b / 2) * (a + b / 2) + 3 / 4 * (b * b)).
  { pose proof (Rle_0_sqr (a + b / 2)) as Hs. unfold Rsqr in Hs.
    destruct (Req_dec b 0) as [Hb | Hb].
    - subst b. pose proof (Rsqr_pos_lt a ltac:(lra)) as Ha.
      unfold Rsqr in Ha.
      replace ((a + 0 / 2) * (a + 0 / 2)) with (a * a) by field. lra.
    - pose proof (Rsqr_pos_lt b Hb) as Hb2. unfold Rsqr in Hb2. lra. }
  assert (0 < (b - a) * ((a + b / 2) * (a + b / 2) + 3 / 4 * (b * b)))
    by (apply Rmult_lt_0_compat; lra).
  lra.
Qed.

(** X2. [easeOutCubic] is strictly increasing, fixes 0 and 1, maps
    [0, 1] into [0, 1] and lies on or above the identity there (the
    easing runs ahead of linear progress). *)
Theorem easeOutCubic_spec :
  forall t u : R,
    (t < u -> easeOutCubic t < easeOutCubic u)
    /\ easeOutCubic 0 = 0
    /\ easeOutCubic 1 = 1
    /\ (0 <= t <= 1 -> t <= easeOutCubic t <= 1).
Proof.
  intros t u. unfold easeOutCubic. split; [|split; [|split]].
  - intros H. pose proof (cube_monotone (1 - u) (1 - t) ltac:(lra)). lra.
  - simpl. lra.
  - simpl. lra.
  - intros [H0 H1]. simpl. set (s := 1 - t).
    assert (Hs : 0 <= s <= 1) by (unfold s; lra).
    assert (Hss : 0 <= s * s <= 1) by nra.
    assert (Hsss : 0 <= s * (s * s) <= s) by nra.
    replace (s * (s * (s * 1))) with (s * (s * s)) by ring.
    unfold s in *. lra.
Qed.

(** X3. [closestPoint] returns a point of the segment, and no point of
    the segment is nearer to [(px, py)]; for a segment of length 0 it
    returns the segment's one point. *)
Theorem closestPoint_nearest :
  forall x1 y1 x2 y2 px py : R,
    let p := closestPoint x1 y1 x2 y2 px py in
    (exists t, 0 <= t <= 1
               /\ pt_x p = x1 + (x2 - x1) * t
               /\ pt_y p = y1 + (y2 - y1) * t)
    /\ (forall u, 0 <= u <= 1 ->
          Math_hypot (pt_x p - px) (pt_y p - py)
          <= Math_hypot (x1 + (x2 - x1) * u - px) (y1 + (y2 - y1) * u - py))
    /\ (x1 = x2 -> y1 = y2 -> pt_x p = x1 /\ pt_y p = y1).
Proof.
  intros x1 y1 x2 y2 px py p.
  destruct (closestPoint_least x1 y1 x2 y2 px py) as (H1 & H2).
  split; [exact H1|]. split; [exact H2|].
  intros Ex Ey. unfold p, closestPoint. cbv zeta. cbn [pt_x pt_y].
  rewrite Ex, Ey. split; ring.
Qed.

(** ** More on the generator *)

Lemma Generated_forks levels depth len angle seed b :
  Generated levels depth len angle seed b ->
  Forall (fun n => (br_depth n <= 1)%nat ->
                   (br_depth n < depth + levels)%nat ->
                   List.length (br_children n) = 2%nat) (nodes b).
Proof.
  induction 1 as
    [d l a s b Ho Hc
    |lv d l a s b c1 c2 Ho H3 Hc G1 IH1 G2 IH2
    |lv d l a s b c1 c2 c3 Ho H3 Hc G1 IH1 G2 IH2 G3 IH3];
    pose proof Ho as (Hd & _); rewrite nodes_unfold, Hc; cbn [flat_map].
  - constructor; [|constructor]. rewrite Hd. intros _ H. lia.
  - constructor; [intros _ _; rewrite Hc; reflexivity|].
    rewrite app_nil_r. apply Forall_app. split;
      (eapply Forall_impl; [|eassumption]; cbv beta; intros n Hn H1 H2;
       apply Hn; lia).
  - constructor.
    + rewrite Hd. intros H1 _. unfold hasThirdChild in H3.
      apply andb_true_iff in H3. destruct H3 as [H3 _].
      apply Nat.ltb_lt in H3. lia.
    + rewrite app_nil_r. repeat (apply Forall_app; split);
        (eapply Forall_impl; [|eassumption]; cbv beta; intros n Hn H1 H2;
         apply Hn; lia).
Qed.

(** X4. A tree built by [createBranch] at depth 0 has between 255 and
    1459 nodes, and its trunk and the branches at depth 1 have exactly two
    children: a third child needs [depth > 1]. *)
Theorem tree_size_bounds :
  forall (len angle seed : R) (st : State),
    let t := fst (createBranch 0 len angle seed st) in
    (255 <= nodeCount t <= 1459)%nat
    /\ Forall (fun n => (br_depth n <= 1)%nat ->
                        List.length (br_children n) = 2%nat) (nodes t).
Proof.
  intros len angle seed st t.
  pose proof (createBranch_generated 0 len angle seed st) as G.
  fold t in G. change (maxDepth CONFIG - 0)%nat with 7%nat in G.
  split.
  - pose proof (Generated_size _ _ _ _ _ _ G) as H.
    change (minNodes 7) with 255%nat in H.
    change (maxNodes 7 0) with 1459%nat in H. exact H.
  - eapply Forall_impl; [|exact (Generated_forks _ _ _ _ _ _ G)].
    cbv beta. intros n Hn H1. apply Hn; [exact H1 | lia].
Qed.

Lemma lenFactorOf_bounds depth seed :
  (depth < maxDepth CONFIG)%nat ->
  0.62 <= lenFactorOf depth seed <= 0.78.
Proof.
  intros H. pose proof (lenFactorOf_range depth seed).
  pose proof (INR_below_maxDepth depth H). lra.
Qed.

Lemma shrink_step l f p q x :
  0 <= l -> 0.558 <= f <= 0.78 -> 0 <= p -> 0 <= q ->
  l * f * p <= x <= l * f * q ->
  l * (0.558 * p) <= x <= l * (0.78 * q).
Proof.
  intros Hl Hf Hp Hq Hx.
  assert (0 <= l * p) by (apply Rmult_le_pos; assumption).
  assert (0 <= l * q) by (apply Rmult_le_pos; assumption).
  assert (l * p * 0.558 <= l * p * f)
    by (apply Rmult_le_compat_l; lra).
  assert (l * q * f <= l * q * 0.78)
    by (apply Rmult_le_compat_l; lra).
  split; [replace (l * (0.558 * p)) with (l * p * 0.558) by ring
         |replace (l * (0.78 * q)) with (l * q * 0.78) by ring];
    [replace (l * f * p) with (l * p * f) in Hx by ring
    |replace (l * f * q) with (l * q * f) in Hx by ring]; lra.
Qed.

(** The lengths in a generated tree, relative to the length of its
    root. *)
Lemma Generated_lengths levels depth len angle seed b :
  Generated levels depth len angle seed b ->
  (depth + levels <= maxDepth CONFIG)%nat -> 0 <= len ->
  Forall (fun n =>
            exists k,
              br_depth n = (depth + k)%nat
              /\ len * 0.558 ^ k <= br_length n <= len * 0.78 ^ k
              /\ Forall (fun c => 0.558 * br_length n <= br_length c
                                  <= 0.78 * br_length n)
                   (br_children n)
              /\ 0.2 * br_length n <= br_pruneLength n
                 <= 0.4 * br_length n)
    (nodes b).
Proof.
  induction 1 as
    [d l a s b Ho Hc
    |lv d l a s b c1 c2 Ho H3 Hc G1 IH1 G2 IH2
    |lv d l a s b c1 c2 c3 Ho H3 Hc G1 IH1 G2 IH2 G3 IH3];
    intros Hlim Hl; pose proof Ho as (Hd & Hlen & _ & _ & _ & _ & Hpr);
    rewrite nodes_unfold, Hc; cbn [flat_map];
    pose proof (seededRandom_range (s + 12)) as Hsr;
    assert (Hprune : 0.2 * br_length b <= br_pruneLength b
                     <= 0.4 * br_length b)
      by (rewrite Hpr, Hlen; nra).
  - constructor; [|constructor]. exists 0%nat.
    rewrite Hc, Hlen, Hd. cbn [pow].
    split; [lia|]. split; [lra|].
    split; [apply Forall_nil | rewrite <- Hlen; exact Hprune].
  - pose proof (lenFactorOf_bounds d s ltac:(lia)) as Hf.
    assert (Hl' : 0 <= l * lenFactorOf d s) by (apply Rmult_le_pos; lra).
    pose proof (Generated_own _ _ _ _ _ _ G1) as (_ & L1 & _).
    pose proof (Generated_own _ _ _ _ _ _ G2) as (_ & L2 & _).
    constructor.
    + exists 0%nat. rewrite Hc, Hd. cbn [pow].
      split; [lia|]. split; [rewrite Hlen; lra|]. split; [|exact Hprune].
      rewrite Hlen.
      constructor; [rewrite L1; nra|].
      constructor; [rewrite L2; nra | constructor].
    + rewrite app_nil_r. apply Forall_app. split;
        (eapply Forall_impl;
         [|first [apply IH1 | apply IH2]; [lia | exact Hl']]);
        cbv beta; intros n (k & Dk & Lk & Ck);
        exists (S k); (split; [lia|]); (split; [|exact Ck]);
        cbn [pow];
        (apply (shrink_step l (lenFactorOf d s));
         [exact Hl | lra | apply pow_le; lra | apply pow_le; lra
         | exact Lk]).
  - pose proof (lenFactorOf_bounds d s ltac:(lia)) as Hf.
    assert (Hl' : 0 <= l * lenFactorOf d s) by (apply Rmult_le_pos; lra).
    assert (Hl3 : 0 <= l * (lenFactorOf d s * 0.9))
      by (apply Rmult_le_pos; lra).
    pose proof (Generated_own _ _ _ _ _ _ G1) as (_ & L1 & _).
    pose proof (Generated_own _ _ _ _ _ _ G2) as (_ & L2 & _).
    pose proof (Generated_own _ _ _ _ _ _ G3) as (_ & L3 & _).
    constructor.
    + exists 0%nat. rewrite Hc, Hd. cbn [pow].
      split; [lia|]. split; [rewrite Hlen; lra|]. split; [|exact Hprune].
      rewrite Hlen.
      constructor; [rewrite L1; nra|].
      constructor; [rewrite L2; nra|].
      constructor; [rewrite L3; nra | constructor].
    + rewrite app_nil_r. repeat (apply Forall_app; split).
      * eapply Forall_impl; [|apply IH1; [lia | exact Hl']].
        cbv beta. intros n (k & Dk & Lk & Ck).
        exists (S k). split; [lia|]. split; [|exact Ck]. cbn [pow].
        apply (shrink_step l (lenFactorOf d s));
          [exact Hl | lra | apply pow_le; lra | apply pow_le; lra
          | exact Lk].
      * eapply Forall_impl; [|apply IH2; [lia | exact Hl']].
        cbv beta. intros n (k & Dk & Lk & Ck).
        exists (S k). split; [lia|]. split; [|exact Ck]. cbn [pow].
        apply (shrink_step l (lenFactorOf d s));
          [exact Hl | lra | apply pow_le; lra | apply pow_le; lra
          | exact Lk].
      * eapply Forall_impl; [|apply IH3; [lia | exact Hl3]].
        cbv beta. intros n (k & Dk & Lk & Ck).
        exists (S k). split; [lia|]. split; [|exact Ck]. cbn [pow].
        apply (shrink_step l (lenFactorOf d s * 0.9));
          [exact Hl | lra | apply pow_le; lra | apply pow_le; lra
          | exact Lk].
Qed.

(** X5. In a tree built by [createBranch] at depth 0 with a root length
    [len >= 0], a branch at depth [d] has a length between
    [len * 0.558 ^ d] and [len * 0.78 ^ d]; every child is between 0.558
    and 0.78 times as long as its parent, so no branch is longer than its
    parent; and the stub length [pruneLength] of a branch is between 20%
    and 40% of its length. *)
Theorem branch_lengths_shrink :
  forall (len angle seed : R) (st : State),
    0 <= len ->
    let t := fst (createBranch 0 len angle seed st) in
    Forall (fun n =>
              len * 0.558 ^ br_depth n <= br_length n
              <= len * 0.78 ^ br_depth n
              /\ Forall (fun c => 0.558 * br_length n <= br_length c
                                  <= 0.78 * br_length n)
                   (br_children n)
              /\ 0.2 * br_length n <= br_pruneLength n
                 <= 0.4 * br_length n)
      (nodes t).
Proof.
  intros len angle seed st Hlen t.
  pose proof (createBranch_generated 0 len angle seed st) as G.
  fold t in G.
  eapply Forall_impl;
    [|exact (Generated_lengths _ _ _ _ _ _ G ltac:(cbn; lia) Hlen)].
  cbv beta. intros n (k & Dk & Lk & Ck).
  cbn [Nat.add] in Dk. rewrite Dk. split; assumption.
Qed.

Lemma branch_lengths_shrink_witness :
  0 <= 150
  /\ Forall (fun n => br_length n <= 150 * 0.78 ^ br_depth n)
       (nodes (fst (createBranch 0 150 0 1 state0))).
Proof.
  assert (H : 0 <= 150) by lra.
  split; [exact H|].
  eapply Forall_impl; [|exact (branch_lengths_shrink 150 0 1 state0 H)].
  cbv beta. intros n ((_ & Hn) & _). exact Hn.
Defined.

Lemma Generated_nodes_own levels depth len angle seed b :
  Generated levels depth len angle seed b ->
  Forall (fun n => exists l a s, ownFields (br_depth n) l a s n) (nodes b).
Proof.
  induction 1 as
    [d l a s b Ho Hc
    |lv d l a s b c1 c2 Ho H3 Hc G1 IH1 G2 IH2
    |lv d l a s b c1 c2 c3 Ho H3 Hc G1 IH1 G2 IH2 G3 IH3];
    pose proof Ho as (Hd & _); rewrite nodes_unfold, Hc; cbn [flat_map];
    (constructor; [exists l, a, s; rewrite Hd; exact Ho|]).
  - constructor.
  - rewrite app_nil_r. apply Forall_app. split; assumption.
  - rewrite app_nil_r. repeat (apply Forall_app; split); assumption.
Qed.

(** X6. In a tree built by [createBranch] at depth 0, the stroke width of
    a branch at depth [d] is [(8 - d) * 1.15], from 9.2 at the trunk down
    to 1.15 at the tips, so the guard [Math.max(1, ...)] never applies;
    and the color channels of every branch are within [82, 142],
    [58, 97] and [42, 74], inside the range of an RGB channel. *)
Theorem branch_appearance :
  forall (len angle seed : R) (st : State),
    let t := fst (createBranch 0 len angle seed st) in
    Forall (fun n =>
              br_baseWidth n = (8 - INR (br_depth n)) * 1.15
              /\ 1.15 <= br_baseWidth n <= 9.2
              /\ 82 <= col_r (br_color n) <= 142
              /\ 58 <= col_g (br_color n) <= 97
              /\ 42 <= col_b (br_color n) <= 74)
      (nodes t).
Proof.
  intros len angle seed st t.
  pose proof (createBranch_generated 0 len angle seed st) as G.
  fold t in G.
  destruct (Generated_depthOk _ _ _ _ _ _ G) as (_ & HD & _).
  pose proof (Generated_nodes_own _ _ _ _ _ _ G) as HO.
  rewrite Forall_forall in HD, HO. apply Forall_forall. intros n Hn.
  destruct (HD n Hn) as (Hle & _).
  destruct (HO n Hn) as (l & a & s & _ & _ & _ & _ & Hw & Hcol & _).
  assert (Hd : 0 <= INR (br_depth n) <= 7).
  { split; [apply pos_INR|].
    replace 7 with (INR 7) by (simpl; lra). apply le_INR.
    cbn in Hle. lia. }
  assert (Ew : br_baseWidth n = (8 - INR (br_depth n)) * 1.15).
  { rewrite Hw. cbn [maxDepth CONFIG].
    replace (INR 7) with 7 by (simpl; lra).
    unfold Rmax. destruct Rle_dec; lra. }
  split; [exact Ew|]. split; [rewrite Ew; lra|].
  rewrite Hcol. unfold branchColor. cbn [col_r col_g col_b].
  pose proof (seededRandom_range (s + 6)).
  pose proof (seededRandom_range (s + 7)).
  pose proof (seededRandom_range (s + 8)).
  repeat split; lra.
Qed.

(** *** Creation indices and object references *)

Lemma seq_two a n1 n2 :
  a :: seq (S a) n1 ++ seq (S a + n1) n2 = seq a (S (n1 + n2)).
Proof. cbn [seq]. rewrite seq_app. reflexivity. Qed.

Lemma seq_three a n1 n2 n3 :
  a :: seq (S a) n1 ++ seq (S a + n1) n2 ++ seq (S a + n1 + n2) n3
  = seq a (S (n1 + n2 + n3)).
Proof.
  cbn [seq]. rewrite !seq_app. rewrite <- app_assoc.
  rewrite Nat.add_assoc. reflexivity.
Qed.

Lemma branchLiteral_run depth len angle seed s :
  let lit := branchLiteral depth len angle seed s in
  br_id (fst lit) = branchIdCounter (scene s)
  /\ br_ref (fst lit) = nextRef (host s)
  /\ br_children (fst lit) = []
  /\ branchIdCounter (scene (snd lit)) = S (branchIdCounter (scene s))
  /\ nextRef (host (snd lit)) = S (nextRef (host s))
  /\ rngPos (host (snd lit)) = S (rngPos (host s))
  /\ heap (host (snd lit)) = upd (heap (host s)) (nextRef (host s)) newCell.
Proof. repeat split. Qed.

Lemma nodes_push1 c b :
  br_children b = [] ->
  nodes (push_child c b) = push_child c b :: nodes c.
Proof.
  intros H. rewrite nodes_push_child, H. reflexivity.
Qed.

Lemma createBranchFrom_allocates levels :
  forall depth len angle seed s,
    allocates s (fst (createBranchFrom levels depth len angle seed s))
      (snd (createBranchFrom levels depth len angle seed s)).
Proof.
  induction levels as [|levels IH]; intros depth len angle seed s;
    cbn [createBranchFrom]; unfold bind, ret;
    destruct (branchLiteral_run depth len angle seed s)
      as (Li & Lr & Lc & Si & Sr & Sg & Sh);
    destruct (branchLiteral depth len angle seed s) as [b s1];
    cbn [fst snd] in Li, Lr, Lc, Si, Sr, Sg, Sh.
  - cbn [fst snd]. unfold allocates, nodeCount.
    rewrite nodes_unfold, Lc. cbn [flat_map List.length map seq].
    rewrite Li, Lr, Si, Sr, Sg, Sh.
    repeat split; try lia.
    + intros r Hr. assert (r = nextRef (host s)) as -> by lia.
      apply upd_same.
    + intros r Hr. apply upd_other. lia.
  - pose proof (IH (depth + 1)%nat (len * lenFactorOf depth seed)
                  (angle + spreadOf seed + leanOf seed) (seed * 1.71 + 1)
                  s1) as A1.
    destruct (createBranchFrom levels (depth + 1) _ _ _ s1) as [c1 s2].
    pose proof (IH (depth + 1)%nat (len * lenFactorOf depth seed)
                  (angle - spreadOf seed + leanOf seed) (seed * 1.71 + 2)
                  s2) as A2.
    destruct (createBranchFrom levels (depth + 1) _ _ _ s2) as [c2 s3].
    cbn [fst snd] in A1, A2.
    destruct A1 as (I1 & R1 & C1 & N1 & G1 & H1 & K1).
    destruct A2 as (I2 & R2 & C2 & N2 & G2 & H2 & K2).
    cbv zeta in *.
    destruct (hasThirdChild depth seed).
    + pose proof (IH (depth + 1)%nat
                    (len * (lenFactorOf depth seed * 0.9))
                    (angle + varianceOf seed) (seed * 1.71 + 3) s3) as A3.
      destruct (createBranchFrom levels (depth + 1) _ _ _ s3) as [c3 s4].
      cbn [fst snd] in A3 |- *.
      destruct A3 as (I3 & R3 & C3 & N3 & G3 & H3 & K3). cbv zeta in *.
      unfold allocates, nodeCount in *.
      rewrite !nodes_push_child. cbn [br_children push_child].
      rewrite Lc. cbn [flat_map app map List.length br_id br_ref push_child].
      rewrite !map_app, !length_app, I1, R1, I2, R2, I3, R3.
      rewrite C3, N3, G3, C2, N2, G2, C1, N1, G1, Si, Sr, Sg, Li, Lr.
      set (n1 := List.length (nodes c1)) in *.
      set (n2 := List.length (nodes c2)) in *.
      set (n3 := List.length (nodes c3)) in *.
      cbn [map List.length].
      rewrite ?app_nil_r, ?Nat.add_0_r, <- ?app_assoc.
      split; [apply seq_three|]. split; [apply seq_three|].
      split; [lia|]. split; [lia|]. split; [lia|].
      rewrite C1, N1, C2, N2 in *.
      split.
      * intros r Hr.
        destruct (le_lt_dec (S (nextRef (host s)) + n1 + n2) r) as [Q3|Q3];
          [apply H3; lia|rewrite K3 by lia].
        destruct (le_lt_dec (S (nextRef (host s)) + n1) r) as [Q2|Q2];
          [apply H2; lia|rewrite K2 by lia].
        destruct (le_lt_dec (S (nextRef (host s))) r) as [Q1|Q1];
          [apply H1; lia|rewrite K1 by lia].
        rewrite Sh. assert (r = nextRef (host s)) as -> by lia.
        apply upd_same.
      * intros r Hr. rewrite K3, K2, K1, Sh by lia. apply upd_other. lia.
    + cbn [fst snd].
      unfold allocates, nodeCount in *.
      rewrite !nodes_push_child. cbn [br_children push_child].
      rewrite Lc. cbn [flat_map app map List.length br_id br_ref push_child].
      rewrite !map_app, !length_app, I1, R1, I2, R2.
      rewrite C2, N2, G2, C1, N1, G1, Si, Sr, Sg, Li, Lr.
      set (n1 := List.length (nodes c1)) in *.
      set (n2 := List.length (nodes c2)) in *.
      cbn [map List.length].
      rewrite ?app_nil_r, ?Nat.add_0_r, <- ?app_assoc.
      split; [apply seq_two|]. split; [apply seq_two|].
      split; [lia|]. split; [lia|]. split; [lia|].
      rewrite C1, N1 in *.
      split.
      * intros r Hr.
        destruct (le_lt_dec (S (nextRef (host s)) + n1) r) as [Q2|Q2];
          [apply H2; lia|rewrite K2 by lia].
        destruct (le_lt_dec (S (nextRef (host s))) r) as [Q1|Q1];
          [apply H1; lia|rewrite K1 by lia].
        rewrite Sh. assert (r = nextRef (host s)) as -> by lia.
        apply upd_same.
      * intros r Hr. rewrite K2, K1, Sh by lia. apply upd_other. lia.
Qed.

Lemma buildTree_unfold s :
  buildTree s
  = createBranch 0 (Rmin (width (scene s)) (height (scene s)) * 0.25) 0
      (rng (host s) (rngPos (host s)) * 1000)
      (on_host (set_rngPos (S (rngPos (host s))))
         (on_scene (set_branchIdCounter 0) s)).
Proof. reflexivity. Qed.

(** X7. [buildTree] numbers the branches of the new tree 0, 1, 2, ... in
    creation order (a branch before its children, the children in order)
    and leaves [branchIdCounter] at their number; every branch is a new
    object, distinct from all others, with [pruned = false],
    [regrowAt = 0] and no fruits; the objects that existed before are not
    touched; and one random number is drawn for the root seed and one
    for each branch. *)
Theorem buildTree_allocates :
  forall s : State,
    let t := fst (buildTree s) in
    let s' := snd (buildTree s) in
    let n := nodeCount t in
    map br_id (nodes t) = seq 0 n
    /\ branchIdCounter (scene s') = n
    /\ map br_ref (nodes t) = seq (nextRef (host s)) n
    /\ NoDup (map br_ref (nodes t))
    /\ nextRef (host s') = (nextRef (host s) + n)%nat
    /\ rngPos (host s') = (rngPos (host s) + 1 + n)%nat
    /\ (forall r, (nextRef (host s) <= r < nextRef (host s) + n)%nat ->
                  heap (host s') r = newCell)
    /\ (forall r, ~ (nextRef (host s) <= r < nextRef (host s) + n)%nat ->
                  heap (host s') r = heap (host s) r).
Proof.
  intros s. rewrite buildTree_unfold. unfold createBranch.
  set (s0 := on_host (set_rngPos (S (rngPos (host s))))
               (on_scene (set_branchIdCounter 0) s)).
  pose proof (createBranchFrom_allocates (maxDepth CONFIG - 0) 0
                (Rmin (width (scene s)) (height (scene s)) * 0.25) 0
                (rng (host s) (rngPos (host s)) * 1000) s0) as A.
  revert A.
  generalize (createBranchFrom (maxDepth CONFIG - 0) 0
                (Rmin (width (scene s)) (height (scene s)) * 0.25) 0
                (rng (host s) (rngPos (host s)) * 1000) s0).
  intros [t s'] A. cbn [fst snd] in A |- *.
  destruct A as (I & R & C & N & G & H & K). cbv zeta in *.
  unfold s0 in *.
  cbn [scene host on_host on_scene branchIdCounter set_branchIdCounter
       nextRef rngPos set_rngPos heap] in *.
  split; [exact I|]. split; [exact C|]. split; [exact R|].
  split; [rewrite R; apply seq_NoDup|]. split; [exact N|].
  split; [lia|]. split; assumption.
Qed.

(** ** Ranges kept by the program *)

(** What the head of a frame assigns. *)
Lemma advance_run time s :
  let sw := atSwitch time s in
  let dms := elapsed time (lastTime (clock s)) in
  let hyd := Rmax 0 (hydration (climate s) - dms * 0.00022) in
  clock sw = {| lastTime := time; deltaMs := dms;
                fps := fps (clock s) * 0.9 + Rmin 120 (1000 / dms) * 0.1 |}
  /\ growth (climate sw)
     = easeGrowth dms (targetGrowth (climate s)) (growth (climate s))
  /\ hydration (climate sw) = hyd
  /\ targetGrowth (climate sw)
     = (if gtb hyd 0.001
        then clamp (targetGrowth (climate s) + hyd * 0.0005) 0 1.08
        else targetGrowth (climate s))
  /\ life sw = set_stageTimer (stageTimer (life s) + dms) (life s)
  /\ scene sw = scene s
  /\ sawState sw = sawState s
  /\ heap (host sw) = heap (host s)
  /\ nextRef (host sw) = nextRef (host s)
  /\ rng (host sw) = rng (host s).
Proof.
  intros sw dms hyd. unfold sw, atSwitch, advance, bind, gets, modify,
    Math_random, when, ret.
  cbn [fst snd]. fold dms.
  destruct (ltb _ 0.002); cbn [fst snd];
    cbn [clock climate life scene sawState host on_clock on_climate on_life
         on_host growth hydration targetGrowth set_growth set_hydration
         set_targetGrowth set_wind set_windTarget set_season
         set_simulatedAge set_rngPos heap nextRef rng];
    fold hyd; destruct (gtb hyd 0.001);
    cbn [growth hydration targetGrowth set_targetGrowth];
    repeat split; reflexivity.
Qed.

Lemma easeGrowth_bounds dms target g :
  0 <= g <= 1.08 -> 0 <= target <= 1.08 ->
  0 <= easeGrowth dms target g <= 1.08
  /\ easeGrowth dms target g <= g + 0.0432
  /\ (g <= target -> g <= easeGrowth dms target g <= target)
  /\ (target <= g -> target <= easeGrowth dms target g <= g).
Proof.
  intros Hg Ht. unfold easeGrowth.
  pose proof (clamp_range (dms * baseGrowthSpeed CONFIG) 0 0.04 ltac:(lra))
    as Hk.
  set (k := clamp _ 0 0.04) in *.
  assert (Hv : 0 <= g + (target - g) * k <= 1.08).
  { destruct (Rle_dec g target); nra. }
  rewrite clamp_inside by exact Hv.
  split; [exact Hv|]. split; [nra|]. split; intros; nra.
Qed.

Ltac stage_fields :=
  cbn [life climate scene on_life on_host on_scene on_climate lifeStage
       stageTimer regenCountdown growth saplings set_lifeStage
       set_stageTimer set_regenCountdown set_rngPos dormant].

Ltac stage_close E :=
  unfold switched, timersOk; stage_fields; rewrite ?E; cbn [dormant];
  repeat split; intros; try discriminate; try lra; auto.

Lemma regenerate_rest :
  keeps (same (fun s => (regenCountdown (life s), clock s,
                         hydration (climate s), fruitsRipened (life s))))
    regenerate.
Proof.
  unfold regenerate.
  keeps_using ltac:(idtac;
    lazymatch goal with
    | |- keeps _ buildTree => apply keeps_buildTree; intros; reflexivity
    | |- keeps _ (setStage _) => unfold setStage
    end).
Qed.

Lemma spawnSaplings_range s :
  Forall (fun sp => 0.02 <= sap_growth sp <= 1)
    (saplings (scene (run spawnSaplings s))).
Proof.
  destruct (spawnSaplings_run s) as (_ & Hall & _). cbv zeta in Hall.
  eapply Forall_impl; [|exact Hall]. cbv beta. intros sp ->. lra.
Qed.

(** The stage switch of a frame. *)
Lemma stageSwitch_switched delta s :
  0 <= delta -> timersOk s -> eased s ->
  switched (run (stageSwitch delta) s)
  /\ timersOk (run (stageSwitch delta) s).
Proof.
  intros Hdelta (T1 & T2) (A1 & A2 & A3 & A4 & A5 & A6 & A7).
  unfold stageSwitch. rewrite !run_bind_gets. cbv beta.
  destruct (lifeStage (life s)) eqn:E; cbn [dormant] in A6.
  - (* seed *)
    destruct (A6 eq_refl) as [C0 S0]. specialize (A1 eq_refl).
    destruct (gtb (growth (climate s)) 0.18) eqn:G.
    + rewrite run_when_true, setStage_change by (rewrite E; discriminate).
      stage_close E; rewrite ?S0; auto.
    + rewrite run_when_false. apply gtb_false in G.
      stage_close E; rewrite ?S0; auto.
  - (* sprout *)
    destruct (A6 eq_refl) as [C0 S0]. specialize (A2 eq_refl).
    destruct (gtb (growth (climate s)) 0.42) eqn:G.
    + rewrite run_when_true, setStage_change by (rewrite E; discriminate).
      stage_close E; rewrite ?S0; auto.
    + rewrite run_when_false. apply gtb_false in G.
      stage_close E; rewrite ?S0; auto.
  - (* young *)
    destruct (A6 eq_refl) as [C0 S0]. specialize (A3 eq_refl).
    destruct (gtb (growth (climate s)) 0.66) eqn:G.
    + rewrite run_when_true, setStage_change by (rewrite E; discriminate).
      stage_close E; rewrite ?S0; auto.
    + rewrite run_when_false. apply gtb_false in G.
      stage_close E; rewrite ?S0; auto.
  - (* mature *)
    destruct (A6 eq_refl) as [C0 S0].
    destruct (gtb (growth (climate s)) 0.82 && gtb (stageTimer (life s)) 6000).
    + rewrite run_when_true, setStage_change by (rewrite E; discriminate).
      stage_close E; rewrite ?S0; auto.
    + rewrite run_when_false.
      stage_close E; rewrite ?S0; auto.
  - (* fruit *)
    destruct (A6 eq_refl) as [C0 S0].
    destruct (gtb (stageTimer (life s)) 32000) eqn:T.
    + rewrite setStage_change by (rewrite E; discriminate).
      stage_close E; rewrite ?S0; auto.
    + apply gtb_false in T. rewrite run_bind_random.
      destruct (ltb (rng (host s) (rngPos (host s))) (delta * 0.0000006)).
      * rewrite run_when_true, setStage_change
          by (cbn [life on_host]; rewrite E; discriminate).
        stage_close E; rewrite ?S0; auto.
      * rewrite run_when_false.
        stage_close E; rewrite ?S0; auto.
  - (* decline *)
    destruct (A6 eq_refl) as [C0 S0].
    destruct (ltb (growth (climate s)) 0.3) eqn:G.
    + rewrite run_when_true, setStage_change by (rewrite E; discriminate).
      stage_close E; rewrite ?S0; auto.
    + rewrite run_when_false.
      stage_close E; rewrite ?S0; auto.
  - (* seedFall *)
    specialize (A4 eq_refl).
    rewrite run_bind_modify, run_bind_gets, run_bind.
    set (s1 := on_life _ s).
    assert (F1 : lifeCore s1
                 = (seedFall, stageTimer (life s),
                    regenCountdown (life s) + delta)
                 /\ growth (climate s1) = growth (climate s)
                 /\ saplings (scene s1) = saplings (scene s)).
    { unfold lifeCore, s1. stage_fields. rewrite E. repeat split. }
    destruct F1 as (L1 & G1 & S1). clearbody s1.
    set (s2 := run (when (isEmpty (saplings (scene s1))) spawnSaplings) s1).
    assert (F2 : lifeCore s2 = lifeCore s1
                 /\ climate s2 = climate s1
                 /\ Forall (fun sp => 0.02 <= sap_growth sp <= 1)
                      (saplings (scene s2))).
    { unfold s2. destruct (isEmpty (saplings (scene s1))).
      - rewrite run_when_true.
        destruct (spawnSaplings_run s1) as (_ & _ & _ & Hcore & Hcl & _).
        split; [exact Hcore|]. split; [exact Hcl|].
        apply spawnSaplings_range.
      - rewrite run_when_false. repeat split. rewrite S1. exact A7. }
    destruct F2 as (L2 & G2 & S2). clearbody s2.
    rewrite L1 in L2. unfold lifeCore in L2. injection L2 as L2a L2b L2c.
    rewrite run_bind_gets. cbv beta. rewrite L2c.
    destruct (gtb (regenCountdown (life s) + delta) 18000) eqn:C.
    + apply gtb_true in C.
      rewrite run_when_true, setStage_change
        by (rewrite L2a; discriminate).
      unfold switched, timersOk. stage_fields. rewrite L2c.
      repeat split; intros; try discriminate; try lra; auto.
    + apply gtb_false in C. rewrite run_when_false.
      unfold switched, timersOk. rewrite L2a, L2b, L2c. cbn [dormant].
      repeat split; intros; try discriminate; try lra; auto.
  - (* rebirth *)
    specialize (A5 eq_refl).
    rewrite run_bind_gets, run_bind.
    set (s2 := run (when (isEmpty (saplings (scene s))) spawnSaplings) s).
    assert (F2 : lifeCore s2 = lifeCore s
                 /\ climate s2 = climate s
                 /\ Forall (fun sp => 0.02 <= sap_growth sp <= 1)
                      (saplings (scene s2))).
    { unfold s2. destruct (isEmpty (saplings (scene s))).
      - rewrite run_when_true.
        destruct (spawnSaplings_run s) as (_ & _ & _ & Hcore & Hcl & _).
        split; [exact Hcore|]. split; [exact Hcl|].
        apply spawnSaplings_range.
      - rewrite run_when_false. repeat split. exact A7. }
    destruct F2 as (L2 & G2 & S2). clearbody s2.
    unfold lifeCore in L2. injection L2 as L2a L2b L2c. rewrite E in L2a.
    rewrite run_bind_gets. cbv beta.
    destruct (allGrown (saplings (scene s2))).
    + rewrite run_when_true.
      destruct (regenerate_run s2 L2a) as (_ & Rg & _ & Rs & Rst & Rtm & _).
      pose proof (regenerate_rest s2) as Rr. unfold same in Rr.
      revert Rg Rs Rst Rtm Rr. generalize (snd (regenerate s2)).
      intros s3 Rg Rs Rst Rtm Rr. injection Rr as Rc _ _ _.
      unfold switched, timersOk. rewrite Rg, Rs, Rst, Rtm, Rc, L2c.
      cbn [dormant].
      repeat split; intros; try discriminate; try lra; auto.
    + rewrite run_when_false.
      unfold switched, timersOk. rewrite L2a, L2b, L2c. cbn [dormant].
      repeat split; intros; try discriminate; try lra; auto.
Qed.

Lemma stageUpkeep_effect delta s :
  let s' := run (stageUpkeep delta) s in
  stageAndTimer s' = stageAndTimer s
  /\ regenCountdown (life s')
     = (if dormant (lifeStage (life s)) then regenCountdown (life s) else 0)
  /\ scene s' = scene s
  /\ growth (climate s') = growth (climate s).
Proof.
  intros s'. unfold s', stageUpkeep, bind, gets, modify, when, ret.
  cbn [fst snd].
  destruct (lifeStage (life s)) eqn:E; cbn [fst snd];
    stage_fields; rewrite ?E; cbn [fst snd]; stage_fields;
    unfold stageAndTimer; stage_fields; rewrite ?E;
    repeat split; reflexivity.
Qed.

Lemma stageUpkeep_stageOk delta s :
  timersOk s -> switched s ->
  stageOk (run (stageUpkeep delta) s)
  /\ timersOk (run (stageUpkeep delta) s).
Proof.
  intros (T1 & T2) (A1 & A2 & A3 & A4 & A5 & A6 & A7 & A8).
  destruct (stageUpkeep_effect delta s) as (Hst & Hcd & Hsc & Hg).
  cbv zeta in Hst, Hcd, Hsc, Hg. revert Hst Hcd Hsc Hg.
  generalize (snd (stageUpkeep delta s)). intros s' Hst Hcd Hsc Hg.
  unfold stageAndTimer in Hst. injection Hst as Hst Htm.
  unfold stageOk, timersOk. rewrite Hst, Htm, Hcd, Hsc, Hg.
  destruct (lifeStage (life s)); cbn [dormant] in *;
    repeat split; intros; try discriminate; try lra; auto.
Qed.

Lemma updateLifeStage_stageOk delta s :
  0 <= delta -> timersOk s -> eased s ->
  stageOk (run (updateLifeStage delta) s)
  /\ timersOk (run (updateLifeStage delta) s).
Proof.
  intros Hd Ht He. unfold updateLifeStage. rewrite run_bind.
  destruct (stageSwitch_switched delta s Hd Ht He) as [Hs Ht'].
  revert Hs Ht'. generalize (snd (stageSwitch delta s)). intros s1 Hs Ht'.
  apply stageUpkeep_stageOk; assumption.
Qed.

(** The head of a frame, for the stage facts. *)
Lemma advance_eased time s :
  climateOk s -> timersOk s -> stageOk s ->
  eased (atSwitch time s) /\ timersOk (atSwitch time s).
Proof.
  intros (Cg & Ct & Ch) (T1 & T2) (A1 & A2 & A3 & A4 & A5 & A6 & A7 & A8).
  destruct (advance_run time s)
    as (_ & Hg & _ & _ & Hl & Hsc & _).
  cbv zeta in Hg, Hl, Hsc.
  pose proof (elapsed_range time (lastTime (clock s))) as Hd.
  destruct (easeGrowth_bounds (elapsed time (lastTime (clock s)))
              (targetGrowth (climate s)) (growth (climate s)) Cg Ct)
    as (_ & Hstep & _).
  revert Hg Hl Hsc. generalize (atSwitch time s). intros sw Hg Hl Hsc.
  unfold eased, timersOk. rewrite Hg, Hl, Hsc.
  cbn [lifeStage stageTimer regenCountdown set_stageTimer].
  repeat split; intros; auto; try lra;
    match goal with
    | H : lifeStage (life s) = seed |- _ => specialize (A1 H); lra
    | H : lifeStage (life s) = sprout |- _ => specialize (A2 H); lra
    | H : lifeStage (life s) = young |- _ => specialize (A3 H); lra
    | H : dormant _ = false |- _ => apply (A7 H)
    end.
Qed.

Lemma walk_same_core time :
  WalkSteps time (fun _ => True)
    (same (fun s => (clock s, lifeCore s, climate s, tree (scene s),
                     saplings (scene s)))).
Proof. constructor; intros; reflexivity. Qed.

Lemma render_saplings time s :
  let s' := run (render time) s in
  saplings (scene s')
  = map (fun sapling =>
           {| sap_x := sap_x sapling;
              sap_y := sap_y sapling;
              sap_growth :=
                clamp (sap_growth sapling + deltaMs (clock s) * 0.00012) 0 1;
              sap_phase := sap_phase sapling + deltaMs (clock s) * 0.001;
              sap_sway := sap_sway sapling |})
      (saplings (scene s))
  /\ (clock s', lifeCore s', climate s', tree (scene s'))
     = (clock s, lifeCore s, climate s, tree (scene s)).
Proof.
  intros s'. unfold s', render, updateSaplings.
  rewrite run_bind_gets. cbv beta. rewrite run_bind_modify.
  match goal with
  | |- context [snd (?m ?x)] =>
      assert (K : keeps (same (fun s => (clock s, lifeCore s, climate s,
                                         tree (scene s),
                                         saplings (scene s)))) m);
      [|pose proof (K x) as Hk; revert Hk; generalize (snd (m x))]
  end.
  { unfold updateSawdust, updateSawTrail, updateHud.
    keeps_using ltac:(idtac;
      lazymatch goal with
      | |- keeps _ (drawTree _) =>
          apply (keeps_drawTree time _ (walk_same_core time));
          intros ?; reflexivity
      end). }
  intros s2 Hk. unfold same in Hk.
  split; [exact (f_equal snd Hk) | exact (f_equal fst Hk)].
Qed.

Lemma sapling_growth_step g delta :
  0.02 <= g <= 1 -> 0 <= delta ->
  0.02 <= clamp (g + delta * 0.00012) 0 1 <= 1
  /\ g <= clamp (g + delta * 0.00012) 0 1.
Proof.
  intros Hg Hd.
  destruct (clamp_cases (g + delta * 0.00012) 0 1 ltac:(lra))
    as [[V ->] | [[V ->] | [V ->]]]; lra.
Qed.

Lemma render_stageOk time s :
  0 <= deltaMs (clock s) -> stageOk s -> timersOk s ->
  stageOk (run (render time) s) /\ timersOk (run (render time) s).
Proof.
  intros Hd (A1 & A2 & A3 & A4 & A5 & A6 & A7 & A8) (T1 & T2).
  destruct (render_saplings time s) as (Hs & Hk). cbv zeta in Hs, Hk.
  revert Hs Hk. generalize (snd (render time s)). intros s' Hs Hk.
  injection Hk as _ Hst Htm Hcd Hcl _.
  unfold stageOk, timersOk. rewrite Hs, Hst, Htm, Hcd, Hcl.
  repeat split; auto.
  - apply A7. assumption.
  - destruct (A7 ltac:(assumption)) as [_ ->]. reflexivity.
  - apply Forall_map. eapply Forall_impl; [|exact A8]. cbv beta.
    intros sp Hsp. cbn [sap_growth].
    apply (sapling_growth_step _ _ Hsp Hd).
Qed.

Lemma updateLifeStage_keeps_clock delta :
  keeps (same (fun s => (clock s, hydration (climate s))))
    (updateLifeStage delta).
Proof.
  unfold updateLifeStage, stageSwitch, stageUpkeep, spawnSaplings,
    newSapling.
  keeps_using ltac:(idtac;
    lazymatch goal with
    | |- keeps _ regenerate =>
        apply (keeps_of_same _ _
                 (fun a b (H : (regenCountdown (life b), clock b,
                                hydration (climate b),
                                fruitsRipened (life b))
                               = (regenCountdown (life a), clock a,
                                  hydration (climate a),
                                  fruitsRipened (life a))) =>
                    f_equal (fun q => (snd (fst (fst q)), snd (fst q))) H)
                 _ regenerate_rest)
    | |- keeps _ (setStage _) => unfold setStage
    end).
Qed.

Lemma updateLifeStage_tree delta :
  keeps (carries (fun s => tree (scene s) <> None)) (updateLifeStage delta).
Proof.
  unfold updateLifeStage, stageSwitch, stageUpkeep, spawnSaplings,
    newSapling, regenerate, setStage.
  repeat first
    [ lazymatch goal with
      | |- keeps _ buildTree =>
          apply (carries_of_same (fun s => tree (scene s))
                   (fun s => tree (scene s) <> None)
                   (fun a b (E : tree (scene b) = tree (scene a)) H =>
                      eq_ind_r (fun t => t <> None) H E));
          apply keeps_buildTree; intros; reflexivity
      end
    | keeps_step
    | carries_leaf ltac:(intros ? _; discriminate) ].
Qed.

Lemma fps_step f dms :
  8 <= f <= 120 -> 8 <= dms <= 120 ->
  8 <= f * 0.9 + Rmin 120 (1000 / dms) * 0.1 <= 120.
Proof.
  intros Hf Hd.
  assert (H : 8 <= 1000 / dms).
  { apply (Rmult_le_reg_r dms); [lra|].
    unfold Rdiv. rewrite Rmult_assoc, Rinv_l by lra. lra. }
  unfold Rmin. destruct Rle_dec; lra.
Qed.

(** A frame keeps the ranges. *)
Lemma loop_sound time : keeps (carries sound) (loop time).
Proof.
  intros s (Hcons & (Hhyd & (Hdm & Hfps) & Htim & Htree) & Hstage).
  pose proof (handle_consistent (Frame time) s Hcons) as Hcons'.
  cbn [handle] in Hcons'.
  destruct Hcons as (Hclim & _).
  split; [exact Hcons'|]. clear Hcons'.
  rewrite loop_unfold.
  destruct (advance_run time s)
    as (Hck & _ & Hh & _ & _ & Hsc & _).
  cbv zeta in Hck, Hh, Hsc.
  destruct (advance_eased time s Hclim Htim Hstage) as (He & Ht1).
  pose proof (elapsed_range time (lastTime (clock s))) as Hel.
  revert Hck Hh Hsc He Ht1. generalize (atSwitch time s).
  intros sw Hck Hh Hsc He Ht1.
  assert (Hcko : clockOk sw).
  { unfold clockOk. rewrite Hck. cbn [deltaMs fps].
    split; [exact Hel | apply fps_step; assumption]. }
  assert (Hhyd1 : hydration (climate sw) <= 1.5).
  { rewrite Hh. unfold Rmax. destruct Rle_dec; lra. }
  assert (Htree1 : tree (scene sw) <> None) by (rewrite Hsc; exact Htree).
  clear Hck Hh Hsc.
  destruct Hcko as (Hd1 & Hf1).
  destruct (updateLifeStage_stageOk (deltaMs (clock sw)) sw
              ltac:(lra) Ht1 He) as (Hs2 & Ht2).
  pose proof (updateLifeStage_keeps_clock (deltaMs (clock sw)) sw) as Hk2.
  pose proof (updateLifeStage_tree (deltaMs (clock sw)) sw Htree1) as Htree2.
  unfold same in Hk2.
  revert Hs2 Ht2 Hk2 Htree2.
  generalize (snd (updateLifeStage (deltaMs (clock sw)) sw)).
  intros s2 Hs2 Ht2 Hk2 Htree2. injection Hk2 as Hck2 Hh2.
  destruct (render_stageOk time s2 ltac:(rewrite Hck2; lra) Hs2 Ht2)
    as (Hs3 & Ht3).
  destruct (render_saplings time s2) as (_ & Hk3). cbv zeta in Hk3.
  revert Hs3 Ht3 Hk3. generalize (snd (render time s2)).
  intros s3 Hs3 Ht3 Hk3. injection Hk3 as Hck3 _ _ _ Hcl3 Htr3.
  split; [|exact Hs3].
  destruct Ht3 as (Ht3a & Ht3b).
  unfold vitalsOk, clockOk, timersOk.
  rewrite Hcl3, Hck3, Htr3, Hh2, Hck2.
  repeat split; try assumption; lra.
Qed.

Lemma handle_keeps_calm e :
  (forall time, e <> Frame time) -> keeps (same calm) (handle e).
Proof.
  intros Hnf. destruct e; cbn [handle].
  - exfalso. apply (Hnf time). reflexivity.
  - unfold growthPulse. keeps_same.
  - unfold water. keeps_same.
  - unfold pointerdown, updatePointer, performSawCut, spawnSawdust,
      newParticle.
    repeat first
      [ keeps_step
      | lazymatch goal with
        | |- forall s : State,
               same calm s (on_scene (fun c => if _ then _ else _) s) =>
            intros s; unfold same, calm;
            cbn [life clock climate on_scene scene saplings];
            destruct (60 <? List.length (sawTrail (scene s)))%nat;
            reflexivity
        end
      | keeps_leaf ].
  - unfold pointermove, updatePointer, performSawCut, spawnSawdust,
      newParticle.
    repeat first
      [ keeps_step
      | lazymatch goal with
        | |- forall s : State,
               same calm s (on_scene (fun c => if _ then _ else _) s) =>
            intros s; unfold same, calm;
            cbn [life clock climate on_scene scene saplings];
            destruct (60 <? List.length (sawTrail (scene s)))%nat;
            reflexivity
        end
      | keeps_leaf ].
  - unfold pointerup. keeps_same.
  - unfold pointerup. keeps_same.
  - unfold resize.
    keeps_using ltac:(idtac;
      lazymatch goal with
      | |- keeps _ buildTree => apply keeps_buildTree; intros; reflexivity
      end).
Qed.

Lemma handle_hydration e :
  (forall time, e <> Frame time) ->
  keeps (carries (fun s => hydration (climate s) <= 1.5)) (handle e).
Proof.
  intros Hnf.
  assert (Hw : (e = Water) \/ e <> Water)
    by (destruct e; first [left; reflexivity | right; discriminate]).
  destruct Hw as [-> | Hnw].
  - cbn [handle]. unfold water.
    repeat first
      [ keeps_step
      | carries_leaf ltac:(intros s H;
                           cbn [climate on_climate hydration set_hydration];
                           unfold Rmin; destruct Rle_dec; lra) ].
  - assert (K : keeps (same (fun s => hydration (climate s))) (handle e)).
    { destruct e; cbn [handle].
      - exfalso. apply (Hnf time). reflexivity.
      - unfold growthPulse. keeps_same.
      - contradiction.
      - intros s.
        exact (f_equal hydration
                 (pointer_keeps_climate (PointerDown button point now) s)).
      - intros s.
        exact (f_equal hydration
                 (pointer_keeps_climate (PointerMove point now) s)).
      - unfold pointerup. keeps_same.
      - unfold pointerup. keeps_same.
      - intros s. exact (f_equal hydration (resize_keeps_climate w h s)). }
    intros s H. rewrite (K s). exact H.
Qed.

Lemma calm_parts a b :
  calm b = calm a ->
  life b = life a /\ clock b = clock a
  /\ saplings (scene b) = saplings (scene a)
  /\ growth (climate b) = growth (climate a).
Proof.
  unfold calm. intros H. repeat split.
  - exact (f_equal (fun q => fst (fst (fst q))) H).
  - exact (f_equal (fun q => snd (fst (fst q))) H).
  - exact (f_equal (fun q => snd (fst q)) H).
  - exact (f_equal snd H).
Qed.

Lemma handle_tree e :
  (forall time, e <> Frame time) ->
  keeps (carries (fun s => tree (scene s) <> None)) (handle e).
Proof.
  intros Hnf s H.
  assert (Hkind : (exists w h, e = Resize w h) \/ forall w h, e <> Resize w h).
  { destruct e; try (right; intros w0 h0 E; discriminate E).
    left. exists w, h. reflexivity. }
  destruct Hkind as [(w & h & ->) | Hnr].
  - cbn [handle]. destruct (resize_scene w h s) as (Ht & _).
    cbv zeta in Ht. rewrite Ht. discriminate.
  - destruct (quiet_parts _ _ (handle_keeps_quiet e Hnf Hnr s))
      as (_ & _ & Ht & _).
    rewrite Ht. exact H.
Qed.

Lemma handle_sound e : keeps (carries sound) (handle e).
Proof.
  assert (Hkind : (exists time, e = Frame time)
                  \/ forall time, e <> Frame time).
  { destruct e; try (right; intros t0 E; discriminate E).
    left. exists time. reflexivity. }
  destruct Hkind as [[time ->] | Hnf].
  - cbn [handle]. apply loop_sound.
  - intros s (Hc & (Hh & Hk & Ht & Htr) & Hst).
    destruct (calm_parts _ _ (handle_keeps_calm e Hnf s))
      as (Hl & Hcl & Hsp & Hg).
    split; [exact (handle_consistent e s Hc)|].
    split.
    + split; [exact (handle_hydration e Hnf s Hh)|].
      split; [unfold clockOk in *; rewrite Hcl; exact Hk|].
      split; [unfold timersOk in *; rewrite Hl; exact Ht|].
      exact (handle_tree e Hnf s Htr).
    + unfold stageOk in *. rewrite Hl, Hsp, Hg. exact Hst.
Qed.

Lemma resize_rest w h s :
  hydration (climate s) <= 1.5 -> clockOk s -> timersOk s -> stageOk s ->
  vitalsOk (run (resize w h) s) /\ stageOk (run (resize w h) s).
Proof.
  intros Hh Hk Ht Hst.
  assert (Hnf : forall time, Resize w h <> Frame time)
    by (intros t E; discriminate E).
  destruct (calm_parts _ _ (handle_keeps_calm (Resize w h) Hnf s))
    as (Hl & Hcl & Hsp & Hg).
  pose proof (handle_hydration (Resize w h) Hnf s Hh) as Hh'.
  destruct (resize_scene w h s) as (Htr & _).
  revert Hl Hcl Hsp Hg Hh' Htr. cbn [handle]. cbv zeta.
  generalize (snd (resize w h s)). intros s' Hl Hcl Hsp Hg Hh' Htr.
  split.
  - split; [exact Hh'|].
    split; [unfold clockOk in *; rewrite Hcl; exact Hk|].
    split; [unfold timersOk in *; rewrite Hl; exact Ht|].
    rewrite Htr. discriminate.
  - unfold stageOk in *. rewrite Hl, Hsp, Hg. exact Hst.
Qed.

Lemma boot_sound w h t0 random : sound (boot w h t0 random).
Proof.
  split; [apply boot_consistent|].
  unfold boot. apply resize_rest.
  - cbn [climate hydration]. lra.
  - unfold clockOk. cbn [clock deltaMs fps]. lra.
  - unfold timersOk. cbn [life stageTimer regenCountdown]. lra.
  - unfold stageOk.
    cbn [life climate scene lifeStage growth stageTimer regenCountdown
         saplings dormant].
    repeat split; try lra; try discriminate; try constructor.
Qed.

(** Every state of a run of the program is sound. *)
Lemma reachable_sound s : reachable s -> sound s.
Proof.
  induction 1 as [w h t0 random | s e _ IH].
  - apply boot_sound.
  - exact (handle_sound e s IH).
Qed.

Lemma sampleRun_reachable : reachable sampleRun.
Proof. unfold sampleRun. do 2 apply reach_step. apply reach_boot. Qed.

(** X8. In every state that a run of the program reaches, the scalars stay
    in their ranges: growth and targetGrowth in [0, 1.08], hydration in
    [0, 1.5], deltaMs and the smoothed fps in [8, 120], the stage timer
    and the regeneration countdown not negative, the counter of ripened
    fruit not negative, and there is a tree. *)
Theorem reachable_ranges :
  forall s, reachable s ->
    0 <= growth (climate s) <= 1.08
    /\ 0 <= targetGrowth (climate s) <= 1.08
    /\ 0 <= hydration (climate s) <= 1.5
    /\ 8 <= deltaMs (clock s) <= 120
    /\ 8 <= fps (clock s) <= 120
    /\ 0 <= stageTimer (life s)
    /\ 0 <= regenCountdown (life s)
    /\ (0 <= fruitsRipened (life s))%Z
    /\ tree (scene s) <> None.
Proof.
  intros s H.
  destruct (reachable_sound s H)
    as (((Hg & Ht & Hh0) & Hr & _) & (Hh & (Hd & Hf) & (Hst & Hrc) & Htr) & _).
  repeat split; first [assumption | lra | apply Hg | apply Ht | apply Hd
                      | apply Hf].
Qed.

Lemma reachable_ranges_witness :
  reachable sampleRun
  /\ 0 <= growth (climate sampleRun) <= 1.08
  /\ 0 <= hydration (climate sampleRun) <= 1.5
  /\ 8 <= fps (clock sampleRun) <= 120.
Proof.
  split; [exact sampleRun_reachable|].
  destruct (reachable_ranges sampleRun sampleRun_reachable)
    as (Hg & _ & Hh & _ & Hf & _).
  exact (conj Hg (conj Hh Hf)).
Defined.

(** X9. In every state that a run of the program reaches, the life stage
    bounds the other variables: growth is at most 0.18 in the seed stage,
    0.42 in sprout and 0.66 in young; the fruit stage has lasted at most
    32000 ms; the regeneration countdown is at most 18000 in seedFall,
    above 18000 in rebirth and 0 in every other stage; saplings exist
    only in seedFall and rebirth (and always in rebirth), and the growth
    of each one is in [0.02, 1]. *)
Theorem reachable_stage_bounds :
  forall s, reachable s ->
    let st := lifeStage (life s) in
    (st = seed -> growth (climate s) <= 0.18)
    /\ (st = sprout -> growth (climate s) <= 0.42)
    /\ (st = young -> growth (climate s) <= 0.66)
    /\ (st = fruit -> stageTimer (life s) <= 32000)
    /\ (st = seedFall -> regenCountdown (life s) <= 18000)
    /\ (st = rebirth ->
        18000 < regenCountdown (life s) /\ saplings (scene s) <> [])
    /\ (st <> seedFall -> st <> rebirth ->
        regenCountdown (life s) = 0 /\ saplings (scene s) = [])
    /\ Forall (fun sp => 0.02 <= sap_growth sp <= 1) (saplings (scene s)).
Proof.
  intros s H st.
  destruct (reachable_sound s H)
    as ((_ & _ & Hsap & _) & _ & (A1 & A2 & A3 & A4 & A5 & A6 & A7 & A8)).
  cbv zeta in *. fold st in A1, A2, A3, A4, A5, A6, A7.
  unfold saplingsOk in Hsap. fold st in Hsap.
  repeat split; try assumption.
  - apply A6; assumption.
  - apply Hsap; assumption.
  - apply A7. destruct st; try reflexivity; contradiction.
  - apply A7. destruct st; try reflexivity; contradiction.
Qed.

Lemma reachable_stage_bounds_witness :
  reachable sampleRun
  /\ (lifeStage (life sampleRun) = seed ->
      growth (climate sampleRun) <= 0.18)
  /\ Forall (fun sp => 0.02 <= sap_growth sp <= 1)
       (saplings (scene sampleRun)).
Proof.
  split; [exact sampleRun_reachable|].
  destruct (reachable_stage_bounds sampleRun sampleRun_reachable)
    as (H1 & _ & _ & _ & _ & _ & _ & H8).
  exact (conj H1 H8).
Defined.

(** ** Saplings grow with the countdown *)

Lemma nurseryAt_of_parts behind a b :
  lifeStage (life b) = lifeStage (life a) ->
  regenCountdown (life b) = regenCountdown (life a) ->
  saplings (scene b) = saplings (scene a) ->
  nurseryAt behind a -> nurseryAt behind b.
Proof.
  unfold nurseryAt. intros -> -> ->. exact (fun H => H).
Qed.

Lemma nurseryAt_awake behind s :
  dormant (lifeStage (life s)) = false -> nurseryAt behind s.
Proof.
  intros H. split; intros E; rewrite E in H; discriminate H.
Qed.

Lemma stageSwitch_nursery delta s :
  0 <= delta <= 120 -> timersOk s -> eased s -> saplingsOk s ->
  nursery s -> nurseryAt delta (run (stageSwitch delta) s).
Proof.
  intros Hdelta (T1 & T2) (_ & _ & _ & A4 & A5 & A6 & _) Hsap (N1 & N2).
  unfold stageSwitch. rewrite !run_bind_gets. cbv beta.
  destruct (lifeStage (life s)) eqn:E; cbn [dormant] in A6.
  - (* seed *)
    destruct (gtb (growth (climate s)) 0.18).
    + rewrite run_when_true, setStage_change by (rewrite E; discriminate).
      apply nurseryAt_awake. reflexivity.
    + rewrite run_when_false. apply nurseryAt_awake. rewrite E. reflexivity.
  - (* sprout *)
    destruct (gtb (growth (climate s)) 0.42).
    + rewrite run_when_true, setStage_change by (rewrite E; discriminate).
      apply nurseryAt_awake. reflexivity.
    + rewrite run_when_false. apply nurseryAt_awake. rewrite E. reflexivity.
  - (* young *)
    destruct (gtb (growth (climate s)) 0.66).
    + rewrite run_when_true, setStage_change by (rewrite E; discriminate).
      apply nurseryAt_awake. reflexivity.
    + rewrite run_when_false. apply nurseryAt_awake. rewrite E. reflexivity.
  - (* mature *)
    destruct (gtb (growth (climate s)) 0.82 && gtb (stageTimer (life s)) 6000).
    + rewrite run_when_true, setStage_change by (rewrite E; discriminate).
      apply nurseryAt_awake. reflexivity.
    + rewrite run_when_false. apply nurseryAt_awake. rewrite E. reflexivity.
  - (* fruit *)
    destruct (gtb (stageTimer (life s)) 32000).
    + rewrite setStage_change by (rewrite E; discriminate).
      apply nurseryAt_awake. reflexivity.
    + rewrite run_bind_random.
      destruct (ltb (rng (host s) (rngPos (host s))) (delta * 0.0000006)).
      * rewrite run_when_true, setStage_change
          by (cbn [life on_host]; rewrite E; discriminate).
        apply nurseryAt_awake. reflexivity.
      * rewrite run_when_false. apply nurseryAt_awake.
        cbn [life on_host]. rewrite E. reflexivity.
  - (* decline *)
    destruct (A6 eq_refl) as [C0 S0].
    destruct (ltb (growth (climate s)) 0.3).
    + rewrite run_when_true, setStage_change by (rewrite E; discriminate).
      unfold nurseryAt. stage_fields. rewrite S0, C0.
      split; [intros _ | intros H; discriminate H].
      split; [reflexivity | constructor].
    + rewrite run_when_false. apply nurseryAt_awake. rewrite E. reflexivity.
  - (* seedFall *)
    destruct (N1 eq_refl) as (N1a & N1b). specialize (A4 eq_refl).
    rewrite run_bind_modify, run_bind_gets, run_bind.
    set (s1 := on_life _ s).
    assert (F1 : lifeCore s1
                 = (seedFall, stageTimer (life s),
                    regenCountdown (life s) + delta)
                 /\ saplings (scene s1) = saplings (scene s)).
    { unfold lifeCore, s1. stage_fields. rewrite E. repeat split. }
    destruct F1 as (L1 & S1). clearbody s1.
    set (s2 := run (when (isEmpty (saplings (scene s1))) spawnSaplings) s1).
    assert (F2 : lifeCore s2 = lifeCore s1
                 /\ saplings (scene s2) <> []
                 /\ Forall (fun sp =>
                      sap_growth sp = saplingGrowthAt (regenCountdown (life s)))
                      (saplings (scene s2))).
    { unfold s2. rewrite S1.
      destruct (saplings (scene s)) as [|sp l] eqn:El; cbn [isEmpty].
      - rewrite run_when_true.
        destruct (spawnSaplings_run s1) as (Hlen & Hall & _ & Hcore & _).
        cbv zeta in Hlen, Hall, Hcore.
        split; [exact Hcore|]. split.
        + intros Hnil. rewrite Hnil in Hlen. cbn [length] in Hlen.
          pose proof (saplingCount_ge_2
                        (rng (host s1) (rngPos (host s1)))
                        (fruitBonusOf (fruitsRipened (life s1)))).
          lia.
        + eapply Forall_impl; [|exact Hall]. cbv beta. intros x ->.
          rewrite (N1a eq_refl). unfold saplingGrowthAt, Rmin.
          destruct Rle_dec; lra.
      - rewrite run_when_false. split; [reflexivity|].
        rewrite S1. split; [discriminate|].
        eapply Forall_impl; [|exact N1b]. cbv beta. intros x [_ ->].
        rewrite Rminus_0_r. reflexivity. }
    destruct F2 as (L2 & Sne & S2). clearbody s2.
    rewrite L1 in L2. unfold lifeCore in L2. injection L2 as L2a L2b L2c.
    rewrite run_bind_gets. cbv beta. rewrite L2c.
    destruct (gtb (regenCountdown (life s) + delta) 18000) eqn:C.
    + apply gtb_true in C.
      rewrite run_when_true, setStage_change
        by (rewrite L2a; discriminate).
      unfold nurseryAt. stage_fields.
      split; [intros H; discriminate H | intros _].
      eapply Forall_impl; [|exact S2]. cbv beta. intros x ->.
      unfold saplingGrowthAt, Rmin. destruct Rle_dec; lra.
    + rewrite run_when_false.
      unfold nurseryAt. rewrite L2a, L2c.
      split; [intros _ | intros H; discriminate H].
      split; [intros H; contradiction|].
      eapply Forall_impl; [|exact S2]. cbv beta. intros x ->.
      split; [lra|]. f_equal. lra.
  - (* rebirth *)
    specialize (N2 eq_refl).
    rewrite run_bind_gets. cbv beta.
    destruct (saplings (scene s)) as [|sp l] eqn:El;
      [exfalso; apply (Hsap E El)|].
    cbn [isEmpty]. rewrite run_bind, run_when_false, run_bind_gets.
    cbv beta. rewrite El.
    destruct (allGrown (sp :: l)).
    + rewrite run_when_true.
      destruct (regenerate_run s E) as (_ & _ & _ & _ & Rst & _).
      apply nurseryAt_awake. rewrite Rst. reflexivity.
    + rewrite run_when_false. unfold nurseryAt. rewrite E, El.
      split; [intros H; discriminate H | intros _; exact N2].
Qed.

Lemma stageUpkeep_nursery behind delta s :
  nurseryAt behind s -> nurseryAt behind (run (stageUpkeep delta) s).
Proof.
  intros H.
  destruct (stageUpkeep_effect delta s) as (Hst & Hcd & Hsc & _).
  cbv zeta in Hst, Hcd, Hsc. revert Hst Hcd Hsc.
  generalize (snd (stageUpkeep delta s)). intros s' Hst Hcd Hsc.
  apply (f_equal fst) in Hst. cbn [stageAndTimer fst] in Hst.
  destruct (dormant (lifeStage (life s))) eqn:D.
  - apply (nurseryAt_of_parts behind s); try assumption.
    rewrite Hsc. reflexivity.
  - apply nurseryAt_awake. rewrite Hst. exact D.
Qed.

Lemma sapling_catches_up c d :
  0 <= d <= c ->
  clamp (saplingGrowthAt (c - d) + d * 0.00012) 0 1 = saplingGrowthAt c.
Proof.
  intros H. unfold clamp, saplingGrowthAt, Rmin, Rmax.
  repeat destruct Rle_dec; lra.
Qed.

Lemma render_nursery time s :
  0 <= deltaMs (clock s) ->
  nurseryAt (deltaMs (clock s)) s -> nursery (run (render time) s).
Proof.
  intros Hd (N1 & N2).
  destruct (render_saplings time s) as (Hs & Hk). cbv zeta in Hs, Hk.
  revert Hs Hk. generalize (snd (render time s)). intros s' Hs Hk.
  injection Hk as _ Hst _ Hcd _ _.
  unfold nursery, nurseryAt. rewrite Hs, Hst, Hcd. split.
  - intros E. destruct (N1 E) as (N1a & N1b). split.
    + intros Hnil. apply map_eq_nil in Hnil. exact (N1a Hnil).
    + apply Forall_map. eapply Forall_impl; [|exact N1b]. cbv beta.
      intros sp [Hle ->]. cbn [sap_growth]. split; [lra|].
      rewrite Rminus_0_r. apply sapling_catches_up. lra.
  - intros E. specialize (N2 E).
    apply Forall_map. eapply Forall_impl; [|exact N2]. cbv beta.
    intros sp ->. cbn [sap_growth].
    unfold clamp, Rmin, Rmax. repeat destruct Rle_dec; lra.
Qed.

Lemma loop_nursery time s :
  sound s -> nursery s -> nursery (run (loop time) s).
Proof.
  intros ((Hclim & _ & Hsap & _) & (_ & _ & Htim & _) & Hstage) Hn.
  rewrite loop_unfold.
  destruct (advance_run time s)
    as (_ & _ & _ & _ & Hlife & Hsc & _).
  cbv zeta in Hlife, Hsc.
  destruct (advance_eased time s Hclim Htim Hstage) as (He & Ht1).
  pose proof (advance_deltaMs time s) as Hd.
  revert Hlife Hsc He Ht1 Hd. generalize (atSwitch time s).
  intros sw Hlife Hsc He Ht1 Hd.
  assert (Hn1 : nursery sw).
  { apply (nurseryAt_of_parts 0 s); try assumption;
      rewrite ?Hlife, ?Hsc; reflexivity. }
  assert (Hsap1 : saplingsOk sw).
  { unfold saplingsOk in *. rewrite Hlife, Hsc. exact Hsap. }
  pose proof (stageSwitch_nursery (deltaMs (clock sw)) sw
                ltac:(lra) Ht1 He Hsap1 Hn1) as Hn2.
  apply (stageUpkeep_nursery _ (deltaMs (clock sw))) in Hn2.
  pose proof (updateLifeStage_keeps_clock (deltaMs (clock sw)) sw) as Hk2.
  unfold same in Hk2. apply (f_equal fst) in Hk2. cbn [fst] in Hk2.
  revert Hn2 Hk2. unfold updateLifeStage. rewrite run_bind.
  generalize (snd (stageUpkeep (deltaMs (clock sw))
                     (snd (stageSwitch (deltaMs (clock sw)) sw)))).
  intros s2 Hn2 Hk2. rewrite <- Hk2 in Hn2, Hd.
  apply render_nursery; [lra | exact Hn2].
Qed.

Lemma handle_nursery e s :
  sound s -> nursery s -> nursery (run (handle e) s).
Proof.
  intros Hs Hn.
  assert (Hkind : (exists time, e = Frame time)
                  \/ forall time, e <> Frame time).
  { destruct e; try (right; intros t0 E; discriminate E).
    left. exists time. reflexivity. }
  destruct Hkind as [[time ->] | Hnf].
  - cbn [handle]. apply loop_nursery; assumption.
  - destruct (calm_parts _ _ (handle_keeps_calm e Hnf s))
      as (Hl & _ & Hsp & _).
    apply (nurseryAt_of_parts 0 s); try assumption; rewrite Hl; reflexivity.
Qed.

Lemma boot_nursery w h t0 random : nursery (boot w h t0 random).
Proof.
  apply nurseryAt_awake. unfold boot.
  rewrite (resize_keeps_life w h). reflexivity.
Qed.

Lemma reachable_nursery s : reachable s -> nursery s.
Proof.
  induction 1 as [w h t0 random | s e Hr IH].
  - apply boot_nursery.
  - apply handle_nursery; [exact (reachable_sound s Hr) | exact IH].
Qed.

(** A frame that starts in the rebirth stage with grown saplings. *)
Lemma rebirth_frame time s :
  lifeStage (life s) = rebirth ->
  saplings (scene s) <> [] ->
  Forall (fun sp => sap_growth sp = 1) (saplings (scene s)) ->
  let s' := run (loop time) s in
  lifeStage (life s') = sprout
  /\ stageTimer (life s') = 0
  /\ regenCountdown (life s') = 0
  /\ growth (climate s') = 0.05
  /\ targetGrowth (climate s') = 0.15
  /\ saplings (scene s') = [].
Proof.
  intros E Hne Hall. cbv zeta. rewrite loop_unfold.
  pose proof (advance_keeps_scene time s) as Hk. unfold same in Hk.
  revert Hk. fold (atSwitch time s). generalize (atSwitch time s).
  intros sw Hk. injection Hk as Hsc Hst _.
  rewrite E in Hst. rewrite <- Hsc in Hne, Hall. clear Hsc E s.
  assert (Hg : allGrown (saplings (scene sw)) = true).
  { apply allGrown_Forall. eapply Forall_impl; [|exact Hall]. cbv beta.
    intros sp ->. lra. }
  unfold updateLifeStage. rewrite run_bind.
  rewrite (stageSwitch_rebirth _ sw Hst Hne Hg).
  destruct (regenerate_run sw Hst) as (Rt & Rg & Rtg & Rs & Rst & Rtm & _).
  revert Rt Rg Rtg Rs Rst Rtm.
  generalize (fst (buildTree sw)). generalize (snd (regenerate sw)).
  intros sr root Rt Rg Rtg Rs Rst Rtm.
  destruct (frame_after_regeneration time (deltaMs (clock sw)) sr root
              Rt Rs Rst) as (_ & Fs & _ & Fc & Fst & Ftm).
  cbv zeta in Fs, Fc, Fst, Ftm.
  pose proof (stageUpkeep_sprout (deltaMs (clock sw)) sr Rst) as Hu.
  destruct (render_saplings time
              (snd (stageUpkeep (deltaMs (clock sw)) sr))) as (_ & Hr).
  cbv zeta in Hr. apply (f_equal (fun q => snd (fst (fst q)))) in Hr.
  cbn [fst snd] in Hr. apply (f_equal snd) in Hr.
  unfold lifeCore in Hr. cbn [snd] in Hr.
  revert Fs Fc Fst Ftm Hr. rewrite Hu.
  generalize (snd (render time (on_life (set_regenCountdown 0) sr))).
  intros s' Fs Fc Fst Ftm Hr.
  rewrite Fst, Ftm, Fc, Hr. cbn [life on_life regenCountdown
                                 set_regenCountdown].
  repeat split; assumption.
Qed.

(** X10. Saplings grow in step with the regeneration countdown, so that
    the rebirth stage lasts one frame.  In every state that a run of the
    program reaches (numbers taken as reals): in seedFall each sapling has
    the growth min(1, 0.02 + 0.00012 * regenCountdown); in rebirth there are
    saplings and each has growth 1, so the next frame, whatever its time
    stamp, builds the new tree: it ends in the sprout stage with growth
    0.05, targetGrowth 0.15, both timers at 0 and no sapling left. *)
Theorem rebirth_lasts_one_frame :
  forall s, reachable s ->
    (lifeStage (life s) = seedFall ->
     Forall (fun sp =>
               sap_growth sp
               = Rmin 1 (0.02 + 0.00012 * regenCountdown (life s)))
       (saplings (scene s)))
    /\ (lifeStage (life s) = rebirth ->
        saplings (scene s) <> []
        /\ Forall (fun sp => sap_growth sp = 1) (saplings (scene s))
        /\ forall time,
             let s' := run (loop time) s in
             lifeStage (life s') = sprout
             /\ stageTimer (life s') = 0
             /\ regenCountdown (life s') = 0
             /\ growth (climate s') = 0.05
             /\ targetGrowth (climate s') = 0.15
             /\ saplings (scene s') = []).
Proof.
  intros s Hr.
  destruct (reachable_nursery s Hr) as (N1 & N2).
  destruct (reachable_sound s Hr) as ((_ & _ & Hsap & _) & _).
  split.
  - intros E. destruct (N1 E) as (_ & N1b).
    eapply Forall_impl; [|exact N1b]. cbv beta. intros sp [_ ->].
    rewrite Rminus_0_r. reflexivity.
  - intros E. specialize (N2 E). specialize (Hsap E).
    split; [exact Hsap|]. split; [exact N2|].
    intros time. exact (rebirth_frame time s E Hsap N2).
Qed.


(** ** The segments that a frame leaves for the saw *)

Section Cells.
Context (time : R) (ok : Branch -> Prop)
        (rel : State -> State -> Prop) `{!PreOrder rel}.
Hypothesis cells : WalkCells time ok rel.

Lemma cells_drawTip forEachChild branch angle endX endY progress :
  (forall angle endX endY, keeps rel (forEachChild angle endX endY)) ->
  ok branch ->
  keeps rel (drawTip forEachChild branch time angle endX endY progress).
Proof.
  intros Hfe Hok. unfold drawTip, drawLeaf, drawBud.
  repeat first
    [ lazymatch goal with
      | |- keeps _ (emit _) => intros s; apply (wc_emit _ _ _ cells)
      | |- keeps _ (drawFruit _ _ _ _ _) =>
          intros s; apply (wc_fruit _ _ _ cells); exact Hok
      | |- keeps _ (forEachChild _ _ _) => apply Hfe
      end
    | keeps_step ].
Qed.

Lemma cells_drawLimb forEachChild branch startX startY angle endX endY
    progress s :
  (forall angle endX endY, keeps rel (forEachChild angle endX endY)) ->
  ok branch ->
  pruned (heap (host s) (br_ref branch)) = false ->
  progressOf (growth (climate s)) (br_depth branch) > 0 ->
  rel s (run (drawLimb forEachChild branch time startX startY angle endX
                endY progress) s).
Proof.
  intros Hfe Hok Hp Hg. unfold drawLimb.
  rewrite run_bind.
  match goal with
  | |- rel s (snd (?k (snd (emit ?c s)))) =>
      transitivity (snd (emit c s)); [apply (wc_emit _ _ _ cells)|]
  end.
  rewrite run_bind.
  match goal with
  | |- rel ?s1 (snd (?k (snd (pushSegment ?sg ?s1)))) =>
      transitivity (snd (pushSegment sg s1));
      [apply (wc_push _ _ _ cells); [exact Hok | exact Hp | exact Hg]|]
  end.
  apply cells_drawTip; assumption.
Qed.

Lemma cells_drawBranchBody forEachChild branch parentAngle startX startY :
  (forall angle endX endY, keeps rel (forEachChild angle endX endY)) ->
  ok branch ->
  keeps rel
    (drawBranchBody forEachChild branch time parentAngle startX startY).
Proof.
  intros Hfe Hok. unfold drawBranchBody.
  apply (keeps_bind_gets rel). intros s. cbv beta zeta.
  destruct (leb (progressOf (growth (climate s)) (br_depth branch)) 0)
    eqn:Hv; [reflexivity|].
  apply leb_false in Hv.
  rewrite !run_bind_gets. cbv beta. unfold getCell at 1.
  rewrite run_bind_gets. cbv beta.
  set (cell := heap (host s) (br_ref branch)).
  destruct (pruned cell) eqn:Hp;
    [destruct (gtb time (regrowAt cell)) eqn:Ht|].
  - apply gtb_true in Ht.
    rewrite run_bind.
    transitivity (snd (setCell (br_ref branch)
                         {| pruned := false; regrowAt := regrowAt cell;
                            fruits := fruits cell |} s)).
    + apply (wc_unprune _ _ _ cells); assumption.
    + apply cells_drawLimb; try assumption.
      cbn [setCell modify snd host on_host heap set_heap].
      rewrite upd_same. reflexivity.
  - unfold drawStub. rewrite run_bind.
    match goal with
    | |- rel s (snd (?k (snd (emit ?c s)))) =>
        transitivity (snd (emit c s)); [apply (wc_emit _ _ _ cells)|]
    end.
    apply (wc_emit _ _ _ cells).
  - apply cells_drawLimb; assumption.
Qed.

Lemma cells_drawBranch :
  forall branch, Forall ok (nodes branch) ->
  forall parentAngle startX startY,
    keeps rel (drawBranch branch time parentAngle startX startY).
Proof.
  induction branch as [branch IH] using Branch_rect'.
  intros Hok parentAngle startX startY.
  rewrite nodes_unfold in Hok. inversion Hok as [|? ? Hb Hch]; subst.
  rewrite drawBranch_unfold. apply cells_drawBranchBody; [|exact Hb].
  intros angle endX endY. apply (keeps_forEachM rel).
  rewrite Forall_forall in IH. apply Forall_forall. intros c Hc.
  apply IH; [exact Hc|].
  apply Forall_forall. intros n Hn.
  rewrite Forall_forall in Hch. apply Hch.
  apply in_flat_map. exists c. split; assumption.
Qed.
End Cells.

#[export] Instance nothingCut_PreOrder : PreOrder nothingCut.
Proof.
  split.
  - intros s. repeat split. auto.
  - intros a b c (S1 & G1 & P1) (S2 & G2 & P2). unfold nothingCut.
    rewrite S2, G2, S1, G1. repeat split. auto.
Qed.

Lemma walk_nothingCut time :
  WalkSteps time (fun _ => False) nothingCut.
Proof.
  constructor.
  - intros c s. repeat split. auto.
  - intros sg s [].
  - intros s. repeat split. auto.
  - intros ref s Hp Ht. repeat split. intros r Hr.
    cbn [setCell modify snd host on_host heap set_heap].
    unfold upd. destruct (Nat.eqb r ref); [reflexivity | exact Hr].
  - intros ref fs s. repeat split. intros r Hr.
    cbn [setCell modify snd host on_host heap set_heap].
    unfold upd. destruct (Nat.eqb r ref) eqn:Er; [|exact Hr].
    apply Nat.eqb_eq in Er. subst r. exact Hr.
  - intros s. repeat split. auto.
Qed.

Lemma segmentsOk_nothingCut root a b :
  nothingCut a b -> segmentsOk root a -> segmentsOk root b.
Proof.
  intros (Hs & Hg & Hp) H. unfold segmentsOk in *. rewrite Hs.
  eapply Forall_impl; [|exact H]. cbv beta.
  intros sg (H1 & H2 & H3). unfold segmentOk. rewrite Hg.
  split; [exact H1|]. split; [exact (Hp _ H2) | exact H3].
Qed.

Lemma walk_segmentsOk time root :
  WalkCells time (fun n => In n (nodes root)) (carries (segmentsOk root)).
Proof.
  constructor.
  - intros c s. unfold carries; apply (segmentsOk_nothingCut root s). repeat split. auto.
  - intros sg s Hin Hp Hg H. unfold segmentsOk in *.
    cbn [pushSegment modify snd scene on_scene branchSegments
         set_branchSegments].
    apply Forall_app. split; [exact H|].
    constructor; [|constructor]. repeat split; assumption.
  - intros ref s Hp Ht. unfold carries; apply (segmentsOk_nothingCut root s).
    apply (ws_unprune _ _ _ (walk_nothingCut time)); assumption.
  - intros x y branch angle s _. unfold carries; apply (segmentsOk_nothingCut root s).
    apply (keeps_drawFruit time (fun _ => False) nothingCut
             (walk_nothingCut time)).
Qed.

(** The segments recorded by the tree walk. *)
Lemma drawTree_segmentsOk time s root :
  tree (scene s) = Some root ->
  segmentsOk root (run (drawTree time) s).
Proof.
  intros Ht. unfold drawTree. rewrite run_bind_gets. cbv beta.
  rewrite Ht. rewrite run_bind_modify, !run_bind_gets. cbv beta.
  apply (cells_drawBranch time (fun n => In n (nodes root)) _
           (walk_segmentsOk time root) root).
  - apply Forall_forall. intros n Hn. exact Hn.
  - unfold segmentsOk. cbn [scene on_scene branchSegments
                             set_branchSegments]. constructor.
Qed.

Lemma updateHud_nothingCut : keeps nothingCut updateHud.
Proof.
  intros s. unfold updateHud. rewrite !run_bind_gets. cbv beta.
  repeat split. auto.
Qed.

Lemma render_segmentsOk time s root :
  tree (scene (run (render time) s)) = Some root ->
  segmentsOk root (run (render time) s).
Proof.
  unfold render. rewrite run_bind_gets. cbv beta. rewrite !run_bind.
  match goal with
  | |- context [snd (drawTree time ?x)] => generalize x
  end.
  intros sa Ht.
  pose proof (updateHud_keeps_scene (snd (drawTree time sa))) as Hh.
  pose proof (drawTree_keeps_tree time sa) as Hd.
  pose proof (updateHud_nothingCut (snd (drawTree time sa))) as Hc.
  unfold same in Hh, Hd.
  apply (f_equal (fun q => fst (fst q))) in Hh. cbn [fst] in Hh.
  apply (f_equal fst) in Hd. cbn [fst] in Hd.
  rewrite Hh, Hd in Ht.
  pose proof (drawTree_segmentsOk time sa root Ht) as Hs.
  revert Hc Hs. generalize (snd (drawTree time sa)). intros sb Hc Hs.
  exact (segmentsOk_nothingCut root sb _ Hc Hs).
Qed.

(** *** Each branch is recorded at most once, parents first *)

Lemma Subseq_nil_l {A} (l : list A) : Subseq [] l.
Proof. induction l; constructor; assumption. Qed.

Lemma Subseq_app {A} (a a' b b' : list A) :
  Subseq a a' -> Subseq b b' -> Subseq (a ++ b) (a' ++ b').
Proof.
  intros Ha Hb. induction Ha; cbn [app]; try constructor; assumption.
Qed.

Lemma Subseq_In {A} (l l' : list A) x : Subseq l l' -> In x l -> In x l'.
Proof.
  induction 1 as [|a l l' _ IH | a l l' _ IH]; intros Hin.
  - exact Hin.
  - right. exact (IH Hin).
  - destruct Hin as [-> | Hin]; [left; reflexivity | right; exact (IH Hin)].
Qed.

Lemma Subseq_NoDup {A} (l l' : list A) : Subseq l l' -> NoDup l' -> NoDup l.
Proof.
  induction 1 as [|a l l' _ IH | a l l' Hs IH]; intros Hn.
  - exact Hn.
  - inversion Hn; subst. auto.
  - inversion Hn as [|? ? Hnot Hn']; subst. constructor; [|auto].
    intros Hin. apply Hnot. exact (Subseq_In _ _ _ Hs Hin).
Qed.

Lemma Subseq_map {A B} (f : A -> B) l l' :
  Subseq l l' -> Subseq (map f l) (map f l').
Proof. induction 1; cbn [map]; constructor; assumption. Qed.

Lemma appends_none within {A} (m : M A) s :
  branchSegments (scene (run m s)) = branchSegments (scene s) ->
  appends within m s.
Proof.
  intros H. exists []. rewrite app_nil_r. split; [exact H|].
  apply Subseq_nil_l.
Qed.

Lemma appends_bind within1 within2 {A B} (m : M A) (k : A -> M B) s :
  appends within1 m s ->
  (forall a s1, appends within2 (k a) s1) ->
  appends (within1 ++ within2) (bind m k) s.
Proof.
  intros (sub1 & E1 & S1) Hk.
  destruct (Hk (fst (m s)) (run m s)) as (sub2 & E2 & S2).
  exists (sub1 ++ sub2). rewrite run_bind, E2, E1, app_assoc.
  split; [reflexivity|]. rewrite map_app. apply Subseq_app; assumption.
Qed.

Lemma quietly_appends within {A} (m : M A) :
  keeps nothingCut m -> forall s, appends within m s.
Proof.
  intros H s. apply appends_none. exact (proj1 (H s)).
Qed.

Lemma forEachM_appends {A} (f : A -> M unit) (parts : A -> list Branch) l :
  Forall (fun a => forall s, appends (parts a) (f a) s) l ->
  forall s, appends (flat_map parts l) (forEachM f l) s.
Proof.
  induction 1 as [|a l Ha _ IH]; intros s; cbn [forEachM flat_map].
  - apply appends_none. reflexivity.
  - apply appends_bind; [apply Ha|]. intros _ s1. apply IH.
Qed.

Lemma drawTip_appends time forEachChild branch angle endX endY progress s :
  (forall angle endX endY s,
     appends (flat_map nodes (br_children branch))
       (forEachChild angle endX endY) s) ->
  appends (flat_map nodes (br_children branch))
    (drawTip forEachChild branch time angle endX endY progress) s.
Proof.
  intros Hfe. unfold drawTip.
  destruct (isEmpty (br_children branch) && gtb progress 0.35).
  - apply quietly_appends. unfold drawLeaf.
    keeps_step; [intros x; apply (ws_emit _ _ _ (walk_nothingCut time))|].
    keeps_step.
    apply (keeps_drawFruit time (fun _ => False) nothingCut
             (walk_nothingCut time)).
  - destruct (gtb progress 0.55); [apply Hfe|].
    apply quietly_appends. unfold drawBud.
    intros x. apply (ws_emit _ _ _ (walk_nothingCut time)).
Qed.

Lemma drawLimb_appends time forEachChild branch startX startY angle endX
    endY progress s :
  (forall angle endX endY s,
     appends (flat_map nodes (br_children branch))
       (forEachChild angle endX endY) s) ->
  appends (nodes branch)
    (drawLimb forEachChild branch time startX startY angle endX endY
       progress) s.
Proof.
  intros Hfe. unfold drawLimb. rewrite nodes_unfold.
  change (branch :: flat_map nodes (br_children branch))
    with ([] ++ ([branch] ++ flat_map nodes (br_children branch))).
  apply appends_bind.
  { apply appends_none. reflexivity. }
  intros _ s1. apply appends_bind.
  - exists [{| seg_branch := branch; x1 := startX; y1 := startY;
               x2 := endX; y2 := endY |}].
    split; [reflexivity|]. cbn [map seg_branch].
    apply sub_take, sub_nil.
  - intros _ s2. apply drawTip_appends. exact Hfe.
Qed.

Lemma drawBranch_appends time :
  forall branch parentAngle startX startY s,
    appends (nodes branch)
      (drawBranch branch time parentAngle startX startY) s.
Proof.
  induction branch as [branch IH] using Branch_rect'.
  intros parentAngle startX startY s.
  assert (Hfe : forall angle endX endY s,
            appends (flat_map nodes (br_children branch))
              (forEachM (fun child => drawBranch child time angle endX endY)
                 (br_children branch)) s).
  { intros angle endX endY x. apply forEachM_appends.
    eapply Forall_impl; [|exact IH]. cbv beta. intros c Hc x0. apply Hc. }
  rewrite drawBranch_unfold. unfold drawBranchBody.
  match goal with
  | |- appends ?w (bind (gets ?f) ?k) s =>
      change (appends w (k (f s)) s)
  end.
  cbv beta zeta.
  destruct (leb _ 0); [apply appends_none; reflexivity|].
  match goal with
  | |- appends ?w (bind (gets ?f) ?k) s =>
      change (appends w (k (f s)) s)
  end.
  cbv beta. unfold getCell.
  match goal with
  | |- appends ?w (bind (gets ?f) ?k) s =>
      change (appends w (k (f s)) s)
  end.
  cbv beta.
  destruct (pruned _); [destruct (gtb time _)|].
  - change (nodes branch) with ([] ++ nodes branch).
    apply appends_bind; [apply appends_none; reflexivity|].
    intros _ s1. apply drawLimb_appends. exact Hfe.
  - apply quietly_appends. unfold drawStub.
    keeps_step; intros x; apply (ws_emit _ _ _ (walk_nothingCut time)).
  - apply drawLimb_appends. exact Hfe.
Qed.

Lemma drawTree_subseq time s root :
  tree (scene s) = Some root ->
  Subseq (map seg_branch (branchSegments (scene (run (drawTree time) s))))
    (nodes root).
Proof.
  intros Ht. unfold drawTree. rewrite run_bind_gets. cbv beta.
  rewrite Ht. rewrite run_bind_modify, !run_bind_gets. cbv beta.
  match goal with
  | |- context [snd (drawBranch root time 0 ?x ?y ?s0)] =>
      destruct (drawBranch_appends time root 0 x y s0) as (sub & E & S)
  end.
  rewrite E. cbn [scene on_scene branchSegments set_branchSegments app].
  exact S.
Qed.

Lemma render_subseq time s root :
  tree (scene (run (render time) s)) = Some root ->
  Subseq (map seg_branch (branchSegments (scene (run (render time) s))))
    (nodes root).
Proof.
  unfold render. rewrite run_bind_gets. cbv beta. rewrite !run_bind.
  match goal with
  | |- context [snd (drawTree time ?x)] => generalize x
  end.
  intros sa Ht.
  pose proof (updateHud_keeps_scene (snd (drawTree time sa))) as Hh.
  pose proof (drawTree_keeps_tree time sa) as Hd.
  pose proof (updateHud_nothingCut (snd (drawTree time sa))) as Hc.
  unfold same in Hh, Hd.
  apply (f_equal (fun q => fst (fst q))) in Hh. cbn [fst] in Hh.
  apply (f_equal fst) in Hd. cbn [fst] in Hd.
  rewrite Hh, Hd in Ht.
  pose proof (drawTree_subseq time sa root Ht) as Hs.
  destruct Hc as (Hsegs & _).
  revert Hsegs Hs. generalize (snd (drawTree time sa)). intros sb Hsegs Hs.
  rewrite Hsegs. exact Hs.
Qed.

(** X11. What a frame leaves for the saw.  After the frame callback,
    whatever state it started from, the branches of the recorded segments
    are branches of the tree of the new state, in creation order (a
    parent before its children) and each at most once: when the branch
    objects of the tree are distinct, so are those of the segments; and
    every one of them is not pruned and has started to grow (its growth
    progress is positive). *)
Theorem frame_segments :
  forall (time : R) (s : State) (root : Branch),
    let s' := run (loop time) s in
    tree (scene s') = Some root ->
    Subseq (map seg_branch (branchSegments (scene s'))) (nodes root)
    /\ (NoDup (map br_ref (nodes root)) ->
        NoDup (map (fun sg => br_ref (seg_branch sg))
                 (branchSegments (scene s'))))
    /\ Forall (fun sg =>
                 In (seg_branch sg) (nodes root)
                 /\ pruned (heap (host s') (br_ref (seg_branch sg))) = false
                 /\ progressOf (growth (climate s'))
                      (br_depth (seg_branch sg)) > 0)
         (branchSegments (scene s')).
Proof.
  intros time s root. cbv zeta. rewrite loop_unfold. intros Ht.
  pose proof (render_subseq time _ root Ht) as Hs.
  split; [exact Hs|]. split; [|apply render_segmentsOk; exact Ht].
  intros Hn. rewrite <- map_map.
  exact (Subseq_NoDup _ _ (Subseq_map br_ref _ _ Hs) Hn).
Qed.

Lemma frame_segments_witness :
  exists root,
    tree (scene (run (loop 16) wateredBoot)) = Some root
    /\ Subseq (map seg_branch
                 (branchSegments (scene (run (loop 16) wateredBoot))))
         (nodes root).
Proof.
  assert (Hr : reachable wateredBoot)
    by (unfold wateredBoot; apply reach_step, reach_boot).
  destruct (reachable_sound _ (reach_step _ (Frame 16) Hr))
    as (_ & (_ & _ & _ & Htree) & _).
  change (handle (Frame 16)) with (loop 16) in Htree.
  revert Htree.
  generalize (frame_segments 16 wateredBoot).
  cbv zeta. generalize (snd (loop 16 wateredBoot)). intros s' Hthm Htree.
  destruct (tree (scene s')) as [root|]; [|contradiction].
  exists root. split; [reflexivity|].
  exact (proj1 (Hthm root eq_refl)).
Defined.

(** ** What a cut leaves behind *)

Lemma repeatM_S {A} n (m : M A) s :
  repeatM (S n) m s
  = (fst (m s) :: fst (repeatM n m (snd (m s))),
     snd (repeatM n m (snd (m s)))).
Proof.
  cbn [repeatM]. unfold bind, ret. destruct (m s) as [a s1].
  cbn [fst snd]. destruct (repeatM n m s1). reflexivity.
Qed.

Lemma newParticle_run point s :
  newParticle point s
  = (particleAt point (rng (host s)) (rngPos (host s)) 0,
     on_host (set_rngPos (S (S (rngPos (host s)))))
       (on_host (set_rngPos (S (rngPos (host s)))) s)).
Proof.
  unfold newParticle, bind, Math_random, ret, particleAt. cbn [fst snd].
  cbn [host on_host rngPos set_rngPos rng].
  rewrite Nat.mul_0_r, Nat.add_0_r, Nat.add_1_r. reflexivity.
Qed.

Lemma newParticles_run point n :
  forall s,
    fst (repeatM n (newParticle point) s)
    = map (particleAt point (rng (host s)) (rngPos (host s))) (seq 0 n)
    /\ rngPos (host (snd (repeatM n (newParticle point) s)))
       = (rngPos (host s) + 2 * n)%nat
    /\ rng (host (snd (repeatM n (newParticle point) s))) = rng (host s)
    /\ hint (host (snd (repeatM n (newParticle point) s))) = hint (host s)
    /\ scene (snd (repeatM n (newParticle point) s)) = scene s.
Proof.
  induction n as [|n IH]; intros s.
  - cbn [repeatM ret fst snd seq map]. repeat split. lia.
  - rewrite repeatM_S, newParticle_run. cbn [fst snd].
    set (s1 := on_host _ (on_host _ s)).
    destruct (IH s1) as (I1 & I2 & I3 & I4 & I5).
    rewrite I1, I2, I3, I4, I5. unfold s1.
    cbn [host on_host rngPos set_rngPos rng hint scene].
    split; [|repeat split; lia].
    cbn [seq map]. f_equal.
    rewrite <- seq_shift, map_map. apply map_ext. intros i.
    unfold particleAt.
    replace (S (S (rngPos (host s))) + 2 * i)%nat
      with (rngPos (host s) + 2 * S i)%nat by lia.
    reflexivity.
Qed.

Lemma spawnSawdust_run point s :
  let s' := run (spawnSawdust point) s in
  sawdust (scene s')
  = sawdust (scene s)
    ++ map (particleAt point (rng (host s)) (rngPos (host s))) (seq 0 12)
  /\ rngPos (host s') = (rngPos (host s) + 24)%nat
  /\ hint (host s') = hint (host s).
Proof.
  cbv zeta. unfold spawnSawdust. rewrite run_bind.
  destruct (newParticles_run point 12 s) as (H1 & H2 & _ & H4 & H5).
  revert H1 H2 H4 H5.
  generalize (repeatM 12 (newParticle point) s). intros [l s1].
  cbn [fst snd]. intros -> H2 H4 H5.
  cbn [modify snd scene on_scene sawdust set_sawdust host].
  rewrite H5, H2, H4. repeat split.
Qed.

(** A segment in reach of the saw is found. *)
Lemma scan_finds h sx sy l :
  let found := scanSegments h sx sy l in
  match chosen found with
  | Some sg =>
      In sg l /\ cuttable h sg = true
      /\ chosenPoint found = Some (segmentPoint sx sy sg)
  | None =>
      Forall (fun sg => cuttable h sg = true ->
                        sawRadius CONFIG <= segmentDist sx sy sg) l
  end.
Proof.
  cbv zeta. destruct (scanSegments_scanned h sx sy l) as [Hmin Hch].
  destruct (chosen (scanSegments h sx sy l)) as [sg|].
  - destruct Hch as (Hin & Hc & _ & _ & Hp). repeat split; assumption.
  - destruct Hch as [_ Hb]. apply Forall_forall. intros sg Hin Hc.
    rewrite <- Hb. exact (Hmin sg Hin Hc).
Qed.

Lemma afterCut_rest now sg s :
  scene (afterCut now sg s) = scene s
  /\ rng (host (afterCut now sg s)) = rng (host s)
  /\ rngPos (host (afterCut now sg s)) = S (rngPos (host s))
  /\ lastCut (sawState (afterCut now sg s)) = now.
Proof. unfold afterCut. repeat split. Qed.

(** X12. What a cut leaves behind.  Whenever [performSawCut] changes the
    state, it has cut a segment [sg] of a non-trunk, unpruned branch; it
    has then added exactly 12 sawdust particles, all at the point of
    [sg] closest to the saw, with life 1 and velocities drawn from the
    next 24 random numbers (25 are drawn in all), it shows the hint of a
    cut branch and keeps the fruit of the branch; the branch can not be
    cut again while it is pruned, and any further attempt less than
    140 ms later changes nothing. *)
Theorem cut_aftermath :
  forall (now : R) (s : State),
    let s' := run (performSawCut now) s in
    s' <> s ->
    exists sg,
      In sg (branchSegments (scene s))
      /\ cuttable (heap (host s)) sg = true
      /\ let ref := br_ref (seg_branch sg) in
         let point :=
           segmentPoint (saw_x (sawState s)) (saw_y (sawState s)) sg in
         sawdust (scene s')
         = sawdust (scene s)
           ++ map (particleAt point (rng (host s)) (S (rngPos (host s))))
                (seq 0 12)
         /\ hint (host s') = hintBranchCut
         /\ rngPos (host s') = (rngPos (host s) + 25)%nat
         /\ fruits (heap (host s') ref) = fruits (heap (host s) ref)
         /\ cuttable (heap (host s')) sg = false
         /\ (forall sg', br_ref (seg_branch sg') = ref ->
                         cuttable (heap (host s')) sg' = false)
         /\ forall now', now' - now < 140 ->
                         run (performSawCut now') s' = s'.
Proof.
  intros now s s' Hne.
  pose proof (performSawCut_run now s) as Hrun. cbv zeta in Hrun.
  fold s' in Hrun.
  pose proof (scan_finds (heap (host s)) (saw_x (sawState s))
                (saw_y (sawState s)) (branchSegments (scene s))) as Hf.
  cbv zeta in Hf.
  destruct (isEmpty (branchSegments (scene s))); [contradiction|].
  destruct (ltb (now - lastCut (sawState s)) (sawCooldown CONFIG));
    [contradiction|].
  destruct (chosen (scanSegments _ _ _ _)) as [sg|]; [|contradiction].
  destruct Hf as (Hin & Hc & Hp). rewrite Hp in Hrun.
  exists sg. split; [exact Hin|]. split; [exact Hc|]. cbv zeta.
  set (point := segmentPoint _ _ sg) in *.
  destruct (afterCut_rest now sg s) as (Asc & Arng & Apos & Alast).
  pose proof (afterCut_heap now sg s (br_ref (seg_branch sg))) as Aheap.
  rewrite Nat.eqb_refl in Aheap.
  set (ref := br_ref (seg_branch sg)) in *.
  pose proof (sawdust_keeps_host_heap point (afterCut now sg s)) as Hk.
  unfold same in Hk. rewrite <- Hrun in Hk.
  apply (f_equal (fun q => fst (fst (fst (fst (fst (fst q))))))) in Hk.
  cbn [fst] in Hk.
  pose proof (f_equal fst Hk) as Kheap. pose proof (f_equal snd Hk) as Ksaw.
  cbn [fst snd] in Kheap, Ksaw. clear Hk.
  rewrite run_bind in Hrun.
  destruct (spawnSawdust_run point (afterCut now sg s)) as (D1 & D2 & _).
  cbv zeta in D1, D2. rewrite Asc, Arng, Apos in D1. rewrite Apos in D2.
  revert Hrun D1 D2.
  generalize (snd (spawnSawdust point (afterCut now sg s))).
  intros sd Hrun D1 D2.
  cbn [modify snd] in Hrun.
  assert (Hpruned : pruned (heap (host s') ref) = true).
  { rewrite Kheap, Aheap. reflexivity. }
  split; [rewrite Hrun; cbn [scene on_host]; exact D1|].
  split; [rewrite Hrun; reflexivity|].
  split; [rewrite Hrun; cbn [host on_host rngPos set_hint]; rewrite D2; lia|].
  split; [rewrite Kheap, Aheap; reflexivity|].
  assert (Hnot : forall sg', br_ref (seg_branch sg') = ref ->
                             cuttable (heap (host s')) sg' = false).
  { intros sg' E. unfold cuttable. rewrite E, Hpruned.
    apply andb_false_r. }
  split; [apply Hnot; reflexivity|]. split; [exact Hnot|].
  intros now' Hnow.
  rewrite performSawCut_run. cbv zeta.
  destruct (isEmpty (branchSegments (scene s'))); [reflexivity|].
  rewrite Ksaw, Alast.
  replace (ltb (now' - now) (sawCooldown CONFIG)) with true; [reflexivity|].
  symmetry. apply ltb_true. exact Hnow.
Qed.

Lemma cut_aftermath_witness :
  run (performSawCut 1000) sawReady <> sawReady
  /\ exists sg,
       In sg (branchSegments (scene sawReady))
       /\ hint (host (run (performSawCut 1000) sawReady)) = hintBranchCut
       /\ forall now', now' - 1000 < 140 ->
            run (performSawCut now') (run (performSawCut 1000) sawReady)
            = run (performSawCut 1000) sawReady.
Proof.
  assert (Hne : run (performSawCut 1000) sawReady <> sawReady).
  { assert (Hd : segmentDist 0 0 limbSegment < sawRadius CONFIG).
    { unfold segmentDist, segmentPoint, closestPoint, limbSegment,
        Math_hypot.
      cbn [x1 y1 x2 y2 pt_x pt_y sawRadius CONFIG].
      match goal with
      | |- sqrt ?a < _ => replace a with 0 by ring
      end.
      rewrite sqrt_0. lra. }
    pose proof (performSawCut_run 1000 sawReady) as Hrun.
    pose proof (scan_finds (heap (host sawReady)) (saw_x (sawState sawReady))
                  (saw_y (sawState sawReady))
                  (branchSegments (scene sawReady))) as Hf.
    cbv zeta in Hrun, Hf.
    change (branchSegments (scene sawReady)) with [limbSegment] in Hrun, Hf.
    change (saw_x (sawState sawReady)) with 0 in Hrun, Hf.
    change (saw_y (sawState sawReady)) with 0 in Hrun, Hf.
    change (lastCut (sawState sawReady)) with 0 in Hrun.
    cbn [isEmpty] in Hrun.
    replace (ltb (1000 - 0) (sawCooldown CONFIG)) with false in Hrun
      by (symmetry; apply ltb_false; cbn [sawCooldown CONFIG]; lra).
    destruct (chosen (scanSegments _ _ _ _)) as [sg|].
    - destruct Hf as (_ & _ & Hp). rewrite Hp in Hrun.
      rewrite run_bind in Hrun.
      destruct (spawnSawdust_run (segmentPoint 0 0 sg)
                  (afterCut 1000 sg sawReady)) as (D1 & _).
      cbv zeta in D1. revert Hrun D1.
      generalize (snd (spawnSawdust (segmentPoint 0 0 sg)
                         (afterCut 1000 sg sawReady))).
      intros sd Hrun D1 E. rewrite E in Hrun.
      apply (f_equal (fun x => List.length (sawdust (scene x)))) in Hrun.
      cbn [modify snd scene on_host] in Hrun. rewrite D1 in Hrun.
      rewrite length_app, length_map, length_seq in Hrun.
      destruct (afterCut_rest 1000 sg sawReady) as (Asc & _).
      rewrite Asc in Hrun. cbn in Hrun. discriminate Hrun.
    - inversion Hf as [|? ? Hfar _]; subst.
      assert (Hc : cuttable (heap (host sawReady)) limbSegment = true)
        by reflexivity.
      specialize (Hfar Hc). lra. }
  split; [exact Hne|].
  destruct (cut_aftermath 1000 sawReady Hne)
    as (sg & Hin & _ & _ & Hh & _ & _ & _ & _ & Hcool).
  exists sg. split; [exact Hin|]. split; [exact Hh | exact Hcool].
Defined.

(** ** Resizing the window *)

Lemma resize_unfold w h s :
  let s0 := on_scene (set_size w h) s in
  run (resize w h) s
  = on_saw (set_saw_xy (w / 2) (h / 2))
      (on_scene (set_tree (Some (fst (buildTree s0)))) (snd (buildTree s0))).
Proof.
  intros s0. unfold resize. rewrite run_bind_modify, run_bind. fold s0.
  rewrite !run_bind_modify. reflexivity.
Qed.

Lemma resize_keeps_rest w h :
  keeps (same (fun s => (life s, climate s, clock s, saplings (scene s),
                         branchSegments (scene s), sawdust (scene s),
                         sawTrail (scene s), active (sawState s),
                         lastCut (sawState s))))
    (resize w h).
Proof.
  unfold resize.
  repeat first
    [ lazymatch goal with
      | |- keeps _ buildTree => apply keeps_buildTree; intros; reflexivity
      end
    | keeps_step | keeps_leaf ].
Qed.

Lemma buildTree_cells s :
  Forall (fun n => heap (host (snd (buildTree s))) (br_ref n) = newCell
                   /\ (nextRef (host s) <= br_ref n)%nat)
    (nodes (fst (buildTree s)))
  /\ forall r, (r < nextRef (host s))%nat ->
               heap (host (snd (buildTree s))) r = heap (host s) r.
Proof.
  rewrite buildTree_unfold. unfold createBranch.
  set (s0 := on_host (set_rngPos (S (rngPos (host s))))
               (on_scene (set_branchIdCounter 0) s)).
  pose proof (createBranchFrom_allocates (maxDepth CONFIG - 0) 0
                (Rmin (width (scene s)) (height (scene s)) * 0.25) 0
                (rng (host s) (rngPos (host s)) * 1000) s0) as A.
  revert A.
  generalize (createBranchFrom (maxDepth CONFIG - 0) 0
                (Rmin (width (scene s)) (height (scene s)) * 0.25) 0
                (rng (host s) (rngPos (host s)) * 1000) s0).
  intros [t s'] A. cbn [fst snd] in A |- *.
  destruct A as (_ & R & _ & _ & _ & H & K). cbv zeta in *.
  unfold s0 in *.
  cbn [scene host on_host on_scene nextRef heap set_rngPos
       set_branchIdCounter] in *.
  split.
  - apply Forall_forall. intros n Hn.
    assert (Hr : In (br_ref n) (seq (nextRef (host s)) (nodeCount t))).
    { rewrite <- R. apply in_map. exact Hn. }
    apply in_seq in Hr. split; [apply H; lia | lia].
  - intros r Hr. apply K. lia.
Qed.

(** X13. Resizing the window replaces the tree and leaves the life of the
    plant alone.  [resize] sets the canvas size, builds a new tree whose
    trunk has the length min(w, h) / 4 and angle 0, and centres the saw;
    every branch of the new tree is a new object, so none is pruned and
    none has fruit, and the objects of the old tree are not touched; the
    life stage with its timers and the counter of ripened fruit, the
    climate, the clock, the saplings, the sawdust, the saw trail and the
    recorded segments (which still refer to the old tree until the next
    frame) stay as they were. *)
Theorem resize_rebuilds :
  forall (w h : R) (s : State),
    let s' := run (resize w h) s in
    exists t,
      tree (scene s') = Some t
      /\ width (scene s') = w /\ height (scene s') = h
      /\ saw_x (sawState s') = w / 2 /\ saw_y (sawState s') = h / 2
      /\ br_depth t = 0%nat /\ br_length t = Rmin w h * 0.25
      /\ br_angle t = 0
      /\ Forall (fun n => heap (host s') (br_ref n) = newCell
                          /\ (nextRef (host s) <= br_ref n)%nat)
           (nodes t)
      /\ (forall r, (r < nextRef (host s))%nat ->
                    heap (host s') r = heap (host s) r)
      /\ life s' = life s /\ climate s' = climate s /\ clock s' = clock s
      /\ saplings (scene s') = saplings (scene s)
      /\ sawdust (scene s') = sawdust (scene s)
      /\ sawTrail (scene s') = sawTrail (scene s)
      /\ branchSegments (scene s') = branchSegments (scene s)
      /\ active (sawState s') = active (sawState s)
      /\ lastCut (sawState s') = lastCut (sawState s).
Proof.
  intros w h s s'.
  pose proof (resize_keeps_rest w h s) as Hk. unfold same in Hk.
  fold s' in Hk.
  pose proof (resize_unfold w h s) as Hu. cbv zeta in Hu. fold s' in Hu.
  set (s0 := on_scene (set_size w h) s) in *.
  pose proof (buildTree_generated s0) as Hg.
  apply Generated_own in Hg. destruct Hg as (G1 & G2 & G3 & _).
  destruct (buildTree_cells s0) as (C1 & C2).
  pose proof (keeps_buildTree (fun s => (width (scene s), height (scene s)))
                (fun f s => eq_refl) (fun n s => eq_refl) s0) as Hwh.
  unfold same in Hwh.
  revert Hu G1 G2 G3 C1 C2 Hwh. generalize (buildTree s0).
  intros [t s1]. cbn [fst snd]. intros Hu G1 G2 G3 C1 C2 Hwh.
  exists t. rewrite Hu.
  cbn [scene sawState host on_saw on_scene tree set_tree width height
       saw_x saw_y set_saw_xy].
  apply (f_equal fst) in Hwh as Hw. apply (f_equal snd) in Hwh as Hh.
  cbn [fst snd] in Hw, Hh.
  split; [reflexivity|]. split; [exact Hw|]. split; [exact Hh|].
  split; [reflexivity|]. split; [reflexivity|].
  split; [exact G1|]. split; [exact G2|]. split; [exact G3|].
  split; [exact C1|]. split; [exact C2|].
  rewrite Hu in Hk.
  cbn [scene sawState host on_saw on_scene life climate clock saplings
       branchSegments sawdust sawTrail active lastCut set_tree
       set_saw_xy] in Hk.
  repeat split.
  - exact (f_equal (fun q => fst (fst (fst (fst (fst (fst (fst (fst q)))))))) Hk).
  - exact (f_equal (fun q => snd (fst (fst (fst (fst (fst (fst (fst q)))))))) Hk).
  - exact (f_equal (fun q => snd (fst (fst (fst (fst (fst (fst q))))))) Hk).
  - exact (f_equal (fun q => snd (fst (fst (fst (fst (fst q)))))) Hk).
  - exact (f_equal (fun q => snd (fst (fst (fst q)))) Hk).
  - exact (f_equal (fun q => snd (fst (fst q))) Hk).
  - exact (f_equal (fun q => snd (fst (fst (fst (fst q))))) Hk).
  - exact (f_equal (fun q => snd (fst q)) Hk).
  - exact (f_equal snd Hk).
Qed.

(** ** Sawdust and the trail of the saw *)

Lemma debrisOk_of_debris a b : debris b = debris a -> debrisOk a -> debrisOk b.
Proof.
  unfold debris, debrisOk. intros E.
  apply (f_equal fst) in E as E1. apply (f_equal snd) in E as E2.
  cbn [fst snd] in E1, E2. rewrite E1, E2. exact (fun H => H).
Qed.

Lemma updatePointer_debris point :
  keeps (carries debrisOk) (updatePointer point).
Proof.
  intros s (H1 & H2 & H3). unfold updatePointer.
  rewrite run_bind_modify, run_bind_gets. cbv beta.
  destruct (active (sawState (on_saw _ s))).
  - rewrite run_when_true, run_bind_modify.
    unfold debrisOk.
    cbn [modify snd scene on_scene on_saw sawTrail set_sawTrail].
    set (l := sawTrail (scene s) ++ _).
    assert (Hl : (List.length l <= 61)%nat
                 /\ Forall (fun point => 0 < tr_life point <= 1) l).
    { unfold l. rewrite length_app. cbn [List.length]. split; [lia|].
      apply Forall_app. split; [exact H2|].
      constructor; [cbn [tr_life]; lra | constructor]. }
    destruct Hl as (L1 & L2). clearbody l.
    destruct (60 <? List.length l)%nat eqn:E;
      cbn [scene on_scene on_saw sawTrail set_sawTrail sawdust].
    + destruct l as [|p l]; cbn [tl List.length] in *.
      * split; [lia|]. split; [constructor | exact H3].
      * inversion L2; subst. split; [lia|]. split; assumption.
    + apply Nat.ltb_ge in E. split; [exact E|]. split; assumption.
  - rewrite run_when_false. exact (conj H1 (conj H2 H3)).
Qed.

Lemma performSawCut_debris now :
  keeps (carries debrisOk) (performSawCut now).
Proof.
  intros s (H1 & H2 & H3).
  rewrite performSawCut_run. cbv zeta.
  destruct (isEmpty _); [exact (conj H1 (conj H2 H3))|].
  destruct (ltb _ _); [exact (conj H1 (conj H2 H3))|].
  destruct (chosen _) as [sg|]; [|exact (conj H1 (conj H2 H3))].
  destruct (chosenPoint _) as [point|]; [|exact (conj H1 (conj H2 H3))].
  rewrite run_bind.
  destruct (afterCut_rest now sg s) as (Asc & _).
  destruct (spawnSawdust_run point (afterCut now sg s)) as (D1 & _).
  pose proof (spawnSawdust_keeps (fun s => sawTrail (scene s)) point
                (fun s => eq_refl) (fun f s => eq_refl)
                (afterCut now sg s)) as D2.
  cbv zeta in D1. unfold same in D2. rewrite Asc in D1, D2.
  revert D1 D2. generalize (snd (spawnSawdust point (afterCut now sg s))).
  intros sd D1 D2. unfold debrisOk.
  cbn [modify snd scene on_host]. rewrite D1, D2.
  split; [exact H1|]. split; [exact H2|].
  apply Forall_app. split; [exact H3|].
  apply Forall_map. apply Forall_forall. intros i _.
  cbn [particleAt p_life]. lra.
Qed.

Lemma walk_same_debris time :
  WalkSteps time (fun _ => True) (same debris).
Proof. constructor; intros; reflexivity. Qed.

Lemma render_debris time s :
  0 <= deltaMs (clock s) -> debrisOk s -> debrisOk (run (render time) s).
Proof.
  intros Hd. unfold render. rewrite run_bind_gets. cbv beta.
  revert Hd. generalize (deltaMs (clock s)). intros d Hd.
  revert s.
  change (keeps (carries debrisOk)
            (updateSaplings d ;;; updateSawdust d ;;; updateSawTrail d ;;;
             modify (on_host (set_canvas [])) ;;; drawTree time ;;;
             updateHud)).
  unfold updateSaplings, updateSawdust, updateSawTrail, updateHud.
  repeat first
    [ lazymatch goal with
      | |- keeps _ (drawTree _) =>
          apply (keeps_of_same debris (carries debrisOk) debrisOk_of_debris);
          apply (keeps_drawTree time _ (walk_same_debris time));
          intros ?; reflexivity
      | |- forall s : State, carries debrisOk s _ =>
          first
            [ intros ? H; exact H
            | intros s (H1 & H2 & H3); unfold debrisOk;
              cbn [scene on_scene sawTrail sawdust set_sawdust set_sawTrail];
              split; [|split]; try assumption ]
      end
    | keeps_step ].
  - apply Forall_forall. intros p Hp. apply filter_In in Hp.
    destruct Hp as [Hin Hpos]. apply gtb_true in Hpos.
    apply in_map_iff in Hin. destruct Hin as (q & <- & Hq).
    rewrite Forall_forall in H3. specialize (H3 q Hq).
    cbn [p_life] in *. nra.
  - etransitivity; [apply filter_length_le|]. rewrite length_map. exact H1.
  - apply Forall_forall. intros p Hp. apply filter_In in Hp.
    destruct Hp as [Hin Hpos]. apply gtb_true in Hpos.
    apply in_map_iff in Hin. destruct Hin as (q & <- & Hq).
    rewrite Forall_forall in H2. specialize (H2 q Hq).
    cbn [tr_life] in *. nra.
Qed.

Lemma updateLifeStage_keeps_debris delta :
  keeps (same debris) (updateLifeStage delta).
Proof.
  unfold updateLifeStage, stageSwitch, stageUpkeep, spawnSaplings,
    newSapling, regenerate, setStage.
  keeps_using ltac:(idtac;
    lazymatch goal with
    | |- keeps _ buildTree => apply keeps_buildTree; intros; reflexivity
    end).
Qed.

Lemma loop_debris time : keeps (carries debrisOk) (loop time).
Proof.
  intros s H. rewrite loop_unfold.
  destruct (advance_run time s) as (_ & _ & _ & _ & _ & Hsc & _).
  cbv zeta in Hsc.
  pose proof (advance_deltaMs time s) as Hd.
  revert Hsc Hd. generalize (atSwitch time s). intros sw Hsc Hd.
  assert (H1 : debrisOk sw).
  { apply (debrisOk_of_debris s); [|exact H]. unfold debris.
    rewrite Hsc. reflexivity. }
  pose proof (updateLifeStage_keeps_debris (deltaMs (clock sw)) sw) as Hk.
  pose proof (updateLifeStage_keeps_clock (deltaMs (clock sw)) sw) as Hc.
  unfold same in Hk, Hc. apply (f_equal fst) in Hc. cbn [fst] in Hc.
  revert Hk Hc. generalize (snd (updateLifeStage (deltaMs (clock sw)) sw)).
  intros s2 Hk Hc.
  apply render_debris; [rewrite Hc; lra|].
  exact (debrisOk_of_debris sw s2 Hk H1).
Qed.

Lemma rest_debris a b :
  (life b, climate b, clock b, saplings (scene b), branchSegments (scene b),
   sawdust (scene b), sawTrail (scene b), active (sawState b),
   lastCut (sawState b))
  = (life a, climate a, clock a, saplings (scene a), branchSegments (scene a),
     sawdust (scene a), sawTrail (scene a), active (sawState a),
     lastCut (sawState a)) ->
  debris b = debris a.
Proof.
  intros H. unfold debris. injection H as _ _ _ _ _ -> -> _ _. reflexivity.
Qed.

Lemma resize_debris w h : keeps (carries debrisOk) (resize w h).
Proof.
  intros s H. apply (debrisOk_of_debris s); [|exact H].
  apply rest_debris. exact (resize_keeps_rest w h s).
Qed.

Lemma handle_debris e : keeps (carries debrisOk) (handle e).
Proof.
  destruct e; cbn [handle].
  - apply loop_debris.
  - apply (keeps_of_same debris _ debrisOk_of_debris).
    unfold growthPulse. keeps_same.
  - apply (keeps_of_same debris _ debrisOk_of_debris).
    unfold water. keeps_same.
  - unfold pointerdown.
    repeat first
      [ apply updatePointer_debris | apply performSawCut_debris
      | keeps_step | carries_leaf ltac:(idtac) ].
  - unfold pointermove.
    repeat first
      [ apply updatePointer_debris | apply performSawCut_debris
      | keeps_step | carries_leaf ltac:(idtac) ].
  - unfold pointerup. keeps_step. intros s H. exact H.
  - unfold pointerup. keeps_step. intros s H. exact H.
  - apply resize_debris.
Qed.

Lemma boot_debris w h t0 random : debrisOk (boot w h t0 random).
Proof.
  unfold boot. apply resize_debris.
  unfold debrisOk. cbn [scene sawTrail sawdust List.length].
  split; [lia|]. split; constructor.
Qed.

(** X14. In every state that a run of the program reaches, the trail of
    the saw has at most 60 points, and every trail point and every
    sawdust particle has a life in (0, 1]: a new one starts at 1, each
    frame lowers it, and the frame that brings it to 0 or below removes
    the point or particle. *)
Theorem reachable_debris :
  forall s, reachable s ->
    (List.length (sawTrail (scene s)) <= 60)%nat
    /\ Forall (fun point => 0 < tr_life point <= 1) (sawTrail (scene s))
    /\ Forall (fun particle => 0 < p_life particle <= 1)
         (sawdust (scene s)).
Proof.
  induction 1 as [w h t0 random | s e _ IH].
  - apply boot_debris.
  - exact (handle_debris e s IH).
Qed.

Lemma reachable_debris_witness :
  reachable sampleRun
  /\ (List.length (sawTrail (scene sampleRun)) <= 60)%nat.
Proof.
  split; [exact sampleRun_reachable|].
  exact (proj1 (reachable_debris sampleRun sampleRun_reachable)).
Defined.

(** ** Growth before the decline *)

Lemma stageSwitch_climate delta s :
  let s' := run (stageSwitch delta) s in
  (lifeStage (life s) <> rebirth -> climate s' = climate s)
  /\ (lifeStage (life s) = rebirth ->
      lifeStage (life s') = rebirth
      \/ (lifeStage (life s') = sprout
          /\ growth (climate s') = 0.05
          /\ targetGrowth (climate s') = 0.15)).
Proof.
  cbv zeta. unfold stageSwitch. rewrite !run_bind_gets. cbv beta.
  destruct (lifeStage (life s)) eqn:E;
    (split; [intros Hne; try (exfalso; apply Hne; reflexivity)
            | intros H; try discriminate H]);
    try (match goal with
         | |- climate (snd (?m s)) = climate s =>
             let K := fresh "K" in
             assert (K : keeps (same climate) m);
             [ keeps_using ltac:(idtac;
                 lazymatch goal with
                 | |- keeps _ (setStage _) => apply setStage_keeps_climate
                 | |- keeps _ spawnSaplings =>
                     apply spawnSaplings_keeps_climate
                 end)
             | exact (K s) ]
         end).
  clear H. rewrite run_bind_gets. cbv beta. rewrite run_bind.
  set (s2 := run (when (isEmpty (saplings (scene s))) spawnSaplings) s).
  assert (L2 : lifeCore s2 = lifeCore s).
  { unfold s2. destruct (isEmpty (saplings (scene s))).
    - rewrite run_when_true.
      destruct (spawnSaplings_run s) as (_ & _ & _ & Hcore & _).
      exact Hcore.
    - rewrite run_when_false. reflexivity. }
  clearbody s2. apply (f_equal (fun q => fst (fst q))) in L2.
  cbn [lifeCore fst] in L2. rewrite E in L2.
  rewrite run_bind_gets. cbv beta.
  destruct (allGrown (saplings (scene s2))).
  - rewrite run_when_true. right.
    destruct (regenerate_run s2 L2) as (_ & Rg & Rt & _ & Rst & _).
    repeat split; assumption.
  - rewrite run_when_false. left. exact L2.
Qed.

Lemma stageUpkeep_target delta s :
  lifeStage (life s) <> decline ->
  targetGrowth (climate (run (stageUpkeep delta) s))
  = targetGrowth (climate s).
Proof.
  intros H. unfold stageUpkeep, bind, gets, modify, when, ret.
  cbn [fst snd].
  destruct (lifeStage (life s)) eqn:E; cbn [fst snd];
    stage_fields; rewrite ?E; cbn [fst snd]; try reflexivity.
  contradiction.
Qed.

Lemma updateLifeStage_climate delta s :
  let s' := run (updateLifeStage delta) s in
  (lifeStage (life s) <> rebirth ->
   growth (climate s') = growth (climate s)
   /\ (lifeStage (life s') <> decline ->
       targetGrowth (climate s') = targetGrowth (climate s)))
  /\ (lifeStage (life s) = rebirth ->
      lifeStage (life s') = rebirth
      \/ (lifeStage (life s') = sprout
          /\ growth (climate s') = 0.05
          /\ targetGrowth (climate s') = 0.15)).
Proof.
  cbv zeta. unfold updateLifeStage. rewrite run_bind.
  destruct (stageSwitch_climate delta s) as (S1 & S2). cbv zeta in S1, S2.
  revert S1 S2. generalize (snd (stageSwitch delta s)). intros s1 S1 S2.
  destruct (stageUpkeep_effect delta s1) as (Hst & _ & _ & Hg).
  cbv zeta in Hst, Hg.
  pose proof (stageUpkeep_target delta s1) as Ht.
  revert Hst Hg Ht. generalize (snd (stageUpkeep delta s1)).
  intros s2 Hst Hg Ht.
  apply (f_equal fst) in Hst. cbn [stageAndTimer fst] in Hst.
  split.
  - intros Hne. rewrite Hg, (S1 Hne). split; [reflexivity|].
    intros Hd. rewrite Hst in Hd. rewrite (Ht Hd), (S1 Hne). reflexivity.
  - intros E. destruct (S2 E) as [R | (R1 & R2 & R3)].
    + left. rewrite Hst. exact R.
    + right. rewrite Hst, Hg, Ht by (rewrite R1; discriminate).
      repeat split; assumption.
Qed.

Lemma updateLifeStage_rising delta s :
  risingOk s ->
  let s' := run (updateLifeStage delta) s in
  risingOk s'
  /\ (rising (lifeStage (life s)) = true ->
      growth (climate s') = growth (climate s)
      /\ (lifeStage (life s') <> decline ->
          targetGrowth (climate s') = targetGrowth (climate s))).
Proof.
  intros (R1 & R2 & R3 & R4). cbv zeta.
  destruct (updateLifeStage_climate delta s) as (C1 & C2).
  pose proof (updateLifeStage_table delta s) as Hrel.
  cbv zeta in C1, C2, Hrel.
  assert (Hrel' :
    lifeStage (life (run (updateLifeStage delta) s)) = lifeStage (life s)
    \/ tableEdge (growth (climate s)) (stageTimer (life s))
         (regenCountdown (life s) + delta)
         (rng (host s) (rngPos (host s)) < delta * 0.0000006)
         (saplings (scene s))
         (lifeStage (life s))
         (lifeStage (life (run (updateLifeStage delta) s)))).
  { destruct Hrel as [Hs | [He _]]; [left | right; exact He].
    exact (f_equal fst Hs). }
  clear Hrel. revert C1 C2 Hrel'.
  generalize (snd (updateLifeStage delta s)). intros s' C1 C2 Hrel.
  unfold risingOk.
  destruct (lifeStage (life s)) eqn:E;
    destruct (lifeStage (life s')) eqn:E';
    cbn [rising tableEdge] in *;
    (destruct Hrel as [Hrel | Hrel];
     [try discriminate Hrel | try contradiction Hrel]);
    try (destruct (C1 ltac:(discriminate)) as (Cg & Ct);
         try specialize (Ct ltac:(discriminate)));
    try (destruct (C2 eq_refl) as [Cr | (Cr & Cg & Ct)];
         try discriminate Cr);
    try specialize (R1 eq_refl); try specialize (R2 eq_refl);
    try specialize (R3 eq_refl); try specialize (R4 eq_refl);
    try rewrite Cg; try (rewrite Ct by discriminate);
    repeat split; intros; try discriminate; try contradiction; try lra;
    try (destruct Hrel; lra).
Qed.

(** A frame. *)
Lemma loop_rising time s :
  climateOk s -> risingOk s ->
  let s' := run (loop time) s in
  risingOk s'
  /\ (rising (lifeStage (life s)) = true ->
      growth (climate s) <= growth (climate s')
      /\ (lifeStage (life s') <> decline ->
          targetGrowth (climate s) <= targetGrowth (climate s'))).
Proof.
  intros (Hg & Ht & Hh) (R1 & R2 & R3 & R4). cbv zeta.
  rewrite loop_unfold.
  destruct (advance_run time s)
    as (_ & Ag & Ah & At & Al & _).
  cbv zeta in Ag, Ah, At, Al.
  destruct (easeGrowth_bounds (elapsed time (lastTime (clock s)))
              (targetGrowth (climate s)) (growth (climate s)) Hg Ht)
    as (_ & _ & Hup & _).
  assert (Htar : targetGrowth (climate s)
                 <= targetGrowth (climate (atSwitch time s))).
  { rewrite At.
    set (hyd := Rmax 0 _).
    assert (0 <= hyd) by (unfold hyd, Rmax; destruct Rle_dec; lra).
    destruct (gtb hyd 0.001); [|lra].
    unfold clamp, Rmin, Rmax. repeat destruct Rle_dec; lra. }
  assert (Hst : lifeStage (life (atSwitch time s)) = lifeStage (life s))
    by (rewrite Al; reflexivity).
  clear Ah At Al. revert Ag Htar Hst.
  generalize (atSwitch time s). intros sw Ag Htar Hst.
  assert (Rsw : risingOk sw).
  { unfold risingOk. rewrite Hst, Ag.
    repeat split; intros H.
    - specialize (Hup (R1 H)). lra.
    - assert (Hr : rising (lifeStage (life s)) = true)
        by (rewrite H; reflexivity).
      specialize (Hup (R1 Hr)). specialize (R2 H). lra.
    - assert (Hr : rising (lifeStage (life s)) = true)
        by (rewrite H; reflexivity).
      specialize (Hup (R1 Hr)). specialize (R3 H). lra.
    - assert (Hr : rising (lifeStage (life s)) = true)
        by (rewrite H; reflexivity).
      specialize (Hup (R1 Hr)). specialize (R4 H). lra. }
  destruct (updateLifeStage_rising (deltaMs (clock sw)) sw Rsw) as (R' & K).
  cbv zeta in R', K. rewrite Hst in K.
  revert R' K.
  generalize (snd (updateLifeStage (deltaMs (clock sw)) sw)).
  intros s2 R' K.
  destruct (render_saplings time s2) as (_ & Hk). cbv zeta in Hk.
  revert Hk. generalize (snd (render time s2)). intros s3 Hk.
  assert (Hcl : climate s3 = climate s2)
    by exact (f_equal (fun q => snd (fst q)) Hk).
  assert (Hls : lifeStage (life s3) = lifeStage (life s2))
    by exact (f_equal (fun q => fst (fst (snd (fst (fst q))))) Hk).
  unfold risingOk. rewrite Hcl, Hls. split; [exact R'|].
  intros Hr. destruct (K Hr) as (Kg & Kt). specialize (Hup (R1 Hr)).
  split; [rewrite Kg, Ag; lra|].
  intros Hd. rewrite (Kt Hd). exact Htar.
Qed.

Lemma buildTree_keeps_rng : keeps (same (fun s => rng (host s))) buildTree.
Proof.
  unfold buildTree.
  keeps_using ltac:(idtac;
    lazymatch goal with
    | |- keeps _ (createBranch _ _ _ _) =>
        apply createBranch_keeps; intros ?; reflexivity
    end).
Qed.

Lemma walk_same_rng time :
  WalkSteps time (fun _ => True) (same (fun s => rng (host s))).
Proof. constructor; intros; reflexivity. Qed.

(** No handler replaces the source of random numbers. *)
Lemma handle_keeps_rng e : keeps (same (fun s => rng (host s))) (handle e).
Proof.
  destruct e; cbn [handle];
    unfold loop, advance, updateLifeStage, stageSwitch, stageUpkeep,
      regenerate, setStage, spawnSaplings, newSapling, render,
      updateSaplings, updateSawdust, updateSawTrail, updateHud,
      growthPulse, water, pointerdown, pointermove, pointerup,
      updatePointer, performSawCut, spawnSawdust, newParticle, resize;
    keeps_using ltac:(idtac;
      lazymatch goal with
      | |- keeps _ buildTree => apply buildTree_keeps_rng
      | |- keeps _ (drawTree _) =>
          apply (keeps_drawTree _ _ (walk_same_rng _));
          intros ?; reflexivity
      end).
Qed.

Lemma growthPulse_target s :
  0 <= rng (host s) (rngPos (host s)) ->
  0 <= targetGrowth (climate s) <= 1.08 ->
  targetGrowth (climate s) <= targetGrowth (climate (run growthPulse s)).
Proof.
  intros Hu Ht. unfold growthPulse.
  rewrite run_bind_gets. cbv beta zeta.
  rewrite run_bind_random, run_bind_modify, run_bind_random,
    run_bind_modify, run_bind_random.
  cbn [ret snd climate on_climate on_host targetGrowth set_targetGrowth
       set_simulatedAge].
  set (u := rng (host s) (rngPos (host s))) in *.
  assert (Hb : 0 <= pulseBoost CONFIG
                    * (0.4 + u * match lifeStage (life s) with
                                 | fruit => 1
                                 | mature => 0.7
                                 | seed => 1.2
                                 | _ => 0.5
                                 end)).
  { cbn [pulseBoost CONFIG]. destruct (lifeStage (life s)); nra. }
  revert Hb. generalize (pulseBoost CONFIG
                         * (0.4 + u * match lifeStage (life s) with
                                      | fruit => 1
                                      | mature => 0.7
                                      | seed => 1.2
                                      | _ => 0.5
                                      end)).
  intros b Hb. unfold clamp, Rmin, Rmax. repeat destruct Rle_dec; lra.
Qed.

Lemma water_target s :
  0 <= targetGrowth (climate s) <= 1.08 ->
  targetGrowth (climate s) <= targetGrowth (climate (run water s)).
Proof.
  intros Ht. unfold water.
  rewrite !run_bind_modify, run_bind_random, !run_bind_modify.
  cbn [modify snd climate on_climate on_host targetGrowth set_targetGrowth
       set_hydration set_windTarget].
  unfold clamp, Rmin, Rmax. repeat destruct Rle_dec; lra.
Qed.

(** The events other than frames. *)
Lemma quiet_rising e s :
  (forall time, e <> Frame time) ->
  climateOk s -> fair s -> risingOk s ->
  let s' := run (handle e) s in
  risingOk s'
  /\ lifeStage (life s') = lifeStage (life s)
  /\ growth (climate s') = growth (climate s)
  /\ targetGrowth (climate s) <= targetGrowth (climate s').
Proof.
  intros Hnf (Hg & Ht & Hh) Hfair Hr. cbv zeta.
  destruct (calm_parts _ _ (handle_keeps_calm e Hnf s))
    as (Hl & _ & _ & Hgr).
  assert (Htar : targetGrowth (climate s)
                 <= targetGrowth (climate (run (handle e) s))).
  { destruct e.
    - exfalso. apply (Hnf time). reflexivity.
    - cbn [handle]. apply growthPulse_target; [apply Hfair | exact Ht].
    - cbn [handle]. apply water_target. exact Ht.
    - rewrite (pointer_keeps_climate (PointerDown button point now) s). lra.
    - rewrite (pointer_keeps_climate (PointerMove point now) s). lra.
    - rewrite (pointer_keeps_climate PointerUp s). lra.
    - rewrite (pointer_keeps_climate PointerLeave s). lra.
    - cbn [handle]. rewrite (resize_keeps_climate w h s). lra. }
  revert Hl Hgr Htar. generalize (snd (handle e s)). intros s' Hl Hgr Htar.
  destruct Hr as (R1 & R2 & R3 & R4).
  unfold risingOk. rewrite Hl, Hgr.
  repeat split; try assumption. intros H. specialize (R1 H). lra.
Qed.

Lemma handle_rising e s :
  sound s -> fair s -> risingOk s ->
  let s' := run (handle e) s in
  risingOk s'
  /\ (rising (lifeStage (life s)) = true ->
      growth (climate s) <= growth (climate s')
      /\ (lifeStage (life s') <> decline ->
          targetGrowth (climate s) <= targetGrowth (climate s'))).
Proof.
  intros ((Hc & _) & _) Hfair Hr.
  assert (Hkind : (exists time, e = Frame time)
                  \/ forall time, e <> Frame time).
  { destruct e; try (right; intros t0 E; discriminate E).
    left. exists time. reflexivity. }
  destruct Hkind as [[time ->] | Hnf].
  - cbn [handle]. apply loop_rising; assumption.
  - destruct (quiet_rising e s Hnf Hc Hfair Hr) as (R' & _ & Hg & Ht).
    cbv zeta in *. split; [exact R'|]. intros _. split; [lra|].
    intros _. exact Ht.
Qed.

Lemma fair_step e s : fair (run (handle e) s) <-> fair s.
Proof.
  unfold fair. rewrite (handle_keeps_rng e s). reflexivity.
Qed.

Lemma boot_rising w h t0 random : risingOk (boot w h t0 random).
Proof.
  unfold boot, risingOk.
  rewrite (resize_keeps_life w h), (resize_keeps_climate w h).
  cbn [life climate lifeStage growth targetGrowth].
  repeat split; intros; try discriminate; lra.
Qed.

Lemma reachable_rising s : reachable s -> fair s -> risingOk s.
Proof.
  induction 1 as [w h t0 random | s e Hr IH]; intros Hfair.
  - apply boot_rising.
  - apply fair_step in Hfair.
    exact (proj1 (handle_rising e s (reachable_sound s Hr) Hfair
                    (IH Hfair))).
Qed.

Lemma resize_keeps_rng w h :
  keeps (same (fun s => rng (host s))) (resize w h).
Proof.
  unfold resize.
  keeps_using ltac:(idtac;
    lazymatch goal with
    | |- keeps _ buildTree => apply buildTree_keeps_rng
    end).
Qed.

Lemma sampleRun_fair : fair sampleRun.
Proof.
  unfold sampleRun. apply fair_step, fair_step.
  unfold fair, boot. intros n.
  rewrite (resize_keeps_rng 800 600).
  cbn [host rng]. lra.
Qed.

(** X15. The tree does not shrink before its decline.  Take a run of the
    program in which [Math.random()] returns numbers in [0, 1).  In every
    state it reaches: growth is above 0.42 in the young stage, above 0.66
    in the mature stage and above 0.82 in the fruit stage; and in the
    stages from seed to fruit growth is at most targetGrowth, no event
    lowers growth, and no event lowers targetGrowth unless it is the
    frame that enters the decline stage. *)
Theorem growth_rises_until_decline :
  forall s, reachable s -> fair s ->
    (lifeStage (life s) = young -> 0.42 < growth (climate s))
    /\ (lifeStage (life s) = mature -> 0.66 < growth (climate s))
    /\ (lifeStage (life s) = fruit -> 0.82 < growth (climate s))
    /\ (rising (lifeStage (life s)) = true ->
        growth (climate s) <= targetGrowth (climate s)
        /\ forall e,
             let s' := run (handle e) s in
             growth (climate s) <= growth (climate s')
             /\ (lifeStage (life s') <> decline ->
                 targetGrowth (climate s) <= targetGrowth (climate s'))).
Proof.
  intros s Hr Hfair.
  pose proof (reachable_rising s Hr Hfair) as Hok.
  destruct Hok as (R1 & R2 & R3 & R4).
  split; [exact R2|]. split; [exact R3|]. split; [exact R4|].
  intros Hup. split; [exact (R1 Hup)|].
  intros e.
  exact (proj2 (handle_rising e s (reachable_sound s Hr) Hfair
                  (conj R1 (conj R2 (conj R3 R4)))) Hup).
Qed.

Lemma growth_rises_until_decline_witness :
  reachable sampleRun /\ fair sampleRun
  /\ (lifeStage (life sampleRun) = fruit -> 0.82 < growth (climate sampleRun)).
Proof.
  split; [exact sampleRun_reachable|]. split; [exact sampleRun_fair|].
  destruct (growth_rises_until_decline sampleRun sampleRun_reachable
              sampleRun_fair) as (_ & _ & H & _).
  exact H.
Defined.

(** ** The fruit objects *)

Lemma ripen_fruitOk dms hyd f :
  0 <= dms -> 0 <= hyd ->
  (counted f = true -> 0.98 < ripeness f) ->
  fruitOk (fst (ripen dms hyd f))
  /\ (ripeness f <= 1.2 -> ripeness f <= ripeness (fst (ripen dms hyd f))).
Proof.
  intros Hd Hh Hc. unfold fruitOk.
  pose proof (ripen_counted dms hyd f) as Hcount.
  unfold ripen in *. cbn [fst ripeness counted] in *.
  set (v := ripeness f + dms * 0.00005 + hyd * 0.0001) in *.
  assert (Hv : ripeness f <= v) by (unfold v; nra).
  pose proof (clamp_range v 0 1.2 ltac:(lra)) as Hr.
  pose proof (clamp_cases v 0 1.2 ltac:(lra)) as Hk.
  split; [split; [exact Hr|]|].
  - rewrite Hcount. split.
    + intros [H | H]; [|lra]. specialize (Hc H).
      destruct Hk as [[K1 K2] | [[K1 K2] | [K1 K2]]]; rewrite K2; lra.
    + intros H. right. lra.
  - intros Hle.
    destruct Hk as [[K1 K2] | [[K1 K2] | [K1 K2]]]; rewrite K2; lra.
Qed.

Lemma fruitCount_range branch : (1 <= fruitCount branch <= 2)%nat.
Proof. unfold fruitCount. destruct (gtb _ 0.65); lia. Qed.

Lemma walk_same_weather time :
  WalkSteps time (fun _ => True)
    (same (fun s => (clock s, climate s))).
Proof. constructor; intros; reflexivity. Qed.

Lemma drawFruit_orchard x y branch angle time :
  keeps (carries orchard) (drawFruit x y branch angle time).
Proof.
  intros s (Hf & Hd & Hh).
  pose proof (keeps_drawFruit time (fun _ => True) _
                (walk_same_weather time) x y branch angle s) as Hk.
  unfold same in Hk.
  destruct (drawFruit_run x y branch angle time s)
    as [[_ ->] | (_ & fs & Hfs & Hnew & _ & Hother & _)];
    [exact (conj Hf (conj Hd Hh))|].
  cbv zeta in Hfs, Hnew, Hother.
  revert Hk Hnew Hother.
  generalize (snd (drawFruit x y branch angle time s)).
  intros s' Hk Hnew Hother.
  apply (f_equal fst) in Hk as Hck. apply (f_equal snd) in Hk as Hcl.
  cbn [fst snd] in Hck, Hcl.
  unfold orchard. rewrite Hck, Hcl. split; [|split; assumption].
  intros r fs' E.
  destruct (Nat.eq_dec r (br_ref branch)) as [-> | Hne].
  - rewrite Hnew in E. injection E as <-.
    assert (Hin : (1 <= List.length fs <= 2)%nat
                  /\ Forall (fun f => counted f = true -> 0.98 < ripeness f)
                       fs).
    { destruct Hfs as [Hold | (_ & Hlen & Hunc)].
      - destruct (Hf _ _ Hold) as (Hl & Hall). split; [exact Hl|].
        eapply Forall_impl; [|exact Hall]. cbv beta.
        intros f (_ & Hc) H. apply Hc. exact H.
      - split; [rewrite Hlen; apply fruitCount_range|].
        eapply Forall_impl; [|exact Hunc]. cbv beta.
        intros f Hc H. rewrite Hc in H. discriminate H. }
    destruct Hin as (Hl & Hall).
    split; [rewrite length_map; exact Hl|].
    apply Forall_map. eapply Forall_impl; [|exact Hall]. cbv beta.
    intros f Hc. exact (proj1 (ripen_fruitOk _ _ f Hd Hh Hc)).
  - rewrite (Hother r Hne) in E. exact (Hf r fs' E).
Qed.

Lemma orchard_of_parts a b :
  (forall r, fruits (heap (host b) r) = fruits (heap (host a) r)) ->
  clock b = clock a -> climate b = climate a ->
  orchard a -> orchard b.
Proof.
  intros Hh Hk Hc (Hf & Hd & Hy). unfold orchard. rewrite Hk, Hc.
  split; [|split; assumption].
  intros r fs E. rewrite Hh in E. exact (Hf r fs E).
Qed.

Lemma walk_orchard time :
  WalkUnits time (fun _ => True) (carries orchard).
Proof.
  constructor.
  - intros c s H. exact H.
  - intros sg s _ H. exact H.
  - intros ref s Hp Ht. unfold carries.
    apply orchard_of_parts; try reflexivity.
    intros r. cbn [setCell modify snd host on_host heap set_heap].
    unfold upd. destruct (Nat.eqb_spec r ref) as [-> | _]; reflexivity.
  - intros x y branch angle s _. apply drawFruit_orchard.
Qed.

Lemma drawTree_orchard time : keeps (carries orchard) (drawTree time).
Proof.
  unfold drawTree.
  keeps_step; [keeps_step|]. destruct a as [root|]; [|keeps_step].
  repeat keeps_step; try (intros s H; exact H).
  apply (units_drawBranch time (fun _ => True) _ (walk_orchard time)).
  apply Forall_forall. intros; exact I.
Qed.

Lemma render_orchard time : keeps (carries orchard) (render time).
Proof.
  unfold render, updateSaplings, updateSawdust, updateSawTrail, updateHud.
  repeat first
    [ apply drawTree_orchard | keeps_step | carries_leaf ltac:(idtac) ].
Qed.

Lemma buildTree_heap s r :
  heap (host (snd (buildTree s))) r = newCell
  \/ heap (host (snd (buildTree s))) r = heap (host s) r.
Proof.
  rewrite buildTree_unfold. unfold createBranch.
  set (s0 := on_host (set_rngPos (S (rngPos (host s))))
               (on_scene (set_branchIdCounter 0) s)).
  pose proof (createBranchFrom_allocates (maxDepth CONFIG - 0) 0
                (Rmin (width (scene s)) (height (scene s)) * 0.25) 0
                (rng (host s) (rngPos (host s)) * 1000) s0) as A.
  revert A.
  generalize (createBranchFrom (maxDepth CONFIG - 0) 0
                (Rmin (width (scene s)) (height (scene s)) * 0.25) 0
                (rng (host s) (rngPos (host s)) * 1000) s0).
  intros [t s'] A. cbn [fst snd] in A |- *.
  destruct A as (_ & _ & _ & _ & _ & H & K). cbv zeta in *.
  unfold s0 in *.
  cbn [scene host on_host on_scene nextRef heap set_rngPos
       set_branchIdCounter] in *.
  destruct (le_dec (nextRef (host s)) r) as [H1|H1];
    [destruct (lt_dec r (nextRef (host s) + nodeCount t)) as [H2|H2]|].
  - left. apply H. lia.
  - right. apply K. lia.
  - right. apply K. lia.
Qed.

Lemma buildTree_orchard : keeps (carries orchard) buildTree.
Proof.
  intros s (Hf & Hd & Hh).
  pose proof (keeps_buildTree (fun s => (clock s, climate s))
                (fun f s => eq_refl) (fun n s => eq_refl) s) as Hk.
  pose proof (buildTree_heap s) as Hheap.
  unfold same in Hk. revert Hk Hheap. generalize (snd (buildTree s)).
  intros s' Hk Hheap.
  apply (f_equal fst) in Hk as Hck. apply (f_equal snd) in Hk as Hcl.
  cbn [fst snd] in Hck, Hcl.
  unfold orchard. rewrite Hck, Hcl. split; [|split; assumption].
  intros r fs E. destruct (Hheap r) as [Hn | Hs]; rewrite ?Hn, ?Hs in E.
  - discriminate E.
  - exact (Hf r fs E).
Qed.

Lemma updateLifeStage_orchard delta :
  keeps (carries orchard) (updateLifeStage delta).
Proof.
  unfold updateLifeStage, stageSwitch, stageUpkeep, spawnSaplings,
    newSapling, regenerate, setStage.
  repeat first
    [ apply buildTree_orchard | keeps_step
    | carries_leaf ltac:(intros s (Hf & Hd & Hh); unfold orchard;
                         cbn [clock climate host on_climate on_life
                              hydration set_growth set_targetGrowth];
                         repeat split; assumption) ].
Qed.

Lemma fruitsOk_of_heap a b :
  (forall r, fruits (heap (host b) r) = fruits (heap (host a) r)) ->
  fruitsOk a -> fruitsOk b.
Proof.
  intros Hh Hf r fs E. rewrite Hh in E. exact (Hf r fs E).
Qed.

Lemma loop_orchard time s : fruitsOk s -> orchard (run (loop time) s).
Proof.
  intros Hf. rewrite loop_unfold.
  destruct (advance_run time s) as (_ & _ & Ah & _ & _ & _ & _ & Aheap & _).
  cbv zeta in Ah, Aheap.
  pose proof (advance_deltaMs time s) as Hd.
  assert (Hsw : orchard (atSwitch time s)).
  { split; [|split].
    - apply (fruitsOk_of_heap s); [|exact Hf].
      intros r. rewrite Aheap. reflexivity.
    - lra.
    - rewrite Ah. unfold Rmax. destruct Rle_dec; lra. }
  clear Ah Aheap Hd. revert Hsw. generalize (atSwitch time s).
  intros sw Hsw.
  apply render_orchard, updateLifeStage_orchard, Hsw.
Qed.

Lemma performSawCut_fruits now : keeps (carries fruitsOk) (performSawCut now).
Proof.
  intros s Hf. rewrite performSawCut_run. cbv zeta.
  destruct (isEmpty _); [exact Hf|].
  destruct (ltb _ _); [exact Hf|].
  destruct (chosen _) as [sg|]; [|exact Hf].
  destruct (chosenPoint _) as [point|]; [|exact Hf].
  pose proof (sawdust_keeps_host_heap point (afterCut now sg s)) as Hk.
  unfold same in Hk.
  apply (f_equal (fun q => fst (fst (fst (fst (fst (fst (fst q)))))))) in Hk.
  cbn [fst] in Hk.
  pose proof (afterCut_heap now sg s) as Hcut.
  revert Hk Hcut. generalize (afterCut now sg s). intros sc.
  generalize (snd ((spawnSawdust point ;;;
                    modify (on_host (set_hint hintBranchCut))) sc)).
  intros s' Hk Hcut.
  apply (fruitsOk_of_heap s); [|exact Hf].
  intros r. rewrite Hk, Hcut.
  destruct (Nat.eqb_spec r (br_ref (seg_branch sg))) as [-> | _];
    reflexivity.
Qed.

Lemma resize_fruits w h : keeps (carries fruitsOk) (resize w h).
Proof.
  intros s Hf. rewrite resize_unfold. cbv zeta.
  pose proof (buildTree_heap (on_scene (set_size w h) s)) as Hheap.
  revert Hheap. generalize (buildTree (on_scene (set_size w h) s)).
  intros [t s1] Hheap. cbn [fst snd] in *.
  intros r fs E. cbn [host on_saw on_scene] in E.
  destruct (Hheap r) as [Hn | Hs]; rewrite ?Hn, ?Hs in E.
  - discriminate E.
  - exact (Hf r fs E).
Qed.

Lemma handle_fruits e : keeps (carries fruitsOk) (handle e).
Proof.
  destruct e; cbn [handle].
  - intros s Hf. exact (proj1 (loop_orchard time s Hf)).
  - unfold growthPulse.
    repeat first [ keeps_step | carries_leaf ltac:(idtac) ].
  - unfold water.
    repeat first [ keeps_step | carries_leaf ltac:(idtac) ].
  - unfold pointerdown, updatePointer.
    repeat first
      [ apply performSawCut_fruits | keeps_step
      | carries_leaf ltac:(idtac) ].
  - unfold pointermove, updatePointer.
    repeat first
      [ apply performSawCut_fruits | keeps_step
      | carries_leaf ltac:(idtac) ].
  - unfold pointerup. keeps_step. intros s H. exact H.
  - unfold pointerup. keeps_step. intros s H. exact H.
  - apply resize_fruits.
Qed.

Lemma boot_fruits w h t0 random : fruitsOk (boot w h t0 random).
Proof.
  unfold boot. apply resize_fruits.
  intros r fs E. cbn [host heap newCell fruits] in E. discriminate E.
Qed.

(** X16. The fruit objects stay well formed.  In every state that a run
    of the program reaches, a branch object that has fruit has one or
    two, the ripeness of each is in [0, 1.2], and a fruit is marked as
    counted exactly when its ripeness is above 0.98. *)
Theorem reachable_fruits :
  forall s, reachable s ->
    forall r,
      match fruits (heap (host s) r) with
      | Some fs =>
          (1 <= List.length fs <= 2)%nat
          /\ Forall (fun f => 0 <= ripeness f <= 1.2
                              /\ (counted f = true <-> 0.98 < ripeness f))
               fs
      | None => True
      end.
Proof.
  intros s Hr.
  assert (H : fruitsOk s).
  { induction Hr as [w h t0 random | s e _ IH].
    - apply boot_fruits.
    - exact (handle_fruits e s IH). }
  intros r. destruct (fruits (heap (host s) r)) as [fs|] eqn:E; [|exact I].
  exact (H r fs E).
Qed.

(** ** Growth by depth, frame time, and the noise function *)

Lemma quotient_spec x c : 0 < c -> x / c * c = x.
Proof. intros H. field. lra. Qed.

Lemma depth_delay d :
  (d <= S (maxDepth CONFIG))%nat -> 0 <= INR d * 0.11 <= 0.88.
Proof.
  cbn [maxDepth CONFIG]. intros H. split.
  - pose proof (pos_INR d). lra.
  - apply le_INR in H. replace (INR 8) with 8 in H by (simpl; lra). lra.
Qed.

Lemma clamp01_pos q : 0 < clamp q 0 1 <-> 0 < q.
Proof. unfold clamp, Rmin, Rmax. repeat destruct Rle_dec; lra. Qed.

Lemma clamp01_one q : clamp q 0 1 = 1 <-> 1 <= q.
Proof. unfold clamp, Rmin, Rmax. repeat destruct Rle_dec; lra. Qed.

Lemma clamp_monotone v w lo hi :
  lo <= hi -> v <= w -> clamp v lo hi <= clamp w lo hi.
Proof. intros. unfold clamp, Rmin, Rmax. repeat destruct Rle_dec; lra. Qed.

(** X17. Branches appear level by level.  For a branch at a depth of at
    most maxDepth = 7, the growth progress [progressOf growth depth] is
    in [0, 1]; it is positive exactly when growth exceeds 0.11 * depth and
    equal to 1 exactly when growth is at least 1; it does not decrease
    when growth increases; while growth is at most 1 a branch is never
    further than its parent; and when a branch is past 0.55, the
    threshold at which its children are drawn, the progress of the
    children is positive. *)
Theorem progressOf_spec :
  forall (g g' : R) (d : nat),
    (d <= maxDepth CONFIG)%nat ->
    0 <= progressOf g d <= 1
    /\ (0 < progressOf g d <-> INR d * 0.11 < g)
    /\ (progressOf g d = 1 <-> 1 <= g)
    /\ (g <= g' -> progressOf g d <= progressOf g' d)
    /\ (g <= 1 -> progressOf g (S d) <= progressOf g d)
    /\ (0.55 < progressOf g d -> 0 < progressOf g (S d)).
Proof.
  intros g g' d Hd.
  assert (Hd' : (d <= S (maxDepth CONFIG))%nat) by lia.
  assert (Hs' : (S d <= S (maxDepth CONFIG))%nat) by lia.
  pose proof (depth_delay d Hd') as Ha.
  pose proof (depth_delay (S d) Hs') as Hb.
  assert (Ha7 : INR d * 0.11 <= 0.77).
  { cbn [maxDepth CONFIG] in Hd. apply le_INR in Hd.
    replace (INR 7) with 7 in Hd by (simpl; lra). lra. }
  unfold progressOf. cbn [growthDelayPerLevel CONFIG].
  rewrite S_INR in *.
  set (a := INR d * 0.11) in *.
  replace ((INR d + 1) * 0.11) with (a + 0.11) in * by (unfold a; ring).
  pose proof (quotient_spec (g - a) (1 - a) ltac:(lra)) as Q.
  pose proof (quotient_spec (g' - a) (1 - a) ltac:(lra)) as Q'.
  pose proof (quotient_spec (g - (a + 0.11)) (1 - (a + 0.11)) ltac:(lra))
    as Qs.
  set (q := (g - a) / (1 - a)) in *.
  set (q' := (g' - a) / (1 - a)) in *.
  set (qs := (g - (a + 0.11)) / (1 - (a + 0.11))) in *.
  split; [apply clamp_range; lra|].
  split; [rewrite clamp01_pos; split; intros; nra|].
  split; [rewrite clamp01_one; split; intros; nra|].
  split; [intros Hg; apply clamp_monotone; [lra | nra]|].
  clearbody q q' qs.
  split.
  - intros Hg. apply clamp_monotone; [lra|].
    assert (E : (q - qs) * ((1 - a) * (1 - (a + 0.11))) = 0.11 * (1 - g)).
    { replace ((q - qs) * ((1 - a) * (1 - (a + 0.11))))
        with (q * (1 - a) * (1 - (a + 0.11))
              - qs * (1 - (a + 0.11)) * (1 - a)) by ring.
      rewrite Q, Qs. ring. }
    assert (Hpos : 0 < (1 - a) * (1 - (a + 0.11)))
      by (apply Rmult_lt_0_compat; lra).
    assert (Hd0 : 0 <= (q - qs) * ((1 - a) * (1 - (a + 0.11)))) by lra.
    assert (0 <= q - qs); [|lra].
    apply (Rmult_le_reg_r ((1 - a) * (1 - (a + 0.11)))); [exact Hpos|].
    lra.
  - intros Hp. apply clamp01_pos.
    assert (Hq : 0.55 < q).
    { unfold clamp, Rmin, Rmax in Hp. repeat destruct Rle_dec; lra. }
    assert (Hn : 0 < g - (a + 0.11)) by nra.
    apply (Rmult_lt_reg_r (1 - (a + 0.11))); [lra|]. lra.
Qed.

Lemma progressOf_spec_witness :
  (3 <= maxDepth CONFIG)%nat
  /\ 0 <= progressOf 0.5 3 <= 1
  /\ (0 < progressOf 0.5 3 <-> INR 3 * 0.11 < 0.5).
Proof.
  assert (H : (3 <= maxDepth CONFIG)%nat) by (cbn [maxDepth CONFIG]; lia).
  split; [exact H|].
  destruct (progressOf_spec 0.5 0.5 3 H) as (H1 & H2 & _).
  exact (conj H1 H2).
Defined.

Lemma elapsed_cases time last :
  8 <= elapsed time last <= 120
  /\ (8 <= time - last <= 120 -> elapsed time last = time - last)
  /\ (time - last = 0 -> elapsed time last = 16)
  /\ (time - last <= 8 -> time - last <> 0 -> elapsed time last = 8)
  /\ (120 <= time - last -> elapsed time last = 120).
Proof.
  unfold elapsed. split; [|split; [|split; [|split]]].
  - destruct Req_dec_T; unfold Rmin, Rmax; repeat destruct Rle_dec; lra.
  - intros H. destruct Req_dec_T; unfold Rmin, Rmax;
      repeat destruct Rle_dec; lra.
  - intros H. destruct Req_dec_T as [_ | Hn]; [|contradiction].
    unfold Rmin, Rmax. repeat destruct Rle_dec; lra.
  - intros H Hne. destruct Req_dec_T as [E | _]; [contradiction|].
    unfold Rmin, Rmax. repeat destruct Rle_dec; lra.
  - intros H. destruct Req_dec_T; unfold Rmin, Rmax;
      repeat destruct Rle_dec; lra.
Qed.

(** X18. The clock of a frame.  The frame callback stores its time stamp
    in [lastTime] and leaves in [deltaMs] a step that is always in
    [8, 120]: the difference to the previous stamp when that is in
    [8, 120], 16 when the two stamps are equal, 8 when the difference is
    below 8 and not 0 (also when time runs backwards), and 120 when it is
    above 120.  [fps] becomes nine tenths of its old value plus a tenth
    of min(120, 1000 / deltaMs). *)
Theorem frame_clock :
  forall (time : R) (s : State),
    let s' := run (loop time) s in
    let d := time - lastTime (clock s) in
    lastTime (clock s') = time
    /\ 8 <= deltaMs (clock s') <= 120
    /\ (8 <= d <= 120 -> deltaMs (clock s') = d)
    /\ (d = 0 -> deltaMs (clock s') = 16)
    /\ (d <= 8 -> d <> 0 -> deltaMs (clock s') = 8)
    /\ (120 <= d -> deltaMs (clock s') = 120)
    /\ fps (clock s')
       = fps (clock s) * 0.9 + Rmin 120 (1000 / deltaMs (clock s')) * 0.1.
Proof.
  intros time s. cbv zeta. rewrite loop_unfold.
  destruct (advance_run time s) as (Hck & _). cbv zeta in Hck.
  revert Hck. generalize (atSwitch time s). intros sw Hck.
  pose proof (updateLifeStage_keeps_clock (deltaMs (clock sw)) sw) as Hk.
  unfold same in Hk. apply (f_equal fst) in Hk. cbn [fst] in Hk.
  revert Hk. generalize (snd (updateLifeStage (deltaMs (clock sw)) sw)).
  intros s2 Hk.
  destruct (render_saplings time s2) as (_ & Hr). cbv zeta in Hr.
  revert Hr. generalize (snd (render time s2)). intros s3 Hr.
  assert (Hc3 : clock s3 = clock s2)
    by exact (f_equal (fun q => fst (fst (fst q))) Hr).
  rewrite Hc3, Hk, Hck. cbn [lastTime deltaMs fps].
  destruct (elapsed_cases time (lastTime (clock s)))
    as (E1 & E2 & E3 & E4 & E5).
  repeat split; try assumption; apply E1.
Qed.

(** X19. The noise function.  [seededRandom] maps every seed into the
    closed interval [0, 1] and reaches both ends (unlike
    [Math.random()], it can return 1); it is 1/2 at seed 0; and it is
    periodic in the seed with period 2 * PI / 9341.13. *)
Theorem seededRandom_spec :
  forall seed : R,
    0 <= seededRandom seed <= 1
    /\ seededRandom 0 = 1 / 2
    /\ seededRandom (PI / 2 / 9341.13) = 1
    /\ seededRandom (- (PI / 2) / 9341.13) = 0
    /\ seededRandom (seed + 2 * PI / 9341.13) = seededRandom seed.
Proof.
  intros seed. split; [apply seededRandom_range|].
  unfold seededRandom.
  split; [rewrite Rmult_0_l, sin_0; lra|].
  split.
  { replace (PI / 2 / 9341.13 * 9341.13) with (PI / 2) by (field; lra).
    rewrite sin_PI2. lra. }
  split.
  { replace (- (PI / 2) / 9341.13 * 9341.13) with (- (PI / 2))
      by (field; lra).
    rewrite sin_neg, sin_PI2. lra. }
  replace ((seed + 2 * PI / 9341.13) * 9341.13)
    with (seed * 9341.13 + 2 * INR 1 * PI) by (simpl; field; lra).
  rewrite sin_period. reflexivity.
Qed.

(** ** The hint line *)

Lemma walk_same_saw time :
  WalkSteps time (fun _ => True) (same (fun s => active (sawState s))).
Proof. constructor; intros; reflexivity. Qed.

Lemma loop_keeps_saw time :
  keeps (same (fun s => active (sawState s))) (loop time).
Proof.
  unfold loop, advance, updateLifeStage, stageSwitch, stageUpkeep,
    regenerate, setStage, spawnSaplings, newSapling, render,
    updateSaplings, updateSawdust, updateSawTrail, updateHud.
  keeps_using ltac:(idtac;
    lazymatch goal with
    | |- keeps _ buildTree => apply keeps_buildTree; intros; reflexivity
    | |- keeps _ (drawTree _) =>
        apply (keeps_drawTree _ _ (walk_same_saw _));
        intros ?; reflexivity
    end).
Qed.

Lemma updateHud_hint s :
  let s' := run updateHud s in
  hint (host s')
  = (if active (sawState s') then hintSawActive
     else hintStage (lifeStage (life s'))).
Proof.
  cbv zeta. unfold updateHud. rewrite !run_bind_gets. reflexivity.
Qed.

(** X20. The hint after a frame.  Every frame ends by writing the hint
    line: the message of the active saw when the saw was active before
    the frame, and otherwise the hint of the life stage in which the
    frame ends.  So the messages that watering and a cut display stay
    only until the next frame. *)
Theorem frame_hint :
  forall (time : R) (s : State),
    let s' := run (loop time) s in
    hint (host s')
    = (if active (sawState s) then hintSawActive
       else hintStage (lifeStage (life s')))
    /\ hint (host s') <> hintWatered
    /\ hint (host s') <> hintBranchCut.
Proof.
  intros time s s'.
  assert (H : hint (host s')
              = (if active (sawState s) then hintSawActive
                 else hintStage (lifeStage (life s')))).
  { rewrite <- (loop_keeps_saw time s). fold s'.
    unfold s'. rewrite loop_unfold. unfold render.
    rewrite run_bind_gets. cbv beta. rewrite !run_bind.
    apply updateHud_hint. }
  split; [exact H|]. rewrite H.
  destruct (active (sawState s)); split; discriminate.
Qed.

(** ** Where saplings are planted *)

Lemma repeatM_invariant {A} (Inv : State -> Prop) (P : A -> Prop) (m : M A) :
  (forall s, Inv s -> P (fst (m s)) /\ Inv (snd (m s))) ->
  forall n s, Inv s -> Forall P (fst (repeatM n m s)).
Proof.
  intros Hm. induction n as [|n IH]; intros s Hs.
  - constructor.
  - rewrite repeatM_S. cbn [fst]. destruct (Hm s Hs) as (Hp & Hi).
    constructor; [exact Hp | exact (IH _ Hi)].
Qed.

Lemma newSapling_planted w h s :
  fair s -> width (scene s) = w -> height (scene s) = h ->
  planted w h (fst (newSapling s))
  /\ (fair (snd (newSapling s))
      /\ width (scene (snd (newSapling s))) = w
      /\ height (scene (snd (newSapling s))) = h).
Proof.
  intros Hf Hw Hh. unfold newSapling, bind, gets, Math_random, ret.
  cbn [fst snd scene host on_host rng rngPos set_rngPos].
  rewrite Hw, Hh. split; [|split; [exact Hf | split; reflexivity]].
  set (p := rngPos (host s)).
  pose proof (Hf p) as U0. pose proof (Hf (S p)) as U1.
  pose proof (Hf (S (S p))) as U2. pose proof (Hf (S (S (S p)))) as U3.
  unfold planted. cbn [sap_x sap_y sap_growth sap_phase sap_sway].
  pose proof PI_RGT_0 as Hpi.
  split; [|repeat split; try lra; try nra].
  replace (w / 2 + (rng (host s) p - 0.5) * w * 0.18 - w / 2)
    with ((rng (host s) p - 0.5) * 0.18 * w) by lra.
  rewrite Rabs_mult. apply Rmult_le_compat_r; [apply Rabs_pos|].
  apply Rabs_le. lra.
Qed.

(** [randomCount] is at most 5 and the bonus at most 3.  The bound is
    stated for draws up to 1, since [2 + u * 3] rounds to 5 at the largest
    draw below 1 (see [range_ends_in_binary64]). *)
Lemma saplingCount_le_8 u bonus :
  u <= 1 -> (bonus <= 3)%Z -> (Z.to_nat (saplingCount u bonus) <= 8)%nat.
Proof.
  intros Hu Hb. unfold saplingCount, Math_floor.
  cbn [saplingMin saplingMax CONFIG].
  set (x := 2 + u * (4 - 2 + 1) + IZR bonus).
  assert (Hx : x <= 8).
  { unfold x. apply IZR_le in Hb. lra. }
  destruct (base_Int_part x) as [Hlo _].
  assert (Hi : (Int_part x <= 8)%Z) by (apply le_IZR; lra).
  lia.
Qed.

(** X21. Where saplings are planted.  When [Math.random()] returns
    numbers in [0, 1), [spawnSaplings] plants between 2 and 8 saplings
    (at most 5 from the draw, rounding included, and at most 3 from the
    fruit bonus); each starts with growth 0.02, stands within 9% of the
    canvas width of the middle of the canvas and between 35 and 45 px
    above its bottom edge, both ends included, and has a phase in
    [0, 2 * PI) and a sway in [0.4, 1). *)
Theorem spawnSaplings_planted :
  forall s : State,
    fair s ->
    let s' := run spawnSaplings s in
    (2 <= List.length (saplings (scene s')) <= 8)%nat
    /\ Forall (planted (width (scene s)) (height (scene s)))
         (saplings (scene s')).
Proof.
  intros s Hf s'.
  destruct (spawnSaplings_run s) as (Hlen & _). cbv zeta in Hlen.
  fold s' in Hlen.
  split.
  - rewrite Hlen. split; [apply saplingCount_ge_2|].
    apply saplingCount_le_8; [apply Rlt_le, Hf|].
    unfold fruitBonusOf. lia.
  - unfold s'. rewrite spawnSaplings_unfold. cbv zeta.
    cbn [scene on_scene saplings set_saplings].
    apply (repeatM_invariant
             (fun x => fair x /\ width (scene x) = width (scene s)
                       /\ height (scene x) = height (scene s))).
    + intros x (Fx & Wx & Hx). apply newSapling_planted; assumption.
    + split; [exact Hf | split; reflexivity].
Qed.

Lemma state0_fair : fair state0.
Proof. intros n. cbn [state0 host rng]. lra. Qed.

Lemma spawnSaplings_planted_witness :
  fair state0
  /\ (2 <= List.length (saplings (scene (run spawnSaplings state0))) <= 8)%nat.
Proof.
  split; [exact state0_fair|].
  exact (proj1 (spawnSaplings_planted state0 state0_fair)).
Defined.

(** ** The pointer *)

(** X22. An idle pointer does nothing.  A press of a button other than
    the primary one leaves the state as it is; while the saw is not
    active a pointer move only records the pointer position; and once
    the button is released or the pointer has left the canvas, a move
    cuts nothing and draws no trail: the branch objects, the sawdust,
    the saw trail, the hint and the time of the last cut stay as they
    were. *)
Theorem idle_pointer :
  forall (s : State) (button : Z) (point : Point) (now : R),
    (button <> 0%Z -> run (handle (PointerDown button point now)) s = s)
    /\ (active (sawState s) = false ->
        run (handle (PointerMove point now)) s
        = on_saw (set_saw_xy (pt_x point) (pt_y point)) s)
    /\ active (sawState (run (handle PointerUp) s)) = false
    /\ active (sawState (run (handle PointerLeave) s)) = false
    /\ (forall e, e = PointerUp \/ e = PointerLeave ->
        let s' := run (handle (PointerMove point now)) (run (handle e) s) in
        heap (host s') = heap (host s)
        /\ sawdust (scene s') = sawdust (scene s)
        /\ sawTrail (scene s') = sawTrail (scene s)
        /\ hint (host s') = hint (host s)
        /\ lastCut (sawState s') = lastCut (sawState s)
        /\ saw_x (sawState s') = pt_x point
        /\ saw_y (sawState s') = pt_y point).
Proof.
  intros s button point now.
  assert (Hmove : forall x, active (sawState x) = false ->
            run (handle (PointerMove point now)) x
            = on_saw (set_saw_xy (pt_x point) (pt_y point)) x).
  { intros x Hx. cbn [handle].
    unfold pointermove, updatePointer, bind, gets, modify, when, ret.
    cbn [fst snd sawState on_saw active set_saw_xy]. rewrite Hx.
    cbn [fst snd sawState on_saw active set_saw_xy]. rewrite Hx.
    reflexivity. }
  split.
  { intros Hb. cbn [handle]. unfold pointerdown.
    destruct (Z.eqb_spec button 0) as [E | _]; [contradiction|].
    reflexivity. }
  split; [apply Hmove|]. split; [reflexivity|]. split; [reflexivity|].
  intros e He. cbv zeta.
  assert (Hup : run (handle e) s = on_saw (set_active false) s)
    by (destruct He as [-> | ->]; reflexivity).
  rewrite Hup, Hmove by reflexivity.
  repeat split.
Qed.

(** X23. Pointer coordinates.  For a canvas element shown in a rectangle
    of positive width and height, [pointerToCanvas] maps the corners of
    the rectangle to the corners of the canvas and every client position
    inside the rectangle to a point inside the canvas; when the canvas
    is shown at its own size it subtracts the position of the rectangle. *)
Theorem pointerToCanvas_inside :
  forall (clientX clientY : R) (rect : Rect) (cw ch : R),
    0 < rc_width rect -> 0 < rc_height rect -> 0 <= cw -> 0 <= ch ->
    let p := pointerToCanvas clientX clientY rect cw ch in
    (rc_left rect <= clientX <= rc_left rect + rc_width rect ->
     0 <= pt_x p <= cw)
    /\ (rc_top rect <= clientY <= rc_top rect + rc_height rect ->
        0 <= pt_y p <= ch)
    /\ pointerToCanvas (rc_left rect) (rc_top rect) rect cw ch
       = {| pt_x := 0; pt_y := 0 |}
    /\ pointerToCanvas (rc_left rect + rc_width rect)
         (rc_top rect + rc_height rect) rect cw ch
       = {| pt_x := cw; pt_y := ch |}
    /\ (rc_width rect = cw -> pt_x p = clientX - rc_left rect)
    /\ (rc_height rect = ch -> pt_y p = clientY - rc_top rect).
Proof.
  intros clientX clientY rect cw ch Hw Hh Hcw Hch p.
  unfold p, pointerToCanvas. cbn [pt_x pt_y].
  pose proof (quotient_spec (clientX - rc_left rect) (rc_width rect) Hw)
    as Qx.
  pose proof (quotient_spec (clientY - rc_top rect) (rc_height rect) Hh)
    as Qy.
  set (qx := (clientX - rc_left rect) / rc_width rect) in *.
  set (qy := (clientY - rc_top rect) / rc_height rect) in *.
  assert (Rx : rc_left rect <= clientX <= rc_left rect + rc_width rect ->
               0 <= qx <= 1).
  { intros H. split.
    - apply (Rmult_le_reg_r (rc_width rect)); [exact Hw|]. lra.
    - apply (Rmult_le_reg_r (rc_width rect)); [exact Hw|]. lra. }
  assert (Ry : rc_top rect <= clientY <= rc_top rect + rc_height rect ->
               0 <= qy <= 1).
  { intros H. split.
    - apply (Rmult_le_reg_r (rc_height rect)); [exact Hh|]. lra.
    - apply (Rmult_le_reg_r (rc_height rect)); [exact Hh|]. lra. }
  split; [intros H; specialize (Rx H); nra|].
  split; [intros H; specialize (Ry H); nra|].
  split; [f_equal; field; lra|].
  split; [f_equal; field; lra|].
  split; intros <-; lra.
Qed.

Lemma pointerToCanvas_inside_witness :
  0 <= pt_x (pointerToCanvas 110 70
               {| rc_left := 10; rc_top := 20; rc_width := 400;
                  rc_height := 300 |} 800 600) <= 800.
Proof.
  refine (proj1 (pointerToCanvas_inside 110 70
                   {| rc_left := 10; rc_top := 20; rc_width := 400;
                      rc_height := 300 |} 800 600 _ _ _ _) _);
    cbn [rc_left rc_top rc_width rc_height]; lra.
Defined.

(** ** The backdrop *)

Lemma mapM_cons {A B} (f : A -> M B) a l s :
  mapM f (a :: l) s
  = (fst (f a s) :: fst (mapM f l (snd (f a s))),
     snd (mapM f l (snd (f a s)))).
Proof.
  cbn [mapM]. unfold bind, ret. destruct (f a s) as [b s1].
  cbn [fst snd]. destruct (mapM f l s1). reflexivity.
Qed.

Lemma mapM_related {A B} (Inv : State -> Prop) (P : A -> Prop)
    (Rel : A -> B -> Prop) (f : A -> M B) :
  (forall a s, Inv s -> P a -> Rel a (fst (f a s)) /\ Inv (snd (f a s))) ->
  forall l s, Inv s -> Forall P l -> Forall2 Rel l (fst (mapM f l s)).
Proof.
  intros Hf. induction l as [|a l IH]; intros s Hs Hl.
  - constructor.
  - inversion Hl as [|? ? Ha Hl']; subst.
    rewrite mapM_cons. cbn [fst]. destruct (Hf a s Hs Ha) as (Hr & Hi).
    constructor; [exact Hr | exact (IH _ Hi Hl')].
Qed.

Lemma Forall2_right {A B} (Rel : A -> B -> Prop) (Q : B -> Prop) l l' :
  (forall a b, Rel a b -> Q b) -> Forall2 Rel l l' -> Forall Q l'.
Proof.
  intros H. induction 1 as [|a b l l' Hab _ IH]; constructor; eauto.
Qed.

Lemma Forall2_map_eq {A B C} (Rel : A -> B -> Prop) (g : A -> C)
    (g' : B -> C) l l' :
  (forall a b, Rel a b -> g' b = g a) ->
  Forall2 Rel l l' -> map g' l' = map g l.
Proof.
  intros H. induction 1 as [|a b l l' Hab _ IH]; cbn [map];
    [reflexivity|].
  rewrite (H a b Hab), IH. reflexivity.
Qed.

Lemma newCloud_inBand w s :
  0 <= w -> stage_set w s ->
  cloudInBand w (fst (newCloud s)) /\ stage_set w (snd (newCloud s)).
Proof.
  intros Hw (Hf & Hwd). unfold newCloud, bind, gets, Math_random, ret.
  cbn [fst snd scene host on_host rng rngPos set_rngPos].
  rewrite Hwd. split; [|split; [exact Hf | exact Hwd]].
  set (p := rngPos (host s)).
  pose proof (Hf p) as U0. pose proof (Hf (S (S p))) as U2.
  unfold cloudInBand. cbn [cl_x cl_speed]. repeat split; nra.
Qed.

Lemma updateCloud_inBand delta w c :
  0 <= w -> 0 <= delta ->
  cloudInBand w c -> cloudInBand w (updateCloud delta w c).
Proof.
  intros Hw Hd ((Hlo & Hhi) & Hs). unfold cloudInBand, updateCloud.
  cbn [cl_x cl_speed]. split; [|exact Hs].
  destruct (gtb _ (w + 200)) eqn:G;
    [apply gtb_true in G | apply gtb_false in G]; split; try lra; nra.
Qed.

Lemma newFirefly_inBand w s :
  stage_set w s ->
  fireflyInBand (fst (newFirefly s)) /\ stage_set w (snd (newFirefly s)).
Proof.
  intros (Hf & Hwd). unfold newFirefly, bind, Math_random, ret.
  cbn [fst snd scene host on_host rng rngPos set_rngPos].
  split; [|split; [exact Hf | exact Hwd]].
  set (p := rngPos (host s)).
  pose proof (Hf (S p)) as U1. pose proof (Hf (S (S (S p)))) as U3.
  unfold fireflyInBand. cbn [ff_y ff_speed]. repeat split; lra.
Qed.

Lemma updateFirefly_inBand delta w f s :
  0 <= delta -> stage_set w s -> fireflyInBand f ->
  fireflyInBand (fst (updateFirefly delta f s))
  /\ stage_set w (snd (updateFirefly delta f s)).
Proof.
  intros Hd (Hf & Hwd) ((Hlo & Hhi) & Hs).
  unfold updateFirefly, bind, gets, Math_random, ret. cbn [fst snd].
  destruct (ltb _ (-0.05)) eqn:L;
    [apply ltb_true in L | apply ltb_false in L]; cbn [fst snd];
    (split; [|split; [exact Hf | exact Hwd]]);
    unfold fireflyInBand; cbn [ff_y ff_speed];
    (split; [|exact Hs]).
  - lra.
  - split; [lra|].
    assert (0 <= ff_speed f * delta / 8000); [|lra].
    unfold Rdiv. apply Rmult_le_pos; [nra | lra].
Qed.

(** X24. Clouds and fireflies stay in their bands.  On a canvas of
    width [w >= 0], with [Math.random()] in [0, 1): [buildClouds] makes 6
    clouds with x in [-200, w + 200] and a speed in [10, 35], both ends
    included (rounding reaches 35, see [range_ends_in_binary64]), and
    [updateClouds] with a step [delta >= 0] keeps every cloud in that band
    (a cloud that passes w + 200 re-enters at -200);
    [createFireflies] makes fireflies with y in [-0.05, 1.1] and a speed in
    [0.2, 0.8), and [updateFireflies] keeps every firefly in that band
    (one that rises past -0.05 comes back at 1.1).  The updates neither
    add nor remove an element. *)
Theorem backdrop_bands :
  forall (s : State) (w : R),
    fair s -> width (scene s) = w -> 0 <= w ->
    (List.length (fst (buildClouds s)) = 6%nat
     /\ Forall (cloudInBand w) (fst (buildClouds s)))
    /\ (forall delta clouds,
          0 <= delta -> Forall (cloudInBand w) clouds ->
          List.length (fst (updateClouds delta clouds s))
          = List.length clouds
          /\ Forall (cloudInBand w) (fst (updateClouds delta clouds s)))
    /\ (forall count,
          List.length (fst (createFireflies count s)) = count
          /\ Forall fireflyInBand (fst (createFireflies count s)))
    /\ (forall delta lights,
          0 <= delta -> Forall fireflyInBand lights ->
          List.length (fst (updateFireflies delta lights s))
          = List.length lights
          /\ Forall fireflyInBand (fst (updateFireflies delta lights s))).
Proof.
  intros s w Hf Hwd Hw.
  assert (Hs : stage_set w s) by (split; assumption).
  split; [|split; [|split]].
  - split; [apply repeatM_length|].
    apply (repeatM_invariant (stage_set w)); [|exact Hs].
    intros x Hx. apply newCloud_inBand; assumption.
  - intros delta clouds Hd Hc. unfold updateClouds, bind, gets, ret.
    cbn [fst snd]. rewrite Hwd. split; [apply length_map|].
    apply Forall_map. eapply Forall_impl; [|exact Hc]. cbv beta.
    intros c. apply updateCloud_inBand; assumption.
  - intros count. split; [apply repeatM_length|].
    apply (repeatM_invariant (stage_set w)); [|exact Hs].
    intros x Hx. apply (newFirefly_inBand w). exact Hx.
  - intros delta lights Hd Hl. split; [apply mapM_length|].
    apply (Forall2_right (fun _ b => fireflyInBand b) fireflyInBand lights);
      [intros a b H; exact H|].
    apply (mapM_related (stage_set w) fireflyInBand); [|exact Hs | exact Hl].
    intros a x Hx Ha. apply updateFirefly_inBand; assumption.
Qed.

Lemma backdrop_bands_witness :
  fair state0 /\ width (scene state0) = 800 /\ 0 <= 800
  /\ List.length (fst (buildClouds state0)) = 6%nat
  /\ Forall (cloudInBand 800) (fst (buildClouds state0)).
Proof.
  assert (Hw : 0 <= 800) by lra.
  split; [exact state0_fair|]. split; [reflexivity|]. split; [exact Hw|].
  exact (proj1 (backdrop_bands state0 800 state0_fair eq_refl Hw)).
Defined.

Lemma spawnBird_onCourse w s :
  0 <= w -> stage_set w s ->
  birdOnCourse w (fst (spawnBird s))
  /\ 0 <= bd_x (fst (spawnBird s)) <= w
  /\ 35 <= bd_speed (fst (spawnBird s)) <= 80
  /\ stage_set w (snd (spawnBird s)).
Proof.
  intros Hw (Hf & Hwd). unfold spawnBird, bind, gets, Math_random, ret.
  cbn [fst snd scene host on_host rng rngPos set_rngPos].
  rewrite Hwd.
  set (p := rngPos (host s)).
  pose proof (Hf p) as U0. pose proof (Hf (S (S p))) as U2.
  unfold birdOnCourse. cbn [bd_x bd_speed bd_direction].
  assert (Hx : 0 <= rng (host s) p * w <= w) by nra.
  split; [|split; [exact Hx | split; [lra | split; [exact Hf | exact Hwd]]]].
  split; [|lra].
  destruct (gtb _ 0.5); [left | right]; split; try reflexivity; lra.
Qed.

Lemma updateBird_unfold delta b s :
  updateBird delta b s
  = let w := width (scene s) in
    let phase := bd_phase b + delta * 0.002 in
    let x := bd_x b + bd_speed b * bd_direction b * delta * 0.0003 in
    let y := bd_y b + sin phase * bd_amplitude b * 0.02 in
    if gtb (bd_direction b) 0 && gtb x (w + 40) then
      (set_bird_course (-40) 1 (fst (spawnBird s)), snd (spawnBird s))
    else if ltb (bd_direction b) 0 && ltb x (-40) then
      (set_bird_course (w + 40) (-1) (fst (spawnBird s)), snd (spawnBird s))
    else
      ({| bd_x := x; bd_y := y; bd_speed := bd_speed b;
          bd_direction := bd_direction b;
          bd_amplitude := bd_amplitude b;
          bd_phase := phase; bd_layer := bd_layer b |}, s).
Proof.
  cbv zeta. unfold updateBird. unfold bind at 1, gets at 1.
  destruct (gtb (bd_direction b) 0 && gtb _ (width (scene s) + 40)).
  - unfold bind, ret. destruct (spawnBird s). reflexivity.
  - destruct (ltb (bd_direction b) 0 && ltb _ (-40)).
    + unfold bind, ret. destruct (spawnBird s). reflexivity.
    + reflexivity.
Qed.

Lemma updateBird_onCourse delta w b s :
  0 <= w -> 0 <= delta -> stage_set w s -> birdOnCourse w b ->
  (birdOnCourse w (fst (updateBird delta b s))
   /\ bd_direction (fst (updateBird delta b s)) = bd_direction b)
  /\ stage_set w (snd (updateBird delta b s)).
Proof.
  intros Hw Hd Hs (Hc & Hv). pose proof Hs as (Hf & Hwd).
  rewrite updateBird_unfold. cbv zeta. rewrite Hwd.
  destruct (spawnBird_onCourse w s Hw Hs) as (_ & _ & Sv & Ss).
  revert Sv Ss. generalize (spawnBird s). intros [nb s1].
  cbn [fst snd]. intros Sv Ss.
  destruct Hc as [(Hdir & Hx) | (Hdir & Hx)]; rewrite Hdir.
  - replace (gtb 1 0) with true by (symmetry; apply gtb_true; lra).
    replace (ltb 1 0) with false by (symmetry; apply ltb_false; lra).
    cbn [andb].
    destruct (gtb _ (w + 40)) eqn:G;
      [apply gtb_true in G | apply gtb_false in G];
      cbn [fst snd]; (split; [|assumption]);
      unfold birdOnCourse, set_bird_course;
      cbn [bd_x bd_speed bd_direction];
      (split; [|reflexivity]);
      (split; [left; split; [reflexivity | lra] | assumption]).
  - replace (gtb (-1) 0) with false by (symmetry; apply gtb_false; lra).
    replace (ltb (-1) 0) with true by (symmetry; apply ltb_true; lra).
    cbn [andb].
    destruct (ltb _ (-40)) eqn:L;
      [apply ltb_true in L | apply ltb_false in L];
      cbn [fst snd]; (split; [|assumption]);
      unfold birdOnCourse, set_bird_course;
      cbn [bd_x bd_speed bd_direction];
      (split; [|reflexivity]);
      (split; [right; split; [reflexivity | lra] | assumption]).
Qed.

(** X25. A bird never turns around.  On a canvas of width [w >= 0], with
    [Math.random()] in [0, 1): every bird that [createBirds] makes flies
    right (direction 1) or left (direction -1) at a speed in [35, 80],
    both ends included (rounding reaches 80, see
    [range_ends_in_binary64]), and starts on the canvas; [updateBirds] with a step [delta >= 0] keeps
    the direction of every bird, keeps a bird flying right at or before
    w + 40 and a bird flying left at or after -40 (the bird that passes
    the end of its course is replaced by a new one that enters at the
    other end with the same direction), and neither adds nor removes a
    bird. *)
Theorem birds_keep_course :
  forall (s : State) (w : R),
    fair s -> width (scene s) = w -> 0 <= w ->
    (forall count,
       List.length (fst (createBirds count s)) = count
       /\ Forall (fun b => birdOnCourse w b /\ 0 <= bd_x b <= w)
            (fst (createBirds count s)))
    /\ (forall delta birds,
          0 <= delta -> Forall (birdOnCourse w) birds ->
          let birds' := fst (updateBirds delta birds s) in
          List.length birds' = List.length birds
          /\ Forall (birdOnCourse w) birds'
          /\ map bd_direction birds' = map bd_direction birds).
Proof.
  intros s w Hf Hwd Hw.
  assert (Hs : stage_set w s) by (split; assumption).
  split.
  - intros count. split; [apply repeatM_length|].
    apply (repeatM_invariant (stage_set w)); [|exact Hs].
    intros x Hx. destruct (spawnBird_onCourse w x Hw Hx) as (A & B & _ & C).
    exact (conj (conj A B) C).
  - intros delta birds Hd Hb. cbv zeta.
    pose proof (mapM_related (stage_set w) (birdOnCourse w)
                  (fun a b => birdOnCourse w b
                              /\ bd_direction b = bd_direction a)
                  (updateBird delta)
                  (fun a x Hx Ha => updateBird_onCourse delta w a x Hw Hd Hx Ha)
                  birds s Hs Hb) as H2.
    unfold updateBirds.
    split; [apply mapM_length|]. split.
    + apply (Forall2_right _ _ _ _ (fun a b H => proj1 H) H2).
    + apply (Forall2_map_eq _ _ _ _ _ (fun a b H => proj2 H) H2).
Qed.

Lemma birds_keep_course_witness :
  fair state0 /\ width (scene state0) = 800 /\ 0 <= 800
  /\ List.length (fst (createBirds 8 state0)) = 8%nat.
Proof.
  assert (Hw : 0 <= 800) by lra.
  split; [exact state0_fair|]. split; [reflexivity|]. split; [exact Hw|].
  exact (proj1 (proj1 (birds_keep_course state0 800 state0_fair eq_refl Hw)
                  8%nat)).
Defined.

(** ** Debris fades *)

Lemma render_debris_run time s :
  let d := deltaMs (clock s) in
  debris (run (render time) s)
  = (filter (fun particle => gtb (p_life particle) 0)
       (map (fun particle =>
               let vy := p_vy particle + 0.0004 * d in
               {| p_x := p_x particle + p_vx particle * d * 0.6;
                  p_y := p_y particle + vy * d * 0.6;
                  p_vx := p_vx particle;
                  p_vy := vy;
                  p_life := p_life particle - d * 0.0016 |})
          (sawdust (scene s))),
     filter (fun point => gtb (tr_life point) 0)
       (map (fun point =>
               {| tr_x := tr_x point; tr_y := tr_y point;
                  tr_life := tr_life point - d * 0.0028 |})
          (sawTrail (scene s)))).
Proof.
  cbv zeta. unfold render. rewrite run_bind_gets. cbv beta.
  unfold updateSaplings, updateSawdust, updateSawTrail.
  rewrite !run_bind_modify.
  match goal with
  | |- debris (snd (?m ?x)) = _ =>
      assert (K : keeps (same debris) m);
      [|rewrite (K x); reflexivity]
  end.
  unfold updateHud.
  keeps_using ltac:(idtac;
    lazymatch goal with
    | |- keeps _ (drawTree _) =>
        apply (keeps_drawTree time _ (walk_same_debris time));
        intros ?; reflexivity
    end).
Qed.

Lemma loop_fading time bd bt s :
  fading bd bt s ->
  fading (bd - 0.0128) (bt - 0.0224) (run (loop time) s)
  /\ glowing (run (loop time) s).
Proof.
  intros (Hd & Ht). rewrite loop_unfold.
  destruct (advance_run time s) as (_ & _ & _ & _ & _ & Hsc & _).
  cbv zeta in Hsc.
  pose proof (advance_deltaMs time s) as Hdm.
  revert Hsc Hdm. generalize (atSwitch time s). intros sw Hsc Hdm.
  pose proof (updateLifeStage_keeps_debris (deltaMs (clock sw)) sw) as Hk.
  pose proof (updateLifeStage_keeps_clock (deltaMs (clock sw)) sw) as Hc.
  unfold same in Hk, Hc. apply (f_equal fst) in Hc. cbn [fst] in Hc.
  revert Hk Hc. generalize (snd (updateLifeStage (deltaMs (clock sw)) sw)).
  intros s2 Hk Hc.
  pose proof (render_debris_run time s2) as Hr. cbv zeta in Hr.
  revert Hr. generalize (snd (render time s2)). intros s3 Hr.
  apply (f_equal fst) in Hk as Hk1. apply (f_equal snd) in Hk as Hk2.
  apply (f_equal fst) in Hr as Hr1. apply (f_equal snd) in Hr as Hr2.
  unfold debris in Hk1, Hk2, Hr1, Hr2. cbn [fst snd] in Hk1, Hk2, Hr1, Hr2.
  rewrite Hk1, Hc, Hsc in Hr1. rewrite Hk2, Hc, Hsc in Hr2.
  unfold fading, glowing. rewrite Hr1, Hr2.
  assert (Dust : forall p,
            In p (filter (fun particle => gtb (p_life particle) 0)
                    (map (fun particle =>
                            let vy :=
                              p_vy particle + 0.0004 * deltaMs (clock sw) in
                            {| p_x := p_x particle
                                      + p_vx particle * deltaMs (clock sw)
                                        * 0.6;
                               p_y := p_y particle
                                      + vy * deltaMs (clock sw) * 0.6;
                               p_vx := p_vx particle;
                               p_vy := vy;
                               p_life := p_life particle
                                         - deltaMs (clock sw) * 0.0016 |})
                       (sawdust (scene s)))) ->
            0 < p_life p <= bd - 0.0128).
  { intros p Hp. apply filter_In in Hp. destruct Hp as [Hin Hpos].
    apply gtb_true in Hpos. apply in_map_iff in Hin.
    destruct Hin as (q & <- & Hq).
    rewrite Forall_forall in Hd. specialize (Hd q Hq).
    cbn [p_life] in *. lra. }
  assert (Trail : forall p,
            In p (filter (fun point => gtb (tr_life point) 0)
                    (map (fun point =>
                            {| tr_x := tr_x point; tr_y := tr_y point;
                               tr_life := tr_life point
                                          - deltaMs (clock sw) * 0.0028 |})
                       (sawTrail (scene s)))) ->
            0 < tr_life p <= bt - 0.0224).
  { intros p Hp. apply filter_In in Hp. destruct Hp as [Hin Hpos].
    apply gtb_true in Hpos. apply in_map_iff in Hin.
    destruct Hin as (q & <- & Hq).
    rewrite Forall_forall in Ht. specialize (Ht q Hq).
    cbn [tr_life] in *. lra. }
  repeat split; apply Forall_forall; intros p Hp;
    first [ apply (Dust p Hp) | apply (Trail p Hp) ].
Qed.

Lemma runFrames_fading times :
  forall bd bt s,
    fading bd bt s ->
    fading (bd - INR (List.length times) * 0.0128)
      (bt - INR (List.length times) * 0.0224) (runFrames times s)
    /\ (times <> [] -> glowing (runFrames times s)).
Proof.
  induction times as [|time times IH]; intros bd bt s Hf.
  - cbn [runFrames fold_left List.length INR].
    rewrite !Rmult_0_l, !Rminus_0_r. split; [exact Hf|].
    intros H. contradiction.
  - destruct (loop_fading time bd bt s Hf) as (Hf1 & Hg1).
    destruct (IH _ _ _ Hf1) as (Hf2 & Hg2).
    change (runFrames (time :: times) s)
      with (runFrames times (run (loop time) s)).
    split.
    + cbn [List.length]. rewrite S_INR.
      replace (bd - (INR (List.length times) + 1) * 0.0128)
        with (bd - 0.0128 - INR (List.length times) * 0.0128) by ring.
      replace (bt - (INR (List.length times) + 1) * 0.0224)
        with (bt - 0.0224 - INR (List.length times) * 0.0224) by ring.
      exact Hf2.
    + intros _. destruct times as [|t2 times']; [exact Hg1|].
      apply Hg2. discriminate.
Qed.

(** X26. Debris fades.  In a run of frames with no other event in
    between, starting from a state in which no sawdust particle and no
    trail point has a life above 1 (as in every state the program
    reaches), the sawdust is gone after 79 frames and the trail of the
    saw after 45, whatever the time stamps of the frames: each frame
    takes at least 8 ms of life. *)
Theorem debris_clears :
  forall (times : list R) (s : State),
    Forall (fun particle => p_life particle <= 1) (sawdust (scene s)) ->
    Forall (fun point => tr_life point <= 1) (sawTrail (scene s)) ->
    let s' := runFrames times s in
    ((79 <= List.length times)%nat -> sawdust (scene s') = [])
    /\ ((45 <= List.length times)%nat -> sawTrail (scene s') = []).
Proof.
  intros times s Hd Ht s'.
  destruct (runFrames_fading times 1 1 s (conj Hd Ht)) as ((Fd & Ft) & Hg).
  fold s' in Fd, Ft, Hg.
  split; intros Hn.
  - assert (Hne : times <> []) by (destruct times; [cbn in Hn; lia | discriminate]).
    destruct (Hg Hne) as (Gd & _).
    apply le_INR in Hn. replace (INR 79) with 79 in Hn by (simpl; lra).
    destruct (sawdust (scene s')) as [|p l]; [reflexivity|].
    inversion Fd; subst. inversion Gd; subst. lra.
  - assert (Hne : times <> []) by (destruct times; [cbn in Hn; lia | discriminate]).
    destruct (Hg Hne) as (_ & Gt).
    apply le_INR in Hn. replace (INR 45) with 45 in Hn by (simpl; lra).
    destruct (sawTrail (scene s')) as [|p l]; [reflexivity|].
    inversion Ft; subst. inversion Gt; subst. lra.
Qed.

Lemma debris_clears_witness :
  let s := run (performSawCut 1000) sawReady in
  Forall (fun particle => p_life particle <= 1) (sawdust (scene s))
  /\ Forall (fun point => tr_life point <= 1) (sawTrail (scene s))
  /\ sawdust (scene (runFrames (repeat 16 79) s)) = [].
Proof.
  cbv zeta.
  assert (H0 : debrisOk sawReady).
  { unfold debrisOk. change (sawTrail (scene sawReady)) with (@nil TrailPoint).
    change (sawdust (scene sawReady)) with (@nil Particle).
    split; [cbn [List.length]; lia|]. split; constructor. }
  pose proof (performSawCut_debris 1000 sawReady H0) as (_ & H2 & H3).
  revert H2 H3. generalize (snd (performSawCut 1000 sawReady)).
  intros s H2 H3.
  assert (Hd : Forall (fun particle => p_life particle <= 1)
                 (sawdust (scene s))).
  { eapply Forall_impl; [|exact H3]. cbv beta. intros p Hp. lra. }
  assert (Ht : Forall (fun point => tr_life point <= 1)
                 (sawTrail (scene s))).
  { eapply Forall_impl; [|exact H2]. cbv beta. intros p Hp. lra. }
  split; [exact Hd|]. split; [exact Ht|].
  apply (proj1 (debris_clears (repeat 16 79) s Hd Ht)).
  rewrite repeat_length. apply Nat.le_refl.
Defined.

(** ** The soil dries *)

Lemma loop_hydration time s :
  exists dms,
    8 <= dms <= 120
    /\ hydration (climate (run (loop time) s))
       = Rmax 0 (hydration (climate s) - dms * 0.00022).
Proof.
  exists (elapsed time (lastTime (clock s))).
  split; [apply elapsed_range|].
  rewrite loop_unfold.
  destruct (advance_run time s) as (_ & _ & Hh & _). cbv zeta in Hh.
  revert Hh. generalize (atSwitch time s). intros sw Hh.
  pose proof (updateLifeStage_keeps_clock (deltaMs (clock sw)) sw) as Hk.
  unfold same in Hk. apply (f_equal snd) in Hk. cbn [snd] in Hk.
  revert Hk. generalize (snd (updateLifeStage (deltaMs (clock sw)) sw)).
  intros s2 Hk.
  destruct (render_saplings time s2) as (_ & Hr). cbv zeta in Hr.
  revert Hr. generalize (snd (render time s2)). intros s3 Hr.
  assert (Hc : climate s3 = climate s2)
    by exact (f_equal (fun q => snd (fst q)) Hr).
  rewrite Hc, Hk, Hh. reflexivity.
Qed.

Lemma runFrames_hydration times :
  forall s,
    0 <= hydration (climate s) ->
    Rmax 0 (hydration (climate s) - INR (List.length times) * 0.0264)
    <= hydration (climate (runFrames times s))
    <= Rmax 0 (hydration (climate s) - INR (List.length times) * 0.00176).
Proof.
  induction times as [|time times IH]; intros s H0.
  - cbn [runFrames fold_left List.length INR].
    rewrite !Rmult_0_l, !Rminus_0_r. unfold Rmax. destruct Rle_dec; lra.
  - change (runFrames (time :: times) s)
      with (runFrames times (run (loop time) s)).
    destruct (loop_hydration time s) as (dms & Hd & Hh).
    assert (H1 : 0 <= hydration (climate (run (loop time) s))).
    { rewrite Hh. unfold Rmax. destruct Rle_dec; lra. }
    specialize (IH _ H1). revert IH. rewrite Hh.
    generalize (hydration (climate (runFrames times (snd (loop time s))))).
    intros h' IH.
    cbn [List.length]. rewrite S_INR.
    pose proof (pos_INR (List.length times)) as Hn.
    set (n := INR (List.length times)) in *.
    unfold Rmax in *. repeat destruct Rle_dec; lra.
Qed.

(** X28. The soil dries.  In a run of frames with no other event in
    between, starting with hydration in [0, 1.5] (as in every state the
    program reaches), each frame lowers hydration by between 0.00176 and
    0.0264, down to 0 and not below; so the effect of a watering is over
    after at most 853 frames. *)
Theorem hydration_runs_dry :
  forall (times : list R) (s : State),
    0 <= hydration (climate s) <= 1.5 ->
    let s' := runFrames times s in
    let n := INR (List.length times) in
    Rmax 0 (hydration (climate s) - n * 0.0264)
    <= hydration (climate s')
    <= Rmax 0 (hydration (climate s) - n * 0.00176)
    /\ ((853 <= List.length times)%nat -> hydration (climate s') = 0).
Proof.
  intros times s [H0 H1]. cbv zeta.
  pose proof (runFrames_hydration times s H0) as [Hlo Hhi].
  split; [exact (conj Hlo Hhi)|].
  intros Hn. apply le_INR in Hn.
  replace (INR 853) with 853 in Hn by (rewrite INR_IZR_INZ; reflexivity).
  revert Hlo Hhi. unfold Rmax. repeat destruct Rle_dec; lra.
Qed.

Lemma hydration_runs_dry_witness :
  0 <= hydration (climate wateredBoot) <= 1.5
  /\ hydration (climate (runFrames (repeat 16 853) wateredBoot)) = 0.
Proof.
  assert (Hr : reachable wateredBoot)
    by (unfold wateredBoot; apply reach_step, reach_boot).
  destruct (reachable_sound _ Hr)
    as (((_ & _ & Hh0) & _) & (Hh1 & _) & _).
  split; [exact (conj Hh0 Hh1)|].
  apply (proj2 (hydration_runs_dry (repeat 16 853) wateredBoot
                  (conj Hh0 Hh1))).
  rewrite repeat_length. apply Nat.le_refl.
Defined.

(** ** The length of a recorded segment *)

Section Shapes.
Context (time : R) (rel : State -> State -> Prop) `{!PreOrder rel}.
Hypothesis shapes : WalkShapes time rel.

Lemma shapes_drawTip forEachChild branch angle endX endY progress :
  (forall angle endX endY, keeps rel (forEachChild angle endX endY)) ->
  keeps rel (drawTip forEachChild branch time angle endX endY progress).
Proof.
  intros Hfe. unfold drawTip, drawLeaf, drawBud.
  repeat first
    [ lazymatch goal with
      | |- keeps _ (emit _) => intros s; apply (wh_emit _ _ shapes)
      | |- keeps _ (drawFruit _ _ _ _ _) =>
          intros s; apply (wh_fruit _ _ shapes)
      | |- keeps _ (forEachChild _ _ _) => apply Hfe
      end
    | keeps_step ].
Qed.

Lemma shapes_drawLimb forEachChild branch startX startY angle progress s s0 :
  (forall angle endX endY, keeps rel (forEachChild angle endX endY)) ->
  growth (climate s) = growth (climate s0) ->
  let len := drawnLength (growth (climate s0)) branch in
  rel s (run (drawLimb forEachChild branch time startX startY angle
                (startX + sin angle * len) (startY - cos angle * len)
                progress) s).
Proof.
  intros Hfe Hg len. unfold drawLimb.
  rewrite run_bind.
  match goal with
  | |- rel s (snd (?k (snd (emit ?c s)))) =>
      transitivity (snd (emit c s)); [apply (wh_emit _ _ shapes)|]
  end.
  rewrite run_bind.
  match goal with
  | |- rel ?s1 (snd (?k (snd (pushSegment ?sg ?s1)))) =>
      transitivity (snd (pushSegment sg s1))
  end.
  - pose proof (wh_push _ _ shapes branch startX startY angle
                  (snd (emit (StrokeLine startX startY
                                (startX + sin angle * len)
                                (startY - cos angle * len)
                                (br_baseWidth branch
                                 * (0.8 + 0.2 * (1 - progress)))) s)))
      as Hp.
    unfold segmentOf in Hp.
    cbn [emit modify snd climate on_host] in Hp. rewrite Hg in Hp.
    exact Hp.
  - apply shapes_drawTip. exact Hfe.
Qed.

Lemma shapes_drawBranchBody forEachChild branch parentAngle startX startY :
  (forall angle endX endY, keeps rel (forEachChild angle endX endY)) ->
  keeps rel
    (drawBranchBody forEachChild branch time parentAngle startX startY).
Proof.
  intros Hfe. unfold drawBranchBody.
  apply (keeps_bind_gets rel). intros s. cbv beta zeta.
  destruct (leb (progressOf (growth (climate s)) (br_depth branch)) 0);
    [reflexivity|].
  rewrite !run_bind_gets. cbv beta. unfold getCell at 1.
  rewrite run_bind_gets. cbv beta.
  set (cell := heap (host s) (br_ref branch)).
  fold (drawnLength (growth (climate s)) branch).
  destruct (pruned cell) eqn:Hp;
    [destruct (gtb time (regrowAt cell)) eqn:Ht|].
  - apply gtb_true in Ht.
    rewrite run_bind.
    transitivity (snd (setCell (br_ref branch)
                         {| pruned := false; regrowAt := regrowAt cell;
                            fruits := fruits cell |} s)).
    + apply (wh_unprune _ _ shapes); assumption.
    + apply (shapes_drawLimb forEachChild branch startX startY _ _ _ s Hfe).
      reflexivity.
  - unfold drawStub. rewrite run_bind.
    match goal with
    | |- rel s (snd (?k (snd (emit ?c s)))) =>
        transitivity (snd (emit c s)); [apply (wh_emit _ _ shapes)|]
    end.
    apply (wh_emit _ _ shapes).
  - apply (shapes_drawLimb forEachChild branch startX startY _ _ _ s Hfe).
    reflexivity.
Qed.

Lemma shapes_drawBranch :
  forall branch parentAngle startX startY,
    keeps rel (drawBranch branch time parentAngle startX startY).
Proof.
  induction branch as [branch IH] using Branch_rect'.
  intros parentAngle startX startY.
  rewrite drawBranch_unfold. apply shapes_drawBranchBody.
  intros angle endX endY. apply (keeps_forEachM rel).
  eapply Forall_impl; [|exact IH]. cbv beta. intros c Hc. apply Hc.
Qed.
End Shapes.

Lemma easeOutCubic_nonneg t : 0 <= t <= 1 -> 0 <= easeOutCubic t.
Proof.
  intros H. unfold easeOutCubic.
  assert (H1 : 0 <= (1 - t) ^ 3 <= 1).
  { split; [apply pow_le; lra|].
    replace 1 with (1 ^ 3) at 2 by ring. apply pow_incr. lra. }
  lra.
Qed.

Lemma segmentOf_long s s' branch startX startY angle :
  growth (climate s') = growth (climate s) ->
  segmentLong s' (segmentOf s branch startX startY angle).
Proof.
  intros Hg. unfold segmentLong, segmentOf, Math_hypot, drawnLength.
  cbn [x1 y1 x2 y2 seg_branch]. rewrite Hg.
  set (e := easeOutCubic (progressOf (growth (climate s)) (br_depth branch))).
  assert (He : 0 <= e).
  { apply easeOutCubic_nonneg. unfold progressOf. apply clamp_range. lra. }
  set (L := br_length branch).
  replace ((startX + sin angle * (L * e) - startX)
           * (startX + sin angle * (L * e) - startX)
           + (startY - cos angle * (L * e) - startY)
             * (startY - cos angle * (L * e) - startY))
    with ((L * e)² * ((sin angle)² + (cos angle)²))
    by (unfold Rsqr; ring).
  rewrite sin2_cos2, Rmult_1_r, sqrt_Rsqr_abs, Rabs_mult.
  rewrite (Rabs_right e) by lra. reflexivity.
Qed.

Lemma segmentsLong_nothingCut a b :
  nothingCut a b -> segmentsLong a -> segmentsLong b.
Proof.
  intros (Hs & Hg & _) H. unfold segmentsLong, segmentLong in *.
  rewrite Hs, Hg. exact H.
Qed.

Lemma walk_segmentsLong time : WalkShapes time (carries segmentsLong).
Proof.
  constructor.
  - intros c s. unfold carries. apply (segmentsLong_nothingCut s).
    repeat split. auto.
  - intros branch startX startY angle s H. unfold segmentsLong in *.
    cbn [pushSegment modify snd scene on_scene branchSegments
         set_branchSegments].
    apply Forall_app. split.
    + eapply Forall_impl; [|exact H]. cbv beta. intros sg Hsg. exact Hsg.
    + constructor; [|constructor].
      apply segmentOf_long. reflexivity.
  - intros ref s Hp Ht. unfold carries. apply (segmentsLong_nothingCut s).
    apply (ws_unprune _ _ _ (walk_nothingCut time)); assumption.
  - intros x y branch angle s. unfold carries.
    apply (segmentsLong_nothingCut s).
    apply (keeps_drawFruit time (fun _ => False) nothingCut
             (walk_nothingCut time)).
Qed.

Lemma drawTree_segmentsLong time s root :
  tree (scene s) = Some root -> segmentsLong (run (drawTree time) s).
Proof.
  intros Ht. unfold drawTree. rewrite run_bind_gets. cbv beta.
  rewrite Ht. rewrite run_bind_modify, !run_bind_gets. cbv beta.
  apply (shapes_drawBranch time _ (walk_segmentsLong time) root).
  unfold segmentsLong. cbn [scene on_scene branchSegments
                            set_branchSegments]. constructor.
Qed.

Lemma render_segmentsLong time s root :
  tree (scene (run (render time) s)) = Some root ->
  segmentsLong (run (render time) s).
Proof.
  unfold render. rewrite run_bind_gets. cbv beta. rewrite !run_bind.
  match goal with
  | |- context [snd (drawTree time ?x)] => generalize x
  end.
  intros sa Ht.
  pose proof (updateHud_keeps_scene (snd (drawTree time sa))) as Hh.
  pose proof (drawTree_keeps_tree time sa) as Hd.
  pose proof (updateHud_nothingCut (snd (drawTree time sa))) as Hc.
  unfold same in Hh, Hd.
  apply (f_equal (fun q => fst (fst q))) in Hh. cbn [fst] in Hh.
  apply (f_equal fst) in Hd. cbn [fst] in Hd.
  rewrite Hh, Hd in Ht.
  pose proof (drawTree_segmentsLong time sa root Ht) as Hs.
  revert Hc Hs. generalize (snd (drawTree time sa)). intros sb Hc Hs.
  exact (segmentsLong_nothingCut sb _ Hc Hs).
Qed.

(** X27. Segments are as long as the branches are drawn.  After the
    frame callback, whatever state it started from, every recorded
    segment has the length of its branch times the eased growth progress
    of the branch, [length * easeOutCubic(progress)], for the growth of
    the new state: the saw tests against what the frame has drawn. *)
Theorem frame_segment_lengths :
  forall (time : R) (s : State) (root : Branch),
    let s' := run (loop time) s in
    tree (scene s') = Some root ->
    Forall (fun sg =>
              Math_hypot (x2 sg - x1 sg) (y2 sg - y1 sg)
              = Rabs (br_length (seg_branch sg))
                * easeOutCubic (progressOf (growth (climate s'))
                                  (br_depth (seg_branch sg))))
      (branchSegments (scene s')).
Proof.
  intros time s root. cbv zeta. rewrite loop_unfold. intros Ht.
  exact (render_segmentsLong time _ root Ht).
Qed.

Lemma frame_segment_lengths_witness :
  exists root,
    tree (scene (run (loop 16) wateredBoot)) = Some root
    /\ Forall (fun sg =>
                 Math_hypot (x2 sg - x1 sg) (y2 sg - y1 sg)
                 = Rabs (br_length (seg_branch sg))
                   * easeOutCubic
                       (progressOf
                          (growth (climate (run (loop 16) wateredBoot)))
                          (br_depth (seg_branch sg))))
         (branchSegments (scene (run (loop 16) wateredBoot))).
Proof.
  assert (Hr : reachable wateredBoot)
    by (unfold wateredBoot; apply reach_step, reach_boot).
  destruct (reachable_sound _ (reach_step _ (Frame 16) Hr))
    as (_ & (_ & _ & _ & Htree) & _).
  change (handle (Frame 16)) with (loop 16) in Htree.
  revert Htree.
  generalize (frame_segment_lengths 16 wateredBoot).
  cbv zeta. generalize (snd (loop 16 wateredBoot)). intros s' Hthm Htree.
  destruct (tree (scene s')) as [root|]; [|contradiction].
  exists root. split; [reflexivity|]. exact (Hthm root eq_refl).
Defined.

(** ** Where rounding reaches the end of a range *)

(** Rounding to nearest is monotone, so each of these expressions is
    largest at the largest draw.  There the speed of a cloud is 35 and
    that of a bird 80, [randomCount] is 5 and a sapling on a canvas 600 px
    high stands at y = 565: the upper ends of these ranges are reached.
    The speed of a firefly and the sway of a sapling stay below 0.8 and
    below 1. *)
Section RangeEnds.
Import PrimFloat.
Local Open Scope float_scope.
#[local] Set Warnings "-inexact-float".

Lemma range_ends_in_binary64 :
  (Binary64.lastDraw <? 1) = true
  /\ Binary64.cloudSpeed Binary64.lastDraw = 35
  /\ Binary64.birdSpeed Binary64.lastDraw = 80
  /\ Binary64.randomCount Binary64.lastDraw = 5
  /\ Binary64.saplingY 600 Binary64.lastDraw = 565
  /\ (Binary64.saplingSway Binary64.lastDraw <? 1) = true
  /\ (Binary64.fireflySpeed Binary64.lastDraw <? 0.8) = true.
Proof.
  split; [|split; [|split; [|split; [|split; [|split]]]]];
    vm_compute; reflexivity.
Qed.

End RangeEnds.

(** ** Growth easing *)

Lemma easeGrowth_exact dms target g :
  8 <= dms <= 120 -> 0 <= g <= target -> target <= 1.08 ->
  clamp (dms * 0.00022) 0 0.04 = dms * 0.00022
  /\ easeGrowth dms target g
     = g + (target - g) * clamp (dms * 0.00022) 0 0.04
  /\ g <= easeGrowth dms target g <= target
  /\ target - easeGrowth dms target g <= (target - g) * 0.99824.
Proof.
  intros Hd Hg Ht.
  destruct (lerpFactor_of_elapsed dms Hd) as [Ek Hk].
  cbn [baseGrowthSpeed CONFIG] in Ek.
  unfold easeGrowth. cbn [baseGrowthSpeed CONFIG]. rewrite Ek.
  assert (Hin : g <= g + (target - g) * (dms * 0.00022) <= target) by nra.
  rewrite clamp_inside by lra.
  split; [reflexivity|]. split; [reflexivity|]. split; [exact Hin|]. nra.
Qed.

(** What a frame does to the clock and to [growth], unless it builds the
    new tree. *)
Lemma loop_eases time s :
  let s' := run (loop time) s in
  let dms := elapsed time (lastTime (clock s)) in
  deltaMs (clock s') = dms
  /\ (lifeStage (life s) <> rebirth ->
      growth (climate s')
      = easeGrowth dms (targetGrowth (climate s)) (growth (climate s))).
Proof.
  cbv zeta. rewrite loop_unfold.
  destruct (advance_run time s) as (Hck & Hg & _). cbv zeta in Hck, Hg.
  pose proof (advance_keeps_stage time s) as Hst. unfold same in Hst.
  fold (atSwitch time s) in Hst.
  revert Hck Hg Hst. generalize (atSwitch time s). intros sw Hck Hg Hst.
  pose proof (updateLifeStage_keeps_clock (deltaMs (clock sw)) sw) as Hk.
  unfold same in Hk. apply (f_equal fst) in Hk. cbn [fst] in Hk.
  destruct (updateLifeStage_climate (deltaMs (clock sw)) sw) as (Hc & _).
  cbv zeta in Hc.
  revert Hk Hc. generalize (snd (updateLifeStage (deltaMs (clock sw)) sw)).
  intros s2 Hk Hc.
  pose proof (render_keeps_climate time s2) as Hr. unfold same in Hr.
  destruct (render_saplings time s2) as (_ & Hr'). cbv zeta in Hr'.
  revert Hr Hr'. generalize (snd (render time s2)). intros s3 Hr Hr'.
  assert (Hc3 : clock s3 = clock s2)
    by exact (f_equal (fun q => fst (fst (fst q))) Hr').
  split.
  - rewrite Hc3, Hk, Hck. reflexivity.
  - intros Hne. rewrite Hr. rewrite Hst in Hc.
    destruct (Hc Hne) as (Hgrow & _). rewrite Hgrow. exact Hg.
Qed.

Lemma runFrames_app times times' s :
  runFrames (times ++ times') s = runFrames times' (runFrames times s).
Proof. unfold runFrames. apply fold_left_app. Qed.

Lemma firstn_snoc {A} (d : A) (l : list A) :
  forall k, (k < List.length l)%nat ->
            firstn (S k) l = firstn k l ++ [nth k l d].
Proof.
  induction l as [|a l IH]; intros k Hk; cbn [List.length] in Hk.
  - lia.
  - destruct k as [|k]; [reflexivity|].
    cbn [firstn nth app]. f_equal. apply IH. lia.
Qed.

Lemma afterFrames_succ times s k :
  (k < List.length times)%nat ->
  afterFrames times s (S k)
  = run (loop (nth k times 0)) (afterFrames times s k).
Proof.
  intros Hk. unfold afterFrames. rewrite (firstn_snoc 0 times k Hk).
  rewrite runFrames_app. reflexivity.
Qed.

(** While [targetGrowth] is held at [target] and no frame builds the new
    tree, [growth] stays between 0 and [target]. *)
Lemma held_growth_below times s target :
  0 <= growth (climate s) <= target -> target <= 1.08 ->
  (forall k, (k <= List.length times)%nat ->
             targetGrowth (climate (afterFrames times s k)) = target) ->
  (forall k, (k < List.length times)%nat ->
             lifeStage (life (afterFrames times s k)) <> rebirth) ->
  forall k, (k <= List.length times)%nat ->
            0 <= growth (climate (afterFrames times s k)) <= target.
Proof.
  intros Hg Ht Hheld Hstage. induction k as [|k IH]; intros Hk.
  - exact Hg.
  - assert (Hk' : (k < List.length times)%nat) by lia.
    specialize (IH ltac:(lia)).
    rewrite (afterFrames_succ times s k Hk').
    destruct (loop_eases (nth k times 0) (afterFrames times s k))
      as (_ & Hgrow). cbv zeta in Hgrow.
    rewrite (Hgrow (Hstage k Hk')), (Hheld k ltac:(lia)).
    destruct (easeGrowth_exact
                (elapsed (nth k times 0)
                   (lastTime (clock (afterFrames times s k))))
                target _ (elapsed_range _ _) IH Ht) as (_ & _ & Hb & _).
    lra.
Qed.

(** C3. Growth eases towards its target.  Take a run of frames in which
    [targetGrowth] is held at [target], with [0 <= growth <= target <=
    1.08] at the start, and in which no frame builds the new tree.  Then
    every frame of the run leaves in [deltaMs] the difference of its time
    stamp to the previous one clamped to [8, 120] (16 when the difference
    is 0), adds [(target - growth) * clamp(deltaMs * 0.00022, 0, 0.04)] to
    [growth], where the clamp never binds, and so moves [growth] up or
    leaves it where it is, never beyond [target] and never outside
    [0, 1.08].  (That [growth] moves strictly up and converges to
    [target] is true of exact arithmetic only, see
    [growth_stalls_below_target] and [easing_gap_over_reals].) *)
Theorem growth_eases_to_target :
  forall (s : State) (times : list R) (target : R),
    0 <= growth (climate s) <= target -> target <= 1.08 ->
    (forall k, (k <= List.length times)%nat ->
               targetGrowth (climate (afterFrames times s k)) = target) ->
    (forall k, (k < List.length times)%nat ->
               lifeStage (life (afterFrames times s k)) <> rebirth) ->
    forall k, (k < List.length times)%nat ->
      let before := afterFrames times s k in
      let after := afterFrames times s (S k) in
      let d := nth k times 0 - lastTime (clock before) in
      let dms := deltaMs (clock after) in
      let g := growth (climate before) in
      let g' := growth (climate after) in
      after = run (loop (nth k times 0)) before
      /\ 8 <= dms <= 120
      /\ (8 <= d <= 120 -> dms = d)
      /\ (d = 0 -> dms = 16)
      /\ (d <= 8 -> d <> 0 -> dms = 8)
      /\ (120 <= d -> dms = 120)
      /\ clamp (dms * 0.00022) 0 0.04 = dms * 0.00022
      /\ g' = g + (target - g) * clamp (dms * 0.00022) 0 0.04
      /\ g <= g' <= target
      /\ 0 <= g' <= 1.08.
Proof.
  intros s times target Hg Ht Hheld Hstage k Hk. cbv zeta.
  pose proof (held_growth_below times s target Hg Ht Hheld Hstage k
                ltac:(lia)) as Hb.
  pose proof (Hheld k ltac:(lia)) as Htar.
  pose proof (Hstage k Hk) as Hne.
  rewrite (afterFrames_succ times s k Hk).
  revert Hb Htar Hne. generalize (afterFrames times s k).
  intros a Hb Htar Hne.
  destruct (loop_eases (nth k times 0) a) as (Hd & Hgrow).
  cbv zeta in Hd, Hgrow. specialize (Hgrow Hne).
  revert Hd Hgrow. generalize (snd (loop (nth k times 0) a)).
  intros b Hd Hgrow.
  rewrite Hd, Hgrow, Htar.
  destruct (elapsed_cases (nth k times 0) (lastTime (clock a)))
    as (E1 & E2 & E3 & E4 & E5).
  destruct (easeGrowth_exact _ target _ E1 Hb Ht) as (K1 & K2 & K3 & _).
  split; [reflexivity|].
  split; [exact E1|]. split; [exact E2|]. split; [exact E3|].
  split; [exact E4|]. split; [exact E5|]. split; [exact K1|].
  split; [exact K2|]. split; [exact K3|]. lra.
Qed.

(** A frame in the seed stage of a dry tree whose target is below the
    threshold of the sprout stage: the stage, the target and the dryness
    stay. *)
Lemma seed_frame time s :
  lifeStage (life s) = seed -> hydration (climate s) = 0 ->
  targetGrowth (climate s) <= 0.18 ->
  0 <= growth (climate s) <= targetGrowth (climate s) ->
  let s' := run (loop time) s in
  lifeStage (life s') = seed
  /\ hydration (climate s') = 0
  /\ targetGrowth (climate s') = targetGrowth (climate s)
  /\ 0 <= growth (climate s') <= targetGrowth (climate s).
Proof.
  intros Hst Hh Ht Hg. cbv zeta. rewrite loop_unfold.
  destruct (advance_run time s)
    as (_ & Hg1 & Hh1 & Ht1 & Hl1 & _). cbv zeta in Hg1, Hh1, Ht1, Hl1.
  pose proof (elapsed_range time (lastTime (clock s))) as Hd.
  destruct (easeGrowth_exact _ _ _ Hd Hg ltac:(lra)) as (_ & _ & Hb & _).
  rewrite <- Hg1 in Hb. clear Hg1.
  assert (Hdry : Rmax 0 (hydration (climate s)
                         - elapsed time (lastTime (clock s)) * 0.00022) = 0).
  { rewrite Hh. apply Rmax_left. lra. }
  rewrite Hdry in Hh1, Ht1.
  replace (gtb 0 0.001) with false in Ht1
    by (symmetry; apply gtb_false; lra).
  assert (Hs1 : lifeStage (life (atSwitch time s)) = seed)
    by (rewrite Hl1; exact Hst).
  clear Hl1 Hdry.
  revert Hb Hh1 Ht1 Hs1. generalize (atSwitch time s).
  intros sw Hb Hh1 Ht1 Hs1.
  pose proof (updateLifeStage_keeps_clock (deltaMs (clock sw)) sw) as Hk.
  unfold same in Hk. apply (f_equal snd) in Hk. cbn [snd] in Hk.
  destruct (updateLifeStage_climate (deltaMs (clock sw)) sw) as (Hc & _).
  cbv zeta in Hc. specialize (Hc ltac:(rewrite Hs1; discriminate)).
  destruct Hc as (Hgrow & Htar).
  assert (Hs2 : lifeStage (life (run (updateLifeStage (deltaMs (clock sw)))
                                   sw)) = seed).
  { destruct (updateLifeStage_table (deltaMs (clock sw)) sw)
      as [Hsame | [Hedge _]].
    - apply (f_equal fst) in Hsame. cbn [stageAndTimer fst] in Hsame.
      rewrite Hsame. exact Hs1.
    - cbv zeta in Hedge. rewrite Hs1 in Hedge. exfalso. revert Hedge.
      destruct (lifeStage (life (run (updateLifeStage (deltaMs (clock sw)))
                                   sw))); cbn [tableEdge]; try tauto.
      lra. }
  specialize (Htar ltac:(rewrite Hs2; discriminate)).
  revert Hk Hgrow Htar Hs2.
  generalize (snd (updateLifeStage (deltaMs (clock sw)) sw)).
  intros s2 Hk Hgrow Htar Hs2.
  pose proof (render_keeps_climate time s2) as Hr. unfold same in Hr.
  pose proof (render_keeps_stage time s2) as Hr'. unfold same in Hr'.
  apply (f_equal fst) in Hr'. cbn [stageAndTimer fst] in Hr'.
  rewrite Hr, Hr', Hk, Hgrow, Htar, Hh1, Ht1.
  split; [exact Hs2|]. split; [reflexivity|]. split; [reflexivity|].
  lra.
Qed.

Lemma seed_frames times :
  forall s,
    lifeStage (life s) = seed -> hydration (climate s) = 0 ->
    targetGrowth (climate s) <= 0.18 ->
    0 <= growth (climate s) <= targetGrowth (climate s) ->
    lifeStage (life (runFrames times s)) = seed
    /\ targetGrowth (climate (runFrames times s)) = targetGrowth (climate s).
Proof.
  induction times as [|time times IH]; intros s Hst Hh Ht Hg.
  - split; [exact Hst | reflexivity].
  - destruct (seed_frame time s Hst Hh Ht Hg) as (A & B & C & D).
    cbv zeta in A, B, C, D. cbn [runFrames fold_left].
    fold (runFrames times (run (loop time) s)).
    revert A B C D. generalize (snd (loop time s)). intros s1 A B C D.
    destruct (IH s1 A B) as (E & F); rewrite ?C; try assumption.
    split; [exact E|]. rewrite F. exact C.
Qed.

Lemma growth_eases_to_target_witness :
  let before := afterFrames [16; 32; 48] state0 2 in
  let after := afterFrames [16; 32; 48] state0 3 in
  deltaMs (clock after) = 16
  /\ growth (climate after)
     = growth (climate before)
       + (0.08 - growth (climate before)) * clamp (16 * 0.00022) 0 0.04
  /\ growth (climate before) <= growth (climate after) <= 0.08.
Proof.
  assert (Hg : 0 <= growth (climate state0) <= 0.08)
    by (cbn [state0 climate growth]; lra).
  assert (Ht : 0.08 <= 1.08) by lra.
  assert (Hrun : forall k,
             lifeStage (life (afterFrames [16; 32; 48] state0 k)) = seed
             /\ targetGrowth (climate (afterFrames [16; 32; 48] state0 k))
                = 0.08).
  { intros k. unfold afterFrames.
    apply (seed_frames (firstn k [16; 32; 48]) state0);
      cbn [state0 life lifeStage climate hydration targetGrowth growth];
      try reflexivity; lra. }
  assert (Hheld : forall k, (k <= List.length [16; 32; 48])%nat ->
             targetGrowth (climate (afterFrames [16; 32; 48] state0 k))
             = 0.08)
    by (intros k _; apply Hrun).
  assert (Hstage : forall k, (k < List.length [16; 32; 48])%nat ->
             lifeStage (life (afterFrames [16; 32; 48] state0 k))
             <> rebirth).
  { intros k _. destruct (Hrun k) as (E & _). rewrite E. discriminate. }
  assert (Hk : (2 < List.length [16; 32; 48])%nat) by (cbn; lia).
  pose proof (growth_eases_to_target state0 [16; 32; 48] 0.08 Hg Ht Hheld
                Hstage 2%nat Hk) as H.
  cbv zeta in H. cbv zeta.
  destruct H as (Hstep & _ & Hd & _ & _ & _ & _ & Hgrow & Hmono & _).
  assert (Hlast : lastTime (clock (afterFrames [16; 32; 48] state0 2)) = 32).
  { unfold afterFrames. cbn [firstn runFrames fold_left].
    destruct (loop_eases 32 (run (loop 16) state0)) as (_ & _).
    rewrite loop_unfold.
    destruct (advance_run 32 (run (loop 16) state0)) as (Hck & _).
    cbv zeta in Hck. revert Hck.
    generalize (atSwitch 32 (run (loop 16) state0)). intros sw Hck.
    pose proof (updateLifeStage_keeps_clock (deltaMs (clock sw)) sw) as Hk2.
    unfold same in Hk2. apply (f_equal fst) in Hk2. cbn [fst] in Hk2.
    revert Hk2. generalize (snd (updateLifeStage (deltaMs (clock sw)) sw)).
    intros s2 Hk2.
    destruct (render_saplings 32 s2) as (_ & Hr). cbv zeta in Hr.
    revert Hr. generalize (snd (render 32 s2)). intros s3 Hr.
    assert (Hc3 : clock s3 = clock s2)
      by exact (f_equal (fun q => fst (fst (fst q))) Hr).
    rewrite Hc3, Hk2, Hck. reflexivity. }
  assert (Hdms : deltaMs (clock (afterFrames [16; 32; 48] state0 3)) = 16).
  { rewrite Hd; cbn [nth]; rewrite Hlast; lra. }
  split; [exact Hdms|]. rewrite Hdms in Hgrow.
  split; [exact Hgrow | exact Hmono].
Defined.

(** In exact arithmetic the same run closes at least 0.176% of the gap to
    [target] in every frame, so [growth] moves strictly up while it is
    below [target] and converges to it. *)
Lemma easing_gap_over_reals (s : State) (times : list R) (target : R) :
  0 <= growth (climate s) <= target -> target <= 1.08 ->
  (forall k, (k <= List.length times)%nat ->
             targetGrowth (climate (afterFrames times s k)) = target) ->
  (forall k, (k < List.length times)%nat ->
             lifeStage (life (afterFrames times s k)) <> rebirth) ->
  forall k, (k <= List.length times)%nat ->
    target - growth (climate (afterFrames times s k))
    <= (target - growth (climate s)) * 0.99824 ^ k.
Proof.
  intros Hg Ht Hheld Hstage. induction k as [|k IH]; intros Hk.
  - unfold afterFrames. cbn [firstn runFrames fold_left pow]. lra.
  - assert (Hk' : (k < List.length times)%nat) by lia.
    specialize (IH ltac:(lia)).
    pose proof (held_growth_below times s target Hg Ht Hheld Hstage k
                  ltac:(lia)) as Hb.
    rewrite (afterFrames_succ times s k Hk').
    destruct (loop_eases (nth k times 0) (afterFrames times s k))
      as (_ & Hgrow). cbv zeta in Hgrow.
    rewrite (Hgrow (Hstage k Hk')), (Hheld k ltac:(lia)).
    destruct (easeGrowth_exact
                (elapsed (nth k times 0)
                   (lastTime (clock (afterFrames times s k))))
                target _ (elapsed_range _ _) Hb Ht) as (_ & _ & _ & Hgap).
    cbn [pow].
    replace ((target - growth (climate s)) * (0.99824 * 0.99824 ^ k))
      with ((target - growth (climate s)) * 0.99824 ^ k * 0.99824) by ring.
    lra.
Qed.

Section Stall.
Import PrimFloat.
Local Open Scope float_scope.
#[local] Set Warnings "-inexact-float".

(** In binary64 the sum rounds back to [growth] once the gap to the
    target is small.  From the initial values [growth = 0.015] and
    [targetGrowth = 0.08], 9000 frames of 16 ms leave [growth] below the
    target, and one more frame leaves it where it is; so does a frame
    that starts from the largest number below a target of 1. *)
Lemma growth_stalls_below_target :
  (Binary64.easedGrowth 16 0.08 0.015 9000%positive <? 0.08) = true
  /\ Binary64.easeGrowth 16 0.08
       (Binary64.easedGrowth 16 0.08 0.015 9000%positive)
     = Binary64.easedGrowth 16 0.08 0.015 9000%positive
  /\ (Binary64.lastDraw <? 1) = true
  /\ Binary64.easeGrowth 16 1 Binary64.lastDraw = Binary64.lastDraw.
Proof. split; [|split; [|split]]; vm_compute; reflexivity. Qed.

End Stall.

(** ** The life cycle runs through *)

(** The stage after the [switch] statement, stage by stage. *)
Lemma stageSwitch_next delta s :
  let g := growth (climate s) in
  let timer := stageTimer (life s) in
  let s' := run (stageSwitch delta) s in
  match lifeStage (life s) with
  | seed => lifeStage (life s') = if gtb g 0.18 then sprout else seed
  | sprout => lifeStage (life s') = if gtb g 0.42 then young else sprout
  | young => lifeStage (life s') = if gtb g 0.66 then mature else young
  | mature =>
      lifeStage (life s')
      = if gtb g 0.82 && gtb timer 6000 then fruit else mature
  | fruit => timer > 32000 -> lifeStage (life s') = decline
  | decline => lifeStage (life s') = if ltb g 0.3 then seedFall else decline
  | seedFall =>
      lifeStage (life s')
      = (if gtb (regenCountdown (life s) + delta) 18000
         then rebirth else seedFall)
      /\ regenCountdown (life s') = regenCountdown (life s) + delta
  | rebirth => True
  end.
Proof.
  cbv zeta. unfold stageSwitch. rewrite !run_bind_gets. cbv beta.
  destruct (lifeStage (life s)) eqn:E.
  - destruct (gtb (growth (climate s)) 0.18).
    + rewrite run_when_true. apply setStage_stage.
    + rewrite run_when_false. exact E.
  - destruct (gtb (growth (climate s)) 0.42).
    + rewrite run_when_true. apply setStage_stage.
    + rewrite run_when_false. exact E.
  - destruct (gtb (growth (climate s)) 0.66).
    + rewrite run_when_true. apply setStage_stage.
    + rewrite run_when_false. exact E.
  - destruct (gtb (growth (climate s)) 0.82 && gtb (stageTimer (life s)) 6000).
    + rewrite run_when_true. apply setStage_stage.
    + rewrite run_when_false. exact E.
  - intros Ht.
    replace (gtb (stageTimer (life s)) 32000) with true
      by (symmetry; apply gtb_true; exact Ht).
    apply setStage_stage.
  - destruct (ltb (growth (climate s)) 0.3).
    + rewrite run_when_true. apply setStage_stage.
    + rewrite run_when_false. exact E.
  - rewrite run_bind_modify, run_bind_gets, run_bind.
    set (s1 := on_life _ s).
    assert (L1 : lifeCore s1
                 = (seedFall, stageTimer (life s),
                    regenCountdown (life s) + delta)).
    { unfold lifeCore, s1. stage_fields. rewrite E. reflexivity. }
    clearbody s1.
    set (s2 := run (when (isEmpty (saplings (scene s1))) spawnSaplings) s1).
    assert (L2 : lifeCore s2 = lifeCore s1).
    { unfold s2. destruct (isEmpty (saplings (scene s1))).
      - rewrite run_when_true.
        destruct (spawnSaplings_run s1) as (_ & _ & _ & Hcore & _).
        exact Hcore.
      - reflexivity. }
    rewrite L1 in L2. clearbody s2. clear L1 s1.
    unfold lifeCore in L2. injection L2 as Hst _ Hcd.
    rewrite run_bind_gets. cbv beta. rewrite Hcd.
    destruct (gtb (regenCountdown (life s) + delta) 18000).
    + rewrite run_when_true. split; [apply setStage_stage|].
      rewrite setStage_change by (rewrite Hst; discriminate).
      stage_fields. exact Hcd.
    + rewrite run_when_false. split; assumption.
  - exact I.
Qed.

Lemma stageUpkeep_decline delta s :
  lifeStage (life s) = decline ->
  targetGrowth (climate (run (stageUpkeep delta) s))
  = Rmax 0.24 (targetGrowth (climate s) - delta * 0.00012).
Proof.
  intros E. unfold stageUpkeep, bind, gets, modify, when, ret.
  cbn [fst snd]. rewrite E. cbn [fst snd]. stage_fields. rewrite E.
  cbn [fst snd]. reflexivity.
Qed.

Lemma tableEdge_moves g timer countdown fired saps a b :
  tableEdge g timer countdown fired saps a b -> a <> b.
Proof. destruct a, b; cbn [tableEdge]; try tauto; discriminate. Qed.

(** A frame of a dry tree, stage by stage. *)
Lemma dry_frame time s :
  hydration (climate s) = 0 ->
  let s' := run (loop time) s in
  let dms := elapsed time (lastTime (clock s)) in
  let T := targetGrowth (climate s) in
  let g' := easeGrowth dms T (growth (climate s)) in
  let tm := stageTimer (life s) + dms in
  let cd := regenCountdown (life s) + dms in
  match lifeStage (life s) with
  | seed =>
      lifeStage (life s') = (if gtb g' 0.18 then sprout else seed)
      /\ targetGrowth (climate s') = T
      /\ hydration (climate s') = 0 /\ growth (climate s') = g'
  | sprout =>
      lifeStage (life s') = (if gtb g' 0.42 then young else sprout)
      /\ targetGrowth (climate s') = T
      /\ hydration (climate s') = 0 /\ growth (climate s') = g'
  | young =>
      lifeStage (life s') = (if gtb g' 0.66 then mature else young)
      /\ targetGrowth (climate s') = T
      /\ hydration (climate s') = 0 /\ growth (climate s') = g'
  | mature =>
      lifeStage (life s')
      = (if gtb g' 0.82 && gtb tm 6000 then fruit else mature)
      /\ (lifeStage (life s') = mature -> stageTimer (life s') = tm)
      /\ (lifeStage (life s') = fruit -> stageTimer (life s') = 0)
      /\ targetGrowth (climate s') = T
      /\ hydration (climate s') = 0 /\ growth (climate s') = g'
  | fruit =>
      (lifeStage (life s') = fruit
       /\ stageTimer (life s') = tm /\ tm <= 32000
       /\ targetGrowth (climate s') = T
       \/ lifeStage (life s') = decline
          /\ targetGrowth (climate s') = Rmax 0.24 (T - dms * 0.00012))
      /\ hydration (climate s') = 0 /\ growth (climate s') = g'
  | decline =>
      lifeStage (life s') = (if ltb g' 0.3 then seedFall else decline)
      /\ targetGrowth (climate s')
         = (if ltb g' 0.3 then T else Rmax 0.24 (T - dms * 0.00012))
      /\ hydration (climate s') = 0 /\ growth (climate s') = g'
  | seedFall =>
      lifeStage (life s') = (if gtb cd 18000 then rebirth else seedFall)
      /\ regenCountdown (life s') = cd
      /\ hydration (climate s') = 0 /\ growth (climate s') = g'
  | rebirth => True
  end.
Proof.
  intros Hh. cbv zeta. rewrite loop_unfold.
  destruct (advance_run time s)
    as (Hck & Hg1 & Hh1 & Ht1 & Hl1 & _). cbv zeta in Hck, Hg1, Hh1, Ht1, Hl1.
  assert (Hdry : Rmax 0 (hydration (climate s)
                         - elapsed time (lastTime (clock s)) * 0.00022) = 0).
  { pose proof (elapsed_range time (lastTime (clock s))).
    rewrite Hh. apply Rmax_left. lra. }
  rewrite Hdry in Hh1, Ht1.
  replace (gtb 0 0.001) with false in Ht1
    by (symmetry; apply gtb_false; lra).
  apply (f_equal deltaMs) in Hck. cbn [deltaMs] in Hck.
  assert (Hs1 : lifeStage (life (atSwitch time s)) = lifeStage (life s))
    by (rewrite Hl1; reflexivity).
  assert (Htm : stageTimer (life (atSwitch time s))
                = stageTimer (life s) + elapsed time (lastTime (clock s)))
    by (rewrite Hl1; reflexivity).
  assert (Hcd : regenCountdown (life (atSwitch time s))
                = regenCountdown (life s))
    by (rewrite Hl1; reflexivity).
  clear Hl1 Hdry.
  revert Hck Hg1 Hh1 Ht1 Hs1 Htm Hcd. generalize (atSwitch time s).
  intros sw Hck Hg1 Hh1 Ht1 Hs1 Htm Hcd. rewrite Hck.
  set (dms := elapsed time (lastTime (clock s))) in *.
  unfold updateLifeStage. rewrite run_bind.
  pose proof (stageSwitch_next dms sw) as Hnext. cbv zeta in Hnext.
  pose proof (stageSwitch_table dms sw) as Htab. cbv zeta in Htab.
  destruct (stageSwitch_climate dms sw) as (Hcl & _). cbv zeta in Hcl.
  pose proof (updateLifeStage_keeps_clock dms sw) as Hk.
  unfold same, updateLifeStage in Hk. rewrite run_bind in Hk.
  apply (f_equal snd) in Hk. cbn [snd] in Hk.
  revert Hnext Htab Hcl Hk. generalize (snd (stageSwitch dms sw)).
  intros s1 Hnext Htab Hcl Hk.
  destruct (stageUpkeep_effect dms s1) as (Hst & Hcd2 & _ & Hg2).
  cbv zeta in Hst, Hcd2, Hg2.
  pose proof (stageUpkeep_target dms s1) as Hkeep.
  pose proof (stageUpkeep_decline dms s1) as Hfall.
  revert Hk Hst Hcd2 Hg2 Hkeep Hfall. generalize (snd (stageUpkeep dms s1)).
  intros s2 Hk Hst Hcd2 Hg2 Hkeep Hfall.
  destruct (render_saplings time s2) as (_ & Hr). cbv zeta in Hr.
  revert Hr. generalize (snd (render time s2)). intros s3 Hr.
  injection Hr as _ Hr1a Hr1b Hr1c Hr2 _.
  unfold stageAndTimer in Hst. injection Hst as Hst1 Hst2.
  rewrite Hr2, Hr1a, Hr1b, Hr1c, Hk, Hg2, Hst1, Hst2, Hh1.
  rewrite Hs1, Htm, Hg1 in Hnext.
  destruct (lifeStage (life s)) eqn:E.
  - assert (Hc : climate s1 = climate sw)
      by (apply Hcl; rewrite Hs1; discriminate).
    rewrite Hc, Hg1. split; [exact Hnext|].
    split; [|split; reflexivity].
    rewrite Hkeep, Hc, Ht1;
      [reflexivity | rewrite Hnext; destruct (gtb _ 0.18); discriminate].
  - assert (Hc : climate s1 = climate sw)
      by (apply Hcl; rewrite Hs1; discriminate).
    rewrite Hc, Hg1. split; [exact Hnext|].
    split; [|split; reflexivity].
    rewrite Hkeep, Hc, Ht1;
      [reflexivity | rewrite Hnext; destruct (gtb _ 0.42); discriminate].
  - assert (Hc : climate s1 = climate sw)
      by (apply Hcl; rewrite Hs1; discriminate).
    rewrite Hc, Hg1. split; [exact Hnext|].
    split; [|split; reflexivity].
    rewrite Hkeep, Hc, Ht1;
      [reflexivity | rewrite Hnext; destruct (gtb _ 0.66); discriminate].
  - assert (Hc : climate s1 = climate sw)
      by (apply Hcl; rewrite Hs1; discriminate).
    rewrite Hc, Hg1. split; [exact Hnext|]. split.
    { intros Hm. destruct Htab as [Hsame | (Hedge & _)].
      - unfold stageAndTimer in Hsame. injection Hsame as _ Ht.
        rewrite Ht. exact Htm.
      - apply tableEdge_moves in Hedge. rewrite Hs1 in Hedge.
        exfalso. apply Hedge. symmetry. exact Hm. }
    split.
    { intros Hf. destruct Htab as [Hsame | (_ & Hzero)]; [|exact Hzero].
      unfold stageAndTimer in Hsame. injection Hsame as Hs _.
      rewrite Hs, Hs1 in Hf. discriminate Hf. }
    split; [|split; reflexivity].
    rewrite Hkeep, Hc, Ht1;
      [reflexivity | rewrite Hnext; destruct (_ && _); discriminate].
  - assert (Hc : climate s1 = climate sw)
      by (apply Hcl; rewrite Hs1; discriminate).
    rewrite Hc, Hg1. split; [|split; reflexivity].
    destruct Htab as [Hsame | (Hedge & _)].
    + left. unfold stageAndTimer in Hsame. injection Hsame as Hs Ht.
      rewrite Hs, Ht, Hs1, Htm. split; [reflexivity|].
      split; [reflexivity|]. split.
      * destruct (Rle_dec (stageTimer (life s) + dms) 32000) as [Hle|Hgt];
          [exact Hle|].
        exfalso. rewrite Hnext in Hs by lra. rewrite Hs1 in Hs.
        discriminate Hs.
      * rewrite Hkeep, Hc, Ht1;
          [reflexivity | rewrite Hs, Hs1; discriminate].
    + right. rewrite Hs1 in Hedge.
      assert (Hd : lifeStage (life s1) = decline).
      { revert Hedge. destruct (lifeStage (life s1)); cbn [tableEdge];
          try tauto. }
      split; [exact Hd|]. rewrite (Hfall Hd), Hc, Ht1. reflexivity.
  - assert (Hc : climate s1 = climate sw)
      by (apply Hcl; rewrite Hs1; discriminate).
    rewrite Hc, Hg1. split; [exact Hnext|].
    split; [|split; reflexivity].
    destruct (ltb _ 0.3).
    + rewrite Hkeep, Hc, Ht1;
        [reflexivity | rewrite Hnext; discriminate].
    + rewrite (Hfall Hnext), Hc, Ht1. reflexivity.
  - assert (Hc : climate s1 = climate sw)
      by (apply Hcl; rewrite Hs1; discriminate).
    rewrite Hc, Hg1. rewrite Hcd in Hnext. destruct Hnext as (Hn1 & Hn2).
    split; [exact Hn1|]. split; [|split; reflexivity].
    rewrite Hcd2, Hn1, Hn2. destruct (gtb _ 18000); reflexivity.
  - exact I.
Qed.

Lemma ticks_succ n s : ticks (S n) s = ticks n (tick s).
Proof. unfold ticks. apply Nat.iter_succ_r. Qed.

Lemma ticks_add n m s : ticks (n + m) s = ticks m (ticks n s).
Proof.
  revert s. induction n as [|n IH]; intros s; [reflexivity|].
  rewrite Nat.add_succ_l, !ticks_succ. apply IH.
Qed.

Lemma reachable_tick s : reachable s -> reachable (tick s).
Proof. intros H. exact (reach_step s (Frame 0) H). Qed.

Lemma reachable_ticks n : forall s, reachable s -> reachable (ticks n s).
Proof.
  induction n as [|n IH]; intros s H; [exact H|].
  rewrite ticks_succ. apply IH, reachable_tick, H.
Qed.

Lemma runEvents_app l l' s :
  runEvents (l ++ l') s = runEvents l' (runEvents l s).
Proof. unfold runEvents. apply fold_left_app. Qed.

Lemma runEvents_frames n : forall s, runEvents (repeat (Frame 0) n) s = ticks n s.
Proof.
  induction n as [|n IH]; intros s; [reflexivity|].
  rewrite ticks_succ. cbn [repeat runEvents fold_left].
  exact (IH (tick s)).
Qed.

Lemma reachable_runEvents l : forall s, reachable s -> reachable (runEvents l s).
Proof.
  induction l as [|e l IH]; intros s H; [exact H|].
  cbn [runEvents fold_left]. apply (IH (run (handle e) s)).
  apply reach_step, H.
Qed.

(** *** Two ways in which a stage must end *)

Section Eventually.
Variables (P Q : State -> Prop) (mu : State -> R).

(** A quantity that every frame lowers by at least [delta] and that is
    not negative while the stage lasts: some frame of the stage is its
    last. *)
Lemma eventually_linear_last (delta : R) :
  0 < delta ->
  (forall s, P s ->
     Q (tick s)
     \/ (P (tick s) /\ mu (tick s) <= mu s - delta /\ 0 <= mu (tick s))) ->
  forall s, P s -> exists n, P (ticks n s) /\ Q (ticks (S n) s).
Proof.
  intros Hdelta Hstep.
  assert (Haux : forall n s, P s -> 0 <= mu s -> mu s < INR n * delta ->
                             exists m, P (ticks m s) /\ Q (ticks (S m) s)).
  { induction n as [|n IH]; intros s Hp H0 Hlt.
    - cbn [INR] in Hlt. lra.
    - destruct (Hstep s Hp) as [Hq | (Hp' & Hdec & H0')].
      + exists 0%nat. split; [exact Hp | exact Hq].
      + rewrite S_INR in Hlt.
        destruct (IH (tick s) Hp' H0' ltac:(nra)) as (m & Hm1 & Hm2).
        exists (S m). rewrite !ticks_succ. rewrite ticks_succ in Hm2.
        split; assumption. }
  intros s Hp.
  destruct (Hstep s Hp) as [Hq | (Hp' & _ & H0')].
  - exists 0%nat. split; [exact Hp | exact Hq].
  - destruct (archimed (mu (tick s) / delta)) as (Hup & _).
    assert (Hz : (0 <= up (mu (tick s) / delta))%Z).
    { apply le_IZR. apply Rlt_le.
      apply Rle_lt_trans with (mu (tick s) / delta); [|lra].
      apply Rmult_le_pos; [exact H0'|]. apply Rlt_le, Rinv_0_lt_compat, Hdelta. }
    destruct (Haux (Z.to_nat (up (mu (tick s) / delta))) (tick s) Hp' H0')
      as (m & Hm1 & Hm2).
    + rewrite INR_IZR_INZ, Z2Nat.id by exact Hz.
      apply (Rmult_lt_compat_r delta) in Hup; [|exact Hdelta].
      unfold Rdiv in Hup. rewrite Rmult_assoc, Rinv_l, Rmult_1_r in Hup by lra.
      lra.
    + exists (S m). rewrite !ticks_succ. rewrite ticks_succ in Hm2.
      split; assumption.
Qed.

Lemma eventually_linear (delta : R) :
  0 < delta ->
  (forall s, P s ->
     Q (tick s)
     \/ (P (tick s) /\ mu (tick s) <= mu s - delta /\ 0 <= mu (tick s))) ->
  forall s, P s -> exists n, Q (ticks n s).
Proof.
  intros Hdelta Hstep s Hp.
  destruct (eventually_linear_last delta Hdelta Hstep s Hp) as (n & _ & Hq).
  exists (S n). exact Hq.
Qed.

(** A quantity of which every frame takes at least 0.176% and that is at
    least [c] while the stage lasts. *)
Lemma eventually_geometric (c : R) :
  0 < c ->
  (forall s, P s ->
     Q (tick s)
     \/ (P (tick s) /\ mu (tick s) <= mu s * 0.99824 /\ c <= mu (tick s))) ->
  forall s, P s -> exists n, Q (ticks n s).
Proof.
  intros Hc Hstep.
  assert (Haux : forall n s, P s -> c <= mu s -> mu s * 0.99824 ^ n < c ->
                             exists m, Q (ticks m s)).
  { induction n as [|n IH]; intros s Hp H0 Hlt.
    - cbn [pow] in Hlt. lra.
    - destruct (Hstep s Hp) as [Hq | (Hp' & Hdec & H0')].
      + exists 1%nat. exact Hq.
      + cbn [pow] in Hlt.
        assert (Hpow : 0 <= 0.99824 ^ n) by (apply pow_le; lra).
        destruct (IH (tick s) Hp' H0') as (m & Hm).
        { apply Rle_lt_trans with (mu s * 0.99824 * 0.99824 ^ n); [|lra].
          apply Rmult_le_compat_r; assumption. }
        exists (S m). rewrite ticks_succ. exact Hm. }
  intros s Hp.
  destruct (Hstep s Hp) as [Hq | (Hp' & _ & H0')].
  - exists 1%nat. exact Hq.
  - destruct (pow_lt_1_zero 0.99824) with (y := c / mu (tick s))
      as (N & HN).
    { rewrite Rabs_pos_eq; lra. }
    { apply Rdiv_lt_0_compat; lra. }
    specialize (HN N (Nat.le_refl N)).
    rewrite Rabs_pos_eq in HN by (apply pow_le; lra).
    destruct (Haux N (tick s) Hp' H0') as (m & Hm).
    + apply (Rmult_lt_compat_l (mu (tick s))) in HN; [|lra].
      replace (mu (tick s) * (c / mu (tick s))) with c in HN
        by (field; lra).
      exact HN.
    + exists (S m). rewrite ticks_succ. exact Hm.
Qed.
End Eventually.

(** *** The stages in turn *)

Lemma easeGrowth_down dms target g :
  8 <= dms <= 120 -> 0 <= target <= g -> g <= 1.08 ->
  target <= easeGrowth dms target g <= g
  /\ easeGrowth dms target g - target <= (g - target) * 0.99824.
Proof.
  intros Hd Hg Ht.
  destruct (lerpFactor_of_elapsed dms Hd) as [Ek Hk].
  unfold easeGrowth. rewrite Ek.
  assert (Hin : target <= g + (target - g) * (dms * 0.00022) <= g) by nra.
  rewrite clamp_inside by lra.
  split; [exact Hin|]. nra.
Qed.

Lemma reachable_growth s : reachable s -> 0 <= growth (climate s) <= 1.08.
Proof.
  intros H. destruct (reachable_sound s H) as (((Hg & _) & _) & _).
  exact Hg.
Qed.

Lemma tick_elapsed s : 8 <= elapsed 0 (lastTime (clock s)) <= 120.
Proof. apply elapsed_range. Qed.

(** Seed, sprout and young: growth passes the threshold of the stage. *)
Lemma climb (X Y : Stage) (theta : R) :
  theta < 1.08 ->
  (forall s,
     hydration (climate s) = 0 -> lifeStage (life s) = X ->
     let g' := easeGrowth (elapsed 0 (lastTime (clock s)))
                 (targetGrowth (climate s)) (growth (climate s)) in
     lifeStage (life (tick s)) = (if gtb g' theta then Y else X)
     /\ targetGrowth (climate (tick s)) = targetGrowth (climate s)
     /\ hydration (climate (tick s)) = 0
     /\ growth (climate (tick s)) = g') ->
  forall s, primed s -> lifeStage (life s) = X ->
            exists n, primed (ticks n s) /\ lifeStage (life (ticks n s)) = Y.
Proof.
  intros Htheta Hframe s Hp Hx.
  apply (eventually_geometric
           (fun s => primed s /\ lifeStage (life s) = X)
           (fun s => primed s /\ lifeStage (life s) = Y)
           (fun s => 1.08 - growth (climate s)) (1.08 - theta));
    [lra | | split; assumption].
  clear s Hp Hx. intros s ((Hr & Hh & Ht) & Hx).
  destruct (Hframe s Hh Hx) as (Hst & Ht' & Hh' & Hg'). cbv zeta in Hst, Hg'.
  pose proof (reachable_growth s Hr) as Hg.
  destruct (easeGrowth_exact _ (targetGrowth (climate s))
              (growth (climate s)) (tick_elapsed s) ltac:(lra) ltac:(lra))
    as (_ & _ & Hb & Hgap).
  rewrite Ht in Hgap, Hb.
  assert (Hp' : primed (tick s)).
  { split; [apply reachable_tick, Hr|]. split; [exact Hh'|].
    rewrite Ht'. exact Ht. }
  rewrite Ht in Hst, Hg'.
  destruct (gtb _ theta) eqn:G.
  - left. split; assumption.
  - right. apply gtb_false in G. rewrite Hg'.
    split; [split; assumption|]. split; lra.
Qed.

Lemma seed_ends s :
  primed s -> lifeStage (life s) = seed ->
  exists n, primed (ticks n s) /\ lifeStage (life (ticks n s)) = sprout.
Proof.
  apply (climb seed sprout 0.18); [lra|]. intros x Hh Hx.
  pose proof (dry_frame 0 x Hh) as F. cbv zeta in F. rewrite Hx in F.
  exact F.
Qed.

Lemma sprout_ends s :
  primed s -> lifeStage (life s) = sprout ->
  exists n, primed (ticks n s) /\ lifeStage (life (ticks n s)) = young.
Proof.
  apply (climb sprout young 0.42); [lra|]. intros x Hh Hx.
  pose proof (dry_frame 0 x Hh) as F. cbv zeta in F. rewrite Hx in F.
  exact F.
Qed.

Lemma young_ends s :
  primed s -> lifeStage (life s) = young ->
  exists n, primed (ticks n s) /\ lifeStage (life (ticks n s)) = mature.
Proof.
  apply (climb young mature 0.66); [lra|]. intros x Hh Hx.
  pose proof (dry_frame 0 x Hh) as F. cbv zeta in F. rewrite Hx in F.
  exact F.
Qed.

(** Mature: growth passes 0.82, then the stage timer passes 6000 ms. *)
Lemma mature_grows s :
  primed s -> lifeStage (life s) = mature ->
  exists n,
    primed (ticks n s)
    /\ (lifeStage (life (ticks n s)) = fruit
        /\ stageTimer (life (ticks n s)) = 0
        \/ lifeStage (life (ticks n s)) = mature
           /\ growth (climate (ticks n s)) > 0.82).
Proof.
  intros Hp Hx.
  apply (eventually_geometric
           (fun s => primed s /\ lifeStage (life s) = mature)
           (fun s => primed s
                     /\ (lifeStage (life s) = fruit
                         /\ stageTimer (life s) = 0
                         \/ lifeStage (life s) = mature
                            /\ growth (climate s) > 0.82))
           (fun s => 1.08 - growth (climate s)) (1.08 - 0.82));
    [lra | | split; assumption].
  clear s Hp Hx. intros s ((Hr & Hh & Ht) & Hx).
  pose proof (dry_frame 0 s Hh) as F. cbv zeta in F. rewrite Hx in F.
  fold (tick s) in F. destruct F as (Hst & _ & Hzero & Ht' & Hh' & Hg').
  pose proof (reachable_growth s Hr) as Hg.
  destruct (easeGrowth_exact _ (targetGrowth (climate s))
              (growth (climate s)) (tick_elapsed s) ltac:(lra) ltac:(lra))
    as (_ & _ & Hb & Hgap).
  rewrite <- Hg' in Hgap, Hb. rewrite Ht in Hgap, Hb.
  assert (Hp' : primed (tick s)).
  { split; [apply reachable_tick, Hr|]. split; [exact Hh'|].
    rewrite Ht'. exact Ht. }
  destruct (gtb _ 0.82 && gtb _ 6000) eqn:G.
  - left. split; [exact Hp'|]. left. split; [exact Hst | exact (Hzero Hst)].
  - destruct (Rle_dec (growth (climate (tick s))) 0.82) as [Hle|Hgt].
    + right. split; [split; assumption|]. split; lra.
    + left. split; [exact Hp'|]. right. split; [exact Hst | lra].
Qed.

Lemma mature_waits s :
  primed s -> lifeStage (life s) = mature -> growth (climate s) > 0.82 ->
  exists n,
    primed (ticks n s) /\ lifeStage (life (ticks n s)) = fruit
    /\ stageTimer (life (ticks n s)) = 0.
Proof.
  intros Hp Hx Hg82.
  apply (eventually_linear
           (fun s => primed s /\ lifeStage (life s) = mature
                     /\ growth (climate s) > 0.82)
           (fun s => primed s /\ lifeStage (life s) = fruit
                     /\ stageTimer (life s) = 0)
           (fun s => 6000 - stageTimer (life s)) 8);
    [lra | | split; [exact Hp | split; assumption]].
  clear s Hp Hx Hg82. intros s ((Hr & Hh & Ht) & Hx & Hg82).
  pose proof (dry_frame 0 s Hh) as F. cbv zeta in F. rewrite Hx in F.
  fold (tick s) in F. destruct F as (Hst & Htm & Hzero & Ht' & Hh' & Hg').
  pose proof (reachable_growth s Hr) as Hg.
  pose proof (tick_elapsed s) as Hd.
  destruct (easeGrowth_exact _ (targetGrowth (climate s))
              (growth (climate s)) Hd ltac:(lra) ltac:(lra))
    as (_ & _ & Hb & _).
  rewrite <- Hg' in Hb.
  assert (Hp' : primed (tick s)).
  { split; [apply reachable_tick, Hr|]. split; [exact Hh'|].
    rewrite Ht'. exact Ht. }
  rewrite <- Hg' in Hst.
  replace (gtb (growth (climate (tick s))) 0.82) with true in Hst
    by (symmetry; apply gtb_true; lra).
  cbn [andb] in Hst.
  destruct (gtb _ 6000) eqn:G.
  - left. split; [exact Hp'|]. split; [exact Hst | exact (Hzero Hst)].
  - right. apply gtb_false in G. specialize (Htm Hst).
    split; [split; [exact Hp' | split; [exact Hst | lra]]|].
    rewrite Htm. split; lra.
Qed.

Lemma mature_ends s :
  primed s -> lifeStage (life s) = mature ->
  exists n,
    primed (ticks n s) /\ lifeStage (life (ticks n s)) = fruit
    /\ stageTimer (life (ticks n s)) = 0.
Proof.
  intros Hp Hx.
  destruct (mature_grows s Hp Hx) as (n & Hp' & [(Hf & Hz) | (Hm & Hg)]).
  - exists n. split; [exact Hp'|]. split; assumption.
  - destruct (mature_waits _ Hp' Hm Hg) as (m & Hq).
    exists (n + m)%nat. rewrite ticks_add. exact Hq.
Qed.

(** Fruit: at the latest when the stage timer passes 32000 ms. *)
Lemma fruit_ends s :
  primed s -> lifeStage (life s) = fruit ->
  exists n,
    reachable (ticks n s)
    /\ hydration (climate (ticks n s)) = 0
    /\ lifeStage (life (ticks n s)) = decline
    /\ 0.24 <= targetGrowth (climate (ticks n s)).
Proof.
  intros Hp Hx.
  apply (eventually_linear
           (fun s => primed s /\ lifeStage (life s) = fruit)
           (fun s => reachable s /\ hydration (climate s) = 0
                     /\ lifeStage (life s) = decline
                     /\ 0.24 <= targetGrowth (climate s))
           (fun s => 32000 - stageTimer (life s)) 8);
    [lra | | split; assumption].
  clear s Hp Hx. intros s ((Hr & Hh & Ht) & Hx).
  pose proof (dry_frame 0 s Hh) as F. cbv zeta in F. rewrite Hx in F.
  fold (tick s) in F.
  destruct F as ([(Hst & Htm & Hle & Ht') | (Hst & Ht')] & Hh' & _).
  - right. pose proof (tick_elapsed s) as Hd.
    split; [split; [|exact Hst]|].
    + split; [apply reachable_tick, Hr|]. split; [exact Hh'|].
      rewrite Ht'. exact Ht.
    + rewrite Htm. split; lra.
  - left. split; [apply reachable_tick, Hr|]. split; [exact Hh'|].
    split; [exact Hst|]. rewrite Ht'. apply Rmax_l.
Qed.

(** Decline: the target sinks to 0.24, then growth sinks below 0.3. *)
Lemma decline_sinks s :
  reachable s -> hydration (climate s) = 0 ->
  lifeStage (life s) = decline -> 0.24 <= targetGrowth (climate s) ->
  exists n,
    reachable (ticks n s)
    /\ hydration (climate (ticks n s)) = 0
    /\ (lifeStage (life (ticks n s)) = seedFall
        \/ lifeStage (life (ticks n s)) = decline
           /\ targetGrowth (climate (ticks n s)) = 0.24).
Proof.
  intros Hr Hh Hx Ht.
  apply (eventually_linear
           (fun s => reachable s /\ hydration (climate s) = 0
                     /\ lifeStage (life s) = decline
                     /\ 0.24 <= targetGrowth (climate s))
           (fun s => reachable s /\ hydration (climate s) = 0
                     /\ (lifeStage (life s) = seedFall
                         \/ lifeStage (life s) = decline
                            /\ targetGrowth (climate s) = 0.24))
           (fun s => targetGrowth (climate s) - 0.24) 0.00096);
    [lra | | repeat split; assumption].
  clear s Hr Hh Hx Ht. intros s (Hr & Hh & Hx & Ht).
  pose proof (dry_frame 0 s Hh) as F. cbv zeta in F. rewrite Hx in F.
  fold (tick s) in F. destruct F as (Hst & Ht' & Hh' & _).
  pose proof (tick_elapsed s) as Hd.
  pose proof (reachable_tick s Hr) as Hr'.
  destruct (ltb _ 0.3).
  - left. split; [exact Hr'|]. split; [exact Hh'|]. left. exact Hst.
  - destruct (Rle_dec (targetGrowth (climate s)
                       - elapsed 0 (lastTime (clock s)) * 0.00012) 0.24)
      as [Hle|Hgt].
    + left. split; [exact Hr'|]. split; [exact Hh'|]. right.
      split; [exact Hst|]. rewrite Ht'. apply Rmax_left. exact Hle.
    + right. rewrite Rmax_right in Ht' by lra. rewrite Ht'.
      split; [repeat split; try assumption; lra|]. split; lra.
Qed.

Lemma decline_falls s :
  reachable s -> hydration (climate s) = 0 ->
  lifeStage (life s) = decline -> targetGrowth (climate s) = 0.24 ->
  exists n,
    reachable (ticks n s)
    /\ hydration (climate (ticks n s)) = 0
    /\ lifeStage (life (ticks n s)) = seedFall.
Proof.
  intros Hr Hh Hx Ht.
  apply (eventually_geometric
           (fun s => reachable s /\ hydration (climate s) = 0
                     /\ lifeStage (life s) = decline
                     /\ targetGrowth (climate s) = 0.24)
           (fun s => reachable s /\ hydration (climate s) = 0
                     /\ lifeStage (life s) = seedFall)
           (fun s => growth (climate s) - 0.24) 0.06);
    [lra | | repeat split; assumption].
  clear s Hr Hh Hx Ht. intros s (Hr & Hh & Hx & Ht).
  pose proof (dry_frame 0 s Hh) as F. cbv zeta in F. rewrite Hx in F.
  fold (tick s) in F. destruct F as (Hst & Ht' & Hh' & Hg').
  pose proof (tick_elapsed s) as Hd.
  pose proof (reachable_tick s Hr) as Hr'.
  pose proof (reachable_growth s Hr) as Hg.
  rewrite Ht in Hg', Hst, Ht'. rewrite <- Hg' in Hst, Ht'.
  destruct (ltb (growth (climate (tick s))) 0.3) eqn:L.
  - left. repeat split; assumption.
  - right. apply ltb_false in L.
    assert (Hhigh : 0.24 <= growth (climate s)).
    { destruct (Rle_dec 0.24 (growth (climate s))) as [H|H]; [exact H|].
      exfalso.
      destruct (easeGrowth_exact _ 0.24 (growth (climate s)) Hd
                  ltac:(lra) ltac:(lra)) as (_ & _ & Hb & _).
      rewrite <- Hg' in Hb. lra. }
    destruct (easeGrowth_down _ 0.24 (growth (climate s)) Hd
                ltac:(lra) ltac:(lra)) as (_ & Hgap).
    rewrite <- Hg' in Hgap.
    split; [|split; lra].
    repeat split; try assumption.
    rewrite Ht'. apply Rmax_left. lra.
Qed.

Lemma decline_ends s :
  reachable s -> hydration (climate s) = 0 ->
  lifeStage (life s) = decline -> 0.24 <= targetGrowth (climate s) ->
  exists n,
    reachable (ticks n s)
    /\ hydration (climate (ticks n s)) = 0
    /\ lifeStage (life (ticks n s)) = seedFall.
Proof.
  intros Hr Hh Hx Ht.
  destruct (decline_sinks s Hr Hh Hx Ht)
    as (n & Hr' & Hh' & [Hs | (Hd & Ht')]).
  - exists n. repeat split; assumption.
  - destruct (decline_falls _ Hr' Hh' Hd Ht') as (m & Hq).
    exists (n + m)%nat. rewrite ticks_add. exact Hq.
Qed.

(** Seed fall: the countdown passes 18000 ms; the last frame of the
    stage starts with a countdown above 17880 ms. *)
Lemma seedFall_ends s :
  reachable s -> hydration (climate s) = 0 ->
  lifeStage (life s) = seedFall ->
  exists n,
    reachable (ticks n s)
    /\ lifeStage (life (ticks n s)) = seedFall
    /\ 17880 < regenCountdown (life (ticks n s))
    /\ lifeStage (life (ticks (S n) s)) = rebirth.
Proof.
  intros Hr Hh Hx.
  destruct (eventually_linear_last
              (fun s => reachable s /\ hydration (climate s) = 0
                        /\ lifeStage (life s) = seedFall)
              (fun s => lifeStage (life s) = rebirth)
              (fun s => 18000 - regenCountdown (life s)) 8 ltac:(lra))
    with (s := s) as (n & (Hr' & Hh' & Hx') & Hq).
  - clear s Hr Hh Hx. intros s (Hr & Hh & Hx).
    pose proof (dry_frame 0 s Hh) as F. cbv zeta in F. rewrite Hx in F.
    fold (tick s) in F. destruct F as (Hst & Hcd & Hh' & _).
    pose proof (tick_elapsed s) as Hd.
    pose proof (reachable_tick s Hr) as Hr'.
    destruct (gtb _ 18000) eqn:G.
    + left. exact Hst.
    + right. apply gtb_false in G. rewrite Hcd.
      split; [repeat split; assumption|]. split; lra.
  - repeat split; assumption.
  - exists n. split; [exact Hr'|]. split; [exact Hx'|]. split; [|exact Hq].
    pose proof (dry_frame 0 (ticks n s) Hh') as F. cbv zeta in F.
    rewrite Hx' in F. fold (tick (ticks n s)) in F.
    destruct F as (Hst & _).
    change (tick (ticks n s)) with (ticks (S n) s) in Hst.
    rewrite Hq in Hst.
    pose proof (tick_elapsed (ticks n s)) as Hd.
    destruct (gtb _ 18000) eqn:G; [|discriminate Hst].
    apply gtb_true in G. lra.
Qed.

(** *** Pulses prime the tree *)

Lemma growthPulse_boost s :
  0 <= rng (host s) (rngPos (host s)) ->
  0 <= targetGrowth (climate s) <= 1.08 ->
  let s' := run growthPulse s in
  Rmin 1.08 (targetGrowth (climate s) + 0.016) <= targetGrowth (climate s')
  /\ targetGrowth (climate s') <= 1.08
  /\ hydration (climate s') = hydration (climate s)
  /\ life s' = life s.
Proof.
  intros Hu Ht. cbv zeta. unfold growthPulse.
  rewrite run_bind_gets. cbv beta zeta.
  rewrite run_bind_random, run_bind_modify, run_bind_random,
    run_bind_modify, run_bind_random.
  cbn [ret snd climate life on_climate on_host targetGrowth hydration
       set_targetGrowth set_simulatedAge].
  set (u := rng (host s) (rngPos (host s))) in *.
  assert (Hb : 0.016 <= pulseBoost CONFIG
                        * (0.4 + u * match lifeStage (life s) with
                                     | fruit => 1
                                     | mature => 0.7
                                     | seed => 1.2
                                     | _ => 0.5
                                     end)).
  { cbn [pulseBoost CONFIG]. destruct (lifeStage (life s)); nra. }
  revert Hb. generalize (pulseBoost CONFIG
                         * (0.4 + u * match lifeStage (life s) with
                                      | fruit => 1
                                      | mature => 0.7
                                      | seed => 1.2
                                      | _ => 0.5
                                      end)).
  intros b Hb. split; [|split; [|split; reflexivity]];
    unfold clamp, Rmin, Rmax; repeat destruct Rle_dec; lra.
Qed.

Lemma pulses_prime n :
  forall s,
    reachable s -> fair s ->
    let s' := runEvents (repeat Pulse n) s in
    reachable s' /\ fair s'
    /\ Rmin 1.08 (targetGrowth (climate s) + INR n * 0.016)
       <= targetGrowth (climate s') <= 1.08
    /\ hydration (climate s') = hydration (climate s)
    /\ life s' = life s.
Proof.
  induction n as [|n IH]; intros s Hr Hf; cbv zeta.
  - cbn [repeat runEvents fold_left INR].
    destruct (reachable_sound s Hr) as (((_ & Ht & _) & _) & _).
    split; [exact Hr|]. split; [exact Hf|].
    split; [|split; reflexivity].
    unfold Rmin. destruct Rle_dec; lra.
  - cbn [repeat runEvents fold_left].
    fold (runEvents (repeat Pulse n) (run (handle Pulse) s)).
    destruct (reachable_sound s Hr) as (((_ & Ht & _) & _) & _).
    destruct (growthPulse_boost s (proj1 (Hf _)) Ht) as (B1 & B2 & B3 & B4).
    cbv zeta in B1, B2, B3, B4.
    pose proof (reach_step s Pulse Hr) as Hr1.
    pose proof (proj2 (fair_step Pulse s) Hf) as Hf1.
    cbn [handle] in Hr1, Hf1 |- *.
    revert B1 B2 B3 B4 Hr1 Hf1. generalize (snd (growthPulse s)).
    intros s1 B1 B2 B3 B4 Hr1 Hf1.
    destruct (IH s1 Hr1 Hf1) as (I1 & I2 & I3 & I4 & I5). cbv zeta in I3, I4, I5.
    split; [exact I1|]. split; [exact I2|].
    rewrite I4, I5, B3, B4. split; [|split; reflexivity].
    rewrite S_INR. split; [|lra].
    apply Rle_trans
      with (Rmin 1.08 (targetGrowth (climate s1) + INR n * 0.016));
      [|lra].
    pose proof (pos_INR n) as Hn.
    unfold Rmin in *. repeat destruct Rle_dec; lra.
Qed.

Lemma boot_fair w h t0 random :
  (forall n, 0 <= random n < 1) -> fair (boot w h t0 random).
Proof.
  intros H. unfold fair, boot. rewrite (resize_keeps_rng w h).
  cbn [host rng]. exact H.
Qed.

Lemma boot_primed w h t0 random :
  (forall n, 0 <= random n < 1) ->
  let s := runEvents (repeat Pulse 63) (boot w h t0 random) in
  primed s /\ lifeStage (life s) = seed.
Proof.
  intros Hrand. cbv zeta.
  destruct (pulses_prime 63 (boot w h t0 random)
              (reach_boot w h t0 random) (boot_fair w h t0 random Hrand))
    as (Hr & _ & (Ht1 & Ht2) & Hh & Hl).
  cbv zeta in Ht1, Ht2, Hh, Hl.
  assert (Hc : climate (boot w h t0 random)
               = {| growth := 0.015; targetGrowth := 0.08; hydration := 0;
                    wind := 0; windTarget := 0;
                    season := random 0%nat * PI * 2; simulatedAge := 0 |}).
  { unfold boot. rewrite (resize_keeps_climate w h). reflexivity. }
  assert (Hb : life (boot w h t0 random)
               = {| lifeStage := seed; stageTimer := 0; regenCountdown := 0;
                    fruitsRipened := 0 |}).
  { unfold boot. rewrite (resize_keeps_life w h). reflexivity. }
  rewrite Hc in Ht1, Hh. rewrite Hb in Hl. cbn [targetGrowth hydration] in *.
  revert Hr Ht1 Ht2 Hh Hl.
  generalize (runEvents (repeat Pulse 63) (boot w h t0 random)).
  intros s Hr Ht1 Ht2 Hh Hl.
  split; [|rewrite Hl; reflexivity].
  split; [exact Hr|]. split; [exact Hh|].
  assert (E : INR 63 = 63) by (simpl; lra). rewrite E in Ht1.
  rewrite Rmin_left in Ht1 by lra. lra.
Qed.

(** From the start of the script, 63 growth pulses and then enough
    frames take the tree through every stage: there is a frame that
    starts in the seed fall, with a countdown above 17880 ms, and ends in
    the rebirth. *)
Lemma cycle_runs_through w h t0 random :
  (forall n, 0 <= random n < 1) ->
  let primedBoot := runEvents (repeat Pulse 63) (boot w h t0 random) in
  exists n,
    reachable (ticks n primedBoot)
    /\ lifeStage (life (ticks n primedBoot)) = seedFall
    /\ 17880 < regenCountdown (life (ticks n primedBoot))
    /\ lifeStage (life (ticks (S n) primedBoot)) = rebirth.
Proof.
  intros Hrand. cbv zeta.
  destruct (boot_primed w h t0 random Hrand) as (Hp0 & Hs0).
  cbv zeta in Hp0, Hs0. revert Hp0 Hs0.
  generalize (runEvents (repeat Pulse 63) (boot w h t0 random)).
  intros s0 Hp0 Hs0.
  destruct (seed_ends s0 Hp0 Hs0) as (n1 & Hp1 & Hs1).
  destruct (sprout_ends _ Hp1 Hs1) as (n2 & Hp2 & Hs2).
  destruct (young_ends _ Hp2 Hs2) as (n3 & Hp3 & Hs3).
  destruct (mature_ends _ Hp3 Hs3) as (n4 & Hp4 & Hs4 & _).
  destruct (fruit_ends _ Hp4 Hs4) as (n5 & Hr5 & Hh5 & Hs5 & Ht5).
  destruct (decline_ends _ Hr5 Hh5 Hs5 Ht5) as (n6 & Hr6 & Hh6 & Hs6).
  destruct (seedFall_ends _ Hr6 Hh6 Hs6) as (n7 & Hr7 & Hs7 & Hc7 & Hs8).
  exists (n1 + n2 + n3 + n4 + n5 + n6 + n7)%nat.
  replace (S (n1 + n2 + n3 + n4 + n5 + n6 + n7))
    with (n1 + n2 + n3 + n4 + n5 + n6 + S n7)%nat by lia.
  rewrite !ticks_add.
  split; [exact Hr7|]. split; [exact Hs7|]. split; [exact Hc7 | exact Hs8].
Qed.

Lemma rebirth_lasts_one_frame_witness :
  exists s,
    reachable s
    /\ lifeStage (life s) = seedFall
    /\ saplings (scene s) <> []
    /\ Forall (fun sp =>
                 sap_growth sp
                 = Rmin 1 (0.02 + 0.00012 * regenCountdown (life s)))
         (saplings (scene s))
    /\ lifeStage (life (tick s)) = rebirth
    /\ saplings (scene (tick s)) <> []
    /\ Forall (fun sp => sap_growth sp = 1) (saplings (scene (tick s)))
    /\ lifeStage (life (tick (tick s))) = sprout
    /\ growth (climate (tick (tick s))) = 0.05
    /\ saplings (scene (tick (tick s))) = [].
Proof.
  assert (Hrand : forall n : nat, 0 <= (fun _ : nat => 0.5) n < 1)
    by (intros n; lra).
  destruct (cycle_runs_through 800 600 0 (fun _ => 0.5) Hrand)
    as (n & Hr & Hfall & Hcd & Hre).
  cbv zeta in Hr, Hfall, Hcd, Hre.
  change (ticks (S n) (runEvents (repeat Pulse 63)
                         (boot 800 600 0 (fun _ => 0.5))))
    with (tick (ticks n (runEvents (repeat Pulse 63)
                           (boot 800 600 0 (fun _ => 0.5))))) in Hre.
  revert Hr Hfall Hcd Hre.
  generalize (ticks n (runEvents (repeat Pulse 63)
                         (boot 800 600 0 (fun _ => 0.5)))).
  intros s Hr Hfall Hcd Hre.
  exists s.
  destruct (rebirth_lasts_one_frame s Hr) as (Hgrow & _).
  destruct (rebirth_lasts_one_frame (tick s) (reachable_tick s Hr))
    as (_ & Hlast).
  destruct (Hlast Hre) as (Hsome & Hone & Hnext).
  destruct (Hnext 0) as (N1 & _ & _ & N2 & _ & N3). cbv zeta in N1, N2, N3.
  split; [exact Hr|]. split; [exact Hfall|]. split.
  { intros Hnil. destruct (reachable_nursery s Hr) as (Hn & _).
    destruct (Hn Hfall) as (Hzero & _). rewrite (Hzero Hnil) in Hcd. lra. }
  split; [exact (Hgrow Hfall)|]. split; [exact Hre|].
  split; [exact Hsome|]. split; [exact Hone|].
  split; [exact N1|]. split; [exact N2 | exact N3].
Defined.

(** ** A tree in fruit *)

Lemma progress_inner g d :
  0.8505 < g -> (d <= 6)%nat -> progressOf g d > 0.55.
Proof.
  intros Hg Hd. unfold progressOf. cbn [growthDelayPerLevel CONFIG].
  assert (Hx : 0 <= INR d <= 6).
  { split; [apply pos_INR|].
    replace 6 with (INR 6) by (simpl; lra). apply le_INR. exact Hd. }
  set (x := INR d) in *.
  assert (Hden : 0 < 1 - x * 0.11) by lra.
  assert (Hq : 0.55 < (g - x * 0.11) / (1 - x * 0.11)).
  { apply (Rmult_lt_reg_r (1 - x * 0.11)); [exact Hden|].
    unfold Rdiv. rewrite Rmult_assoc, Rinv_l by lra. lra. }
  unfold clamp, Rmin, Rmax. repeat destruct Rle_dec; lra.
Qed.

Lemma progress_leaf g : 0.8505 < g -> progressOf g 7 > 0.35.
Proof.
  intros Hg. unfold progressOf. cbn [growthDelayPerLevel CONFIG].
  assert (Hx : INR 7 = 7) by (simpl; lra). rewrite Hx.
  assert (Hq : 0.35 < (g - 7 * 0.11) / (1 - 7 * 0.11)).
  { apply (Rmult_lt_reg_r (1 - 7 * 0.11)); [lra|].
    unfold Rdiv. rewrite Rmult_assoc, Rinv_l by lra. lra. }
  unfold clamp, Rmin, Rmax. repeat destruct Rle_dec; lra.
Qed.

(** A walk never takes the fruit of a branch away. *)
Lemma walk_keeps_fruit time r :
  WalkSteps time (fun _ => True)
    (carries (fun s => fruits (heap (host s) r) <> None)).
Proof.
  constructor; unfold carries; try (intros; assumption).
  - intros ref s Hp Hgt H.
    cbn [setCell modify snd host on_host heap set_heap].
    destruct (Nat.eq_dec r ref) as [->|Hne].
    + rewrite upd_same. exact H.
    + rewrite upd_other by exact Hne. exact H.
  - intros ref fs s H.
    cbn [setCell modify snd host on_host heap set_heap].
    destruct (Nat.eq_dec r ref) as [->|Hne].
    + rewrite upd_same. discriminate.
    + rewrite upd_other by exact Hne. exact H.
Qed.

(** In a fruiting stage, with growth above 0.8505 and nothing pruned, the
    walk of a generated tree reaches a leaf of depth 7 and gives it
    fruit. *)
Lemma drawBranch_bears time :
  forall branch,
    Forall (depthOk (maxDepth CONFIG)) (nodes branch) ->
    forall parentAngle startX startY s,
      fruiting (lifeStage (life s)) = true ->
      0.8505 < growth (climate s) ->
      uncut s ->
      bearsFruit (run (drawBranch branch time parentAngle startX startY) s).
Proof.
  induction branch as [branch IH] using Branch_rect'.
  intros Hall parentAngle startX startY s Hf Hg Hu.
  rewrite nodes_unfold in Hall. apply Forall_cons_iff in Hall.
  destruct Hall as ((Hd & Hleaf & Hinner & _) & Hrest).
  cbn [maxDepth CONFIG] in Hd, Hleaf, Hinner.
  assert (Hshown : 0 < progressOf (growth (climate s)) (br_depth branch)).
  { destruct (Nat.eq_dec (br_depth branch) 7) as [E|E].
    - rewrite E. pose proof (progress_leaf _ Hg). lra.
    - pose proof (progress_inner _ (br_depth branch) Hg ltac:(lia)). lra. }
  rewrite drawBranch_unfold, drawBranchBody_shown by exact Hshown.
  cbv zeta. rewrite (Hu (br_ref branch)).
  unfold drawLimb. rewrite !run_bind.
  match goal with
  | |- bearsFruit (run _ ?st) => set (s2 := st)
  end.
  assert (E2a : lifeStage (life s2) = lifeStage (life s)) by reflexivity.
  assert (E2b : growth (climate s2) = growth (climate s)) by reflexivity.
  assert (E2c : heap (host s2) = heap (host s)) by reflexivity.
  clearbody s2. unfold drawTip.
  destruct (br_children branch) as [|c l] eqn:Hc.
  - cbn [isEmpty andb].
    assert (H7 : br_depth branch = 7%nat).
    { destruct (Nat.eq_dec (br_depth branch) 7) as [E|E]; [exact E|].
      exfalso. destruct (Hinner ltac:(lia)) as [K|K]; discriminate K. }
    rewrite H7.
    replace (gtb (progressOf (growth (climate s)) 7) 0.35) with true
      by (symmetry; apply gtb_true, progress_leaf; exact Hg).
    rewrite run_bind.
    change (fruitDepthStart CONFIG <=? 7)%nat with true.
    rewrite run_when_true.
    rewrite drawFruit_unfold
      by (change (fruiting (lifeStage (life s2)) = true);
          rewrite E2a; exact Hf).
    cbv zeta. exists (br_ref branch).
    cbn [host on_host heap set_heap]. rewrite upd_same. discriminate.
  - cbn [isEmpty andb].
    assert (H6 : (br_depth branch <= 6)%nat).
    { destruct (Nat.eq_dec (br_depth branch) 7) as [E|E]; [|lia].
      discriminate (Hleaf E). }
    replace (gtb (progressOf (growth (climate s)) (br_depth branch)) 0.55)
      with true
      by (symmetry; apply gtb_true, progress_inner; assumption).
    cbn [forEachM]. rewrite run_bind.
    apply Forall_cons_iff in IH. destruct IH as (IHc & _).
    cbn [flat_map] in Hrest. apply Forall_app in Hrest.
    destruct Hrest as (Hrc & Hrl).
    match goal with
    | |- bearsFruit (run _ (run (drawBranch c time ?a ?x ?y) s2)) =>
        destruct (IHc Hrc a x y s2) as (r & Hr)
    end.
    + rewrite E2a. exact Hf.
    + rewrite E2b. exact Hg.
    + intros r. rewrite E2c. apply Hu.
    + exists r. revert Hr.
      apply (keeps_forEachM
               (carries (fun s => fruits (heap (host s) r) <> None))).
      apply Forall_forall. intros child Hin.
      apply (keeps_drawBranch time (fun _ => True) _
               (walk_keeps_fruit time r)).
      apply Forall_forall. intros; exact I.
Qed.

Lemma drawTree_bears time s :
  grownTree s ->
  fruiting (lifeStage (life s)) = true ->
  0.8505 < growth (climate s) ->
  uncut s ->
  bearsFruit (run (drawTree time) s).
Proof.
  intros (root & Ht & Hall) Hf Hg Hu. unfold drawTree.
  rewrite run_bind_gets. cbv beta. rewrite Ht.
  rewrite run_bind_modify, !run_bind_gets. cbv beta.
  apply drawBranch_bears; assumption.
Qed.

Lemma render_head_keeps dms :
  keeps (same (fun s => (tree (scene s), lifeStage (life s),
                         growth (climate s), heap (host s))))
    (updateSaplings dms ;;; updateSawdust dms ;;; updateSawTrail dms ;;;
     modify (on_host (set_canvas []))).
Proof.
  unfold updateSaplings, updateSawdust, updateSawTrail. keeps_same.
Qed.

Lemma updateHud_keeps_heap :
  keeps (same (fun s => heap (host s))) updateHud.
Proof. unfold updateHud. keeps_same. Qed.

Lemma render_bears time s :
  grownTree s ->
  fruiting (lifeStage (life s)) = true ->
  0.8505 < growth (climate s) ->
  uncut s ->
  bearsFruit (run (render time) s).
Proof.
  intros (root & Ht & Hall) Hf Hg Hu.
  assert (E : run (render time) s
              = run updateHud
                  (run (drawTree time)
                     (run (updateSaplings (deltaMs (clock s)) ;;;
                           updateSawdust (deltaMs (clock s)) ;;;
                           updateSawTrail (deltaMs (clock s)) ;;;
                           modify (on_host (set_canvas []))) s))).
  { unfold render. rewrite run_bind_gets. cbv beta.
    rewrite !run_bind. reflexivity. }
  rewrite E. clear E.
  pose proof (render_head_keeps (deltaMs (clock s)) s) as Hk.
  unfold same in Hk. revert Hk.
  generalize (snd ((updateSaplings (deltaMs (clock s)) ;;;
                    updateSawdust (deltaMs (clock s)) ;;;
                    updateSawTrail (deltaMs (clock s)) ;;;
                    modify (on_host (set_canvas []))) s)).
  intros s1 Hk. injection Hk as K1 K2 K3 K4.
  destruct (drawTree_bears time s1) as (r & Hr).
  - exists root. rewrite K1. split; assumption.
  - rewrite K2. exact Hf.
  - rewrite K3. exact Hg.
  - intros r. rewrite K4. apply Hu.
  - exists r. rewrite (updateHud_keeps_heap (snd (drawTree time s1))).
    exact Hr.
Qed.

(** *** Nothing is pruned unless the saw cuts *)

Lemma walk_uncut time : WalkSteps time (fun _ => True) (carries uncut).
Proof.
  constructor; unfold carries; try (intros; assumption).
  - intros ref s Hp Hgt H r.
    cbn [setCell modify snd host on_host heap set_heap].
    destruct (Nat.eq_dec r ref) as [->|Hne].
    + rewrite upd_same. reflexivity.
    + rewrite upd_other by exact Hne. apply H.
  - intros ref fs s H r.
    cbn [setCell modify snd host on_host heap set_heap].
    destruct (Nat.eq_dec r ref) as [->|Hne].
    + rewrite upd_same. apply H.
    + rewrite upd_other by exact Hne. apply H.
Qed.

Lemma buildTree_uncut : keeps (carries uncut) buildTree.
Proof.
  intros s H r. destruct (buildTree_heap s r) as [E | E]; rewrite E.
  - reflexivity.
  - apply H.
Qed.

Lemma render_uncut time : keeps (carries uncut) (render time).
Proof.
  unfold render, updateSaplings, updateSawdust, updateSawTrail, updateHud.
  repeat first
    [ lazymatch goal with
      | |- keeps _ (drawTree _) =>
          apply (keeps_drawTree time (carries uncut) (walk_uncut time));
          intros s H; exact H
      end
    | keeps_step | carries_leaf ltac:(idtac) ].
Qed.

Lemma updateLifeStage_uncut delta :
  keeps (carries uncut) (updateLifeStage delta).
Proof.
  unfold updateLifeStage, stageSwitch, stageUpkeep, spawnSaplings,
    newSapling, regenerate, setStage.
  repeat first
    [ apply buildTree_uncut | keeps_step | carries_leaf ltac:(idtac) ].
Qed.

Lemma loop_uncut time : keeps (carries uncut) (loop time).
Proof.
  unfold loop. keeps_step; [|keeps_step; [keeps_step|]; keeps_step].
  - unfold advance. repeat first [ keeps_step | carries_leaf ltac:(idtac) ].
  - apply updateLifeStage_uncut.
  - apply render_uncut.
Qed.

Lemma growthPulse_uncut : keeps (carries uncut) growthPulse.
Proof.
  unfold growthPulse. repeat first [ keeps_step | carries_leaf ltac:(idtac) ].
Qed.

Lemma resize_uncut w h : keeps (carries uncut) (resize w h).
Proof.
  intros s Hu. rewrite resize_unfold. cbv zeta.
  pose proof (buildTree_uncut (on_scene (set_size w h) s)) as Hk.
  revert Hk. generalize (buildTree (on_scene (set_size w h) s)).
  intros [t s1] Hk. cbn [fst snd] in *. exact (Hk Hu).
Qed.

Lemma boot_uncut w h t0 random : uncut (boot w h t0 random).
Proof. unfold boot. apply resize_uncut. intros r. reflexivity. Qed.

(** *** The tree stays a generated one *)

Lemma grownTree_of_tree a b :
  tree (scene b) = tree (scene a) -> grownTree a -> grownTree b.
Proof. intros E (root & Ht & Hall). exists root. rewrite E. split; assumption. Qed.

Lemma buildTree_depths s :
  Forall (depthOk (maxDepth CONFIG)) (nodes (fst (buildTree s))).
Proof.
  destruct (Generated_depthOk _ _ _ _ _ _ (buildTree_generated s))
    as (_ & F & _).
  exact F.
Qed.

Lemma regenerate_grown : keeps (carries grownTree) regenerate.
Proof.
  intros s _. destruct (regenerate_scene s) as (Ht & _).
  exists (fst (buildTree s)). split; [exact Ht | apply buildTree_depths].
Qed.

Lemma walk_same_treeOnly time :
  WalkSteps time (fun _ => True) (same (fun s => tree (scene s))).
Proof. constructor; intros; reflexivity. Qed.

Lemma render_keeps_tree time :
  keeps (same (fun s => tree (scene s))) (render time).
Proof.
  unfold render, updateSaplings, updateSawdust, updateSawTrail, updateHud.
  repeat first
    [ lazymatch goal with
      | |- keeps _ (drawTree _) =>
          apply (keeps_drawTree time _ (walk_same_treeOnly time));
          intros ?; reflexivity
      end
    | keeps_step | keeps_leaf ].
Qed.

Lemma updateLifeStage_grown delta :
  keeps (carries grownTree) (updateLifeStage delta).
Proof.
  unfold updateLifeStage, stageSwitch, stageUpkeep, spawnSaplings,
    newSapling, setStage.
  repeat first
    [ apply regenerate_grown | keeps_step | carries_leaf ltac:(idtac) ].
Qed.

Lemma loop_grown time : keeps (carries grownTree) (loop time).
Proof.
  unfold loop. keeps_step; [|keeps_step; [keeps_step|]; keeps_step].
  - unfold advance. repeat first [ keeps_step | carries_leaf ltac:(idtac) ].
  - apply updateLifeStage_grown.
  - apply (carries_of_same (fun s => tree (scene s)) grownTree
             grownTree_of_tree), render_keeps_tree.
Qed.

Lemma growthPulse_grown : keeps (carries grownTree) growthPulse.
Proof.
  unfold growthPulse. repeat first [ keeps_step | carries_leaf ltac:(idtac) ].
Qed.

Lemma boot_grown w h t0 random : grownTree (boot w h t0 random).
Proof.
  unfold boot.
  match goal with
  | |- grownTree (run (resize w h) ?st) =>
      destruct (resize_scene w h st) as (Ht & _); cbv zeta in Ht;
      eexists; split; [exact Ht | apply buildTree_depths]
  end.
Qed.

(** *** The invariants along frames and pulses *)

Lemma ticks_carry (P : State -> Prop) :
  (forall time, keeps (carries P) (loop time)) ->
  forall n s, P s -> P (ticks n s).
Proof.
  intros Hk n. induction n as [|n IH]; intros s H; [exact H|].
  rewrite ticks_succ. apply IH. exact (Hk 0 s H).
Qed.

Lemma pulses_carry (P : State -> Prop) :
  keeps (carries P) growthPulse ->
  forall n s, P s -> P (runEvents (repeat Pulse n) s).
Proof.
  intros Hk n. induction n as [|n IH]; intros s H; [exact H|].
  cbn [repeat runEvents fold_left].
  fold (runEvents (repeat Pulse n) (run (handle Pulse) s)).
  apply IH. exact (Hk s H).
Qed.

Lemma mild_step e s : mild (run (handle e) s) <-> mild s.
Proof. unfold mild. rewrite (handle_keeps_rng e s). reflexivity. Qed.

Lemma loop_mild time : keeps (carries mild) (loop time).
Proof. intros s H. exact (proj2 (mild_step (Frame time) s) H). Qed.

Lemma growthPulse_mild : keeps (carries mild) growthPulse.
Proof. intros s H. exact (proj2 (mild_step Pulse s) H). Qed.

(** *** The fruit stage lasts *)

(** With mild random numbers and a young stage timer, a frame leaves the
    fruit stage as it is. *)
Lemma fruit_stays s :
  mild s -> lifeStage (life s) = fruit ->
  stageTimer (life s) + 120 <= 32000 ->
  lifeStage (life (tick s)) = fruit.
Proof.
  intros Hm Hs Ht. unfold tick. rewrite loop_unfold.
  destruct (advance_run 0 s)
    as (Hck & _ & _ & _ & Hl & _ & _ & _ & _ & Hrng).
  cbv zeta in Hck, Hl, Hrng.
  pose proof (tick_elapsed s) as Hd.
  apply (f_equal deltaMs) in Hck. cbn [deltaMs] in Hck.
  assert (Hs1 : lifeStage (life (atSwitch 0 s)) = fruit)
    by (rewrite Hl; exact Hs).
  assert (Htm : stageTimer (life (atSwitch 0 s)) <= 32000)
    by (rewrite Hl; cbn [stageTimer set_stageTimer]; lra).
  assert (Hu : 0.0001 <= rng (host (atSwitch 0 s))
                           (rngPos (host (atSwitch 0 s))))
    by (rewrite Hrng; apply Hm).
  clear Hl Hrng. revert Hck Hs1 Htm Hu. generalize (atSwitch 0 s).
  intros sw Hck Hs1 Htm Hu. rewrite Hck.
  set (dms := elapsed 0 (lastTime (clock s))) in *.
  pose proof (render_keeps_stage 0 (run (updateLifeStage dms) sw)) as Hr.
  unfold same, stageAndTimer in Hr. injection Hr as Hr1 _. rewrite Hr1.
  destruct (updateLifeStage_table dms sw) as [Hsame | (Hedge & _)].
  - unfold stageAndTimer in Hsame. injection Hsame as H1 _.
    rewrite H1. exact Hs1.
  - exfalso. rewrite Hs1 in Hedge. revert Hedge.
    destruct (lifeStage (life (run (updateLifeStage dms) sw)));
      cbn [tableEdge]; try tauto.
    intros [H | H]; lra.
Qed.

Lemma fruit_lingers k :
  forall s,
    primed s -> mild s -> lifeStage (life s) = fruit ->
    stageTimer (life s) + 120 * INR k <= 32000 ->
    primed (ticks k s) /\ mild (ticks k s)
    /\ lifeStage (life (ticks k s)) = fruit
    /\ 1.08 - growth (climate (ticks k s))
       <= (1.08 - growth (climate s)) * 0.99824 ^ k.
Proof.
  induction k as [|k IH]; intros s Hp Hm Hs Ht.
  - change (ticks 0 s) with s. cbn [pow].
    split; [exact Hp|]. split; [exact Hm|]. split; [exact Hs | lra].
  - rewrite S_INR in Ht. pose proof (pos_INR k) as Hk.
    destruct Hp as (Hr & Hh & HT).
    pose proof (fruit_stays s Hm Hs ltac:(lra)) as Hst.
    pose proof (dry_frame 0 s Hh) as F. cbv zeta in F. rewrite Hs in F.
    fold (tick s) in F.
    destruct F as ([(_ & Htm & _ & HT') | (Hdec & _)] & Hh' & Hg');
      [|rewrite Hst in Hdec; discriminate Hdec].
    pose proof (reachable_growth s Hr) as Hg.
    pose proof (tick_elapsed s) as Hd.
    destruct (easeGrowth_exact _ (targetGrowth (climate s))
                (growth (climate s)) Hd ltac:(lra) ltac:(lra))
      as (_ & _ & Hb & Hgap).
    rewrite <- Hg' in Hgap, Hb. rewrite HT in Hgap, Hb.
    rewrite ticks_succ.
    destruct (IH (tick s)) as (I1 & I2 & I3 & I4).
    + split; [apply reachable_tick, Hr|]. split; [exact Hh'|].
      rewrite HT'. exact HT.
    + exact (loop_mild 0 s Hm).
    + exact Hst.
    + rewrite Htm. lra.
    + split; [exact I1|]. split; [exact I2|]. split; [exact I3|].
      eapply Rle_trans; [exact I4|].
      assert (Hpow : 0 <= 0.99824 ^ k) by (apply pow_le; lra).
      rewrite <- tech_pow_Rmult. nra.
Qed.

Lemma rate_128 : 0.99824 ^ 128 <= 0.7984.
Proof.
  assert (H2 : 0 <= 0.99824 ^ 2 <= 0.996484) by (simpl; lra).
  assert (H4 : 0 <= 0.99824 ^ 4 <= 0.992981).
  { replace 4%nat with (2 + 2)%nat by reflexivity. rewrite pow_add. nra. }
  assert (H8 : 0 <= 0.99824 ^ 8 <= 0.98602).
  { replace 8%nat with (4 + 4)%nat by reflexivity. rewrite pow_add. nra. }
  assert (H16 : 0 <= 0.99824 ^ 16 <= 0.97224).
  { replace 16%nat with (8 + 8)%nat by reflexivity. rewrite pow_add. nra. }
  assert (H32 : 0 <= 0.99824 ^ 32 <= 0.94526).
  { replace 32%nat with (16 + 16)%nat by reflexivity. rewrite pow_add. nra. }
  assert (H64 : 0 <= 0.99824 ^ 64 <= 0.89352).
  { replace 64%nat with (32 + 32)%nat by reflexivity. rewrite pow_add. nra. }
  replace 128%nat with (64 + 64)%nat by reflexivity. rewrite pow_add. nra.
Qed.

Lemma ticks_ready n s :
  mild s /\ uncut s /\ grownTree s ->
  mild (ticks n s) /\ uncut (ticks n s) /\ grownTree (ticks n s).
Proof.
  intros (Hm & Hu & Hg).
  split; [exact (ticks_carry mild loop_mild n s Hm)|].
  split; [exact (ticks_carry uncut loop_uncut n s Hu)|].
  exact (ticks_carry grownTree loop_grown n s Hg).
Qed.

(** From the start of the script, 63 growth pulses and then enough frames
    bring the tree to a frame of the fruit stage after which a branch
    object has fruit. *)
Lemma fruit_appears w h t0 random :
  (forall n, 0.0001 <= random n < 1) ->
  let primedBoot := runEvents (repeat Pulse 63) (boot w h t0 random) in
  exists n,
    reachable (ticks n primedBoot)
    /\ lifeStage (life (ticks n primedBoot)) = fruit
    /\ bearsFruit (ticks n primedBoot).
Proof.
  intros Hrand. cbv zeta.
  assert (Hfair : forall n, 0 <= random n < 1)
    by (intros n; specialize (Hrand n); lra).
  destruct (boot_primed w h t0 random Hfair) as (Hp0 & Hs0).
  cbv zeta in Hp0, Hs0.
  assert (Hi0 : mild (runEvents (repeat Pulse 63) (boot w h t0 random))
                /\ uncut (runEvents (repeat Pulse 63) (boot w h t0 random))
                /\ grownTree
                     (runEvents (repeat Pulse 63) (boot w h t0 random))).
  { split; [|split].
    - apply (pulses_carry mild growthPulse_mild). unfold mild, boot.
      rewrite (resize_keeps_rng w h). cbn [host rng]. exact Hrand.
    - apply (pulses_carry uncut growthPulse_uncut), boot_uncut.
    - apply (pulses_carry grownTree growthPulse_grown), boot_grown. }
  revert Hp0 Hs0 Hi0.
  generalize (runEvents (repeat Pulse 63) (boot w h t0 random)).
  intros s0 Hp0 Hs0 Hi0.
  destruct (seed_ends s0 Hp0 Hs0) as (n1 & Hp1 & Hs1).
  destruct (sprout_ends _ Hp1 Hs1) as (n2 & Hp2 & Hs2).
  destruct (young_ends _ Hp2 Hs2) as (n3 & Hp3 & Hs3).
  destruct (mature_ends _ Hp3 Hs3) as (n4 & Hp4 & Hs4 & Ht4).
  pose proof (ticks_ready n4 _ (ticks_ready n3 _ (ticks_ready n2 _
                (ticks_ready n1 _ Hi0)))) as Hi4.
  exists (n1 + n2 + n3 + n4 + 127 + 1)%nat. rewrite !ticks_add.
  revert Hp4 Hs4 Ht4 Hi4.
  generalize (ticks n4 (ticks n3 (ticks n2 (ticks n1 s0)))).
  intros s4 Hp4 Hs4 Ht4 Hi4.
  destruct (ticks_ready 127 _ Hi4) as (_ & Hu5 & Hg5).
  destruct Hi4 as (Hm4 & _ & _).
  assert (Hrise : 0.82 < growth (climate s4)).
  { destruct Hp4 as (Hr4 & _).
    assert (Hf4 : fair s4) by (intros n; specialize (Hm4 n); lra).
    destruct (reachable_rising s4 Hr4 Hf4) as (_ & _ & _ & H).
    exact (H Hs4). }
  assert (E127 : INR 127 = 127) by (simpl; lra).
  assert (E128 : INR 128 = 128) by (simpl; lra).
  destruct (fruit_lingers 128 s4 Hp4 Hm4 Hs4 ltac:(rewrite E128; lra))
    as ((Hr6 & _) & _ & Hs6 & Hgap).
  pose proof rate_128 as Hrate.
  assert (Hg6 : 0.8505 < growth (climate (ticks 128 s4))) by nra.
  clear Hgap Hrate.
  replace 128%nat with (127 + 1)%nat in Hr6, Hs6, Hg6 by reflexivity.
  rewrite ticks_add in Hr6, Hs6, Hg6.
  revert Hu5 Hg5 Hr6 Hs6 Hg6. generalize (ticks 127 s4). intros s5.
  change (ticks 1 s5) with (run (loop 0) s5). rewrite loop_unfold.
  intros Hu5 Hg5 Hr6 Hs6 Hg6.
  split; [exact Hr6|]. split; [exact Hs6|].
  pose proof (render_keeps_stage 0
                (run (updateLifeStage (deltaMs (clock (atSwitch 0 s5))))
                   (atSwitch 0 s5))) as K1.
  pose proof (render_keeps_climate 0
                (run (updateLifeStage (deltaMs (clock (atSwitch 0 s5))))
                   (atSwitch 0 s5))) as K2.
  unfold same, stageAndTimer in K1, K2. injection K1 as K1 _.
  rewrite K1 in Hs6. rewrite K2 in Hg6.
  assert (Hu : uncut (run (updateLifeStage (deltaMs (clock (atSwitch 0 s5))))
                        (atSwitch 0 s5))).
  { apply updateLifeStage_uncut. intros r.
    destruct (advance_run 0 s5) as (_ & _ & _ & _ & _ & _ & _ & Hh & _).
    cbv zeta in Hh. rewrite Hh. apply Hu5. }
  assert (Hg : grownTree
                 (run (updateLifeStage (deltaMs (clock (atSwitch 0 s5))))
                    (atSwitch 0 s5))).
  { apply updateLifeStage_grown.
    apply (grownTree_of_tree s5); [|exact Hg5].
    destruct (advance_run 0 s5) as (_ & _ & _ & _ & _ & Hsc & _).
    cbv zeta in Hsc. rewrite Hsc. reflexivity. }
  revert Hs6 Hg6 Hu Hg.
  generalize (run (updateLifeStage (deltaMs (clock (atSwitch 0 s5))))
                (atSwitch 0 s5)).
  intros s6 Hs6 Hg6 Hu Hg. clear Hr6.
  apply render_bears; try assumption. rewrite Hs6. reflexivity.
Qed.

Lemma reachable_fruits_witness :
  exists n r fs,
    let s := ticks n (runEvents (repeat Pulse 63)
                        (boot 800 600 0 (fun _ => 0.5))) in
    reachable s
    /\ lifeStage (life s) = fruit
    /\ fruits (heap (host s) r) = Some fs
    /\ (1 <= List.length fs <= 2)%nat
    /\ Forall (fun f => 0 <= ripeness f <= 1.2
                        /\ (counted f = true <-> 0.98 < ripeness f))
         fs.
Proof.
  destruct (fruit_appears 800 600 0 (fun _ => 0.5) ltac:(intros n0; lra))
    as (n & Hr & Hs & r & Hfr).
  exists n, r. cbv zeta in Hr, Hs, Hfr |- *.
  pose proof (reachable_fruits _ Hr r) as H.
  revert Hr Hs Hfr H.
  generalize (ticks n (runEvents (repeat Pulse 63)
                         (boot 800 600 0 (fun _ => 0.5)))).
  intros s Hr Hs Hfr H.
  destruct (fruits (heap (host s) r)) as [fs|];
    [|exfalso; apply Hfr; reflexivity].
  exists fs. split; [exact Hr|]. split; [exact Hs|].
  split; [reflexivity | exact H].
Defined.
